(* ===== verification/_CoqProject ===== *)
-Q . S2P
Prelude.v
MatchState.v
Netip.v
Metadata.v
Text.v
RuleItem.v
RuleAction.v
Options.v
Demo.v
RuleAbstract.v
RuleBuild.v
RuleSpec.v
RuleTree.v
StateMatcher.v
RuleMatch.v
RuleOptionsSpec.v
NestedActions.v
RuleLifecycle.v
RuleDNS.v
Sniff.v
Router.v
RouterSpec.v
RouterPayload.v
RouterContext.v
Bytes.v
Streams.v
Sniffers.v
SniffersSpec.v
Srs.v
SrsTotal.v
SrsRoundTrip.v
SrsRule.v
SrsFile.v
RuleSetMeta.v
SrsCompile.v
SrsDemo.v
Geosite.v
Adguard.v
FakeIP.v
FakeIPSpec.v
OutboundManager.v
OutboundSpec.v
OutboundTable.v
TransportManager.v
Version.v
Awg.v
AwgSpec.v
Trojan.v
TrojanSpec.v
Gun.v
Group.v
GroupSpec.v
TLSFragment.v
TLSFragmentSpec.v
TLSHello.v
Ja3.v
Quic.v
RouterTotal.v
Obfs.v
Sip003.v
DNSClient.v
DNSClientSpec.v
DNSLookup.v
CacheFileDNS.v
CacheFileSpec.v
DNSDemo.v
ConnPool.v
ConnPoolSpec.v
UDPTransport.v
DNSMode.v
DNSModeSpec.v
DNSRouter.v
DNSRouterSpec.v
DNSRouterDemo.v
