(* ===== verification/Prelude.v ===== *)
(** * Routing in sing-box: a verification development

    sing-box takes connections from inbounds, collects what is known about
    them in a metadata record, matches the record against a list of rules, and
    hands the connection to an outbound.  Rules are built from options, may be
    nested, and may include rule-sets, which are lists of rules kept in files.
    Names are resolved by a DNS router with rules of its own, over a client
    with caches; a fake-IP server hands out addresses that stand for names.
    The development follows a connection and a DNS query along these paths,
    and adds the parts around them whose code is in the repository: managers,
    groups, file formats, stream and packet framings, the AmneziaWG endpoint;
    every definition is a translation of the Go code under [src/] that its
    comment or its file names.

    ** Parts and files

    The base:

    - [Prelude]: outcomes of Go calls ([result]: a value, an error, a panic),
      slices, notations, tactics and generic lemmas.
    - [Netip], [Bytes], [Text], [Streams]: what the code uses of [net/netip],
      [encoding/binary], [strings], [strconv] and [io].
    - [Metadata] ([adapter/inbound.go] and the interfaces it refers to): the
      [InboundContext], the run-time services ([Services]), DNS messages and
      the third-party packages ([Class Libs]) that rule items consult.
    - [Demo], [SrsDemo], [DNSDemo], [DNSRouterDemo]: concrete instances of the
      parameters, for the witnesses, and the limits of the code that evaluation
      shows.

    Rules:

    - [MatchState] ([route/rule/match_state.go]): sets of match states as
      16-bit masks.
    - [RuleItem] ([route/rule/rule_item_*.go]): the conditions of rules.
    - [RuleAction] ([route/rule/rule_action.go], [option/rule_action.go]): the
      actions of rules, from decoded options to their effect.
    - [Options] ([option/rule*.go]): the options of rules.
    - [RuleAbstract] ([route/rule/rule_abstract.go],
      [rule_item_rule_set.go], the rule-sets): matching, starting and closing
      rules.
    - [RuleBuild] ([route/rule/rule_default.go], [rule_dns.go],
      [rule_headless.go], [rule_nested_action.go]): the constructors.
    - [RuleDNS] ([route/rule/rule_dns.go]): matching of DNS rules.

    Connections:

    - [Sniff] ([common/sniff/sniff.go], [actionSniff] of [route/route.go]):
      peeking at payload.
    - [Sniffers] ([common/sniff]): the sniffers of single protocols, on bytes.
    - [Ja3] ([common/ja3]), [Quic] ([common/sniff/quic.go], [internal/qtls]): the
      ClientHello of a QUIC connection, collected over packets, and its parser.
    - [Router] ([route/route.go], [route/process_cache.go]): [matchRule],
      [RouteConnection], [RoutePacketConnection] and [PreMatch].
    - [OutboundManager] ([adapter/outbound/manager.go]): the table of outbounds
      and their start in the order of dependencies.
    - [TLSFragment] ([common/tlsfragment]): the search for the server name and
      the fragmented writes of a ClientHello.
    - [Group] ([protocol/group]): the selector and the URL test.
    - [Version] ([common/badversion]): versions and their order.

    Protocols and transports:

    - [Awg] ([transport/awg], [protocol/awg]): the configuration of the
      AmneziaWG device, its bind and its endpoint.
    - [Trojan] ([transport/trojan]): requests, streams, packets and the service.
    - [Gun] ([transport/v2raygrpclite]): gRPC messages over a stream.
    - [Obfs] ([transport/simple-obfs]): the HTTP and TLS obfuscations.
    - [Sip003] ([transport/sip003]): plugin options and the plugins made of them.

    Rule-set files:

    - [Srs] ([common/srs]): the binary format of rule-sets.
    - [RuleSetMeta] ([route/rule/rule_set.go], the [rule-set compile] command):
      the metadata of rule-sets and the choice of a file version.
    - [Geosite] ([common/geosite]): the geosite database, from writing to
      rules.
    - [Adguard] ([common/convertor/adguard]): AdGuard DNS filters as rules of a
      rule-set, and back.

    DNS:

    - [DNSClient] ([dns/client.go], [extension_edns0_subnet.go]): exchanges,
      lookups, caches and background refreshes.
    - [CacheFileDNS] ([experimental/cachefile/dns_cache.go]): the cache file,
      with writes in the background.
    - [DNSMode], [DNSRouter] ([dns/router.go]): the modes of DNS rules, their
      validation and construction; queries and lookups through the rules.
    - [FakeIP] ([dns/transport/fakeip]): the store of fake addresses.
    - [TransportManager] ([dns/transport_manager.go]): the table of DNS servers.
    - [ConnPool] ([dns/transport/conn_pool.go]): the pool of connections to a
      server, with its callers and dialing goroutines.
    - [UDPTransport] ([dns/transport/udp.go]): exchanges over one socket, by
      query id.

    ** State and effects

    Fallible code returns a [result]; a Go panic is a value of that type, so
    absence of panics is a theorem.  Code that updates the metadata, the
    reference counts of rule-sets, a cache or a manager passes them along.
    What a connection delivers is a list of reads, each with data or an error,
    so that the router is a function from what arrives to what it hands over;
    sniffers are functions that may panic.
    Times are arguments.  Goroutines that write the cache file or refresh the
    DNS cache are entries of a list in the state whose steps interleave with
    the calls ([runs] in [CacheFileSpec], [reaches] in [DNSClientSpec]).
    Code whose point is concurrency is a step relation on threads and shared
    state, a step for each section under the lock or each blocking operation
    ([reachable] in [ConnPool] and [UDPTransport]); its theorems hold for every
    schedule.
    Interfaces between components are classes: the caches the DNS client uses
    ([MemoryCache], [DNSCacheStore]), which the cache file implements, and the
    client the DNS router uses ([Class DNSClient] of [DNSRouter]), which the
    modelled client implements.  Machine integers are [Z] with their width
    written out where it matters.

    ** What the theorems show

    - [MatchState], [StateMatcher]: the bit masks form a semiring and every
      rule preserves the invariant of the matching engine.
    - [RuleSpec], [RuleTree], [RuleMatch]: the engine computes the documented
      formula for any nesting of rules, and including a rule-set amounts to
      merging one branch of its rules into the rule.
    - [RuleOptionsSpec]: the constructors and items together give the options
      of a route rule, its rule-sets included, their documented meaning.
    - [NestedActions], [RuleLifecycle]: what the constructors accept; starting,
      also when it fails, and closing balance the references to rule-sets.
    - [RuleDNS]: the documented meaning of DNS rules and their legacy pre-match.
    - [RuleAction]: decoded options never lead to a panic; the flood window of
      reject actions.
    - [RouterSpec], [RouterPayload], [RouterContext]: the router picks the
      first matching rule with a final action, only uses outbounds that
      support the network, neither loses nor reorders payload that one rule
      sniffed, and its process cache is invisible.
    - [RouterTotal]: with the modelled sniffers the router always comes to an
      outcome, if the sniffers for TLS and HTTP, which call other packages,
      return, and that for QUIC does on the packets that arrive.
    - [SrsTotal], [SrsRoundTrip], [SrsRule], [SrsFile], [SrsCompile]: reading a
      rule-set file ends on every input, what the writer stores is what the
      reader finds, and the rules read back match like their source.
    - [OutboundSpec], [OutboundTable]: outbounds start once and after their
      dependencies, the start succeeds exactly when an order exists, the
      fallback outbound included, and the tables of the manager agree.
    - [SniffersSpec]: the sniffers stay inside the bytes they are given and set
      their protocol; those with a fixed header do not depend on the reads.
    - [Ja3], [Quic]: a ClientHello is read back from its bytes; the server name
      is found however frames and packets cut and reorder it; opening packets
      stays in bounds.
    - [GroupSpec]: what the groups select and when they switch.
    - [AwgSpec]: the device reads back the configuration the endpoint writes;
      the bind opens its sockets and keeps endpoints of the form it accepts.
    - [TrojanSpec], [Gun], [Obfs]: the peer receives the bytes and packets that
      were sent, however the stream is cut into reads (for Trojan, after the
      key, which the first read has to hold); Trojan serves known keys only.
    - [Sip003]: plugin options survive printing and parsing.
    - [Geosite]: what is written under a code is what is read, and merging
      compiled rules is compiling the joined items.
    - [Adguard]: the rule a filter is converted to matches what the filter
      blocks, and its lists are printed back.
    - [TransportManager]: the tables of DNS servers agree, and servers start
      like outbounds do.
    - [ConnPoolSpec]: no connection leaks or is used by two callers of an
      ordered pool, dials respect the limit, and a caller is always able to go
      on.
    - [UDPTransport]: a free query id is found when there is one, and a response
      goes to the exchange that asked.
    - [TLSFragmentSpec], [TLSHello]: the peer receives the packet complete and
      in order, and the server name of every well-formed ClientHello is found.
    - [FakeIPSpec]: the store is a first-in first-out cache of names.
    - [DNSClientSpec], [DNSLookup], [CacheFileSpec]: each response comes from
      the transport or from an answer that was stored and has not expired,
      unless expiry is disabled; lifetimes and lookups by strategy; the file
      holds what was saved last, unless its write failed.
    - [DNSModeSpec], [DNSRouterSpec]: which rules the DNS router accepts in
      which mode, also when a rule-set changes; fake-IP servers stay out of
      caches and lookups; every query and lookup returns.

    ** Fuel

    Loops that are not structural take fuel, and a theorem shows that it is
    enough: the bytes left for the reader of rule-sets ([srs_read_terminates]);
    the number of outbounds for the start of the outbound manager and the
    search for a missing dependency ([start_complete]); the length of the data
    for the search of the server name ([server_name_found]; on malformed
    extensions the code itself can loop); the number of rules and one for the
    retries of the legacy DNS mode ([dns_router_returns]); the number of query
    ids for the search of a free one ([query_id_found]); the length of the text
    or of the data for the plugin options, the pieces of the obfuscated writes
    and the extensions of a uTP packet; the number of bytes for the frames of a
    QUIC packet and the extensions of its message, the number of fragments for
    their search (on a fragment without data the code itself loops); four rounds
    for the rule of an AdGuard filter ([adguard_lists_printed]; on a rule of
    another type the code itself loops); more than the bytes left where a stream
    is read to its end.

    ** Not modelled

    The remaining protocols and transports (Shadowsocks, VMess, VLESS,
    Hysteria, TUIC, Naive, ShadowTLS, SSH, Tor, Tailscale, tun and the other
    V2Ray transports) hand connections to packages that are not part of the
    sources, and so do TLS, ACME and the platform code; what is left of them is
    wiring between those packages.  The APIs, the command line and the service
    interface of the mobile clients are I/O.  Third-party packages are
    parameters with the documented laws as hypotheses.  JSON decoding is
    modelled from the decoded fields on.  Log output is not modelled, and locks
    appear as the atomic steps they protect; a lookup of both address families
    runs its two tasks one after the other, in either order. *)
From Stdlib Require Export ZArith Lia.
From stdpp Require Export base strings gmap list option.
From coqutil Require Export Datatypes.RecordSetters.
Export DoubleBraceUpdate.

#[export] Set Warnings "-clear-no-such-hyp".

#[global] Open Scope Z_scope.

(** * Outcomes of Go calls *)

(** A Go [error] value.  [E_New], [E_Cause], [E_Extend] and [E_Multi] are the constructors
    of the [exceptions] package the sources call; [E_Rcode] is [RcodeError] of [dns/rcode.go], the rest are the sentinel
    errors of the standard library that the modelled code returns or compares
    with, and [E_Lib] an error produced inside a called library. *)
Inductive GoError :=
| E_New (message : string)
| E_Cause (cause : GoError) (message : string)
| E_Extend (cause : GoError) (message : string)
| E_Multi (e1 e2 : GoError)
| IO_EOF
| IO_UnexpectedEOF
| OS_ErrInvalid
| OS_ErrDeadlineExceeded
| E_Rcode (rcode : Z)
| E_Lib (message : string).

(** The outcome of a Go function that returns [(A, error)]: a value, an error,
    or a run-time panic. *)
Inductive result (A : Type) :=
| Ok (a : A)
| Err (e : GoError)
| Panic (message : string).
Arguments Ok {A} _.
Arguments Err {A} _.
Arguments Panic {A} _.

#[global] Instance result_ret : MRet result := fun A a => Ok a.
#[global] Instance result_bind : MBind result := fun A B k m =>
  match m with Ok a => k a | Err e => Err e | Panic s => Panic s end.
#[global] Instance result_fmap : FMap result := fun A B f m =>
  match m with Ok a => Ok (f a) | Err e => Err e | Panic s => Panic s end.

(** [if err != nil { return E.Cause(err, message) }]. *)
Definition cause {A} (message : string) (m : result A) : result A :=
  match m with Err e => Err (E_Cause e message) | _ => m end.

Definition is_ok {A} (m : result A) : bool :=
  match m with Ok _ => true | _ => false end.

#[global] Instance GoError_eq_dec : EqDecision GoError.
Proof. solve_decision. Defined.

(** A sequential loop whose body may fail: [for _, x := range l]. *)
Fixpoint mapR {A B} (f : A -> result B) (l : list A) : result (list B) :=
  match l with
  | [] => Ok []
  | x :: l' => y ← f x; ys ← mapR f l'; Ok (y :: ys)
  end.

(** The same with the index of the element, [for i, x := range l]. *)
Fixpoint mapR_from {A B} (f : nat -> A -> result B) (i : nat) (l : list A) : result (list B) :=
  match l with
  | [] => Ok []
  | x :: l' => y ← f i x; ys ← mapR_from f (S i) l'; Ok (y :: ys)
  end.

Lemma bind_Ok {A B} (m : result A) (k : A -> result B) b :
  m ≫= k = Ok b <-> exists a, m = Ok a /\ k a = Ok b.
Proof.
  destruct m; simpl; split.
  - by exists a.
  - by intros (? & [= <-] & ?).
  - done.
  - by intros (? & ? & ?).
  - done.
  - by intros (? & ? & ?).
Qed.

Lemma cause_Ok {A} s (m : result A) a : cause s m = Ok a <-> m = Ok a.
Proof. destruct m; simpl; split; congruence. Qed.

Lemma mapR_Forall2 {A B} (f : A -> result B) l l' :
  mapR f l = Ok l' <-> Forall2 (fun x y => f x = Ok y) l l'.
Proof.
  revert l'; induction l as [|x l IH]; intros l'; simpl.
  - split; [intros [= <-]; constructor | inversion 1; done].
  - rewrite bind_Ok. split.
    + intros (y & Hy & (ys & Hys & [= <-])%bind_Ok). constructor; [done|]. by apply IH.
    + inversion 1 as [|? y ? ys Hy Hys]; subst. exists y. split; [done|].
      apply bind_Ok. exists ys. split; [by apply IH|done].
Qed.

Lemma mapR_no_panic {A B} (f : A -> result B) l p : (forall a p, f a <> Panic p) -> mapR f l <> Panic p.
Proof.
  intros Hf. induction l as [|a l IH]; [done|]. cbn. specialize (Hf a). destruct (f a) as [b|?|q]; [|done|by destruct (Hf q)]. cbn.
  by destruct (mapR f l).
Qed.

Lemma mapR_from_Forall2 {A B} (f : nat -> A -> result B) i l l' :
  mapR_from f i l = Ok l' -> Forall2 (fun x y => exists j, f j x = Ok y) l l'.
Proof.
  revert i l'; induction l as [|x l IH]; intros i l'; simpl.
  - intros [= <-]; constructor.
  - intros (y & Hy & (ys & Hys & [= <-])%bind_Ok)%bind_Ok.
    constructor; eauto.
Qed.

(** * Machine integers *)

Definition wrap (w z : Z) : Z := z mod 2 ^ w.
Definition u8 (z : Z) : Z := wrap 8 z.
Definition u16 (z : Z) : Z := wrap 16 z.
Definition u32 (z : Z) : Z := wrap 32 z.
Definition u64 (z : Z) : Z := wrap 64 z.

Lemma wrap_small w z : 0 <= z < 2 ^ w -> wrap w z = z.
Proof. apply Z.mod_small. Qed.

Lemma wrap_range w z : 0 <= w -> 0 <= wrap w z < 2 ^ w.
Proof. intros. apply Z.mod_pos_bound. by apply Z.pow_pos_nonneg. Qed.

(** A disjunction of bits that do not overlap is a sum. *)
Lemma lor_shifted x y s : 0 <= s -> 0 <= x < 2 ^ s -> 0 <= y -> Z.lor x (Z.shiftl y s) = x + y * 2 ^ s.
Proof.
  intros Hs Hx Hy. rewrite <- Z.add_nocarry_lor; [by rewrite Z.shiftl_mul_pow2|].
  apply Z.bits_inj'. intros n Hn. rewrite Z.land_spec, Z.bits_0. destruct (Z.lt_ge_cases n s).
  - rewrite Z.shiftl_spec_low by done. apply andb_false_r.
  - rewrite <- (Z.mod_small x (2 ^ s)) by lia. by rewrite Z.mod_pow2_bits_high by lia.
Qed.

(** * Maps used as sets: [map[K]bool] filled with [true] *)

Definition boolMap {K} `{Countable K} (l : list K) : gmap K bool :=
  foldl (fun m k => <[k := true]> m) ∅ l.

(** [m[k]] on a [map[K]bool]: the zero value when the key is absent. *)
Definition mapGet {K} `{Countable K} (m : gmap K bool) (k : K) : bool :=
  default false (m !! k).

Lemma boolMap_lookup_acc {K} `{Countable K} (l : list K) (m : gmap K bool) k :
  foldl (fun m k => <[k := true]> m) m l !! k = if decide (k ∈ l) then Some true else m !! k.
Proof.
  revert m; induction l as [|x l IH]; intros m; simpl; [done|].
  rewrite IH. destruct (decide (k ∈ l)) as [Hin|Hin].
  - rewrite decide_True; [done|]. by apply list_elem_of_further.
  - destruct (decide (k = x)) as [->|Hne].
    + rewrite lookup_insert_eq, decide_True; [done|]. apply list_elem_of_here.
    + rewrite lookup_insert_ne by done. rewrite decide_False; [done|].
      intros [?|?]%elem_of_cons; done.
Qed.

Lemma mapGet_boolMap {K} `{Countable K} (l : list K) k :
  mapGet (boolMap l) k = bool_decide (k ∈ l).
Proof.
  unfold mapGet, boolMap. rewrite boolMap_lookup_acc, lookup_empty.
  destruct (decide (k ∈ l)); [by rewrite bool_decide_true | by rewrite bool_decide_false].
Qed.

(** * Lists *)

(** [len(l) > 0] *)
Definition nonempty {A} (l : list A) : bool := match l with [] => false | _ => true end.

(** [common.Any] / [slices.ContainsFunc] and [common.All]. *)
Definition anyb {A} (l : list A) (p : A -> bool) : bool := existsb p l.
Definition allb {A} (l : list A) (p : A -> bool) : bool := forallb p l.

(** A Go slice, [None] when it is nil: [reflect.DeepEqual] tells a nil slice
    from an empty one. *)
Abbreviation slice A := (option (list A)).
Definition elems {A} (s : slice A) : list A := default [] s.
Definition isNil {A} (o : option A) : bool := match o with None => true | Some _ => false end.

Lemma anyb_true {A} (l : list A) p : anyb l p = true <-> exists x, x ∈ l /\ p x = true.
Proof.
  unfold anyb. rewrite existsb_exists. split; intros (x & Hx & Hp); exists x; split; auto;
    by apply list_elem_of_In.
Qed.

Lemma allb_true {A} (l : list A) p : allb l p = true <-> forall x, x ∈ l -> p x = true.
Proof.
  unfold allb. rewrite forallb_forall. split; intros H x Hx; apply H; by apply list_elem_of_In.
Qed.

Lemma allb_false {A} (l : list A) p : allb l p = false <-> exists x, x ∈ l /\ p x = false.
Proof.
  unfold allb. induction l as [|a l IH]; cbn.
  - split; [done|]. by intros (x & Hx%elem_of_nil & _).
  - setoid_rewrite elem_of_cons. destruct (p a) eqn:Ha; cbn; [rewrite IH|]; naive_solver congruence.
Qed.

Lemma anyb_ext {A} (l : list A) p q : (forall x, p x = q x) -> anyb l p = anyb l q.
Proof. intros H. unfold anyb. induction l; simpl; [done|]. by rewrite H, IHl. Qed.

Lemma anyb_app {A} (l k : list A) p : anyb (l ++ k) p = anyb l p || anyb k p.
Proof. apply existsb_app. Qed.

Lemma allb_app {A} (l k : list A) p : allb (l ++ k) p = allb l p && allb k p.
Proof. apply forallb_app. Qed.

Lemma nonempty_app {A} (l k : list A) : nonempty (l ++ k) = nonempty l || nonempty k.
Proof. by destruct l. Qed.

Lemma anyb_map {A B} (f : A -> B) (l : list A) p : anyb (map f l) p = anyb l (fun x => p (f x)).
Proof. induction l as [|x l IH]; cbn; [done|]. f_equal. exact IH. Qed.

Lemma allb_map {A B} (f : A -> B) (l : list A) p : allb (map f l) p = allb l (fun x => p (f x)).
Proof. induction l as [|x l IH]; cbn; [done|]. f_equal. exact IH. Qed.

Lemma nonempty_map {A B} (f : A -> B) (l : list A) : nonempty (map f l) = nonempty l.
Proof. by destruct l. Qed.

Lemma foldl_map {A B C} (op : C -> B -> C) (f : A -> B) (l : list A) z :
  foldl (fun s x => op s (f x)) z l = foldl op z (map f l).
Proof. induction l as [|x l IH] in z |- *; [done|]. apply IH. Qed.

Lemma anyb_ext_Forall {A} (l : list A) p q : Forall (fun x => p x = q x) l -> anyb l p = anyb l q.
Proof. unfold anyb. induction 1 as [|x l Hx _ IH]; cbn; [done|]. by rewrite Hx, IH. Qed.

Lemma allb_ext_Forall {A} (l : list A) p q : Forall (fun x => p x = q x) l -> allb l p = allb l q.
Proof. unfold allb. induction 1 as [|x l Hx _ IH]; cbn; [done|]. by rewrite Hx, IH. Qed.

(** * Strings *)

(** [strings.Join] *)
Fixpoint join (sep : string) (l : list string) : string :=
  match l with
  | [] => ""
  | [x] => x
  | x :: l' => x +:+ sep +:+ join sep l'
  end.

(** [strings.HasPrefix] *)
Fixpoint hasPrefix (s p : string) : bool :=
  match p, s with
  | EmptyString, _ => true
  | String c p', String d s' => Ascii.eqb c d && hasPrefix s' p'
  | String _ _, EmptyString => false
  end.

(** [strings.Contains] *)
Fixpoint stringContains (s sub : string) : bool :=
  hasPrefix s sub ||
  match s with EmptyString => false | String _ s' => stringContains s' sub end.

(** [strings.HasSuffix] *)
Definition hasSuffix (s p : string) : bool :=
  let n := String.length s in
  let m := String.length p in
  (m <=? n)%nat && String.eqb (String.substring (n - m) m s) p.

Definition isASCII (s : string) : bool :=
  forallb (fun c : Ascii.ascii => (Ascii.N_of_ascii c <? 128)%N) (String.list_ascii_of_string s).

Definition lowerASCII (c : Ascii.ascii) : Ascii.ascii :=
  let n := Ascii.N_of_ascii c in
  if ((65 <=? n) && (n <=? 90))%N then Ascii.ascii_of_N (n + 32) else c.

Fixpoint mapString (f : Ascii.ascii -> Ascii.ascii) (s : string) : string :=
  match s with EmptyString => EmptyString | String c s' => String (f c) (mapString f s') end.

(** * Automation *)

Create HintDb sb discriminated.

(** Case analysis on the boolean test that blocks the goal. *)
Ltac case_bool :=
  match goal with
  | |- context [if ?b then _ else _] => destruct b eqn:?
  end.

(** Turn boolean connectives in hypotheses and goal into propositions. *)
Ltac bool_to_prop :=
  repeat match goal with
  | H : _ && _ = true |- _ => apply andb_true_iff in H; destruct H
  | H : _ || _ = false |- _ => apply orb_false_iff in H; destruct H
  | H : negb _ = true |- _ => apply negb_true_iff in H
  | H : negb _ = false |- _ => apply negb_false_iff in H
  | H : _ || _ = true |- _ => apply orb_true_iff in H
  | H : _ && _ = false |- _ => apply andb_false_iff in H
  end.

(** Invert the successful binds of a hypothesis [m = Ok a]. *)
Ltac inv_ok :=
  repeat match goal with
  | H : Ok _ = Ok _ |- _ => injection H as H; try subst
  | H : Err _ = Ok _ |- _ => discriminate H
  | H : Panic _ = Ok _ |- _ => discriminate H
  | H : mbind _ _ = Ok _ |- _ => apply bind_Ok in H; destruct H as (? & ? & H)
  | H : cause _ _ = Ok _ |- _ => apply cause_Ok in H
  | H : mret _ = Ok _ |- _ => unfold mret, result_ret in H
  end.

(** Parts of lists without duplicates are disjoint. *)
Lemma concat_NoDup_lookup {A} (l : list (list A)) i j a b x : NoDup (concat l) -> l !! i = Some a -> l !! j = Some b -> i <> j ->
  x ∈ a -> x ∈ b -> False.
Proof.
  revert i j. induction l as [|z l IH]; intros i j Hn Hi Hj Hij Ha Hb; [done|]. cbn in Hn. apply list.NoDup_app in Hn as (_ & Hd & Hn).
  assert (forall k y, l !! k = Some y -> x ∈ y -> x ∈ concat l) as Hin.
  { intros k y Hk Hy. apply list_elem_of_In, in_concat. exists y. split; apply list_elem_of_In; [by eapply list_elem_of_lookup_2|done]. }
  destruct i as [|i], j as [|j]; [done| | |by eapply (IH i j); eauto].
  - injection Hi as ->. by eapply Hd; [|eapply Hin].
  - injection Hj as ->. by eapply Hd; [|eapply Hin].
Qed.

Lemma NoDup_drop {A} (l1 l2 l3 : list A) : NoDup (l1 ++ l2 ++ l3) -> NoDup (l1 ++ l3).
Proof. rewrite !list.NoDup_app. set_solver. Qed.

Lemma NoDup_middle {A} (l1 l2 l3 : list A) x : NoDup (l1 ++ l2 ++ l3) -> x ∈ l2 -> x ∈ l1 \/ x ∈ l3 -> False.
Proof. rewrite !list.NoDup_app. set_solver. Qed.
