(* ===== verification/MatchState.v ===== *)
(** [route/rule/match_state.go]: sets of rule-match states.

    A [ruleMatchState] is a [uint8] whose four low bits say which address and
    port groups of a rule are already satisfied; a [ruleMatchStateSet] is a
    [uint16] used as a bit set of the sixteen states.  The file shows that the
    bit-level operations are the expected set operations. *)
From S2P Require Import Prelude.

Definition ruleMatchState := Z.
Definition ruleMatchStateSet := Z.

Definition ruleMatchSourceAddress : ruleMatchState := 1.
Definition ruleMatchSourcePort : ruleMatchState := 2.
Definition ruleMatchDestinationAddress : ruleMatchState := 4.
Definition ruleMatchDestinationPort : ruleMatchState := 8.

(** [range ruleMatchState(16)] *)
Definition allStates : list ruleMatchState := map Z.of_nat (seq 0 16).

Definition singleRuleMatchState (state : ruleMatchState) : ruleMatchStateSet :=
  u16 (Z.shiftl 1 state).

Definition emptyRuleMatchState : ruleMatchStateSet := singleRuleMatchState 0.

Definition isEmpty (s : ruleMatchStateSet) : bool := s =? 0.

Definition contains (s : ruleMatchStateSet) (state : ruleMatchState) : bool :=
  negb (Z.land s (u16 (Z.shiftl 1 state)) =? 0).

Definition add (s : ruleMatchStateSet) (state : ruleMatchState) : ruleMatchStateSet :=
  Z.lor s (singleRuleMatchState state).

Definition merge (s other : ruleMatchStateSet) : ruleMatchStateSet := Z.lor s other.

Definition has (s target : ruleMatchState) : bool := negb (Z.land s target =? 0).

Definition combine (s other : ruleMatchStateSet) : ruleMatchStateSet :=
  if isEmpty s || isEmpty other then 0
  else
    foldl (fun combined left =>
      if negb (contains s left) then combined
      else
        foldl (fun combined right =>
          if negb (contains other right) then combined
          else add combined (Z.lor left right)) combined allStates)
      0 allStates.

Definition withBase (s : ruleMatchStateSet) (base : ruleMatchState) : ruleMatchStateSet :=
  if isEmpty s then 0
  else
    foldl (fun acc state =>
      if negb (contains s state) then acc else add acc (Z.lor state base)) 0 allStates.

Definition filterStates (s : ruleMatchStateSet) (allowed : ruleMatchState -> bool) : ruleMatchStateSet :=
  foldl (fun filtered state =>
    if negb (contains s state) then filtered
    else if allowed state then add filtered state else filtered) 0 allStates.

(** * Ranges *)

(** A state uses only the four low bits; a state set only the sixteen low ones. *)
Definition wf_state (st : ruleMatchState) : Prop := 0 <= st < 16.
Definition wf_set (s : ruleMatchStateSet) : Prop := 0 <= s < 2 ^ 16.

Lemma allStates_wf x : x ∈ allStates <-> wf_state x.
Proof.
  unfold allStates, wf_state. rewrite list_elem_of_In, in_map_iff. split.
  - intros (n & <- & Hn). apply in_seq in Hn. lia.
  - intros Hx. exists (Z.to_nat x). split; [lia|]. apply in_seq. lia.
Qed.

Lemma lor_wf k a b : 0 <= k -> 0 <= a < 2 ^ k -> 0 <= b < 2 ^ k -> 0 <= Z.lor a b < 2 ^ k.
Proof.
  intros Hk Ha Hb. split; [apply Z.lor_nonneg; lia|].
  rewrite <- (Z.mod_small a (2 ^ k)), <- (Z.mod_small b (2 ^ k)) by done.
  rewrite <- !Z.land_ones, <- Z.land_lor_distr_l, Z.land_ones by done.
  apply Z.mod_pos_bound. by apply Z.pow_pos_nonneg.
Qed.

Lemma lor_wf_state a b : wf_state a -> wf_state b -> wf_state (Z.lor a b).
Proof. apply (lor_wf 4); lia. Qed.

Lemma shiftl_one_range st : wf_state st -> 0 <= Z.shiftl 1 st < 2 ^ 16.
Proof.
  intros [H0 H1]. rewrite Z.shiftl_1_l. split; [apply Z.pow_nonneg; lia|].
  apply Z.pow_lt_mono_r; lia.
Qed.

Lemma single_wf st : wf_state st -> wf_set (singleRuleMatchState st).
Proof. intros. apply wrap_range. lia. Qed.

Lemma merge_wf s t : wf_set s -> wf_set t -> wf_set (merge s t).
Proof. apply (lor_wf 16); lia. Qed.

Lemma add_wf s st : wf_set s -> wf_state st -> wf_set (add s st).
Proof. intros. apply merge_wf; [done|by apply single_wf]. Qed.

Lemma wf_zero : wf_set 0.
Proof. unfold wf_set. lia. Qed.

Lemma wf_state_zero : wf_state 0.
Proof. unfold wf_state. lia. Qed.

#[export] Hint Resolve lor_wf_state single_wf merge_wf add_wf wf_zero wf_state_zero : sb.

(** * Membership *)

Lemma contains_testbit s st : wf_state st -> contains s st = Z.testbit s st.
Proof.
  intros Hst. unfold contains, u16. rewrite wrap_small by by apply shiftl_one_range.
  rewrite Z.shiftl_1_l. destruct Hst as [H0 _]. destruct (Z.testbit s st) eqn:Hb.
  - apply negb_true_iff, Z.eqb_neq. intros H.
    assert (Z.testbit (Z.land s (2 ^ st)) st = true) as Ht
      by by rewrite Z.land_spec, Hb, Z.pow2_bits_true.
    rewrite H, Z.bits_0 in Ht. done.
  - apply negb_false_iff, Z.eqb_eq, Z.bits_inj'. intros n Hn.
    rewrite Z.land_spec, Z.pow2_bits_eqb, Z.bits_0 by done.
    destruct (Z.eqb_spec st n) as [<-|]; [by rewrite Hb|apply andb_false_r].
Qed.

(** Two state sets are equal as soon as they hold the same states. *)
Lemma set_ext s t :
  wf_set s -> wf_set t -> (forall st, wf_state st -> contains s st = contains t st) -> s = t.
Proof.
  intros Hs Ht H. apply Z.bits_inj'. intros n Hn.
  destruct (Z.ltb_spec n 16) as [Hlt|Hge].
  - rewrite <- !contains_testbit by (unfold wf_state; lia). apply H. unfold wf_state; lia.
  - unfold wf_set in *.
    rewrite <- (Z.mod_small s (2 ^ 16)), <- (Z.mod_small t (2 ^ 16)) by done.
    by rewrite !Z.mod_pow2_bits_high by lia.
Qed.

Lemma contains_zero st : contains 0 st = false.
Proof. unfold contains. by rewrite Z.land_0_l. Qed.

Lemma contains_merge s t st : wf_state st -> contains (merge s t) st = contains s st || contains t st.
Proof. intros. unfold merge. by rewrite !contains_testbit, Z.lor_spec. Qed.

Lemma contains_single x st :
  wf_state x -> wf_state st -> contains (singleRuleMatchState x) st = bool_decide (x = st).
Proof.
  intros Hx Hst. rewrite contains_testbit by done. unfold singleRuleMatchState, u16.
  rewrite wrap_small by by apply shiftl_one_range.
  rewrite Z.shiftl_1_l, Z.pow2_bits_eqb by apply Hx.
  destruct (Z.eqb_spec x st); [by rewrite bool_decide_true|by rewrite bool_decide_false].
Qed.

Lemma contains_add s x st :
  wf_state x -> wf_state st -> contains (add s x) st = contains s st || bool_decide (x = st).
Proof.
  intros. change (add s x) with (merge s (singleRuleMatchState x)).
  by rewrite contains_merge, contains_single.
Qed.

Lemma isEmpty_true s : isEmpty s = true <-> s = 0.
Proof. apply Z.eqb_eq. Qed.

Lemma isEmpty_false_contains s :
  wf_set s -> isEmpty s = false <-> exists st, wf_state st /\ contains s st = true.
Proof.
  intros Hs. split.
  - intros Hne. destruct (existsb (contains s) allStates) eqn:He.
    + apply existsb_exists in He as (st & Hin & Hc). exists st. split; [|done].
      by apply allStates_wf, list_elem_of_In.
    + exfalso. assert (s = 0) as ->; [|done].
      apply set_ext; [done|auto with sb|]. intros st Hst. rewrite contains_zero.
      destruct (contains s st) eqn:Hc; [|done]. rewrite <- He. symmetry.
      apply existsb_exists. exists st. split; [|done]. by apply list_elem_of_In, allStates_wf.
  - intros (st & Hst & Hc). destruct (isEmpty s) eqn:He; [|done].
    apply isEmpty_true in He as ->. by rewrite contains_zero in Hc.
Qed.

(** The shape shared by the three loops: states of [xs] that pass [p] are mapped
    by [f] and added to the accumulator. *)
Lemma foldl_add_spec (p : Z -> bool) (f : Z -> Z) xs acc :
  Forall wf_state xs -> (forall x, wf_state x -> wf_state (f x)) -> wf_set acc ->
  let r := foldl (fun acc x => if negb (p x) then acc else add acc (f x)) acc xs in
  wf_set r /\
  forall st, wf_state st ->
    contains r st = contains acc st || existsb (fun x => p x && bool_decide (f x = st)) xs.
Proof.
  intros Hxs Hf. revert acc; induction Hxs as [|x xs Hx Hxs IH]; intros acc Hacc; simpl.
  - split; [done|]. intros st _. by rewrite orb_false_r.
  - destruct (p x) eqn:Hp; simpl.
    + destruct (IH (add acc (f x))) as [Hwf Hin]; [auto with sb|]. split; [done|].
      intros st Hst. by rewrite Hin, contains_add, orb_assoc by auto.
    + by apply IH.
Qed.

Lemma allStates_Forall : Forall wf_state allStates.
Proof. apply Forall_forall. intros x Hx. by apply allStates_wf, list_elem_of_In. Qed.

Lemma existsb_allStates (p : Z -> bool) :
  existsb p allStates = true <-> exists x, wf_state x /\ p x = true.
Proof.
  rewrite existsb_exists. split; intros (x & Hx & Hp); exists x; (split; [|exact Hp]);
    [by apply allStates_wf, list_elem_of_In | by apply list_elem_of_In, allStates_wf].
Qed.

Lemma withBase_spec s base :
  wf_state base ->
  wf_set (withBase s base) /\
  forall st, wf_state st ->
    contains (withBase s base) st = true <->
    exists x, wf_state x /\ contains s x = true /\ Z.lor x base = st.
Proof.
  intros Hb. unfold withBase. destruct (isEmpty s) eqn:He.
  - apply isEmpty_true in He as ->. split; [auto with sb|].
    intros st Hst. rewrite contains_zero. split; [done|].
    intros (x & _ & Hx & _). by rewrite contains_zero in Hx.
  - destruct (foldl_add_spec (contains s) (fun x => Z.lor x base) allStates 0)
      as [Hwf Hin]; auto using allStates_Forall with sb.
    split; [done|]. intros st Hst. rewrite Hin, contains_zero by done. rewrite orb_false_l.
    rewrite existsb_allStates. setoid_rewrite andb_true_iff. by setoid_rewrite bool_decide_eq_true.
Qed.

Lemma filterStates_spec s allowed :
  wf_set (filterStates s allowed) /\
  forall st, wf_state st ->
    contains (filterStates s allowed) st = contains s st && allowed st.
Proof.
  destruct (foldl_add_spec (fun x => contains s x && allowed x) (fun x => x) allStates 0)
    as [Hwf Hin]; auto using allStates_Forall with sb.
  assert (filterStates s allowed =
    foldl (fun acc x => if negb (contains s x && allowed x) then acc else add acc x) 0 allStates)
    as Heq.
  { unfold filterStates. generalize 0 as acc. generalize allStates as l.
    intros l; induction l as [|x xs IH]; intros acc; [done|].
    simpl. by destruct (contains s x), (allowed x); simpl; rewrite IH. }
  rewrite Heq. split; [done|]. intros st Hst. apply eq_true_iff_eq.
  rewrite Hin, contains_zero by done. rewrite orb_false_l.
  rewrite existsb_allStates. split.
  - intros (x & Hx & [Hp ->%bool_decide_eq_true]%andb_true_iff). done.
  - intros Hp. exists st. by rewrite Hp, bool_decide_true.
Qed.

Lemma combine_acc_spec s t ys xs acc :
  Forall wf_state ys -> Forall wf_state xs -> wf_set acc ->
  let r := foldl (fun combined left =>
      if negb (contains s left) then combined
      else foldl (fun combined right =>
          if negb (contains t right) then combined
          else add combined (Z.lor left right)) combined ys) acc xs in
  wf_set r /\
  forall st, wf_state st ->
    contains r st = contains acc st ||
      existsb (fun x => contains s x &&
        existsb (fun y => contains t y && bool_decide (Z.lor x y = st)) ys) xs.
Proof.
  intros Hys Hxs. revert acc; induction Hxs as [|x xs Hx Hxs IH]; intros acc Hacc; simpl foldl.
  - split; [done|]. intros st _. by rewrite orb_false_r.
  - destruct (contains s x) eqn:Hp; simpl negb; cbv iota.
    + destruct (foldl_add_spec (contains t) (Z.lor x) ys acc) as [Hwf1 Hin1]; auto with sb.
      destruct (IH _ Hwf1) as [Hwf Hin]. split; [done|].
      intros st Hst. rewrite Hin, Hin1 by done. cbn [existsb]. by rewrite Hp, orb_assoc.
    + destruct (IH acc) as [Hwf Hin]; [done|]. split; [done|].
      intros st Hst. rewrite Hin by done. cbn [existsb]. by rewrite Hp.
Qed.

Lemma combine_spec s t :
  wf_set (combine s t) /\
  forall st, wf_state st ->
    contains (combine s t) st = true <->
    exists x y, wf_state x /\ wf_state y /\
      contains s x = true /\ contains t y = true /\ Z.lor x y = st.
Proof.
  unfold combine. destruct (isEmpty s || isEmpty t) eqn:He.
  - split; [auto with sb|]. intros st Hst. rewrite contains_zero. split; [done|].
    intros (x & y & _ & _ & Hx & Hy & _).
    apply orb_true_iff in He as [->%isEmpty_true| ->%isEmpty_true];
      by rewrite contains_zero in *.
  - destruct (combine_acc_spec s t allStates allStates 0) as [Hwf Hin];
      auto using allStates_Forall with sb.
    split; [done|]. intros st Hst. rewrite Hin, contains_zero by done. rewrite orb_false_l.
    rewrite existsb_allStates. split.
    + intros (x & Hx & [Hs (y & Hy & [Ht Hl%bool_decide_eq_true]%andb_true_iff)%existsb_allStates]%andb_true_iff).
      by exists x, y.
    + intros (x & y & Hx & Hy & Hs & Ht & Hl). exists x. split; [done|].
      rewrite Hs. apply existsb_allStates. exists y. by rewrite Ht, bool_decide_true.
Qed.

(** * The algebra of state sets *)

Lemma combine_wf s t : wf_set (combine s t).
Proof. apply combine_spec. Qed.

Lemma withBase_wf s b : wf_state b -> wf_set (withBase s b).
Proof. intros. by apply withBase_spec. Qed.

Lemma filterStates_wf s p : wf_set (filterStates s p).
Proof. apply filterStates_spec. Qed.

Lemma empty_wf : wf_set emptyRuleMatchState.
Proof. apply single_wf, wf_state_zero. Qed.

#[export] Hint Resolve combine_wf withBase_wf filterStates_wf empty_wf : sb.

Lemma combine_isEmpty s t :
  wf_set s -> wf_set t -> isEmpty (combine s t) = isEmpty s || isEmpty t.
Proof.
  intros Hs Ht. destruct (isEmpty s) eqn:Es, (isEmpty t) eqn:Et; simpl;
    try (unfold combine; by rewrite Es, ?Et).
  apply (isEmpty_false_contains s Hs) in Es as (x & Hx & Hcx).
  apply (isEmpty_false_contains t Ht) in Et as (y & Hy & Hcy).
  apply isEmpty_false_contains; [auto with sb|]. exists (Z.lor x y).
  split; [auto with sb|]. apply combine_spec; [auto with sb|]. by exists x, y.
Qed.

Lemma merge_isEmpty s t : isEmpty (merge s t) = isEmpty s && isEmpty t.
Proof.
  unfold isEmpty, merge. apply eq_true_iff_eq.
  rewrite andb_true_iff, !Z.eqb_eq. apply Z.lor_eq_0_iff.
Qed.

Lemma withBase_isEmpty s b : wf_set s -> wf_state b -> isEmpty (withBase s b) = isEmpty s.
Proof.
  intros Hs Hb. destruct (isEmpty s) eqn:Es; [by unfold withBase; rewrite Es|].
  apply (isEmpty_false_contains s Hs) in Es as (x & Hx & Hcx).
  apply isEmpty_false_contains; [auto with sb|]. exists (Z.lor x b).
  split; [auto with sb|]. apply withBase_spec; [done|auto with sb|]. by exists x.
Qed.

Lemma single_isEmpty st : wf_state st -> isEmpty (singleRuleMatchState st) = false.
Proof.
  intros Hst. apply isEmpty_false_contains; [auto with sb|]. exists st.
  by rewrite contains_single, bool_decide_true.
Qed.

Lemma empty_withBase b : wf_state b -> withBase emptyRuleMatchState b = singleRuleMatchState b.
Proof.
  intros Hb. apply set_ext; [auto with sb..|]. intros st Hst. apply eq_true_iff_eq.
  rewrite (proj2 (withBase_spec emptyRuleMatchState b Hb) st Hst).
  rewrite contains_single, bool_decide_eq_true by done. split.
  - intros (x & Hx & Hc & <-). unfold emptyRuleMatchState in Hc.
    rewrite contains_single, bool_decide_eq_true in Hc by auto with sb.
    subst. by rewrite Z.lor_0_l.
  - intros <-. exists 0. split; [auto with sb|]. unfold emptyRuleMatchState.
    by rewrite contains_single, bool_decide_true, Z.lor_0_l by auto with sb.
Qed.

Lemma filterStates_zero p : filterStates 0 p = 0.
Proof.
  apply set_ext; [auto with sb..|]. intros st Hst.
  by rewrite (proj2 (filterStates_spec 0 p) st Hst), contains_zero.
Qed.

Lemma filterStates_single b p :
  wf_state b -> filterStates (singleRuleMatchState b) p = if p b then singleRuleMatchState b else 0.
Proof.
  intros Hb. apply set_ext; [auto with sb| |]; [destruct (p b); auto with sb|].
  intros st Hst. rewrite (proj2 (filterStates_spec _ p) st Hst), contains_single by done.
  destruct (p b) eqn:Hp.
  - rewrite contains_single by done. case_bool_decide; [subst; by rewrite Hp|done].
  - rewrite contains_zero. case_bool_decide; [by subst; rewrite Hp|done].
Qed.

Lemma combine_comm s t : combine s t = combine t s.
Proof.
  apply set_ext; [auto with sb..|]. intros st Hst. apply eq_true_iff_eq.
  rewrite !(fun s t => proj2 (combine_spec s t) st Hst).
  split; intros (x & y & ? & ? & ? & ? & <-); exists y, x; by rewrite Z.lor_comm.
Qed.

Lemma combine_assoc s t u : combine s (combine t u) = combine (combine s t) u.
Proof.
  apply set_ext; [auto with sb..|]. intros st Hst. apply eq_true_iff_eq.
  rewrite !(fun s t => proj2 (combine_spec s t) st Hst). split.
  - intros (x & yz & Hx & Hyz & Hsx & (y & z & Hy & Hz & Hty & Huz & <-)%combine_spec & <-); [|done].
    exists (Z.lor x y), z. rewrite Z.lor_assoc. repeat split; auto with sb; try apply Hz; try apply lor_wf_state; auto.
    apply combine_spec; [auto with sb|]. by exists x, y.
  - intros (xy & z & Hxy & Hz & (x & y & Hx & Hy & Hsx & Hty & <-)%combine_spec & Huz & <-); [|done].
    exists x, (Z.lor y z). rewrite Z.lor_assoc. repeat split; auto with sb; try apply Hx; try apply lor_wf_state; auto.
    apply combine_spec; [auto with sb|]. by exists y, z.
Qed.

Lemma combine_merge_distr s t u : combine s (merge t u) = merge (combine s t) (combine s u).
Proof.
  apply set_ext; [auto with sb..|]. intros st Hst. apply eq_true_iff_eq.
  rewrite contains_merge, orb_true_iff by done.
  rewrite !(fun s t => proj2 (combine_spec s t) st Hst). split.
  - intros (x & y & Hx & Hy & Hs & Htu & <-). rewrite contains_merge in Htu by done.
    apply orb_true_iff in Htu as [?|?]; [left|right]; by exists x, y.
  - intros [(x & y & Hx & Hy & Hs & Htu & <-)|(x & y & Hx & Hy & Hs & Htu & <-)]; exists x, y;
      rewrite contains_merge, Htu, ?orb_true_r by done; done.
Qed.

Lemma withBase_combine s b : wf_state b -> withBase s b = combine s (singleRuleMatchState b).
Proof.
  intros Hb. apply set_ext; [auto with sb..|]. intros st Hst. apply eq_true_iff_eq.
  rewrite (proj2 (withBase_spec s b Hb) st Hst), (proj2 (combine_spec _ _) st Hst). split.
  - intros (x & Hx & Hs & <-). exists x, b. by rewrite contains_single, bool_decide_true.
  - intros (x & y & Hx & Hy & Hs & Ht & <-). rewrite contains_single, bool_decide_eq_true in Ht by done.
    subst. by exists x.
Qed.

Lemma combine_empty_r s : wf_set s -> combine s emptyRuleMatchState = s.
Proof.
  intros Hs. unfold emptyRuleMatchState. rewrite <- withBase_combine by auto with sb.
  apply set_ext; [auto with sb..|]. intros st Hst. apply eq_true_iff_eq.
  rewrite (proj2 (withBase_spec s 0 wf_state_zero) st Hst). split.
  - intros (x & Hx & Hc & <-). by rewrite Z.lor_0_r.
  - intros Hc. exists st. by rewrite Z.lor_0_r.
Qed.

Lemma withBase_zero s : wf_set s -> withBase s 0 = s.
Proof.
  intros. rewrite withBase_combine by auto with sb. by apply combine_empty_r.
Qed.

(** With [merge] as sum and [combine] as product, the [uint16] state sets
    form a commutative semiring whose zero is the empty set and whose unit is
    [emptyRuleMatchState]; [merge] is idempotent, adding a base is the product
    with a singleton, and a product is empty exactly when a factor is.  Hence
    the order in which nested rules and rule-sets are folded does not matter. *)
Theorem state_set_semiring s t u b :
  wf_set s -> wf_set t -> wf_set u -> wf_state b ->
  combine s t = combine t s /\
  combine s (combine t u) = combine (combine s t) u /\
  combine s emptyRuleMatchState = s /\
  combine s 0 = 0 /\
  combine s (merge t u) = merge (combine s t) (combine s u) /\
  merge s s = s /\ merge s t = merge t s /\ merge s 0 = s /\
  withBase s b = combine s (singleRuleMatchState b) /\
  isEmpty (combine s t) = isEmpty s || isEmpty t.
Proof.
  intros Hs Ht Hu Hb. repeat split.
  - apply combine_comm.
  - apply combine_assoc.
  - by apply combine_empty_r.
  - unfold combine. by rewrite orb_true_r.
  - apply combine_merge_distr.
  - apply Z.lor_diag.
  - apply Z.lor_comm.
  - apply Z.lor_0_r.
  - by apply withBase_combine.
  - by apply combine_isEmpty.
Qed.

Lemma state_set_semiring_witness :
  combine 6 (combine 10 2) = combine (combine 6 10) 2 /\ withBase 6 8 = combine 6 256.
Proof.
  destruct (state_set_semiring 6 10 2 8) as (_ & H1 & _ & _ & _ & _ & _ & _ & H2 & _);
    [unfold wf_set; lia | unfold wf_set; lia | unfold wf_set; lia | unfold wf_state; lia |].
  split; [exact H1 | exact H2].
Defined.
