(* ===== verification/Netip.v ===== *)
(** The parts of Go's [net/netip] the modelled code uses: addresses and
    prefixes, with their operations written out as the standard library
    defines them. *)
From S2P Require Import Prelude.

(** [netip.Addr]: the zero value, an IPv4 address, or an IPv6 address with an
    optional zone.  The integer is the address in network byte order. *)
Inductive Addr :=
| AddrZero
| Addr4 (ip : Z)
| Addr6 (ip : Z) (zone : string).

#[global] Instance Addr_eq_dec : EqDecision Addr.
Proof. solve_decision. Defined.

#[global] Instance Addr_countable : Countable Addr.
Proof.
  apply (inj_countable'
    (fun a => match a with
              | AddrZero => inl tt
              | Addr4 ip => inr (inl ip)
              | Addr6 ip z => inr (inr (ip, z)) end)
    (fun c => match c with
              | inl tt => AddrZero
              | inr (inl ip) => Addr4 ip
              | inr (inr (ip, z)) => Addr6 ip z end)).
  by intros [].
Defined.

Definition wf_addr (a : Addr) : Prop :=
  match a with
  | AddrZero => True
  | Addr4 ip => 0 <= ip < 2 ^ 32
  | Addr6 ip _ => 0 <= ip < 2 ^ 128
  end.

Module Netip.

Definition IsValid (a : Addr) : bool := match a with AddrZero => false | _ => true end.
Definition Is4 (a : Addr) : bool := match a with Addr4 _ => true | _ => false end.
Definition Is6 (a : Addr) : bool := match a with Addr6 _ _ => true | _ => false end.

Definition Is4In6 (a : Addr) : bool :=
  match a with Addr6 ip _ => Z.shiftr ip 32 =? 0xffff | _ => false end.

Definition Unmap (a : Addr) : Addr :=
  match a with
  | Addr6 ip _ => if Z.shiftr ip 32 =? 0xffff then Addr4 (Z.land ip 0xffffffff) else a
  | _ => a
  end.

Definition BitLen (a : Addr) : Z :=
  match a with AddrZero => 0 | Addr4 _ => 32 | Addr6 _ _ => 128 end.

Definition hasZone (a : Addr) : bool :=
  match a with Addr6 _ (String _ _) => true | _ => false end.

Definition withoutZone (a : Addr) : Addr :=
  match a with Addr6 ip _ => Addr6 ip "" | _ => a end.

(** The address after [a]; the zero address when there is none. *)
Definition Next (a : Addr) : Addr :=
  match a with
  | AddrZero => AddrZero
  | Addr4 ip => if u32 (ip + 1) =? 0 then AddrZero else Addr4 (u32 (ip + 1))
  | Addr6 ip z => if wrap 128 (ip + 1) =? 0 then AddrZero else Addr6 (wrap 128 (ip + 1)) z
  end.

Definition IsLoopback (a : Addr) : bool :=
  match Unmap a with
  | Addr4 ip => Z.shiftr ip 24 =? 127
  | Addr6 ip _ => ip =? 1
  | AddrZero => false
  end.

End Netip.

(** [netip.Prefix]; [pfx_bits = -1] stands for [bitsPlusOne = 0]. *)
Record Prefix := mkPrefix { pfx_addr : Addr; pfx_bits : Z }.

#[global] Instance Prefix_eq_dec : EqDecision Prefix.
Proof. solve_decision. Defined.

Definition prefixZero : Prefix := mkPrefix AddrZero (-1).

Module NetipPrefix.
Import Netip.

Definition IsValid (p : Prefix) : bool := 0 <=? pfx_bits p.

(** [netip.PrefixFrom] *)
Definition PrefixFrom (ip : Addr) (bits : Z) : Prefix :=
  mkPrefix (withoutZone ip)
    (if Netip.IsValid ip && (0 <=? bits) && (bits <=? BitLen ip) then bits else -1).

Definition addr_bits (a : Addr) : Z :=
  match a with AddrZero => 0 | Addr4 ip => ip | Addr6 ip _ => ip end.

(** Two addresses of the same length agree on their first [bits] bits. *)
Definition same_high (len bits a b : Z) : bool :=
  Z.shiftr a (len - bits) =? Z.shiftr b (len - bits).

Definition Contains (p : Prefix) (ip : Addr) : bool :=
  if negb (IsValid p) || hasZone ip then false
  else
    let f1 := BitLen (pfx_addr p) in
    let f2 := BitLen ip in
    if (f1 =? 0) || (f2 =? 0) || negb (f1 =? f2) then false
    else same_high f1 (pfx_bits p) (addr_bits ip) (addr_bits (pfx_addr p)).

Definition Overlaps (p o : Prefix) : bool :=
  if negb (IsValid p) || negb (IsValid o) then false
  else if bool_decide (p = o) then true
  else if negb (Bool.eqb (Is4 (pfx_addr p)) (Is4 (pfx_addr o))) then false
  else
    let minBits := if pfx_bits p <? pfx_bits o then pfx_bits p else pfx_bits o in
    if minBits =? 0 then true
    else same_high (BitLen (pfx_addr p)) minBits (addr_bits (pfx_addr p)) (addr_bits (pfx_addr o)).

End NetipPrefix.
