(* ===== verification/Metadata.v ===== *)
(** The data a routing decision is made on: [adapter/inbound.go]'s
    [InboundContext], the DNS messages it may carry, the run-time services
    rule items consult, and the interface ([Libs]) to the packages the sources
    import but do not contain. *)
From S2P Require Import Prelude Netip.

Abbreviation byte := Byte.byte.

(** * Third-party data types *)

(** [metadata.Socksaddr] of the [sing] library. *)
Record Socksaddr := mkSocksaddr { sa_Addr : Addr; sa_Port : Z; sa_Fqdn : string }.

#[global] Instance Socksaddr_eq_dec : EqDecision Socksaddr.
Proof. solve_decision. Defined.

Definition socksaddrZero : Socksaddr := mkSocksaddr AddrZero 0 "".

(** Resource records, questions and messages of [miekg/dns], with the record
    types the modelled code inspects. *)
Record RRHeader := mkRRHeader { hdr_Name : string; hdr_Rrtype : Z; hdr_Class : Z; hdr_Ttl : Z }.

Inductive SVCBValue :=
| SVCBIPv4Hint (hint : list (list byte))
| SVCBIPv6Hint (hint : list (list byte))
| SVCBOther (key : Z) (data : list byte).

(** EDNS0 options, [Address] as the bytes of the [net.IP]. *)
Inductive EDNS0 :=
| EDNS0_Subnet (Family SourceNetmask : Z) (Address : list byte)
| EDNS0_Other (code : Z) (data : list byte).

Inductive RR :=
| RR_A (hdr : RRHeader) (a : list byte)
| RR_AAAA (hdr : RRHeader) (aaaa : list byte)
| RR_HTTPS (hdr : RRHeader) (value : list SVCBValue)
| RR_SOA (hdr : RRHeader) (minttl : Z) (data : list byte)
| RR_OPT (hdr : RRHeader) (option : list EDNS0)
| RR_Other (hdr : RRHeader) (data : list byte).

Definition rr_Header (rr : RR) : RRHeader :=
  match rr with RR_A h _ | RR_AAAA h _ | RR_HTTPS h _ | RR_SOA h _ _ | RR_OPT h _ | RR_Other h _ => h end.

Definition rr_withHeader (rr : RR) (h : RRHeader) : RR :=
  match rr with
  | RR_A _ a => RR_A h a
  | RR_AAAA _ a => RR_AAAA h a
  | RR_HTTPS _ v => RR_HTTPS h v
  | RR_SOA _ m d => RR_SOA h m d
  | RR_OPT _ o => RR_OPT h o
  | RR_Other _ d => RR_Other h d
  end.

Record Question := mkQuestion { q_Name : string; q_Qtype : Z; q_Qclass : Z }.

Record Msg := mkMsg {
  msg_Id : Z;
  msg_Response : bool;
  msg_Authoritative : bool;
  msg_RecursionDesired : bool;
  msg_RecursionAvailable : bool;
  msg_Rcode : Z;
  msg_Question : list Question;
  msg_Answer : list RR;
  msg_Ns : list RR;
  msg_Extra : list RR }.

Definition RcodeSuccess : Z := 0.

(** [netipx.IPSet], seen through [common/srs/ip_set.go]'s [myIPSet]. *)
Record IPRange := mkIPRange { range_from : Addr; range_to : Addr }.
Record IPSet := mkIPSet { rr : list IPRange }.

(** The calls made on a [netipx.IPSetBuilder]. *)
Inductive IPSetOp :=
| AddPrefix (p : Prefix)
| AddAddr (a : Addr).

(** * Packages outside the repository

    Only operations are assumed here; laws are stated by the theorems that
    need them. *)
Class Libs := {
  (* github.com/sagernet/sing/common/metadata *)
  IsIP : Socksaddr -> bool;
  IsIPv4 : Socksaddr -> bool;
  IsIPv6 : Socksaddr -> bool;
  IsDomain : Socksaddr -> bool;
  Socksaddr_IsValid : Socksaddr -> bool;
  AddrFromIP : list byte -> Addr;
  (* github.com/sagernet/sing/common/network *)
  IsPublicAddr : Addr -> bool;
  (* github.com/sagernet/sing/common/domain *)
  DomainMatcher : Type;
  NewMatcher : list string -> list string -> bool -> DomainMatcher;
  DomainMatcher_Match : DomainMatcher -> string -> bool;
  AdGuardMatcher : Type;
  NewAdGuardMatcher : list string -> AdGuardMatcher;
  AdGuardMatcher_Match : AdGuardMatcher -> string -> bool;
  (* github.com/sagernet/sing/common/format, for integers *)
  F_ToString : Z -> string;
  (* go4.org/netipx *)
  IPSetBuilder_IPSet : list IPSetOp -> result IPSet;
  IPSet_Contains : IPSet -> Addr -> bool;
  (* regexp *)
  Regexp : Type;
  Regexp_Compile : string -> result Regexp;
  Regexp_MatchString : Regexp -> string -> bool;
  (* textual forms of net and net/netip *)
  ParsePrefix : string -> result Prefix;
  ParseAddr : string -> result Addr;
  Prefix_String : Prefix -> string;
  ParseMAC : string -> result (list byte);
  HardwareAddr_String : list byte -> string;
  (* strings: the Unicode tables behind the ASCII fast paths *)
  ToLowerUnicode : string -> string;
  EqualFoldUnicode : string -> string -> bool;
  TrimSpaceUnicode : string -> string;
  (* github.com/miekg/dns *)
  CanonicalName : string -> string;
  TypeToString : Z -> option string;
  IsDuplicate : RR -> RR -> bool;
  RR_String : RR -> string;
  RcodeToString : Z -> string
}.

(** [strings.ToLower]: ASCII strings byte by byte, others through the tables. *)
Definition ToLower `{Libs} (s : string) : string :=
  if isASCII s then mapString lowerASCII s else ToLowerUnicode s.

(** [strings.EqualFold], with the same fast path. *)
Definition EqualFold `{Libs} (s t : string) : bool :=
  if isASCII s && isASCII t then String.eqb (mapString lowerASCII s) (mapString lowerASCII t)
  else EqualFoldUnicode s t.

(** * Run-time services *)

(** [control.Interface] and [adapter.NetworkInterface]. *)
Record Interface := mkInterface { if_Name : string; if_Addresses : list Prefix }.

Record NetworkInterface := mkNetworkInterface {
  ni_Interface : Interface;
  ni_Type : Z;
  ni_Expensive : bool;
  ni_Constrained : bool }.

Record WIFIState := mkWIFIState { SSID : string; BSSID : string }.

(** What rule items read from the network manager, the Clash server and the
    platform while a connection is matched. *)
Record Services := mkServices {
  svc_ClashMode : string;
  svc_WIFIState : WIFIState;
  svc_DefaultNetworkInterface : option NetworkInterface;
  svc_Interfaces : list Interface;
  svc_NetworkInterfaces : list NetworkInterface;
  svc_MyInterfaces : list string;
  svc_DefaultInterface : option Interface;
  svc_IsAndroid : bool }.

(** * The inbound context *)

Record ConnectionOwner := mkConnectionOwner {
  ProcessID : Z;
  UserId : Z;
  UserName : string;
  ProcessPath : string;
  AndroidPackageNames : list string }.

(** Fields no modelled code reads or writes ([SniffContext] and the GeoIP
    codes) are left out. *)
Record InboundContext := mkInboundContext {
  ic_Inbound : string;
  ic_InboundType : string;
  ic_IPVersion : Z;
  ic_Network : string;
  ic_Source : Socksaddr;
  ic_Destination : Socksaddr;
  ic_User : string;
  ic_Outbound : string;
  (* sniffer *)
  ic_Protocol : string;
  ic_Domain : string;
  ic_Client : string;
  ic_SnifferNames : list string;
  ic_SniffError : option GoError;
  (* cache *)
  ic_InboundDetour : string;
  ic_LastInbound : string;
  ic_OriginDestination : Socksaddr;
  ic_RouteOriginalDestination : Socksaddr;
  ic_UDPDisableDomainUnmapping : bool;
  ic_UDPConnect : bool;
  ic_UDPTimeout : Z;
  ic_TLSFragment : bool;
  ic_TLSFragmentFallbackDelay : Z;
  ic_TLSRecordFragment : bool;
  ic_TLSSpoof : string;
  ic_TLSSpoofMethod : Z;
  ic_NetworkStrategy : option Z;
  ic_NetworkType : list Z;
  ic_FallbackNetworkType : list Z;
  ic_FallbackDelay : Z;
  ic_DestinationAddresses : list Addr;
  ic_DNSResponse : option Msg;
  ic_DestinationAddressMatchFromResponse : bool;
  ic_ProcessInfo : option ConnectionOwner;
  ic_SourceMACAddress : option (list byte);
  ic_SourceHostname : string;
  ic_QueryType : Z;
  ic_FakeIP : bool;
  (* rule cache *)
  ic_IPCIDRMatchSource : bool;
  ic_IPCIDRAcceptEmpty : bool;
  ic_SourceAddressMatch : bool;
  ic_SourcePortMatch : bool;
  ic_DestinationAddressMatch : bool;
  ic_DestinationPortMatch : bool;
  ic_DidMatch : bool;
  ic_IgnoreDestinationIPCIDRMatch : bool }.

(** The zero value [InboundContext{}]. *)
Definition inboundContextZero : InboundContext :=
  mkInboundContext "" "" 0 "" socksaddrZero socksaddrZero "" ""
    "" "" "" [] None "" "" socksaddrZero socksaddrZero false false 0 false 0 false "" 0
    None [] [] 0 [] None false None None "" 0 false
    false false false false false false false false.

Definition ResetRuleMatchCache (c : InboundContext) : InboundContext :=
  c {{ ic_SourceAddressMatch := false;
       ic_SourcePortMatch := false;
       ic_DestinationAddressMatch := false;
       ic_DestinationPortMatch := false;
       ic_DidMatch := false }}.

Definition ResetRuleCache (c : InboundContext) : InboundContext :=
  ResetRuleMatchCache (c {{ ic_IPCIDRMatchSource := false; ic_IPCIDRAcceptEmpty := false }}).

(** The names of networks, [N.NetworkTCP] and the like. *)
Definition NetworkTCP : string := "tcp".
Definition NetworkUDP : string := "udp".
Definition NetworkICMP : string := "icmp".

Section libs.
Context `{Libs}.

(** The addresses one answer record contributes. *)
Definition rrAddresses (rawRecord : RR) : list Addr :=
  match rawRecord with
  | RR_A _ a => let addr := AddrFromIP a in if Netip.IsValid addr then [addr] else []
  | RR_AAAA _ a => let addr := AddrFromIP a in if Netip.IsValid addr then [addr] else []
  | RR_HTTPS _ values =>
      flat_map (fun value =>
        match value with
        | SVCBIPv4Hint hint =>
            flat_map (fun ip => let addr := Netip.Unmap (AddrFromIP ip) in
                                if Netip.IsValid addr then [addr] else []) hint
        | SVCBIPv6Hint hint =>
            flat_map (fun ip => let addr := AddrFromIP ip in
                                if Netip.IsValid addr then [addr] else []) hint
        | SVCBOther _ _ => []
        end) values
  | _ => []
  end.

Definition DNSResponseAddresses (response : option Msg) : list Addr :=
  match response with
  | None => []
  | Some response =>
      if negb (msg_Rcode response =? RcodeSuccess) then []
      else flat_map rrAddresses (msg_Answer response)
  end.

Definition DNSResponseAddressesForMatch (c : InboundContext) : list Addr :=
  DNSResponseAddresses (ic_DNSResponse c).

(** Every address taken from a response is a valid one. *)
Lemma DNSResponseAddresses_valid response :
  Forall (fun a => Netip.IsValid a = true) (DNSResponseAddresses response).
Proof.
  destruct response as [m|]; simpl; [|constructor]. destruct (negb _); [constructor|].
  apply Forall_forall. intros a (r & _ & Ha)%in_flat_map.
  destruct r as [? x|? x|? vs| | |]; simpl in Ha; try done.
  1-2: destruct (Netip.IsValid (AddrFromIP x)) eqn:E; simpl in Ha; destruct Ha; by subst.
  apply in_flat_map in Ha as (v & _ & Ha). destruct v as [hs|hs|]; try done;
    apply in_flat_map in Ha as (ip & _ & Ha); case_match; destruct Ha; by subst.
Qed.

End libs.
