(* ===== verification/Text.v ===== *)
(** Text: the functions of [strings] and [strconv] over ASCII strings that the
    components use, with their round trips. *)
From Stdlib Require Import Ascii.
From S2P Require Import Prelude Netip Metadata.

(** * Cutting *)

(** [strings.Split(s, sep)] for a separator of one byte. *)
Fixpoint split (sep : Ascii.ascii) (s : string) : list string :=
  match s with
  | EmptyString => [""]
  | String c s' =>
      if Ascii.eqb c sep then "" :: split sep s'
      else match split sep s' with
           | [] => [String c ""]
           | x :: l => String c x :: l
           end
  end.

(** The parts before and after the first separator. *)
Fixpoint cut (sep : Ascii.ascii) (s : string) : option (string * string) :=
  match s with
  | EmptyString => None
  | String c s' =>
      if Ascii.eqb c sep then Some ("", s')
      else match cut sep s' with Some (a, b) => Some (String c a, b) | None => None end
  end.

(** The parts before and after the last separator. *)
Fixpoint cutLast (sep : Ascii.ascii) (s : string) : option (string * string) :=
  match s with
  | EmptyString => None
  | String c s' =>
      match cutLast sep s' with
      | Some (a, b) => Some (String c a, b)
      | None => if Ascii.eqb c sep then Some ("", s') else None
      end
  end.

Fixpoint hasChar (sep : Ascii.ascii) (s : string) : bool :=
  match s with EmptyString => false | String c s' => Ascii.eqb c sep || hasChar sep s' end.

(** [strings.TrimPrefix] and [s[n:]] *)
Fixpoint dropString (n : nat) (s : string) : string :=
  match n, s with
  | O, _ => s
  | S n', String _ s' => dropString n' s'
  | S _, EmptyString => ""
  end.

Definition TrimPrefix (s p : string) : string := if hasPrefix s p then dropString (String.length p) s else s.

(** * Decimal numbers *)

Definition digit (n : Z) : Ascii.ascii := Ascii.ascii_of_N (Z.to_N (48 + n)).

Definition digitVal (c : Ascii.ascii) : option Z :=
  let n := Z.of_N (Ascii.N_of_ascii c) in if (48 <=? n) && (n <=? 57) then Some (n - 48) else None.

(** The digits of [n], with at most [fuel] of them, before [s]. *)
Fixpoint digitsBefore (fuel : nat) (n : Z) (s : string) : string :=
  match fuel with
  | O => s
  | S fuel' => let s := String (digit (n mod 10)) s in if n <? 10 then s else digitsBefore fuel' (n / 10) s
  end.

Definition utoa (n : Z) : string := digitsBefore (S (Z.to_nat (Z.log2 n))) n "".

(** [strconv.Itoa] *)
Definition itoa (n : Z) : string := if n <? 0 then "-" +:+ utoa (- n) else utoa n.

(** The value of a string of digits. *)
Fixpoint digitsVal (s : string) (acc : Z) : option Z :=
  match s with
  | EmptyString => Some acc
  | String c s' => match digitVal c with Some d => digitsVal s' (acc * 10 + d) | None => None end
  end.

(** The value [strconv.Atoi] returns, also with an error: 0 for what is not a
    number, the nearest integer for what does not fit. *)
Definition Atoi (s : string) : Z :=
  let number (s : string) := if String.eqb s "" then None else digitsVal s 0 in
  match s with
  | String "-"%char s' => match number s' with Some n => Z.max (- 2 ^ 63) (- n) | None => 0 end
  | String "+"%char s' => match number s' with Some n => Z.min (2 ^ 63 - 1) n | None => 0 end
  | _ => match number s with Some n => Z.min (2 ^ 63 - 1) n | None => 0 end
  end.

(** * Lemmas *)

Lemma digitVal_digit n : 0 <= n < 10 -> digitVal (digit n) = Some n.
Proof.
  intros Hn. unfold digitVal, digit. rewrite N_ascii_embedding by lia. rewrite Z2N.id by lia.
  rewrite !(proj2 (Z.leb_le _ _)) by lia. cbn. f_equal. lia.
Qed.

Lemma digitsBefore_val fuel : forall n s, 0 <= n < 10 ^ Z.of_nat fuel -> (0 < fuel)%nat ->
  digitsVal (digitsBefore fuel n s) 0 = digitsVal s n.
Proof.
  induction fuel as [|fuel IH]; intros n s Hn Hf; [lia|]. cbn [digitsBefore].
  pose proof (Z.div_mod n 10 ltac:(lia)) as Hdm. pose proof (Z.mod_pos_bound n 10 ltac:(lia)) as Hm.
  destruct (Z.ltb_spec n 10).
  - cbn. rewrite digitVal_digit, Z.mod_small by lia. done.
  - destruct fuel as [|fuel]; [cbn in Hn; lia|]. rewrite IH; [|split; [apply Z.div_pos; lia|]|lia].
    + cbn. rewrite digitVal_digit by lia. f_equal. lia.
    + apply Z.div_lt_upper_bound; [lia|]. rewrite Nat2Z.inj_succ, Z.pow_succ_r in Hn by lia. lia.
Qed.

Lemma digitsVal_le s : forall acc v, 0 <= acc -> digitsVal s acc = Some v -> acc <= v.
Proof.
  induction s as [|c s IH]; intros acc v Ha Hv; cbn in Hv; [by simplify_eq|].
  destruct (digitVal c) as [d|] eqn:Hd; [|done]. unfold digitVal in Hd.
  destruct ((48 <=? _) && _) eqn:Hr; [|done]. bool_to_prop. simplify_eq. apply IH in Hv; lia.
Qed.

Lemma utoa_val n : 0 <= n -> digitsVal (utoa n) 0 = Some n.
Proof.
  intros Hn. unfold utoa. rewrite digitsBefore_val; [done| |lia]. split; [done|].
  destruct (decide (n = 0)) as [->|]; [done|]. eapply Z.lt_le_trans; [apply Z.log2_spec; lia|].
  rewrite Nat2Z.inj_succ, Z2Nat.id by apply Z.log2_nonneg. apply Z.pow_le_mono_l. lia.
Qed.

(** Strings all of whose characters satisfy [p]. *)
Definition allChars (p : Ascii.ascii -> bool) (s : string) : bool := forallb p (String.list_ascii_of_string s).

Definition isDigit (c : Ascii.ascii) : bool := negb (isNil (digitVal c)).

Lemma digitsBefore_digits fuel : forall n s, 0 <= n -> allChars isDigit s = true -> allChars isDigit (digitsBefore fuel n s) = true.
Proof.
  induction fuel as [|fuel IH]; intros n s Hn Hs; [done|]. cbn [digitsBefore].
  assert (allChars isDigit (String (digit (n mod 10)) s) = true) as Hc.
  { unfold allChars, isDigit. cbn. rewrite digitVal_digit by (apply Z.mod_pos_bound; lia). exact Hs. }
  destruct (_ <? _); [done|]. apply IH; [apply Z.div_pos; lia|done].
Qed.

Lemma utoa_digits n : 0 <= n -> allChars isDigit (utoa n) = true.
Proof. intros. by apply digitsBefore_digits. Qed.

Lemma digitsBefore_nonempty fuel : forall n c s, exists d s', digitsBefore fuel n (String c s) = String d s'.
Proof. induction fuel as [|fuel IH]; intros n c s; cbn; [by eexists _, _|]. destruct (_ <? _); [by eexists _, _|apply IH]. Qed.

Lemma utoa_nonempty n : 0 <= n -> exists c s, utoa n = String c s /\ isDigit c = true.
Proof.
  intros Hn. pose proof (utoa_digits n Hn) as Hd. unfold utoa in *. cbn [digitsBefore] in *.
  assert (exists c s, utoa n = String c s) as (c & s & Hu).
  { unfold utoa. cbn [digitsBefore]. destruct (_ <? _); [by eexists _, _|apply digitsBefore_nonempty]. }
  unfold utoa in Hu. cbn [digitsBefore] in Hu. rewrite Hu in *. exists c, s. split; [done|].
  unfold allChars in Hd. cbn in Hd. by apply andb_true_iff in Hd as [? _].
Qed.

Lemma Atoi_itoa n : 0 <= n < 2 ^ 63 -> Atoi (itoa n) = n.
Proof.
  intros Hn. unfold itoa. rewrite (proj2 (Z.ltb_ge _ _)) by lia.
  pose proof (utoa_val n ltac:(lia)) as Hv. destruct (utoa_nonempty n) as (c & s & Hu & Hc); [lia|]. rewrite Hu in *.
  assert (Atoi (String c s) = match digitsVal (String c s) 0 with Some n => Z.min (2 ^ 63 - 1) n | None => 0 end) as ->.
  { unfold Atoi. rewrite (proj2 (String.eqb_neq (String c s) "")) by done.
    destruct c as [[] [] [] [] [] [] [] []]; try done; discriminate Hc. }
  rewrite Hv. lia.
Qed.

(** Characters that do not occur. *)
Lemma allChars_hasChar p sep s : p sep = false -> allChars p s = true -> hasChar sep s = false.
Proof.
  unfold allChars. intros Hp. induction s as [|c s IH]; [done|]. cbn. intros [Hc Hs]%andb_true_iff.
  rewrite IH by done. destruct (Ascii.eqb_spec c sep) as [->|]; [congruence|done].
Qed.

Lemma append_nil t : "" +:+ t = t.
Proof. done. Qed.
Lemma append_cons c s t : String c s +:+ t = String c (s +:+ t).
Proof. done. Qed.

Lemma hasChar_app sep s t : hasChar sep (s +:+ t) = hasChar sep s || hasChar sep t.
Proof. induction s as [|c s IH]; [done|]. rewrite ?append_cons. cbn. by rewrite IH, orb_assoc. Qed.

Lemma split_plain sep s : hasChar sep s = false -> split sep s = [s].
Proof. induction s as [|c s IH]; [done|]. rewrite ?append_cons. cbn. intros [-> Hs]%orb_false_iff. by rewrite IH. Qed.

Lemma split_app sep s t : hasChar sep s = false -> split sep (s +:+ String sep t) = s :: split sep t.
Proof.
  induction s as [|c s IH]; rewrite ?append_nil, ?append_cons; cbn; [by rewrite Ascii.eqb_refl|]. intros [-> Hs]%orb_false_iff. by rewrite IH.
Qed.

Lemma cut_app sep s t : hasChar sep s = false -> cut sep (s +:+ String sep t) = Some (s, t).
Proof. induction s as [|c s IH]; rewrite ?append_nil, ?append_cons; cbn; [by rewrite Ascii.eqb_refl|]. intros [-> Hs]%orb_false_iff. by rewrite IH. Qed.

Lemma cutLast_plain sep s : hasChar sep s = false -> cutLast sep s = None.
Proof. induction s as [|c s IH]; [done|]. rewrite ?append_cons. cbn. intros [-> Hs]%orb_false_iff. by rewrite IH. Qed.

Lemma cutLast_app sep s t : hasChar sep t = false -> cutLast sep (s +:+ String sep t) = Some (s, t).
Proof. intros Ht. induction s as [|c s IH]; rewrite ?append_nil, ?append_cons; cbn; [by rewrite cutLast_plain, Ascii.eqb_refl|by rewrite IH]. Qed.

Lemma string_app_nil s : s +:+ "" = s.
Proof. induction s as [|c s IH]; [done|]. rewrite ?append_cons. cbn. by rewrite IH. Qed.

Lemma string_app_assoc s t u : (s +:+ t) +:+ u = s +:+ t +:+ u.
Proof. induction s as [|c s IH]; [done|]. rewrite ?append_cons. cbn. by rewrite IH. Qed.

Lemma hasPrefix_app s t : hasPrefix (s +:+ t) s = true.
Proof. induction s as [|c s IH]; [by destruct t|]. rewrite append_cons. cbn. by rewrite Ascii.eqb_refl. Qed.

Lemma dropString_app s t : dropString (String.length s) (s +:+ t) = t.
Proof. induction s as [|c s IH]; [by destruct t|]. rewrite append_cons. cbn. exact IH. Qed.

Lemma join_cons sep s t l : join sep (s :: t :: l) = s +:+ sep +:+ join sep (t :: l).
Proof. done. Qed.

Lemma split_join sep l : l <> [] -> Forall (fun s => hasChar sep s = false) l -> split sep (join (String sep "") l) = l.
Proof.
  intros Hn. induction 1 as [|s l Hs _ IH]; [done|]. destruct l as [|t l]; [by apply split_plain|].
  rewrite join_cons, append_cons, append_nil, split_app by done. by rewrite IH.
Qed.

Lemma hasChar_join d sep l : d <> sep -> Forall (fun s => hasChar d s = false) l -> hasChar d (join (String sep "") l) = false.
Proof.
  intros Hd. induction 1 as [|s l Hs _ IH]; [done|]. destruct l as [|t l]; [done|].
  rewrite join_cons, !hasChar_app, Hs, IH. cbn. by rewrite (proj2 (Ascii.eqb_neq sep d)).
Qed.

(** What [format.ToString] of [sing] documents for integers. *)
Class FormatLaws `{Libs} : Prop := F_ToString_decimal : forall z, F_ToString z = itoa z.

(** Split on a separator that does not occur in the parts. *)
Lemma utoa_plain n sep : 0 <= n -> isDigit sep = false -> hasChar sep (utoa n) = false.
Proof. intros Hn Hs. eapply allChars_hasChar; [exact Hs|by apply utoa_digits]. Qed.

Lemma itoa_plain n sep : 0 <= n -> isDigit sep = false -> hasChar sep (itoa n) = false.
Proof. intros Hn Hs. unfold itoa. rewrite (proj2 (Z.ltb_ge _ _)) by lia. by apply utoa_plain. Qed.
