(* ===== verification/RuleItem.v ===== *)
(** [route/rule/rule_item_*.go] and the interface-address items: the
    conditions a rule is made of.  Each Go item type is a record, with its
    constructor, its [Match] and its [String]; [RuleItem] is the closed sum of
    them that stands for the [RuleItem] interface. *)
From S2P Require Import Prelude Netip Metadata.

(** * Helpers *)

(** The description shared by most items: one value, or a bracketed list. *)
Definition describeList (prefix : string) (l : list string) : string :=
  match l with
  | [x] => prefix +:+ x
  | _ => prefix +:+ "[" +:+ join " " l +:+ "]"
  end.

(** The variant that shows three values at most. *)
Definition describeShort (prefix : string) (l : list string) (more : string) : string :=
  match l with
  | [x] => prefix +:+ x
  | _ => if (3 <? length l)%nat
         then prefix +:+ "[" +:+ join " " (take 3 l) +:+ more +:+ "]"
         else prefix +:+ "[" +:+ join " " l +:+ "]"
  end.

(** The domain an item looks at: the sniffed one, else the destination's. *)
Definition domainHost (metadata : InboundContext) : string :=
  if negb (String.eqb (ic_Domain metadata) "") then ic_Domain metadata
  else sa_Fqdn (ic_Destination metadata).

(** [filepath.Base] with [/] as separator. *)
Definition splitSlash (s : string) : list string :=
  let fix go (s : string) (cur : string) : list string :=
    match s with
    | EmptyString => [cur]
    | String c s' => if (Ascii.N_of_ascii c =? 47)%N then cur :: go s' "" else go s' (cur +:+ String c "")
    end in go s "".

Definition filepathBase (path : string) : string :=
  if String.eqb path "" then "."
  else
    match filter (fun x => String.eqb x "" = false) (splitSlash path) with
    | [] => "/"
    | parts => List.last parts ""
    end.

Definition isSpaceASCII (c : Ascii.ascii) : bool :=
  let n := Ascii.N_of_ascii c in ((9 <=? n) && (n <=? 13) || (n =? 32))%N.

Fixpoint dropSpace (l : list Ascii.ascii) : list Ascii.ascii :=
  match l with
  | [] => []
  | c :: l' => if isSpaceASCII c then dropSpace l' else l
  end.

Definition trimASCII (s : string) : string :=
  String.string_of_list_ascii
    (reverse (dropSpace (reverse (dropSpace (String.list_ascii_of_string s))))).

Definition hexDigit (c : Ascii.ascii) : option N :=
  let n := Ascii.N_of_ascii c in
  if ((48 <=? n) && (n <=? 57))%N then Some (n - 48)%N
  else if ((97 <=? n) && (n <=? 102))%N then Some (n - 87)%N
  else if ((65 <=? n) && (n <=? 70))%N then Some (n - 55)%N
  else None.

(** [hex.DecodeString] *)
Fixpoint hexDecode (s : string) : option (list byte) :=
  match s with
  | EmptyString => Some []
  | String a (String b s') =>
      x ← hexDigit a; y ← hexDigit b; z ← Byte.of_N (16 * x + y); zs ← hexDecode s'; Some (z :: zs)
  | String _ EmptyString => None
  end.

(** [C.InterfaceType] ([constant/network.go]) *)
Definition InterfaceTypeWIFI : Z := 0.
Definition InterfaceTypeCellular : Z := 1.
Definition InterfaceTypeEthernet : Z := 2.
Definition InterfaceTypeOther : Z := 3.

Section items.
Context `{Libs}.

Definition InterfaceType_String (t : Z) : string :=
  if t =? InterfaceTypeWIFI then "wifi"
  else if t =? InterfaceTypeCellular then "cellular"
  else if t =? InterfaceTypeEthernet then "ethernet"
  else if t =? InterfaceTypeOther then "other"
  else F_ToString t.

(** [strings.TrimSpace] *)
Definition TrimSpace (s : string) : string :=
  if isASCII s then trimASCII s else TrimSpaceUnicode s.

(** [adapter.NormalizeWIFIBSSID] *)
Definition NormalizeWIFIBSSID (bssid : string) : string :=
  let bssid := TrimSpace bssid in
  if String.eqb bssid "" then ""
  else
    match ParseMAC bssid with
    | Ok parsed =>
        if (length parsed =? 6)%nat then HardwareAddr_String parsed
        else if (String.length bssid =? 12)%nat
             then match hexDecode bssid with Some d => HardwareAddr_String d | None => bssid end
             else bssid
    | _ =>
        if (String.length bssid =? 12)%nat
        then match hexDecode bssid with Some d => HardwareAddr_String d | None => bssid end
        else bssid
    end.

(** * Items that look a value up in a set *)

Record InboundItem := mkInboundItem { inbounds : list string; inboundMap : gmap string bool }.
Definition NewInboundRule (inbounds : list string) : InboundItem :=
  mkInboundItem inbounds (boolMap inbounds).
Definition InboundItem_Match (r : InboundItem) (metadata : InboundContext) : bool :=
  mapGet (inboundMap r) (ic_Inbound metadata).
Definition InboundItem_String (r : InboundItem) : string := describeList "inbound=" (inbounds r).

Record AuthUserItem := mkAuthUserItem { au_users : list string; au_userMap : gmap string bool }.
Definition NewAuthUserItem (users : list string) : AuthUserItem :=
  mkAuthUserItem users (boolMap users).
Definition AuthUserItem_Match (r : AuthUserItem) (metadata : InboundContext) : bool :=
  mapGet (au_userMap r) (ic_User metadata).
Definition AuthUserItem_String (r : AuthUserItem) : string := describeList "auth_user=" (au_users r).

Record ClientItem := mkClientItem { clients : list string; clientMap : gmap string bool }.
Definition NewClientItem (clients : list string) : ClientItem :=
  mkClientItem clients (boolMap clients).
Definition ClientItem_Match (r : ClientItem) (metadata : InboundContext) : bool :=
  mapGet (clientMap r) (ic_Client metadata).
Definition ClientItem_String (r : ClientItem) : string := describeList "client=" (clients r).

Record NetworkItem := mkNetworkItem { networks : list string; networkMap : gmap string bool }.
Definition NewNetworkItem (networks : list string) : NetworkItem :=
  mkNetworkItem networks (boolMap networks).
Definition NetworkItem_Match (r : NetworkItem) (metadata : InboundContext) : bool :=
  mapGet (networkMap r) (ic_Network metadata).
Definition NetworkItem_String (r : NetworkItem) : string := describeList "network=" (networks r).

Record ProtocolItem := mkProtocolItem { protocols : list string; protocolMap : gmap string bool }.
Definition NewProtocolItem (protocols : list string) : ProtocolItem :=
  mkProtocolItem protocols (boolMap protocols).
Definition ProtocolItem_Match (r : ProtocolItem) (metadata : InboundContext) : bool :=
  mapGet (protocolMap r) (ic_Protocol metadata).
Definition ProtocolItem_String (r : ProtocolItem) : string := describeList "protocol=" (protocols r).

Record SourceHostnameItem := mkSourceHostnameItem {
  hostnames : list string; hostnameMap : gmap string bool }.
Definition NewSourceHostnameItem (hostnameList : list string) : SourceHostnameItem :=
  mkSourceHostnameItem hostnameList (boolMap hostnameList).
Definition SourceHostnameItem_Match (r : SourceHostnameItem) (metadata : InboundContext) : bool :=
  if String.eqb (ic_SourceHostname metadata) "" then false
  else mapGet (hostnameMap r) (ic_SourceHostname metadata).
Definition SourceHostnameItem_String (r : SourceHostnameItem) : string :=
  describeList "source_hostname=" (hostnames r).

Record SourceMACAddressItem := mkSourceMACAddressItem {
  addresses : list string; addressMap : gmap string bool }.
Definition NewSourceMACAddressItem (addressList : list string) : SourceMACAddressItem :=
  mkSourceMACAddressItem addressList
    (boolMap (map (fun address =>
       match ParseMAC address with Ok parsed => HardwareAddr_String parsed | _ => address end)
       addressList)).
Definition SourceMACAddressItem_Match (r : SourceMACAddressItem) (metadata : InboundContext) : bool :=
  match ic_SourceMACAddress metadata with
  | None => false
  | Some mac => mapGet (addressMap r) (HardwareAddr_String mac)
  end.
Definition SourceMACAddressItem_String (r : SourceMACAddressItem) : string :=
  describeList "source_mac_address=" (addresses r).

Record OutboundItem := mkOutboundItem {
  outbounds : list string; outboundMap : gmap string bool; matchAny : bool }.
Definition NewOutboundRule (outboundList : list string) : OutboundItem :=
  foldl (fun rule outbound =>
      if String.eqb outbound "any" then rule {{ matchAny := true }}
      else rule {{ outboundMap := <[outbound := true]> (outboundMap rule) }})
    (mkOutboundItem outboundList ∅ false) outboundList.
Definition OutboundItem_Match (r : OutboundItem) (metadata : InboundContext) : bool :=
  if matchAny r then negb (String.eqb (ic_Outbound metadata) "")
  else mapGet (outboundMap r) (ic_Outbound metadata).
Definition OutboundItem_String (r : OutboundItem) : string := describeList "outbound=" (outbounds r).

(** * Ports and numbers *)

Record PortItem := mkPortItem { ports : list Z; portMap : gmap Z bool; port_isSource : bool }.
Definition NewPortItem (isSource : bool) (ports : list Z) : PortItem :=
  mkPortItem ports (boolMap ports) isSource.
Definition PortItem_Match (r : PortItem) (metadata : InboundContext) : bool :=
  if port_isSource r then mapGet (portMap r) (sa_Port (ic_Source metadata))
  else mapGet (portMap r) (sa_Port (ic_Destination metadata)).
Definition PortItem_String (r : PortItem) : string :=
  describeList (if port_isSource r then "source_port=" else "port=") (map F_ToString (ports r)).

(** [strconv.ParseUint(s, 10, 16)]: a non-empty string of decimal digits whose
    value is below 2^16.  The accumulator saturates at the bound, as the
    library's cut-off does, so the result does not depend on its length. *)
Fixpoint parseDigits (s : string) (acc : Z) : option Z :=
  match s with
  | EmptyString => Some acc
  | String c s' =>
      let n := Z.of_N (Ascii.N_of_ascii c) in
      if (48 <=? n) && (n <=? 57)
      then let v := acc * 10 + (n - 48) in if v <? 2 ^ 16 then parseDigits s' v else None
      else None
  end.
Definition ParseUint16 (s : string) : result Z :=
  if String.eqb s "" then Err (E_Lib "invalid syntax")
  else match parseDigits s 0 with Some v => Ok v | None => Err (E_Lib "invalid syntax or value out of range") end.

(** [strings.Index(s, ":")]: the text before and after the first colon. *)
Fixpoint cutColon (s : string) : option (string * string) :=
  match s with
  | EmptyString => None
  | String c s' =>
      if (Ascii.N_of_ascii c =? 58)%N then Some ("", s')
      else match cutColon s' with Some (a, b) => Some (String c a, b) | None => None end
  end.

Definition ErrBadPortRange : GoError := E_New "bad port range".

Record rangeItem := mkRangeItem { range_start : Z; range_end : Z }.
Record PortRangeItem := mkPortRangeItem {
  pr_isSource : bool; portRanges : list string; portRangeList : list rangeItem }.

(** One element of the loop of [NewPortRangeItem]. *)
Definition parsePortRange (portRange : string) : result rangeItem :=
  match cutColon portRange with
  | None => Err (E_Extend ErrBadPortRange portRange)
  | Some (before, after) =>
      start ← (if String.eqb before "" then Ok 0
               else cause (String.append "bad port range: " portRange) (ParseUint16 before));
      end_ ← (if String.eqb after "" then Ok 0xFFFF
              else cause (String.append "bad port range: " portRange) (ParseUint16 after));
      Ok (mkRangeItem (u16 start) (u16 end_))
  end.
Definition NewPortRangeItem (isSource : bool) (rangeList : list string) : result PortRangeItem :=
  portRangeList ← mapR parsePortRange rangeList;
  Ok (mkPortRangeItem isSource rangeList portRangeList).
Definition PortRangeItem_Match (r : PortRangeItem) (metadata : InboundContext) : bool :=
  let port := if pr_isSource r then sa_Port (ic_Source metadata)
              else sa_Port (ic_Destination metadata) in
  anyb (portRangeList r) (fun portRange =>
    (range_start portRange <=? port) && (port <=? range_end portRange)).
Definition PortRangeItem_String (r : PortRangeItem) : string :=
  describeList (if pr_isSource r then "source_port_range=" else "port_range=") (portRanges r).

Record IPVersionItem := mkIPVersionItem { isIPv6 : bool }.
Definition NewIPVersionItem (isIPv6 : bool) : IPVersionItem := mkIPVersionItem isIPv6.
Definition IPVersionItem_Match (r : IPVersionItem) (metadata : InboundContext) : bool :=
  negb (ic_IPVersion metadata =? 0) && Bool.eqb (ic_IPVersion metadata =? 6) (isIPv6 r) ||
  IsIP (ic_Destination metadata) && Bool.eqb (IsIPv6 (ic_Destination metadata)) (isIPv6 r).
Definition IPVersionItem_String (r : IPVersionItem) : string :=
  "ip_version=" +:+ (if isIPv6 r then "6" else "4").

Record QueryTypeItem := mkQueryTypeItem { typeList : list Z; typeMap : gmap Z bool }.
Definition NewQueryTypeItem (typeList : list Z) : QueryTypeItem :=
  mkQueryTypeItem typeList (boolMap typeList).
Definition QueryTypeItem_Match (r : QueryTypeItem) (metadata : InboundContext) : bool :=
  if ic_QueryType metadata =? 0 then false else mapGet (typeMap r) (ic_QueryType metadata).

(** [option.DNSQueryTypeToString] *)
Definition DNSQueryTypeToString (queryType : Z) : string :=
  match TypeToString queryType with Some name => name | None => F_ToString queryType end.
Definition QueryTypeItem_String (r : QueryTypeItem) : string :=
  describeList "query_type=" (map DNSQueryTypeToString (typeList r)).

(** * Process items *)

(** The loop the three regular-expression items share. *)
Definition compileAll (expressions : list string) : result (list Regexp) :=
  mapR_from (fun i regex =>
    cause ("parse expression " +:+ F_ToString (Z.of_nat i)) (Regexp_Compile regex)) 0 expressions.

Record ProcessItem := mkProcessItem { processes : list string; processMap : gmap string bool }.
Definition NewProcessItem (processNameList : list string) : ProcessItem :=
  mkProcessItem processNameList (boolMap processNameList).
Definition ProcessItem_Match (r : ProcessItem) (metadata : InboundContext) : bool :=
  match ic_ProcessInfo metadata with
  | None => false
  | Some info =>
      if String.eqb (ProcessPath info) "" then false
      else mapGet (processMap r) (filepathBase (ProcessPath info))
  end.
Definition ProcessItem_String (r : ProcessItem) : string := describeList "process_name=" (processes r).

Record ProcessPathItem := mkProcessPathItem { pp_processes : list string; pp_processMap : gmap string bool }.
Definition NewProcessPathItem (processNameList : list string) : ProcessPathItem :=
  mkProcessPathItem processNameList (boolMap processNameList).
Definition ProcessPathItem_Match (svc : Services) (r : ProcessPathItem) (metadata : InboundContext) : bool :=
  match ic_ProcessInfo metadata with
  | None => false
  | Some info =>
      if negb (String.eqb (ProcessPath info) "") && mapGet (pp_processMap r) (ProcessPath info) then true
      else if svc_IsAndroid svc then anyb (AndroidPackageNames info) (mapGet (pp_processMap r))
      else false
  end.
Definition ProcessPathItem_String (r : ProcessPathItem) : string :=
  describeList "process_path=" (pp_processes r).

Record ProcessPathRegexItem := mkProcessPathRegexItem {
  ppr_matchers : list Regexp; ppr_description : string }.
Definition NewProcessPathRegexItem (expressions : list string) : result ProcessPathRegexItem :=
  matchers ← compileAll expressions;
  Ok (mkProcessPathRegexItem matchers (describeShort "process_path_regex=" expressions "")).
Definition ProcessPathRegexItem_Match (r : ProcessPathRegexItem) (metadata : InboundContext) : bool :=
  match ic_ProcessInfo metadata with
  | None => false
  | Some info =>
      if String.eqb (ProcessPath info) "" then false
      else anyb (ppr_matchers r) (fun matcher => Regexp_MatchString matcher (ProcessPath info))
  end.

Record PackageNameItem := mkPackageNameItem { packageNames : list string; packageMap : gmap string bool }.
Definition NewPackageNameItem (packageNameList : list string) : PackageNameItem :=
  mkPackageNameItem packageNameList (boolMap packageNameList).
Definition PackageNameItem_Match (r : PackageNameItem) (metadata : InboundContext) : bool :=
  match ic_ProcessInfo metadata with
  | None => false
  | Some info =>
      if negb (nonempty (AndroidPackageNames info)) then false
      else anyb (AndroidPackageNames info) (mapGet (packageMap r))
  end.
Definition PackageNameItem_String (r : PackageNameItem) : string :=
  describeList "package_name=" (packageNames r).

Record PackageNameRegexItem := mkPackageNameRegexItem {
  pnr_matchers : list Regexp; pnr_description : string }.
Definition NewPackageNameRegexItem (expressions : list string) : result PackageNameRegexItem :=
  matchers ← compileAll expressions;
  Ok (mkPackageNameRegexItem matchers (describeShort "package_name_regex=" expressions "")).
Definition PackageNameRegexItem_Match (r : PackageNameRegexItem) (metadata : InboundContext) : bool :=
  match ic_ProcessInfo metadata with
  | None => false
  | Some info =>
      if negb (nonempty (AndroidPackageNames info)) then false
      else anyb (pnr_matchers r) (fun matcher =>
             anyb (AndroidPackageNames info) (Regexp_MatchString matcher))
  end.

Record UserItem := mkUserItem { users : list string; userMap : gmap string bool }.
Definition NewUserItem (users : list string) : UserItem := mkUserItem users (boolMap users).
Definition UserItem_Match (r : UserItem) (metadata : InboundContext) : bool :=
  match ic_ProcessInfo metadata with
  | None => false
  | Some info => if String.eqb (UserName info) "" then false else mapGet (userMap r) (UserName info)
  end.
Definition UserItem_String (r : UserItem) : string := describeList "user=" (users r).

Record UserIdItem := mkUserIdItem { userIds : list Z; userIdMap : gmap Z bool }.
Definition NewUserIDItem (userIdList : list Z) : UserIdItem := mkUserIdItem userIdList (boolMap userIdList).
Definition UserIdItem_Match (r : UserIdItem) (metadata : InboundContext) : bool :=
  match ic_ProcessInfo metadata with
  | None => false
  | Some info => if UserId info =? -1 then false else mapGet (userIdMap r) (UserId info)
  end.
Definition UserIdItem_String (r : UserIdItem) : string :=
  describeList "user_id=" (map F_ToString (userIds r)).

(** * Domain items *)

Record DomainItem := mkDomainItem { di_matcher : DomainMatcher; di_description : string }.
Definition NewDomainItem (domains domainSuffixes : list string) : result DomainItem :=
  if bool_decide ("" ∈ domains) then Err (E_New "domain: empty item is not allowed")
  else if bool_decide ("" ∈ domainSuffixes) then Err (E_New "domain_suffix: empty item is not allowed")
  else
    let description := if nonempty domains then describeShort "domain=" domains "..." else "" in
    let description :=
      if nonempty domainSuffixes
      then (if (0 <? String.length description)%nat then description +:+ " " else description)
           +:+ describeShort "domain_suffix=" domainSuffixes "..."
      else description in
    Ok (mkDomainItem (NewMatcher domains domainSuffixes false) description).
Definition NewRawDomainItem (matcher : DomainMatcher) : DomainItem :=
  mkDomainItem matcher "domain/domain_suffix=<binary>".
Definition DomainItem_Match (r : DomainItem) (metadata : InboundContext) : bool :=
  if String.eqb (domainHost metadata) "" then false
  else DomainMatcher_Match (di_matcher r) (ToLower (domainHost metadata)).

Record DomainKeywordItem := mkDomainKeywordItem { keywords : list string }.
Definition NewDomainKeywordItem (keywords : list string) : DomainKeywordItem :=
  mkDomainKeywordItem keywords.
Definition DomainKeywordItem_Match (r : DomainKeywordItem) (metadata : InboundContext) : bool :=
  if String.eqb (domainHost metadata) "" then false
  else
    let host := ToLower (domainHost metadata) in
    anyb (keywords r) (fun keyword => stringContains host keyword).
Definition DomainKeywordItem_String (r : DomainKeywordItem) : string :=
  describeShort "domain_keyword=" (keywords r) "...".

Record DomainRegexItem := mkDomainRegexItem { dr_matchers : list Regexp; dr_description : string }.
Definition NewDomainRegexItem (expressions : list string) : result DomainRegexItem :=
  matchers ← compileAll expressions;
  Ok (mkDomainRegexItem matchers (describeShort "domain_regex=" expressions "")).
Definition DomainRegexItem_Match (r : DomainRegexItem) (metadata : InboundContext) : bool :=
  if String.eqb (domainHost metadata) "" then false
  else
    let host := ToLower (domainHost metadata) in
    anyb (dr_matchers r) (fun matcher => Regexp_MatchString matcher host).

Record AdGuardDomainItem := mkAdGuardDomainItem { ag_matcher : AdGuardMatcher }.
Definition NewAdGuardDomainItem (ruleLines : list string) : AdGuardDomainItem :=
  mkAdGuardDomainItem (NewAdGuardMatcher ruleLines).
Definition NewRawAdGuardDomainItem (matcher : AdGuardMatcher) : AdGuardDomainItem :=
  mkAdGuardDomainItem matcher.
Definition AdGuardDomainItem_Match (r : AdGuardDomainItem) (metadata : InboundContext) : bool :=
  if String.eqb (domainHost metadata) "" then false
  else AdGuardMatcher_Match (ag_matcher r) (ToLower (domainHost metadata)).
Definition AdGuardDomainItem_String (r : AdGuardDomainItem) : string := "!adguard_domain_rules=<binary>".

(** * Address items *)

Record IPCIDRItem := mkIPCIDRItem { ipSet : IPSet; cidr_isSource : bool; cidr_description : string }.

(** [netip.ParsePrefix], else [netip.ParseAddr], else the first error. *)
Definition parseCIDR (i : nat) (prefixString : string) : result IPSetOp :=
  match ParsePrefix prefixString with
  | Ok prefix => Ok (AddPrefix prefix)
  | Err e =>
      match ParseAddr prefixString with
      | Ok addr => Ok (AddAddr addr)
      | _ => Err (E_Cause e ("parse [" +:+ F_ToString (Z.of_nat i) +:+ "]"))
      end
  | Panic s => Panic s
  end.
Definition NewIPCIDRItem (isSource : bool) (prefixStrings : list string) : result IPCIDRItem :=
  builder ← mapR_from parseCIDR 0 prefixStrings;
  let description :=
    describeShort (if isSource then "source_ip_cidr=" else "ip_cidr=") prefixStrings "..." in
  ipSet ← IPSetBuilder_IPSet builder;
  Ok (mkIPCIDRItem ipSet isSource description).
Definition NewRawIPCIDRItem (isSource : bool) (ipSet : IPSet) : IPCIDRItem :=
  mkIPCIDRItem ipSet isSource
    ((if isSource then "source_ip_cidr=" else "ip_cidr=") +:+ "<binary>").
Definition IPCIDRItem_Match (r : IPCIDRItem) (metadata : InboundContext) : bool :=
  if cidr_isSource r || ic_IPCIDRMatchSource metadata
  then IPSet_Contains (ipSet r) (sa_Addr (ic_Source metadata))
  else if ic_DestinationAddressMatchFromResponse metadata
  then
    let addresses := DNSResponseAddressesForMatch metadata in
    if negb (nonempty addresses) then ic_IPCIDRAcceptEmpty metadata
    else anyb addresses (IPSet_Contains (ipSet r))
  else if IsIP (ic_Destination metadata)
  then IPSet_Contains (ipSet r) (sa_Addr (ic_Destination metadata))
  else if nonempty (ic_DestinationAddresses metadata)
  then anyb (ic_DestinationAddresses metadata) (IPSet_Contains (ipSet r))
  else ic_IPCIDRAcceptEmpty metadata.

Record IPIsPrivateItem := mkIPIsPrivateItem { private_isSource : bool }.
Definition NewIPIsPrivateItem (isSource : bool) : IPIsPrivateItem := mkIPIsPrivateItem isSource.
Definition IPIsPrivateItem_Match (r : IPIsPrivateItem) (metadata : InboundContext) : bool :=
  if private_isSource r then negb (IsPublicAddr (sa_Addr (ic_Source metadata)))
  else if ic_DestinationAddressMatchFromResponse metadata
  then anyb (DNSResponseAddressesForMatch metadata) (fun a => negb (IsPublicAddr a))
  else if Netip.IsValid (sa_Addr (ic_Destination metadata))
  then negb (IsPublicAddr (sa_Addr (ic_Destination metadata)))
  else anyb (ic_DestinationAddresses metadata) (fun a => negb (IsPublicAddr a)).
Definition IPIsPrivateItem_String (r : IPIsPrivateItem) : string :=
  if private_isSource r then "source_ip_is_private=true" else "ip_is_private=true".

Definition IPAcceptAnyItem_Match (metadata : InboundContext) : bool :=
  if ic_DestinationAddressMatchFromResponse metadata
  then nonempty (DNSResponseAddressesForMatch metadata)
  else nonempty (ic_DestinationAddresses metadata).

(** * Items that read run-time services *)

(** [clashServer] is nil until [Start]. *)
Record ClashModeItem := mkClashModeItem { clashServer : bool; clash_mode : string }.
Definition NewClashModeItem (mode : string) : ClashModeItem := mkClashModeItem false mode.
(** [found] says whether the context holds a Clash server. *)
Definition ClashModeItem_Start (found : bool) (r : ClashModeItem) : ClashModeItem :=
  r {{ clashServer := found }}.
Definition ClashModeItem_Match (svc : Services) (r : ClashModeItem) (metadata : InboundContext) : bool :=
  if negb (clashServer r) then false else EqualFold (svc_ClashMode svc) (clash_mode r).
Definition ClashModeItem_String (r : ClashModeItem) : string := "clash_mode=" +:+ clash_mode r.

Record NetworkTypeItem := mkNetworkTypeItem { nt_networkType : list Z }.
Definition NewNetworkTypeItem (networkType : list Z) : NetworkTypeItem := mkNetworkTypeItem networkType.
Definition NetworkTypeItem_Match (svc : Services) (r : NetworkTypeItem) (metadata : InboundContext) : bool :=
  match svc_DefaultNetworkInterface svc with
  | None => false
  | Some networkInterface => bool_decide (ni_Type networkInterface ∈ nt_networkType r)
  end.
Definition NetworkTypeItem_String (r : NetworkTypeItem) : string :=
  describeList "network_type=" (map InterfaceType_String (nt_networkType r)).

Definition NetworkIsExpensiveItem_Match (svc : Services) (metadata : InboundContext) : bool :=
  match svc_DefaultNetworkInterface svc with
  | None => false
  | Some networkInterface => ni_Expensive networkInterface
  end.
Definition NetworkIsExpensiveItem_String : string := "network_is_expensive=true".

Definition NetworkIsConstrainedItem_Match (svc : Services) (metadata : InboundContext) : bool :=
  match svc_DefaultNetworkInterface svc with
  | None => false
  | Some networkInterface => ni_Constrained networkInterface
  end.
Definition NetworkIsConstrainedItem_String : string := "network_is_expensive=true".

Record WIFISSIDItem := mkWIFISSIDItem { ssidList : list string; ssidMap : gmap string bool }.
Definition NewWIFISSIDItem (ssidList : list string) : WIFISSIDItem := mkWIFISSIDItem ssidList (boolMap ssidList).
Definition WIFISSIDItem_Match (svc : Services) (r : WIFISSIDItem) (metadata : InboundContext) : bool :=
  mapGet (ssidMap r) (SSID (svc_WIFIState svc)).
Definition WIFISSIDItem_String (r : WIFISSIDItem) : string := describeList "wifi_ssid=" (ssidList r).

Record WIFIBSSIDItem := mkWIFIBSSIDItem { bssidList : list string; bssidMap : gmap string bool }.
Definition NewWIFIBSSIDItem (bssidList : list string) : WIFIBSSIDItem :=
  mkWIFIBSSIDItem bssidList (boolMap (map NormalizeWIFIBSSID bssidList)).
Definition WIFIBSSIDItem_Match (svc : Services) (r : WIFIBSSIDItem) (metadata : InboundContext) : bool :=
  mapGet (bssidMap r) (BSSID (svc_WIFIState svc)).
Definition WIFIBSSIDItem_String (r : WIFIBSSIDItem) : string := describeList "wifi_bssid=" (bssidList r).

(** [map[string][]netip.Prefix]; Go visits the entries in an unspecified order,
    here that of the list, which [NewInterfaceAddressItem] builds without
    duplicate keys. *)
Record InterfaceAddressItem := mkInterfaceAddressItem {
  interfaceAddresses : gmap string (list Prefix); ia_description : string }.
Definition NewInterfaceAddressItem (entries : list (string * list Prefix)) : InterfaceAddressItem :=
  mkInterfaceAddressItem
    (foldl (fun m entry => <[entry.1 := entry.2]> m) ∅ entries)
    ("interface_address=[" +:+
     join " " (map (fun entry : string * list Prefix =>
       entry.1 +:+ "=" +:+ join "," (map Prefix_String entry.2)) entries) +:+ "]").
(** The body of the [range] loop, for the entries in the order visited. *)
Fixpoint InterfaceAddressItem_loop (interfaces : list Interface)
    (entries : list (string * list Prefix)) : bool :=
  match entries with
  | [] => true
  | (ifName, addresses) :: entries' =>
      let iface := default (mkInterface "" [])
                     (List.find (fun it => String.eqb (if_Name it) ifName) interfaces) in
      if String.eqb (if_Name iface) "" then false
      else if allb addresses (fun address =>
                allb (if_Addresses iface) (fun it => negb (NetipPrefix.Overlaps address it)))
      then false
      else InterfaceAddressItem_loop interfaces entries'
  end.
Definition InterfaceAddressItem_Match (svc : Services) (r : InterfaceAddressItem) (metadata : InboundContext) : bool :=
  InterfaceAddressItem_loop (svc_Interfaces svc) (map_to_list (interfaceAddresses r)).

Record NetworkInterfaceAddressItem := mkNetworkInterfaceAddressItem {
  nia_interfaceAddresses : gmap Z (list Prefix); nia_description : string }.
Definition NewNetworkInterfaceAddressItem (entries : list (Z * list Prefix)) : NetworkInterfaceAddressItem :=
  mkNetworkInterfaceAddressItem
    (foldl (fun m entry => <[entry.1 := entry.2]> m) ∅ entries)
    ("network_interface_address=[" +:+
     join " " (map (fun entry : Z * list Prefix =>
       InterfaceType_String entry.1 +:+ "=" +:+ join "," (map Prefix_String entry.2)) entries) +:+ "]").
Fixpoint NetworkInterfaceAddressItem_loop (interfaces : list NetworkInterface) (myInterfaces : list string)
    (entries : list (Z * list Prefix)) : bool :=
  match entries with
  | [] => true
  | (ifType, addresses) :: entries' =>
      if anyb interfaces (fun networkInterface =>
           negb (bool_decide (if_Name (ni_Interface networkInterface) ∈ myInterfaces)) &&
           (ni_Type networkInterface =? ifType) &&
           anyb (if_Addresses (ni_Interface networkInterface)) (fun it =>
             anyb addresses (fun prefix => NetipPrefix.Overlaps prefix it)))
      then NetworkInterfaceAddressItem_loop interfaces myInterfaces entries'
      else false
  end.
Definition NetworkInterfaceAddressItem_Match (svc : Services) (r : NetworkInterfaceAddressItem)
    (metadata : InboundContext) : bool :=
  NetworkInterfaceAddressItem_loop (svc_NetworkInterfaces svc) (svc_MyInterfaces svc)
    (map_to_list (nia_interfaceAddresses r)).

Record DefaultInterfaceAddressItem := mkDefaultInterfaceAddressItem { dia_interfaceAddresses : list Prefix }.
Definition NewDefaultInterfaceAddressItem (interfaceAddresses : list Prefix) : DefaultInterfaceAddressItem :=
  mkDefaultInterfaceAddressItem interfaceAddresses.
Definition DefaultInterfaceAddressItem_Match (svc : Services) (r : DefaultInterfaceAddressItem)
    (metadata : InboundContext) : bool :=
  match svc_DefaultInterface svc with
  | None => false
  | Some defaultInterface =>
      allb (dia_interfaceAddresses r) (fun address =>
        negb (allb (if_Addresses defaultInterface) (fun it => negb (NetipPrefix.Overlaps address it))))
  end.
Definition DefaultInterfaceAddressItem_String (r : DefaultInterfaceAddressItem) : string :=
  describeShort "default_interface_address=" (map Prefix_String (dia_interfaceAddresses r)) "...".

(** [adapter.OutboundWithPreferredRoutes] and [adapter.DNSTransportWithPreferredDomain]. *)
Record PreferredRoutes := mkPreferredRoutes {
  PreferredDomain : string -> bool; PreferredAddress : Addr -> bool }.

Record PreferredByItem := mkPreferredByItem {
  outboundTags : list string; pb_outbounds : list PreferredRoutes }.
Definition NewPreferredByItem (outboundTags : list string) : PreferredByItem :=
  mkPreferredByItem outboundTags [].
(** [lookup] is the outbound manager: not found, found without preferred
    routes (with the outbound's type), or found with them. *)
Definition PreferredByItem_Start (lookup : string -> option (string + PreferredRoutes))
    (r : PreferredByItem) : result PreferredByItem :=
  outbounds ← mapR (fun outboundTag =>
    match lookup outboundTag with
    | None => Err (E_New ("outbound not found: " +:+ outboundTag))
    | Some (inl type) => Err (E_New ("outbound type does not support preferred routes: " +:+ type))
    | Some (inr outbound) => Ok outbound
    end) (outboundTags r);
  Ok (r {{ pb_outbounds := pb_outbounds r ++ outbounds }}).
Definition PreferredByItem_Match (r : PreferredByItem) (metadata : InboundContext) : bool :=
  let host := domainHost metadata in
  if negb (String.eqb host "") && anyb (pb_outbounds r) (fun outbound => PreferredDomain outbound host) then true
  else if IsIP (ic_Destination metadata) &&
          anyb (pb_outbounds r) (fun outbound => PreferredAddress outbound (sa_Addr (ic_Destination metadata))) then true
  else if nonempty (ic_DestinationAddresses metadata) &&
          anyb (ic_DestinationAddresses metadata) (fun address =>
            anyb (pb_outbounds r) (fun outbound => PreferredAddress outbound address)) then true
  else false.
Definition PreferredByItem_String (r : PreferredByItem) : string :=
  describeList "preferred_by=" (outboundTags r).

Record PreferredByDNSItem := mkPreferredByDNSItem {
  transportTags : list string; pd_transports : list (string -> bool) }.
Definition NewPreferredByDNSItem (transportTags : list string) : PreferredByDNSItem :=
  mkPreferredByDNSItem transportTags [].
Definition PreferredByDNSItem_Start (lookup : string -> option (string + (string -> bool)))
    (r : PreferredByDNSItem) : result PreferredByDNSItem :=
  transports ← mapR (fun transportTag =>
    match lookup transportTag with
    | None => Err (E_New ("DNS server not found: " +:+ transportTag))
    | Some (inl type) => Err (E_New ("DNS server type does not support preferred_by: " +:+ type))
    | Some (inr transport) => Ok transport
    end) (transportTags r);
  Ok (r {{ pd_transports := pd_transports r ++ transports }}).
Definition PreferredByDNSItem_Match (r : PreferredByDNSItem) (metadata : InboundContext) : bool :=
  if String.eqb (domainHost metadata) "" then false
  else
    let canonical := CanonicalName (domainHost metadata) in
    anyb (pd_transports r) (fun transport => transport canonical).
Definition PreferredByDNSItem_String (r : PreferredByDNSItem) : string :=
  describeList "preferred_by=" (transportTags r).

(** * DNS response items *)

Record DNSResponseRCodeItem := mkDNSResponseRCodeItem { rcode : Z }.
Definition DNSResponseRCodeItem_Match (r : DNSResponseRCodeItem) (metadata : InboundContext) : bool :=
  match ic_DNSResponse metadata with
  | None => false
  | Some response => msg_Rcode response =? rcode r
  end.
Definition DNSResponseRCodeItem_String (r : DNSResponseRCodeItem) : string :=
  "response_rcode=" +:+ RcodeToString (rcode r).

(** [option.DNSRecordOptions]: the record, nil when unset. *)
Definition DNSRecordOptions := option RR.
Definition DNSRecordOptions_Match (o : DNSRecordOptions) (record : RR) : bool :=
  match o with None => false | Some rr => IsDuplicate rr record end.

(** The three selectors of [rule_item_response_record.go]. *)
Inductive responseSection := dnsResponseAnswers | dnsResponseNS | dnsResponseExtra.
Definition select (s : responseSection) (message : Msg) : list RR :=
  match s with
  | dnsResponseAnswers => msg_Answer message
  | dnsResponseNS => msg_Ns message
  | dnsResponseExtra => msg_Extra message
  end.

Record DNSResponseRecordItem := mkDNSResponseRecordItem {
  field : string; records : list DNSRecordOptions; selector : responseSection }.
Definition NewDNSResponseRecordItem (field : string) (records : list DNSRecordOptions)
    (selector : responseSection) : DNSResponseRecordItem :=
  mkDNSResponseRecordItem field records selector.
Definition DNSResponseRecordItem_Match (r : DNSResponseRecordItem) (metadata : InboundContext) : bool :=
  match ic_DNSResponse metadata with
  | None => false
  | Some response =>
      let actual := select (selector r) response in
      anyb (records r) (fun expected => anyb actual (DNSRecordOptions_Match expected))
  end.
Definition DNSResponseRecordItem_String (r : DNSResponseRecordItem) : string :=
  field r +:+ "=[" +:+ join " " (flat_map (fun record =>
    match record with Some rr => [RR_String rr] | None => [] end) (records r)) +:+ "]".

(** * The [RuleItem] interface *)

Inductive RuleItem :=
| ItemInbound (r : InboundItem)
| ItemIPVersion (r : IPVersionItem)
| ItemQueryType (r : QueryTypeItem)
| ItemNetwork (r : NetworkItem)
| ItemAuthUser (r : AuthUserItem)
| ItemProtocol (r : ProtocolItem)
| ItemClient (r : ClientItem)
| ItemDomain (r : DomainItem)
| ItemDomainKeyword (r : DomainKeywordItem)
| ItemDomainRegex (r : DomainRegexItem)
| ItemAdGuardDomain (r : AdGuardDomainItem)
| ItemIPCIDR (r : IPCIDRItem)
| ItemIPIsPrivate (r : IPIsPrivateItem)
| ItemIPAcceptAny
| ItemPort (r : PortItem)
| ItemPortRange (r : PortRangeItem)
| ItemProcess (r : ProcessItem)
| ItemProcessPath (r : ProcessPathItem)
| ItemProcessPathRegex (r : ProcessPathRegexItem)
| ItemPackageName (r : PackageNameItem)
| ItemPackageNameRegex (r : PackageNameRegexItem)
| ItemUser (r : UserItem)
| ItemUserId (r : UserIdItem)
| ItemOutbound (r : OutboundItem)
| ItemClashMode (r : ClashModeItem)
| ItemNetworkType (r : NetworkTypeItem)
| ItemNetworkIsExpensive
| ItemNetworkIsConstrained
| ItemWIFISSID (r : WIFISSIDItem)
| ItemWIFIBSSID (r : WIFIBSSIDItem)
| ItemInterfaceAddress (r : InterfaceAddressItem)
| ItemNetworkInterfaceAddress (r : NetworkInterfaceAddressItem)
| ItemDefaultInterfaceAddress (r : DefaultInterfaceAddressItem)
| ItemSourceMACAddress (r : SourceMACAddressItem)
| ItemSourceHostname (r : SourceHostnameItem)
| ItemPreferredBy (r : PreferredByItem)
| ItemPreferredByDNS (r : PreferredByDNSItem)
| ItemResponseRCode (r : DNSResponseRCodeItem)
| ItemResponseRecord (r : DNSResponseRecordItem).

Definition RuleItem_Match (svc : Services) (item : RuleItem) (metadata : InboundContext) : bool :=
  match item with
  | ItemInbound r => InboundItem_Match r metadata
  | ItemIPVersion r => IPVersionItem_Match r metadata
  | ItemQueryType r => QueryTypeItem_Match r metadata
  | ItemNetwork r => NetworkItem_Match r metadata
  | ItemAuthUser r => AuthUserItem_Match r metadata
  | ItemProtocol r => ProtocolItem_Match r metadata
  | ItemClient r => ClientItem_Match r metadata
  | ItemDomain r => DomainItem_Match r metadata
  | ItemDomainKeyword r => DomainKeywordItem_Match r metadata
  | ItemDomainRegex r => DomainRegexItem_Match r metadata
  | ItemAdGuardDomain r => AdGuardDomainItem_Match r metadata
  | ItemIPCIDR r => IPCIDRItem_Match r metadata
  | ItemIPIsPrivate r => IPIsPrivateItem_Match r metadata
  | ItemIPAcceptAny => IPAcceptAnyItem_Match metadata
  | ItemPort r => PortItem_Match r metadata
  | ItemPortRange r => PortRangeItem_Match r metadata
  | ItemProcess r => ProcessItem_Match r metadata
  | ItemProcessPath r => ProcessPathItem_Match svc r metadata
  | ItemProcessPathRegex r => ProcessPathRegexItem_Match r metadata
  | ItemPackageName r => PackageNameItem_Match r metadata
  | ItemPackageNameRegex r => PackageNameRegexItem_Match r metadata
  | ItemUser r => UserItem_Match r metadata
  | ItemUserId r => UserIdItem_Match r metadata
  | ItemOutbound r => OutboundItem_Match r metadata
  | ItemClashMode r => ClashModeItem_Match svc r metadata
  | ItemNetworkType r => NetworkTypeItem_Match svc r metadata
  | ItemNetworkIsExpensive => NetworkIsExpensiveItem_Match svc metadata
  | ItemNetworkIsConstrained => NetworkIsConstrainedItem_Match svc metadata
  | ItemWIFISSID r => WIFISSIDItem_Match svc r metadata
  | ItemWIFIBSSID r => WIFIBSSIDItem_Match svc r metadata
  | ItemInterfaceAddress r => InterfaceAddressItem_Match svc r metadata
  | ItemNetworkInterfaceAddress r => NetworkInterfaceAddressItem_Match svc r metadata
  | ItemDefaultInterfaceAddress r => DefaultInterfaceAddressItem_Match svc r metadata
  | ItemSourceMACAddress r => SourceMACAddressItem_Match r metadata
  | ItemSourceHostname r => SourceHostnameItem_Match r metadata
  | ItemPreferredBy r => PreferredByItem_Match r metadata
  | ItemPreferredByDNS r => PreferredByDNSItem_Match r metadata
  | ItemResponseRCode r => DNSResponseRCodeItem_Match r metadata
  | ItemResponseRecord r => DNSResponseRecordItem_Match r metadata
  end.

Definition RuleItem_String (item : RuleItem) : string :=
  match item with
  | ItemInbound r => InboundItem_String r
  | ItemIPVersion r => IPVersionItem_String r
  | ItemQueryType r => QueryTypeItem_String r
  | ItemNetwork r => NetworkItem_String r
  | ItemAuthUser r => AuthUserItem_String r
  | ItemProtocol r => ProtocolItem_String r
  | ItemClient r => ClientItem_String r
  | ItemDomain r => di_description r
  | ItemDomainKeyword r => DomainKeywordItem_String r
  | ItemDomainRegex r => dr_description r
  | ItemAdGuardDomain r => AdGuardDomainItem_String r
  | ItemIPCIDR r => cidr_description r
  | ItemIPIsPrivate r => IPIsPrivateItem_String r
  | ItemIPAcceptAny => "ip_accept_any=true"
  | ItemPort r => PortItem_String r
  | ItemPortRange r => PortRangeItem_String r
  | ItemProcess r => ProcessItem_String r
  | ItemProcessPath r => ProcessPathItem_String r
  | ItemProcessPathRegex r => ppr_description r
  | ItemPackageName r => PackageNameItem_String r
  | ItemPackageNameRegex r => pnr_description r
  | ItemUser r => UserItem_String r
  | ItemUserId r => UserIdItem_String r
  | ItemOutbound r => OutboundItem_String r
  | ItemClashMode r => ClashModeItem_String r
  | ItemNetworkType r => NetworkTypeItem_String r
  | ItemNetworkIsExpensive => NetworkIsExpensiveItem_String
  | ItemNetworkIsConstrained => NetworkIsConstrainedItem_String
  | ItemWIFISSID r => WIFISSIDItem_String r
  | ItemWIFIBSSID r => WIFIBSSIDItem_String r
  | ItemInterfaceAddress r => ia_description r
  | ItemNetworkInterfaceAddress r => nia_description r
  | ItemDefaultInterfaceAddress r => DefaultInterfaceAddressItem_String r
  | ItemSourceMACAddress r => SourceMACAddressItem_String r
  | ItemSourceHostname r => SourceHostnameItem_String r
  | ItemPreferredBy r => PreferredByItem_String r
  | ItemPreferredByDNS r => PreferredByDNSItem_String r
  | ItemResponseRCode r => DNSResponseRCodeItem_String r
  | ItemResponseRecord r => DNSResponseRecordItem_String r
  end.

End items.
