(* ===== verification/RuleAction.v ===== *)
(** [route/rule/rule_action.go], [adapter/rule.go] and the action options of
    [option/rule_action.go]: what a matched rule does. *)
From Stdlib Require Import Sorted.
From S2P Require Import Prelude Netip Metadata RuleItem.

(** [constant/rule.go] *)
Definition RuleTypeDefault : string := "default".
Definition RuleTypeLogical : string := "logical".
Definition LogicalTypeAnd : string := "and".
Definition LogicalTypeOr : string := "or".

Definition RuleActionTypeRoute : string := "route".
Definition RuleActionTypeRouteOptions : string := "route-options".
Definition RuleActionTypeEvaluate : string := "evaluate".
Definition RuleActionTypeRespond : string := "respond".
Definition RuleActionTypeDirect : string := "direct".
Definition RuleActionTypeBypass : string := "bypass".
Definition RuleActionTypeReject : string := "reject".
Definition RuleActionTypeHijackDNS : string := "hijack-dns".
Definition RuleActionTypeSniff : string := "sniff".
Definition RuleActionTypeResolve : string := "resolve".
Definition RuleActionTypePredefined : string := "predefined".

Definition RuleActionRejectMethodDefault : string := "default".
Definition RuleActionRejectMethodDrop : string := "drop".
Definition RuleActionRejectMethodReply : string := "reply".

(** * Actions *)

Record RuleActionRouteOptions := mkRouteOptions {
  OverrideAddress : Socksaddr;
  OverridePort : Z;
  NetworkStrategy : option Z;
  NetworkType : list Z;
  FallbackNetworkType : list Z;
  FallbackDelay : Z;
  UDPDisableDomainUnmapping : bool;
  UDPConnect : bool;
  UDPTimeout : Z;
  TLSFragment : bool;
  TLSFragmentFallbackDelay : Z;
  TLSRecordFragment : bool;
  TLSSpoof : string;
  TLSSpoofMethod : Z }.

Record RuleActionDNSRouteOptions := mkDNSRouteOptions {
  dro_Strategy : Z;
  dro_Timeout : Z;
  dro_DisableCache : bool;
  dro_DisableOptimisticCache : bool;
  dro_RewriteTTL : option Z;
  dro_ClientSubnet : Prefix }.

Inductive StreamSniffer :=
| TLSClientHello | HTTPHost | StreamDomainNameQuery | BitTorrent | SSH | RDP.
Inductive PacketSniffer :=
| QUICClientHello | DomainNameQuery | STUNMessage | UTP | UDPTracker | DTLSRecord | NTP.

Record RuleActionSniff := mkRuleActionSniff {
  SnifferNames : list string;
  StreamSniffers : list StreamSniffer;
  PacketSniffers : list PacketSniffer;
  sniff_Timeout : Z;
  OverrideDestination : bool }.

Record RuleActionResolve := mkRuleActionResolve {
  res_Server : string;
  res_Timeout : Z;
  res_Strategy : Z;
  res_DisableCache : bool;
  res_DisableOptimisticCache : bool;
  res_RewriteTTL : option Z;
  res_ClientSubnet : Prefix }.

Record RuleActionPredefined := mkRuleActionPredefined {
  pre_Rcode : Z; pre_Answer : list RR; pre_Ns : list RR; pre_Extra : list RR }.

(** The [adapter.RuleAction] values.  A reject action's flood counter is not
    part of the rule: it is the state [Reject_Error] threads. *)
Inductive RuleAction :=
| ActRoute (Outbound : string) (options : RuleActionRouteOptions)
| ActBypass (Outbound : string) (options : RuleActionRouteOptions)
| ActRouteOptions (options : RuleActionRouteOptions)
| ActDirect (description : string)
| ActReject (Method : string) (NoDrop : bool)
| ActHijackDNS
| ActSniff (sniff : RuleActionSniff)
| ActResolve (resolve : RuleActionResolve)
| ActDNSRoute (Server : string) (options : RuleActionDNSRouteOptions)
| ActEvaluate (Server : string) (options : RuleActionDNSRouteOptions)
| ActRespond
| ActDNSRouteOptions (options : RuleActionDNSRouteOptions)
| ActPredefined (predefined : RuleActionPredefined).

Definition RuleAction_Type (a : RuleAction) : string :=
  match a with
  | ActRoute _ _ => RuleActionTypeRoute
  | ActBypass _ _ => RuleActionTypeBypass
  | ActRouteOptions _ => RuleActionTypeRouteOptions
  | ActDirect _ => RuleActionTypeDirect
  | ActReject _ _ => RuleActionTypeReject
  | ActHijackDNS => RuleActionTypeHijackDNS
  | ActSniff _ => RuleActionTypeSniff
  | ActResolve _ => RuleActionTypeResolve
  | ActDNSRoute _ _ => RuleActionTypeRoute
  | ActEvaluate _ _ => RuleActionTypeEvaluate
  | ActRespond => RuleActionTypeRespond
  | ActDNSRouteOptions _ => RuleActionTypeRouteOptions
  | ActPredefined _ => RuleActionTypePredefined
  end.

(** [adapter.IsFinalAction] *)
Definition IsFinalAction (a : RuleAction) : bool :=
  let t := RuleAction_Type a in
  negb (String.eqb t RuleActionTypeSniff || String.eqb t RuleActionTypeResolve
        || String.eqb t RuleActionTypeEvaluate).

(** * Options *)

Record RawRouteOptionsActionOptions := mkRawRouteOptions {
  opt_OverrideAddress : string;
  opt_OverridePort : Z;
  opt_NetworkStrategy : option Z;
  opt_FallbackDelay : Z;
  opt_UDPDisableDomainUnmapping : bool;
  opt_UDPConnect : bool;
  opt_UDPTimeout : Z;
  opt_TLSFragment : bool;
  opt_TLSFragmentFallbackDelay : Z;
  opt_TLSRecordFragment : bool;
  opt_TLSSpoof : string;
  opt_TLSSpoofMethod : string }.

#[global] Instance RawRouteOptionsActionOptions_eq_dec : EqDecision RawRouteOptionsActionOptions.
Proof. solve_decision. Defined.

Definition rawRouteOptionsZero : RawRouteOptionsActionOptions :=
  mkRawRouteOptions "" 0 None 0 false false 0 false 0 false "" "".

Record RouteActionOptions := mkRouteActionOptions {
  opt_Outbound : string; opt_Raw : RawRouteOptionsActionOptions }.

Record DNSRouteOptionsActionOptions := mkDNSRouteOptionsActionOptions {
  dopt_Strategy : Z;
  dopt_Timeout : Z;
  dopt_DisableCache : bool;
  dopt_DisableOptimisticCache : bool;
  dopt_RewriteTTL : option Z;
  dopt_ClientSubnet : option Prefix }.

#[global] Instance DNSRouteOptionsActionOptions_eq_dec : EqDecision DNSRouteOptionsActionOptions.
Proof. solve_decision. Defined.

Definition dnsRouteOptionsZero : DNSRouteOptionsActionOptions :=
  mkDNSRouteOptionsActionOptions 0 0 false false None None.

(** [option.DNSRouteActionOptions], the fields above with a server. *)
Record DNSRouteActionOptions := mkDNSRouteActionOptions {
  dopt_Server : string; dopt_Common : DNSRouteOptionsActionOptions }.

Record RejectActionOptions := mkRejectActionOptions { opt_Method : string; opt_NoDrop : bool }.
Record RouteActionSniff := mkRouteActionSniff { opt_Sniffer : slice string; opt_SniffTimeout : Z }.

Record RouteActionResolve := mkRouteActionResolve {
  ropt_Server : string;
  ropt_Timeout : Z;
  ropt_Strategy : Z;
  ropt_DisableCache : bool;
  ropt_DisableOptimisticCache : bool;
  ropt_RewriteTTL : option Z;
  ropt_ClientSubnet : option Prefix }.

(** [option.DirectActionOptions]: the dialer fields [Descriptions] shows and
    the one [UnmarshalJSON] refuses. *)
Record DirectActionOptions := mkDirectActionOptions {
  dir_Detour : string;
  dir_BindInterface : string;
  dir_Inet4BindAddress : option Addr;
  dir_Inet6BindAddress : option Addr;
  dir_RoutingMark : Z;
  dir_ReuseAddr : bool;
  dir_ConnectTimeout : Z;
  dir_TCPFastOpen : bool;
  dir_TCPMultiPath : bool;
  dir_UDPFragment : option bool;
  dir_DomainStrategy : Z;
  dir_FallbackDelay : Z }.

(** [option.RuleAction] *)
Record RuleActionOptions := mkRuleActionOptions {
  opt_Action : string;
  opt_RouteOptions : RouteActionOptions;
  opt_RouteOptionsOptions : RawRouteOptionsActionOptions;
  opt_DirectOptions : DirectActionOptions;
  opt_BypassOptions : RouteActionOptions;
  opt_RejectOptions : RejectActionOptions;
  opt_SniffOptions : RouteActionSniff;
  opt_ResolveOptions : RouteActionResolve }.

Record DNSRouteActionPredefined := mkDNSRouteActionPredefined {
  dopt_Rcode : option Z; dopt_Answer : slice RR; dopt_Ns : slice RR; dopt_Extra : slice RR }.

(** [option.DNSRuleAction] *)
Record DNSRuleActionOptions := mkDNSRuleActionOptions {
  dopt_Action : string;
  dopt_RouteOptions : DNSRouteActionOptions;
  dopt_RouteOptionsOptions : DNSRouteOptionsActionOptions;
  dopt_RejectOptions : RejectActionOptions;
  dopt_PredefinedOptions : DNSRouteActionPredefined }.

(** ** The checks [UnmarshalJSON] makes on decoded values *)

Definition RouteOptions_UnmarshalJSON (r : RawRouteOptionsActionOptions) : result RawRouteOptionsActionOptions :=
  if decide (r = rawRouteOptionsZero) then Err (E_New "empty route option action")
  else if opt_TLSFragment r && opt_TLSRecordFragment r
  then Err (E_New "`tls_fragment` and `tls_record_fragment` are mutually exclusive")
  else Ok r.

Definition DNSRouteOptions_UnmarshalJSON (r : DNSRouteOptionsActionOptions) : result DNSRouteOptionsActionOptions :=
  if decide (r = dnsRouteOptionsZero) then Err (E_New "empty DNS route option action") else Ok r.

Definition DirectOptions_UnmarshalJSON (d : DirectActionOptions) : result DirectActionOptions :=
  if negb (String.eqb (dir_Detour d) "") then Err (E_New "detour is not available in the current context")
  else Ok d.

Definition RejectOptions_UnmarshalJSON (r : RejectActionOptions) : result RejectActionOptions :=
  r ← (if String.eqb (opt_Method r) "" || String.eqb (opt_Method r) RuleActionRejectMethodDefault
       then Ok (r {{ opt_Method := RuleActionRejectMethodDefault }})
       else if String.eqb (opt_Method r) RuleActionRejectMethodDrop then Ok r
       else if String.eqb (opt_Method r) RuleActionRejectMethodReply then Ok r
       else Err (E_New ("unknown reject method: " +:+ opt_Method r)));
  if String.eqb (opt_Method r) RuleActionRejectMethodDrop && opt_NoDrop r
  then Err (E_New "no_drop is not available in current context") else Ok r.

(** The JSON decoder has filled every field; the selected one is checked. *)
Definition RuleAction_UnmarshalJSON (r : RuleActionOptions) : result RuleActionOptions :=
  let t := opt_Action r in
  if String.eqb t "" || String.eqb t RuleActionTypeRoute then Ok (r {{ opt_Action := RuleActionTypeRoute }})
  else if String.eqb t RuleActionTypeRouteOptions then
    v ← RouteOptions_UnmarshalJSON (opt_RouteOptionsOptions r); Ok (r {{ opt_RouteOptionsOptions := v }})
  else if String.eqb t RuleActionTypeDirect then
    v ← DirectOptions_UnmarshalJSON (opt_DirectOptions r); Ok (r {{ opt_DirectOptions := v }})
  else if String.eqb t RuleActionTypeBypass then Ok r
  else if String.eqb t RuleActionTypeReject then
    v ← RejectOptions_UnmarshalJSON (opt_RejectOptions r); Ok (r {{ opt_RejectOptions := v }})
  else if String.eqb t RuleActionTypeHijackDNS then Ok r
  else if String.eqb t RuleActionTypeSniff then Ok r
  else if String.eqb t RuleActionTypeResolve then Ok r
  else Err (E_New ("unknown rule action: " +:+ t)).

Definition DNSRuleAction_UnmarshalJSONContext (r : DNSRuleActionOptions) : result DNSRuleActionOptions :=
  let t := dopt_Action r in
  if String.eqb t "" || String.eqb t RuleActionTypeRoute then Ok (r {{ dopt_Action := RuleActionTypeRoute }})
  else if String.eqb t RuleActionTypeEvaluate then Ok r
  else if String.eqb t RuleActionTypeRespond then Ok r
  else if String.eqb t RuleActionTypeRouteOptions then
    v ← DNSRouteOptions_UnmarshalJSON (dopt_RouteOptionsOptions r); Ok (r {{ dopt_RouteOptionsOptions := v }})
  else if String.eqb t RuleActionTypeReject then
    v ← RejectOptions_UnmarshalJSON (dopt_RejectOptions r); Ok (r {{ dopt_RejectOptions := v }})
  else if String.eqb t RuleActionTypePredefined then Ok r
  else Err (E_New ("unknown DNS rule action: " +:+ t)).

(** * Building actions from options *)

(** [common/tlsspoof/spoof.go] *)
Definition ParseMethod (s : string) : result Z :=
  if String.eqb s "" || String.eqb s "wrong-sequence" then Ok 0
  else if String.eqb s "wrong-checksum" then Ok 1
  else if String.eqb s "wrong-ack" then Ok 2
  else if String.eqb s "wrong-md5" then Ok 3
  else if String.eqb s "wrong-timestamp" then Ok 4
  else Err (E_New ("tls_spoof: unknown method: " +:+ s)).

Definition ParseOptions (platformSupported : bool) (spoof method : string) : result (string * Z) :=
  if String.eqb spoof ""
  then if negb (String.eqb method "") then Err (E_New "spoof_method requires spoof") else Ok ("", 0)
  else if negb platformSupported then Err (E_New "tls_spoof is not supported on this platform")
  else m ← ParseMethod method; Ok (spoof, m).

(** [RuleActionSniff.build] on one sniffer name. *)
Definition buildSniffer (r : RuleActionSniff) (name : string) : result RuleActionSniff :=
  let stream s := r {{ StreamSniffers := StreamSniffers r ++ [s] }} in
  let packet s := r {{ PacketSniffers := PacketSniffers r ++ [s] }} in
  if String.eqb name "tls" then Ok (stream TLSClientHello)
  else if String.eqb name "http" then Ok (stream HTTPHost)
  else if String.eqb name "quic" then Ok (packet QUICClientHello)
  else if String.eqb name "dns" then
    Ok (r {{ StreamSniffers := StreamSniffers r ++ [StreamDomainNameQuery];
             PacketSniffers := PacketSniffers r ++ [DomainNameQuery] }})
  else if String.eqb name "stun" then Ok (packet STUNMessage)
  else if String.eqb name "bittorrent" then
    Ok (r {{ StreamSniffers := StreamSniffers r ++ [BitTorrent];
             PacketSniffers := PacketSniffers r ++ [UTP; UDPTracker] }})
  else if String.eqb name "dtls" then Ok (packet DTLSRecord)
  else if String.eqb name "ssh" then Ok (stream SSH)
  else if String.eqb name "rdp" then Ok (stream RDP)
  else if String.eqb name "ntp" then Ok (packet NTP)
  else Err (E_New ("unknown sniffer: " +:+ name)).

Fixpoint buildSniffers (r : RuleActionSniff) (names : list string) : result RuleActionSniff :=
  match names with
  | [] => Ok r
  | name :: names' => r' ← buildSniffer r name; buildSniffers r' names'
  end.

Definition RuleActionSniff_build (r : RuleActionSniff) : result RuleActionSniff :=
  buildSniffers r (SnifferNames r).

(** The other packages [NewRuleAction] and the descriptions use. *)
Class ActionLibs := {
  ParseSocksaddrHostPort : string -> Z -> Socksaddr;
  AddrString : Socksaddr -> string;
  tlsspoof_PlatformSupported : bool;
  dialer_New : DirectActionOptions -> option GoError;
  Addr_String : Addr -> string;
  Duration_String : Z -> string;
  Sprintf_0x : Z -> string
}.

(** [constant.DomainStrategy] and its text in [option/types.go]. *)
Definition DomainStrategyAsIS : Z := 0.
Definition DomainStrategyPreferIPv4 : Z := 1.
Definition DomainStrategyPreferIPv6 : Z := 2.
Definition DomainStrategyIPv4Only : Z := 3.
Definition DomainStrategyIPv6Only : Z := 4.

Definition DomainStrategy_String (s : Z) : result string :=
  if s =? DomainStrategyAsIS then Ok ""
  else if s =? DomainStrategyPreferIPv4 then Ok "prefer_ipv4"
  else if s =? DomainStrategyPreferIPv6 then Ok "prefer_ipv6"
  else if s =? DomainStrategyIPv4Only then Ok "ipv4_only"
  else if s =? DomainStrategyIPv6Only then Ok "ipv6_only"
  else Panic "unknown domain strategy".

Section build.
Context `{Libs} `{ActionLibs}.

Definition newRuleActionRouteOptions (options : RawRouteOptionsActionOptions) : result RuleActionRouteOptions :=
  '(spoof, spoofMethod) ←
    ParseOptions tlsspoof_PlatformSupported (opt_TLSSpoof options) (opt_TLSSpoofMethod options);
  Ok {| OverrideAddress := ParseSocksaddrHostPort (opt_OverrideAddress options) 0;
        OverridePort := opt_OverridePort options;
        NetworkStrategy := opt_NetworkStrategy options;
        NetworkType := [];
        FallbackNetworkType := [];
        FallbackDelay := opt_FallbackDelay options;
        UDPDisableDomainUnmapping := opt_UDPDisableDomainUnmapping options;
        UDPConnect := opt_UDPConnect options;
        UDPTimeout := opt_UDPTimeout options;
        TLSFragment := opt_TLSFragment options;
        TLSFragmentFallbackDelay := opt_TLSFragmentFallbackDelay options;
        TLSRecordFragment := opt_TLSRecordFragment options;
        TLSSpoof := spoof;
        TLSSpoofMethod := spoofMethod |}.

(** One optional entry of a description list. *)
Definition describeIf (c : bool) (s : string) : list string := if c then [s] else [].

(** [DirectActionOptions.Descriptions] *)
Definition DirectActionOptions_Descriptions (d : DirectActionOptions) : result (list string) :=
  strategy ← (if negb (dir_DomainStrategy d =? DomainStrategyAsIS)
              then s ← DomainStrategy_String (dir_DomainStrategy d); Ok ["domain_strategy=" +:+ s]
              else Ok []);
  Ok (describeIf (negb (String.eqb (dir_BindInterface d) "")) ("bind_interface=" +:+ dir_BindInterface d)
      ++ match dir_Inet4BindAddress d with
         | Some a => ["inet4_bind_address=" +:+ Addr_String a] | None => [] end
      ++ match dir_Inet6BindAddress d with
         | Some a => ["inet6_bind_address=" +:+ Addr_String a] | None => [] end
      ++ describeIf (negb (dir_RoutingMark d =? 0)) ("routing_mark=" +:+ Sprintf_0x (dir_RoutingMark d))
      ++ describeIf (dir_ReuseAddr d) "reuse_addr"
      ++ describeIf (negb (dir_ConnectTimeout d =? 0))
           ("connect_timeout=" +:+ Duration_String (dir_ConnectTimeout d))
      ++ describeIf (dir_TCPFastOpen d) "tcp_fast_open"
      ++ describeIf (dir_TCPMultiPath d) "tcp_multi_path"
      ++ match dir_UDPFragment d with
         | Some b => ["udp_fragment=" +:+ (if b then "true" else "false")] | None => [] end
      ++ strategy
      ++ describeIf (negb (dir_FallbackDelay d =? 0))
           ("fallback_delay=" +:+ Duration_String (dir_FallbackDelay d))).

Definition directDescription (descriptions : list string) : string :=
  match descriptions with
  | [] => ""
  | [a] => "(" +:+ a +:+ ")"
  | [a; b] => "(" +:+ a +:+ "," +:+ b +:+ ")"
  | a :: b :: _ => "(" +:+ a +:+ "," +:+ b +:+ ",...)"
  end.

(** [None] is the nil action of a rule without one. *)
Definition NewRuleAction (action : RuleActionOptions) : result (option RuleAction) :=
  let t := opt_Action action in
  if String.eqb t "" then Ok None
  else if String.eqb t RuleActionTypeRoute then
    routeOptions ← newRuleActionRouteOptions (opt_Raw (opt_RouteOptions action));
    Ok (Some (ActRoute (opt_Outbound (opt_RouteOptions action)) routeOptions))
  else if String.eqb t RuleActionTypeRouteOptions then
    routeOptions ← newRuleActionRouteOptions (opt_RouteOptionsOptions action);
    Ok (Some (ActRouteOptions routeOptions))
  else if String.eqb t RuleActionTypeBypass then
    routeOptions ← newRuleActionRouteOptions (opt_Raw (opt_BypassOptions action));
    Ok (Some (ActBypass (opt_Outbound (opt_BypassOptions action)) routeOptions))
  else if String.eqb t RuleActionTypeDirect then
    match dialer_New (opt_DirectOptions action) with
    | Some err => Err err
    | None =>
        descriptions ← DirectActionOptions_Descriptions (opt_DirectOptions action);
        Ok (Some (ActDirect (directDescription descriptions)))
    end
  else if String.eqb t RuleActionTypeReject then
    Ok (Some (ActReject (opt_Method (opt_RejectOptions action)) (opt_NoDrop (opt_RejectOptions action))))
  else if String.eqb t RuleActionTypeHijackDNS then Ok (Some ActHijackDNS)
  else if String.eqb t RuleActionTypeSniff then
    sniffAction ← RuleActionSniff_build
      (mkRuleActionSniff (elems (opt_Sniffer (opt_SniffOptions action))) [] []
                         (opt_SniffTimeout (opt_SniffOptions action)) false);
    Ok (Some (ActSniff sniffAction))
  else if String.eqb t RuleActionTypeResolve then
    let o := opt_ResolveOptions action in
    Ok (Some (ActResolve
      {| res_Server := ropt_Server o;
         res_Timeout := ropt_Timeout o;
         res_Strategy := ropt_Strategy o;
         res_DisableCache := ropt_DisableCache o;
         res_DisableOptimisticCache := ropt_DisableOptimisticCache o;
         res_RewriteTTL := ropt_RewriteTTL o;
         res_ClientSubnet := default prefixZero (ropt_ClientSubnet o) |}))
  else Panic ("unknown rule action: " +:+ t).

(** The [RuleActionDNSRouteOptions] literal of [NewDNSRuleAction]. *)
Definition newDNSRouteOptions (o : DNSRouteOptionsActionOptions) : RuleActionDNSRouteOptions :=
  {| dro_Strategy := dopt_Strategy o;
     dro_Timeout := dopt_Timeout o;
     dro_DisableCache := dopt_DisableCache o;
     dro_DisableOptimisticCache := dopt_DisableOptimisticCache o;
     dro_RewriteTTL := dopt_RewriteTTL o;
     dro_ClientSubnet := default prefixZero (dopt_ClientSubnet o) |}.

Definition NewDNSRuleAction (action : DNSRuleActionOptions) : result (option RuleAction) :=
  let t := dopt_Action action in
  if String.eqb t "" then Ok None
  else if String.eqb t RuleActionTypeRoute then
    Ok (Some (ActDNSRoute (dopt_Server (dopt_RouteOptions action))
                (newDNSRouteOptions (dopt_Common (dopt_RouteOptions action)))))
  else if String.eqb t RuleActionTypeEvaluate then
    Ok (Some (ActEvaluate (dopt_Server (dopt_RouteOptions action))
                (newDNSRouteOptions (dopt_Common (dopt_RouteOptions action)))))
  else if String.eqb t RuleActionTypeRespond then Ok (Some ActRespond)
  else if String.eqb t RuleActionTypeRouteOptions then
    Ok (Some (ActDNSRouteOptions (newDNSRouteOptions (dopt_RouteOptionsOptions action))))
  else if String.eqb t RuleActionTypeReject then
    Ok (Some (ActReject (opt_Method (dopt_RejectOptions action)) (opt_NoDrop (dopt_RejectOptions action))))
  else if String.eqb t RuleActionTypePredefined then
    let o := dopt_PredefinedOptions action in
    Ok (Some (ActPredefined (mkRuleActionPredefined (default RcodeSuccess (dopt_Rcode o))
                               (elems (dopt_Answer o)) (elems (dopt_Ns o)) (elems (dopt_Extra o)))))
  else Panic ("unknown rule action: " +:+ t).

(** ** Descriptions *)

Definition NetworkStrategy_String (s : Z) : string :=
  if s =? 0 then "default" else if s =? 1 then "fallback" else if s =? 2 then "hybrid" else F_ToString s.

(** [tlsspoof.Method.String] *)
Definition Method_String (m : Z) : string :=
  if m =? 0 then "wrong-sequence" else if m =? 1 then "wrong-checksum" else if m =? 2 then "wrong-ack"
  else if m =? 3 then "wrong-md5" else if m =? 4 then "wrong-timestamp" else "unknown".

Definition RouteOptions_Descriptions (r : RuleActionRouteOptions) : list string :=
  describeIf (Socksaddr_IsValid (OverrideAddress r)) ("override-address=" +:+ AddrString (OverrideAddress r))
  ++ describeIf (0 <? OverridePort r) ("override-port=" +:+ F_ToString (OverridePort r))
  ++ match NetworkStrategy r with
     | Some s => ["network-strategy=" +:+ NetworkStrategy_String s] | None => [] end
  ++ describeIf (nonempty (NetworkType r))
       ("network-type=" +:+ join "," (map InterfaceType_String (NetworkType r)))
  ++ describeIf (nonempty (FallbackNetworkType r))
       ("fallback-network-type=" +:+ join "," (map InterfaceType_String (FallbackNetworkType r)))
  ++ describeIf (0 <? FallbackDelay r) ("fallback-delay=" +:+ Duration_String (FallbackDelay r))
  ++ describeIf (UDPDisableDomainUnmapping r) "udp-disable-domain-unmapping"
  ++ describeIf (UDPConnect r) "udp-connect"
  ++ describeIf (0 <? UDPTimeout r) "udp-timeout"
  ++ describeIf (TLSFragment r) "tls-fragment"
  ++ describeIf (0 <? TLSFragmentFallbackDelay r)
       ("tls-fragment-fallback-delay=" +:+ Duration_String (TLSFragmentFallbackDelay r))
  ++ describeIf (TLSRecordFragment r) "tls-record-fragment"
  ++ (if negb (String.eqb (TLSSpoof r) "")
      then ["tls-spoof=" +:+ TLSSpoof r; "tls-spoof-method=" +:+ Method_String (TLSSpoofMethod r)]
      else []).

(** The entries [formatDNSRouteAction] and [RuleActionDNSRouteOptions.String]
    share. *)
Definition DNSRouteOptions_Descriptions (o : RuleActionDNSRouteOptions) : list string :=
  describeIf (dro_DisableCache o) "disable-cache"
  ++ describeIf (dro_DisableOptimisticCache o) "disable-optimistic-cache"
  ++ match dro_RewriteTTL o with Some ttl => ["rewrite-ttl=" +:+ F_ToString ttl] | None => [] end
  ++ describeIf (0 <? dro_Timeout o) ("timeout=" +:+ Duration_String (dro_Timeout o))
  ++ describeIf (NetipPrefix.IsValid (dro_ClientSubnet o)) ("client-subnet=" +:+ Prefix_String (dro_ClientSubnet o)).

Definition formatDNSRouteAction (action server : string) (o : RuleActionDNSRouteOptions) : string :=
  action +:+ "(" +:+ join "," (server :: DNSRouteOptions_Descriptions o) +:+ ")".

Definition RuleActionSniff_String (r : RuleActionSniff) : string :=
  if negb (nonempty (SnifferNames r)) && (sniff_Timeout r =? 0) then "sniff"
  else if nonempty (SnifferNames r) && (sniff_Timeout r =? 0)
  then "sniff(" +:+ join "," (SnifferNames r) +:+ ")"
  else if negb (nonempty (SnifferNames r)) && (0 <? sniff_Timeout r)
  then "sniff(" +:+ Duration_String (sniff_Timeout r) +:+ ")"
  else "sniff(" +:+ join "," (SnifferNames r) +:+ "," +:+ Duration_String (sniff_Timeout r) +:+ ")".

Definition RuleActionResolve_String (r : RuleActionResolve) : result string :=
  strategy ← (if negb (res_Strategy r =? DomainStrategyAsIS)
              then s ← DomainStrategy_String (res_Strategy r); Ok [s] else Ok []);
  let options :=
    describeIf (negb (String.eqb (res_Server r) "")) (res_Server r)
    ++ strategy
    ++ describeIf (res_DisableCache r) "disable_cache"
    ++ describeIf (res_DisableOptimisticCache r) "disable_optimistic_cache"
    ++ match res_RewriteTTL r with Some ttl => ["rewrite_ttl=" +:+ F_ToString ttl] | None => [] end
    ++ describeIf (0 <? res_Timeout r) ("timeout=" +:+ Duration_String (res_Timeout r))
    ++ describeIf (NetipPrefix.IsValid (res_ClientSubnet r))
         ("client_subnet=" +:+ Prefix_String (res_ClientSubnet r)) in
  if nonempty options then Ok ("resolve(" +:+ join "," options +:+ ")") else Ok "resolve".

Definition RuleActionPredefined_String (r : RuleActionPredefined) : string :=
  "predefined(" +:+ join "," (RcodeToString (pre_Rcode r) :: map RR_String (pre_Answer r)
                              ++ map RR_String (pre_Ns r) ++ map RR_String (pre_Extra r)) +:+ ")".

Definition RuleAction_String (a : RuleAction) : result string :=
  match a with
  | ActRoute o r => Ok ("route(" +:+ join "," (o :: RouteOptions_Descriptions r) +:+ ")")
  | ActBypass o r =>
      if String.eqb o "" then Ok "bypass()"
      else Ok ("bypass(" +:+ join "," (o :: RouteOptions_Descriptions r) +:+ ")")
  | ActRouteOptions r => Ok ("route-options(" +:+ join "," (RouteOptions_Descriptions r) +:+ ")")
  | ActDirect description => Ok ("direct" +:+ description)
  | ActReject Method _ =>
      if String.eqb Method RuleActionRejectMethodDefault then Ok "reject"
      else Ok ("reject(" +:+ Method +:+ ")")
  | ActHijackDNS => Ok "hijack-dns"
  | ActSniff r => Ok (RuleActionSniff_String r)
  | ActResolve r => RuleActionResolve_String r
  | ActDNSRoute server o => Ok (formatDNSRouteAction "route" server o)
  | ActEvaluate server o => Ok (formatDNSRouteAction "evaluate" server o)
  | ActRespond => Ok "respond"
  | ActDNSRouteOptions o => Ok ("route-options(" +:+ join "," (DNSRouteOptions_Descriptions o) +:+ ")")
  | ActPredefined r => Ok (RuleActionPredefined_String r)
  end.

End build.

(** * Rejecting *)

(** [RejectedError] with the [tun] sentinel it wraps. *)
Inductive RejectCause := ErrReset | ErrDrop.

Definition second : Z := 10 ^ 9.

(** [RuleActionReject.Error] at time [timeNow], with [dropCounter] the
    timestamps kept so far; [Ok None] is a nil error. *)
Definition Reject_Error (Method : string) (NoDrop : bool) (dropCounter : list Z) (timeNow : Z)
    : result (option RejectCause) * list Z :=
  if String.eqb Method RuleActionRejectMethodDefault then
    if NoDrop then (Ok (Some ErrReset), dropCounter)
    else
      let dropCounter := filter (fun t => timeNow - t <= 30 * second) dropCounter in
      let dropCounter := dropCounter ++ [timeNow] in
      if (50 <? length dropCounter)%nat then (Ok (Some ErrDrop), dropCounter)
      else (Ok (Some ErrReset), dropCounter)
  else if String.eqb Method RuleActionRejectMethodDrop then (Ok (Some ErrDrop), dropCounter)
  else if String.eqb Method RuleActionRejectMethodReply then (Ok None, dropCounter)
  else (Panic ("unknown reject method: " +:+ Method), dropCounter).

(** A run of [Error] calls at the given times, oldest first: the outcome of
    each call and the final counter. *)
Fixpoint Reject_run (Method : string) (NoDrop : bool) (dropCounter : list Z) (times : list Z)
    : list (result (option RejectCause)) * list Z :=
  match times with
  | [] => ([], dropCounter)
  | t :: times' =>
      let '(r, dropCounter) := Reject_Error Method NoDrop dropCounter t in
      let '(rs, dropCounter) := Reject_run Method NoDrop dropCounter times' in
      (r :: rs, dropCounter)
  end.

(** * Predefined answers *)

Definition rr_setName (rr : RR) (name : string) : RR :=
  rr_withHeader rr ((rr_Header rr) {{ hdr_Name := name }}).

Definition stringTail (s : string) : string :=
  match s with EmptyString => EmptyString | String _ s' => s' end.

Definition rewriteRecord (question : Question) (it : RR) : RR :=
  let name := hdr_Name (rr_Header it) in
  if hasPrefix name "*" && hasSuffix (q_Name question) (stringTail name)
  then rr_setName it (q_Name question) else it.

Definition rewriteRecords (records : list RR) (question : Question) : list RR :=
  map (rewriteRecord question) records.

(** [RuleActionPredefined.Response]; indexing an empty question list panics. *)
Definition Predefined_Response (r : RuleActionPredefined) (request : Msg) : result Msg :=
  match msg_Question request with
  | [] => Panic "index out of range [0] with length 0"
  | question :: _ =>
      Ok {| msg_Id := msg_Id request;
            msg_Response := true;
            msg_Authoritative := true;
            msg_RecursionDesired := true;
            msg_RecursionAvailable := true;
            msg_Rcode := pre_Rcode r;
            msg_Question := msg_Question request;
            msg_Answer := rewriteRecords (pre_Answer r) question;
            msg_Ns := rewriteRecords (pre_Ns r) question;
            msg_Extra := rewriteRecords (pre_Extra r) question |}
  end.

(** * Properties *)

Section build_props.
Context `{Libs} `{ActionLibs}.

(** The strategy field of dialer options, as its decoder leaves it. *)
Definition valid_strategy (s : Z) : Prop := 0 <= s <= 4.

Definition is_panic {A} (r : result A) : bool := match r with Panic _ => true | _ => false end.

Lemma newRuleActionRouteOptions_no_panic o : is_panic (newRuleActionRouteOptions o) = false.
Proof.
  unfold newRuleActionRouteOptions, ParseOptions, ParseMethod.
  repeat case_bool; reflexivity.
Qed.

Lemma buildSniffers_no_panic names r : is_panic (buildSniffers r names) = false.
Proof.
  induction names as [|name names IH] in r |- *; [reflexivity|]. cbn [buildSniffers].
  destruct (buildSniffer r name) as [r'|e|w] eqn:E; cbn; [apply IH|reflexivity|].
  exfalso. revert E. unfold buildSniffer. repeat case_bool; discriminate.
Qed.

Lemma DirectActionOptions_Descriptions_no_panic d :
  valid_strategy (dir_DomainStrategy d) -> is_panic (DirectActionOptions_Descriptions d) = false.
Proof.
  intros Hs. unfold DirectActionOptions_Descriptions, DomainStrategy_String, valid_strategy,
    DomainStrategyAsIS, DomainStrategyPreferIPv4, DomainStrategyPreferIPv6, DomainStrategyIPv4Only,
    DomainStrategyIPv6Only in *.
  repeat case_bool; try reflexivity. exfalso. bool_to_prop. lia.
Qed.

Lemma is_panic_bind {A B} (m : result A) (f : A -> result B) :
  is_panic m = false -> (forall a, is_panic (f a) = false) -> is_panic (m ≫= f) = false.
Proof. destruct m; cbn; intros Hm Hf; [apply Hf|reflexivity|discriminate]. Qed.

Lemma RejectOptions_UnmarshalJSON_method o o' :
  RejectOptions_UnmarshalJSON o = Ok o' ->
  opt_Method o' ∈ [RuleActionRejectMethodDefault; RuleActionRejectMethodDrop; RuleActionRejectMethodReply].
Proof.
  unfold RejectOptions_UnmarshalJSON. intros Ho. inv_ok.
  match goal with H : (if _ then _ else Ok _) = Ok _ |- _ => destruct (_ && _) in H; inv_ok end.
  match goal with H : (if ?b then _ else _) = Ok _ |- _ => revert H end.
  repeat case_bool; intros ?; inv_ok; bool_to_prop;
    repeat match goal with H : String.eqb _ _ = true |- _ => apply String.eqb_eq in H; rewrite H end;
    cbn; set_solver.
Qed.

Lemma Reject_Error_no_panic Method NoDrop c t :
  Method ∈ [RuleActionRejectMethodDefault; RuleActionRejectMethodDrop; RuleActionRejectMethodReply] ->
  is_panic (Reject_Error Method NoDrop c t).1 = false.
Proof.
  intros Hm. unfold Reject_Error. repeat case_bool; try reflexivity.
  exfalso. rewrite !elem_of_cons, elem_of_nil in Hm.
  destruct Hm as [->|[->|[->|[]]]]; discriminate.
Qed.

(** What every decoded action promises to the router. *)
Definition action_ok (r : result (option RuleAction)) : Prop :=
  match r with
  | Ok (Some (ActReject m nd)) => forall c t, is_panic (Reject_Error m nd c t).1 = false
  | Ok (Some _) | Err _ => True
  | Ok None | Panic _ => False
  end.

Lemma action_ok_bind {A} (m : result A) (f : A -> RuleAction) :
  is_panic m = false -> (forall a, action_ok (Ok (Some (f a)))) ->
  action_ok (x ← m; Ok (Some (f x))).
Proof. destruct m; cbn; intros Hm Hf; [apply Hf|exact I|discriminate]. Qed.

(** decoded route-rule action options never make the constructor panic:
    after [RuleAction.UnmarshalJSON] accepts them [NewRuleAction] returns an
    error or a non-nil action, and a reject action it returns never panics
    when it is consulted, whatever its flood counter holds. *)
Theorem decoded_action_total o o' :
  RuleAction_UnmarshalJSON o = Ok o' ->
  valid_strategy (dir_DomainStrategy (opt_DirectOptions o)) ->
  action_ok (NewRuleAction o').
Proof.
  destruct o as [t ? ? ? ? ? ? ?]. unfold RuleAction_UnmarshalJSON. cbn -[String.eqb]. intros Ho Hs. revert Ho.
  repeat case_bool; intros Ho; inv_ok;
    repeat match goal with H : String.eqb _ _ = true |- _ => apply String.eqb_eq in H; subst t end;
    unfold NewRuleAction; cbn;
    try (apply action_ok_bind; [apply newRuleActionRouteOptions_no_panic || apply buildSniffers_no_panic|now intros]);
    try exact I.
  - destruct (dialer_New _); [exact I|]. apply action_ok_bind; [|now intros].
    apply DirectActionOptions_Descriptions_no_panic.
    unfold DirectOptions_UnmarshalJSON in *. case_match; by inv_ok.
  - intros c t. apply Reject_Error_no_panic. eauto using RejectOptions_UnmarshalJSON_method.
Qed.

(** The same for DNS rules. *)
Lemma decoded_dns_action_total o o' :
  DNSRuleAction_UnmarshalJSONContext o = Ok o' -> action_ok (NewDNSRuleAction o').
Proof.
  destruct o as [t ? ? ? ?]. unfold DNSRuleAction_UnmarshalJSONContext. cbn -[String.eqb].
  repeat case_bool; intros Ho; inv_ok;
    repeat match goal with H : String.eqb _ _ = true |- _ => apply String.eqb_eq in H; subst t end;
    unfold NewDNSRuleAction; cbn; try exact I.
  intros c t. apply Reject_Error_no_panic. eauto using RejectOptions_UnmarshalJSON_method.
Qed.

End build_props.

(** ** The flood window *)

(** The calls of [times] at most thirty seconds before [now]. *)
Definition recent (now : Z) (times : list Z) : list Z := filter (fun t => now - t <= 30 * second) times.

(** The documented behaviour of the default method: a connection is dropped
    when more than 50 calls, itself included, happened in the last thirty
    seconds, and reset otherwise. *)
Definition reject_spec (earlier : list Z) (now : Z) : result (option RejectCause) :=
  Ok (Some (if (50 <? length (recent now (earlier ++ [now])))%nat then ErrDrop else ErrReset)).

Fixpoint reject_spec_run (earlier times : list Z) : list (result (option RejectCause)) :=
  match times with
  | [] => []
  | t :: times' => reject_spec earlier t :: reject_spec_run (earlier ++ [t]) times'
  end.

Lemma recent_recent old now times : old <= now -> recent now (recent old times) = recent now times.
Proof.
  intros Hle. unfold recent. rewrite list_filter_filter_l; [reflexivity|]. intros t; lia.
Qed.

Lemma recent_snoc now times : recent now (times ++ [now]) = recent now times ++ [now].
Proof.
  unfold recent. rewrite list.filter_app. f_equal. rewrite list.filter_cons_True; [reflexivity|].
  unfold second; lia.
Qed.

Lemma Reject_Error_default c earlier now :
  recent now c = recent now earlier ->
  Reject_Error RuleActionRejectMethodDefault false c now
  = (reject_spec earlier now, recent now (earlier ++ [now])).
Proof.
  intros Hc. unfold Reject_Error, reject_spec. cbn -[recent]. fold (recent now c).
  rewrite Hc, recent_snoc. by case_bool.
Qed.

Lemma Reject_run_default times earlier c b :
  Sorted Z.le (b :: times) ->
  (forall now, b <= now -> recent now c = recent now earlier) ->
  exists c', Reject_run RuleActionRejectMethodDefault false c times = (reject_spec_run earlier times, c')
             /\ forall now, list.last times = Some now -> c' = recent now (earlier ++ times).
Proof.
  induction times as [|t times IH] in earlier, c, b |- *; intros Hs Hc; [by exists c|].
  inversion Hs as [|? ? Hs' Hb]; subst. inversion Hb; subst.
  cbn [Reject_run reject_spec_run]. rewrite (Reject_Error_default c earlier t) by (apply Hc; lia).
  destruct times as [|t' times'].
  { eexists; split; [reflexivity|]. by intros now [= ->]. }
  destruct (IH (earlier ++ [t]) (recent t (earlier ++ [t])) t Hs') as (c' & -> & Hc').
  { intros now Hnow. by apply recent_recent. }
  rewrite <- (assoc_L (++)) in Hc'. by exists c'.
Qed.

(** from a fresh reject action of the default method, calls at
    non-decreasing times are answered exactly as documented: the outcome of
    each call depends only on how many calls were made in the thirty seconds
    before it, although old timestamps have been discarded along the way; and
    the counter never keeps an entry older than thirty seconds. *)
Theorem reject_flood_window times :
  Sorted Z.le times ->
  exists c, Reject_run RuleActionRejectMethodDefault false [] times = (reject_spec_run [] times, c)
            /\ forall now, list.last times = Some now -> c = recent now times.
Proof.
  intros Hs. destruct times as [|t times]; [by exists []|].
  apply (Reject_run_default (t :: times) [] [] t); [|done].
  constructor; [done|]. constructor; lia.
Qed.
