(* ===== verification/Options.v ===== *)
(** The rule options of [option/rule.go], [option/rule_dns.go] and
    [option/rule_set.go], as the JSON decoder fills them in, with their
    validity checks. *)
From S2P Require Import Prelude Netip Metadata RuleItem RuleAction.

#[local] Set Warnings "-register-all".

(** The zero values of the action options. *)
Definition rejectZero : RejectActionOptions := mkRejectActionOptions "" false.

Definition RuleAction_isZero (a : RuleActionOptions) : bool :=
  let raw r := bool_decide (r = rawRouteOptionsZero) in
  let d := opt_DirectOptions a in
  let v := opt_ResolveOptions a in
  String.eqb (opt_Action a) ""
  && String.eqb (opt_Outbound (opt_RouteOptions a)) "" && raw (opt_Raw (opt_RouteOptions a))
  && raw (opt_RouteOptionsOptions a)
  && String.eqb (dir_Detour d) "" && String.eqb (dir_BindInterface d) "" && isNil (dir_Inet4BindAddress d)
  && isNil (dir_Inet6BindAddress d) && (dir_RoutingMark d =? 0) && negb (dir_ReuseAddr d)
  && (dir_ConnectTimeout d =? 0) && negb (dir_TCPFastOpen d) && negb (dir_TCPMultiPath d)
  && isNil (dir_UDPFragment d) && (dir_DomainStrategy d =? 0) && (dir_FallbackDelay d =? 0)
  && String.eqb (opt_Outbound (opt_BypassOptions a)) "" && raw (opt_Raw (opt_BypassOptions a))
  && String.eqb (opt_Method (opt_RejectOptions a)) "" && negb (opt_NoDrop (opt_RejectOptions a))
  && isNil (opt_Sniffer (opt_SniffOptions a)) && (opt_SniffTimeout (opt_SniffOptions a) =? 0)
  && String.eqb (ropt_Server v) "" && (ropt_Timeout v =? 0) && (ropt_Strategy v =? 0)
  && negb (ropt_DisableCache v) && negb (ropt_DisableOptimisticCache v) && isNil (ropt_RewriteTTL v)
  && isNil (ropt_ClientSubnet v).

Definition DNSRuleAction_isZero (a : DNSRuleActionOptions) : bool :=
  let raw r := bool_decide (r = dnsRouteOptionsZero) in
  let p := dopt_PredefinedOptions a in
  String.eqb (dopt_Action a) ""
  && String.eqb (dopt_Server (dopt_RouteOptions a)) "" && raw (dopt_Common (dopt_RouteOptions a))
  && raw (dopt_RouteOptionsOptions a)
  && String.eqb (opt_Method (dopt_RejectOptions a)) "" && negb (opt_NoDrop (dopt_RejectOptions a))
  && isNil (dopt_Rcode p) && isNil (dopt_Answer p) && isNil (dopt_Ns p) && isNil (dopt_Extra p).

Definition directZero : DirectActionOptions :=
  mkDirectActionOptions "" "" None None 0 false 0 false false None 0 0.

Definition ruleActionZero : RuleActionOptions :=
  mkRuleActionOptions "" (mkRouteActionOptions "" rawRouteOptionsZero) rawRouteOptionsZero directZero
    (mkRouteActionOptions "" rawRouteOptionsZero) rejectZero (mkRouteActionSniff None 0)
    (mkRouteActionResolve "" 0 0 false false None None).

Definition dnsRuleActionZero : DNSRuleActionOptions :=
  mkDNSRuleActionOptions "" (mkDNSRouteActionOptions "" dnsRouteOptionsZero) dnsRouteOptionsZero rejectZero
    (mkDNSRouteActionPredefined None None None None).

(** [r.IsValid] calls on a list of rules, where an unknown type panics. *)
Fixpoint allValid {A} (valid : A -> result bool) (l : list A) : result bool :=
  match l with
  | [] => Ok true
  | x :: l' => v ← valid x; if negb v then Ok false else allValid valid l'
  end.

(** * Route rules *)

Record RawDefaultRule := mkRawDefaultRule {
  r_Inbound : slice string;
  r_IPVersion : Z;
  r_Network : slice string;
  r_AuthUser : slice string;
  r_Protocol : slice string;
  r_Client : slice string;
  r_Domain : slice string;
  r_DomainSuffix : slice string;
  r_DomainKeyword : slice string;
  r_DomainRegex : slice string;
  r_Geosite : slice string;
  r_SourceGeoIP : slice string;
  r_GeoIP : slice string;
  r_SourceIPCIDR : slice string;
  r_SourceIPIsPrivate : bool;
  r_IPCIDR : slice string;
  r_IPIsPrivate : bool;
  r_SourcePort : slice Z;
  r_SourcePortRange : slice string;
  r_Port : slice Z;
  r_PortRange : slice string;
  r_ProcessName : slice string;
  r_ProcessPath : slice string;
  r_ProcessPathRegex : slice string;
  r_PackageName : slice string;
  r_PackageNameRegex : slice string;
  r_User : slice string;
  r_UserID : slice Z;
  r_ClashMode : string;
  r_NetworkType : slice Z;
  r_NetworkIsExpensive : bool;
  r_NetworkIsConstrained : bool;
  r_WIFISSID : slice string;
  r_WIFIBSSID : slice string;
  r_InterfaceAddress : option (list (string * list Prefix));
  r_NetworkInterfaceAddress : option (list (Z * list Prefix));
  r_DefaultInterfaceAddress : slice Prefix;
  r_SourceMACAddress : slice string;
  r_SourceHostname : slice string;
  r_PreferredBy : slice string;
  r_RuleSet : slice string;
  r_RuleSetIPCIDRMatchSource : bool;
  r_Invert : bool;
  r_Deprecated_RulesetIPCIDRMatchSource : bool }.

(** Equal to the zero value, but for [Invert]. *)
Definition RawDefaultRule_isZero (r : RawDefaultRule) : bool :=
  isNil (r_Inbound r) && (r_IPVersion r =? 0) && isNil (r_Network r) && isNil (r_AuthUser r) &&
  isNil (r_Protocol r) && isNil (r_Client r) && isNil (r_Domain r) && isNil (r_DomainSuffix r) &&
  isNil (r_DomainKeyword r) && isNil (r_DomainRegex r) && isNil (r_Geosite r) &&
  isNil (r_SourceGeoIP r) && isNil (r_GeoIP r) && isNil (r_SourceIPCIDR r) &&
  negb (r_SourceIPIsPrivate r) && isNil (r_IPCIDR r) && negb (r_IPIsPrivate r) &&
  isNil (r_SourcePort r) && isNil (r_SourcePortRange r) && isNil (r_Port r) && isNil (r_PortRange r) &&
  isNil (r_ProcessName r) && isNil (r_ProcessPath r) && isNil (r_ProcessPathRegex r) &&
  isNil (r_PackageName r) && isNil (r_PackageNameRegex r) && isNil (r_User r) && isNil (r_UserID r) &&
  String.eqb (r_ClashMode r) "" && isNil (r_NetworkType r) && negb (r_NetworkIsExpensive r) &&
  negb (r_NetworkIsConstrained r) && isNil (r_WIFISSID r) && isNil (r_WIFIBSSID r) &&
  isNil (r_InterfaceAddress r) && isNil (r_NetworkInterfaceAddress r) &&
  isNil (r_DefaultInterfaceAddress r) && isNil (r_SourceMACAddress r) && isNil (r_SourceHostname r) &&
  isNil (r_PreferredBy r) && isNil (r_RuleSet r) && negb (r_RuleSetIPCIDRMatchSource r) &&
  negb (r_Deprecated_RulesetIPCIDRMatchSource r).

Definition rawDefaultRuleZero : RawDefaultRule :=
  mkRawDefaultRule None 0 None None None None None None None None None None None None false None false
  None None None None None None None None None None None "" None false false None None None None None
  None None None None false false false.

(** [option.Rule]: [Type] selects which of the two kinds of options is used. *)
Inductive RuleOptions := mkRuleOptions {
  ro_Type : string;
  ro_DefaultOptions : RawDefaultRule;
  ro_DefaultAction : RuleActionOptions;
  ro_Mode : string;
  ro_Rules : list RuleOptions;
  ro_LogicalInvert : bool;
  ro_LogicalAction : RuleActionOptions }.

(** [DefaultRule.IsValid]: different from the zero value with the same [Invert]. *)
Definition DefaultRule_IsValid (r : RawDefaultRule) (a : RuleActionOptions) : bool :=
  negb (RawDefaultRule_isZero r && RuleAction_isZero a).

Fixpoint Rule_IsValid (r : RuleOptions) : result bool :=
  match r with
  | mkRuleOptions t o a _ rules _ _ =>
      if String.eqb t RuleTypeDefault then Ok (DefaultRule_IsValid o a)
      else if String.eqb t RuleTypeLogical then
        if negb (nonempty rules) then Ok false else allValid Rule_IsValid rules
      else Panic ("unknown rule type: " +:+ t)
  end.

Definition LogicalRule_IsValid (rules : list RuleOptions) : result bool :=
  if negb (nonempty rules) then Ok false else allValid Rule_IsValid rules.

(** * DNS rules *)

Record RawDefaultDNSRule := mkRawDefaultDNSRule {
  d_Inbound : slice string;
  d_IPVersion : Z;
  d_QueryType : slice Z;
  d_Network : slice string;
  d_AuthUser : slice string;
  d_Protocol : slice string;
  d_Domain : slice string;
  d_DomainSuffix : slice string;
  d_DomainKeyword : slice string;
  d_DomainRegex : slice string;
  d_SourceIPCIDR : slice string;
  d_SourceIPIsPrivate : bool;
  d_SourcePort : slice Z;
  d_SourcePortRange : slice string;
  d_Port : slice Z;
  d_PortRange : slice string;
  d_ProcessName : slice string;
  d_ProcessPath : slice string;
  d_ProcessPathRegex : slice string;
  d_PackageName : slice string;
  d_PackageNameRegex : slice string;
  d_User : slice string;
  d_UserID : slice Z;
  d_Outbound : slice string;
  d_ClashMode : string;
  d_NetworkType : slice Z;
  d_NetworkIsExpensive : bool;
  d_NetworkIsConstrained : bool;
  d_WIFISSID : slice string;
  d_WIFIBSSID : slice string;
  d_InterfaceAddress : option (list (string * list Prefix));
  d_NetworkInterfaceAddress : option (list (Z * list Prefix));
  d_DefaultInterfaceAddress : slice Prefix;
  d_SourceMACAddress : slice string;
  d_SourceHostname : slice string;
  d_PreferredBy : slice string;
  d_RuleSet : slice string;
  d_RuleSetIPCIDRMatchSource : bool;
  d_MatchResponse : bool;
  d_IPCIDR : slice string;
  d_IPIsPrivate : bool;
  d_IPAcceptAny : bool;
  d_ResponseRcode : option Z;
  d_ResponseAnswer : slice DNSRecordOptions;
  d_ResponseNs : slice DNSRecordOptions;
  d_ResponseExtra : slice DNSRecordOptions;
  d_Invert : bool;
  d_Geosite : slice string;
  d_SourceGeoIP : slice string;
  d_GeoIP : slice string;
  d_RuleSetIPCIDRAcceptEmpty : bool;
  d_Deprecated_RulesetIPCIDRMatchSource : bool }.

(** Equal to the zero value, but for [Invert]. *)
Definition RawDefaultDNSRule_isZero (r : RawDefaultDNSRule) : bool :=
  isNil (d_Inbound r) && (d_IPVersion r =? 0) && isNil (d_QueryType r) && isNil (d_Network r) &&
  isNil (d_AuthUser r) && isNil (d_Protocol r) && isNil (d_Domain r) && isNil (d_DomainSuffix r) &&
  isNil (d_DomainKeyword r) && isNil (d_DomainRegex r) && isNil (d_SourceIPCIDR r) &&
  negb (d_SourceIPIsPrivate r) && isNil (d_SourcePort r) && isNil (d_SourcePortRange r) &&
  isNil (d_Port r) && isNil (d_PortRange r) && isNil (d_ProcessName r) && isNil (d_ProcessPath r) &&
  isNil (d_ProcessPathRegex r) && isNil (d_PackageName r) && isNil (d_PackageNameRegex r) &&
  isNil (d_User r) && isNil (d_UserID r) && isNil (d_Outbound r) && String.eqb (d_ClashMode r) "" &&
  isNil (d_NetworkType r) && negb (d_NetworkIsExpensive r) && negb (d_NetworkIsConstrained r) &&
  isNil (d_WIFISSID r) && isNil (d_WIFIBSSID r) && isNil (d_InterfaceAddress r) &&
  isNil (d_NetworkInterfaceAddress r) && isNil (d_DefaultInterfaceAddress r) &&
  isNil (d_SourceMACAddress r) && isNil (d_SourceHostname r) && isNil (d_PreferredBy r) &&
  isNil (d_RuleSet r) && negb (d_RuleSetIPCIDRMatchSource r) && negb (d_MatchResponse r) &&
  isNil (d_IPCIDR r) && negb (d_IPIsPrivate r) && negb (d_IPAcceptAny r) &&
  isNil (d_ResponseRcode r) && isNil (d_ResponseAnswer r) && isNil (d_ResponseNs r) &&
  isNil (d_ResponseExtra r) && isNil (d_Geosite r) && isNil (d_SourceGeoIP r) && isNil (d_GeoIP r) &&
  negb (d_RuleSetIPCIDRAcceptEmpty r) && negb (d_Deprecated_RulesetIPCIDRMatchSource r).

Definition rawDefaultDNSRuleZero : RawDefaultDNSRule :=
  mkRawDefaultDNSRule None 0 None None None None None None None None None false None None None None
  None None None None None None None None "" None false false None None None None None None None None
  None false false None false false None None None None false None None None false false.

Inductive DNSRuleOptions := mkDNSRuleOptions {
  do_Type : string;
  do_DefaultOptions : RawDefaultDNSRule;
  do_DefaultAction : DNSRuleActionOptions;
  do_Mode : string;
  do_Rules : list DNSRuleOptions;
  do_LogicalInvert : bool;
  do_LogicalAction : DNSRuleActionOptions }.

Definition DefaultDNSRule_IsValid (r : RawDefaultDNSRule) (a : DNSRuleActionOptions) : bool :=
  negb (RawDefaultDNSRule_isZero r && DNSRuleAction_isZero a).

Fixpoint DNSRule_IsValid (r : DNSRuleOptions) : result bool :=
  match r with
  | mkDNSRuleOptions t o a _ rules _ _ =>
      if String.eqb t RuleTypeDefault then Ok (DefaultDNSRule_IsValid o a)
      else if String.eqb t RuleTypeLogical then
        if negb (nonempty rules) then Ok false else allValid DNSRule_IsValid rules
      else Panic ("unknown DNS rule type: " +:+ t)
  end.

Definition LogicalDNSRule_IsValid (rules : list DNSRuleOptions) : result bool :=
  if negb (nonempty rules) then Ok false else allValid DNSRule_IsValid rules.

(** * Headless rules *)

Section headless.
Context `{Libs}.

Record DefaultHeadlessRule := mkDefaultHeadlessRule {
  h_QueryType : slice Z;
  h_Network : slice string;
  h_Domain : slice string;
  h_DomainSuffix : slice string;
  h_DomainKeyword : slice string;
  h_DomainRegex : slice string;
  h_SourceIPCIDR : slice string;
  h_IPCIDR : slice string;
  h_SourcePort : slice Z;
  h_SourcePortRange : slice string;
  h_Port : slice Z;
  h_PortRange : slice string;
  h_ProcessName : slice string;
  h_ProcessPath : slice string;
  h_ProcessPathRegex : slice string;
  h_PackageName : slice string;
  h_PackageNameRegex : slice string;
  h_NetworkType : slice Z;
  h_NetworkIsExpensive : bool;
  h_NetworkIsConstrained : bool;
  h_WIFISSID : slice string;
  h_WIFIBSSID : slice string;
  h_NetworkInterfaceAddress : option (list (Z * list Prefix));
  h_DefaultInterfaceAddress : slice Prefix;
  h_Invert : bool;
  h_DomainMatcher : option DomainMatcher;
  h_SourceIPSet : option IPSet;
  h_IPSet : option IPSet;
  h_AdGuardDomain : slice string;
  h_AdGuardDomainMatcher : option AdGuardMatcher }.

(** Equal to the zero value, but for [IPCIDR], [IPSet] and [Invert]. *)
Definition DefaultHeadlessRule_isIPOnly (r : DefaultHeadlessRule) : bool :=
  isNil (h_QueryType r) && isNil (h_Network r) && isNil (h_Domain r) && isNil (h_DomainSuffix r) &&
  isNil (h_DomainKeyword r) && isNil (h_DomainRegex r) && isNil (h_SourceIPCIDR r) &&
  isNil (h_SourcePort r) && isNil (h_SourcePortRange r) && isNil (h_Port r) && isNil (h_PortRange r) &&
  isNil (h_ProcessName r) && isNil (h_ProcessPath r) && isNil (h_ProcessPathRegex r) &&
  isNil (h_PackageName r) && isNil (h_PackageNameRegex r) && isNil (h_NetworkType r) &&
  negb (h_NetworkIsExpensive r) && negb (h_NetworkIsConstrained r) && isNil (h_WIFISSID r) &&
  isNil (h_WIFIBSSID r) && isNil (h_NetworkInterfaceAddress r) &&
  isNil (h_DefaultInterfaceAddress r) && isNil (h_DomainMatcher r) && isNil (h_SourceIPSet r) &&
  isNil (h_AdGuardDomain r) && isNil (h_AdGuardDomainMatcher r).

Definition headlessRuleZero : DefaultHeadlessRule :=
  mkDefaultHeadlessRule None None None None None None None None None None None None None None None
  None None None false false None None None None false None None None None None.

(** [DefaultHeadlessRule.IsValid] *)
Definition DefaultHeadlessRule_IsValid (r : DefaultHeadlessRule) : bool :=
  negb (DefaultHeadlessRule_isIPOnly r && isNil (h_IPCIDR r) && isNil (h_IPSet r)).

(** [option.HeadlessRule] *)
Inductive HeadlessRule := mkHeadlessRule {
  hr_Type : string;
  hr_DefaultOptions : DefaultHeadlessRule;
  hr_Mode : string;
  hr_Rules : list HeadlessRule;
  hr_LogicalInvert : bool }.

Fixpoint HeadlessRule_IsValid (r : HeadlessRule) : result bool :=
  match r with
  | mkHeadlessRule t o _ rules _ =>
      if String.eqb t RuleTypeDefault || String.eqb t "" then Ok (DefaultHeadlessRule_IsValid o)
      else if String.eqb t RuleTypeLogical then
        if negb (nonempty rules) then Ok false else allValid HeadlessRule_IsValid rules
      else Panic ("unknown rule type: " +:+ t)
  end.

Definition LogicalHeadlessRule_IsValid (rules : list HeadlessRule) : result bool :=
  if negb (nonempty rules) then Ok false else allValid HeadlessRule_IsValid rules.

End headless.
