(* ===== verification/Demo.v ===== *)
(** A concrete instance of the outside packages, on which the theorems that
    depend on them are instantiated. *)
From S2P Require Import Prelude Netip Metadata Text RuleItem RuleAction Options.

(** A domain matcher that knows full domains and suffixes. *)
Definition demoDomainMatch (m : list string * list string) (host : string) : bool :=
  anyb m.1 (String.eqb host) || anyb m.2 (fun suffix => hasSuffix host suffix).

Definition demoRangeContains (r : IPRange) (a : Addr) : bool :=
  match range_from r, a, range_to r with
  | Addr4 lo, Addr4 x, Addr4 hi => (lo <=? x) && (x <=? hi)
  | Addr6 lo _, Addr6 x _, Addr6 hi _ => (lo <=? x) && (x <=? hi)
  | _, _, _ => false
  end.

Definition demoRange (op : IPSetOp) : IPRange :=
  match op with
  | AddAddr a => mkIPRange a a
  | AddPrefix p =>
      match pfx_addr p with
      | Addr4 x => let n := 2 ^ (32 - pfx_bits p) in
                   mkIPRange (Addr4 (x / n * n)) (Addr4 (x / n * n + n - 1))
      | a => mkIPRange a a
      end
  end.

Definition demoSocksaddrIsIP (s : Socksaddr) : bool := Netip.IsValid (sa_Addr s).

Definition demoLibs : Libs := {|
  IsIP := demoSocksaddrIsIP;
  IsIPv4 s := Netip.Is4 (sa_Addr s);
  IsIPv6 s := Netip.Is6 (sa_Addr s);
  IsDomain s := negb (String.eqb (sa_Fqdn s) "");
  Socksaddr_IsValid s := demoSocksaddrIsIP s || negb (String.eqb (sa_Fqdn s) "");
  AddrFromIP _ := Addr4 16909060;
  IsPublicAddr a := match a with Addr4 x => 167772160 <=? x | _ => false end;
  DomainMatcher := list string * list string;
  NewMatcher domains suffixes _ := (domains, suffixes);
  DomainMatcher_Match := demoDomainMatch;
  AdGuardMatcher := list string;
  NewAdGuardMatcher lines := lines;
  AdGuardMatcher_Match m host := anyb m (String.eqb host);
  F_ToString := itoa;
  IPSetBuilder_IPSet ops := Ok (mkIPSet (map demoRange ops));
  IPSet_Contains s a := anyb (rr s) (fun r => demoRangeContains r a);
  Regexp := string;
  Regexp_Compile s := Ok s;
  Regexp_MatchString re s := stringContains s re;
  ParsePrefix s := if String.eqb s "10.0.0.0/8" then Ok (mkPrefix (Addr4 167772160) 8) else Err (E_New "prefix");
  ParseAddr s := if String.eqb s "1.2.3.4" then Ok (Addr4 16909060) else Err (E_New "address");
  Prefix_String _ := "prefix";
  ParseMAC _ := Err (E_New "mac");
  HardwareAddr_String _ := "mac";
  ToLowerUnicode s := s;
  EqualFoldUnicode := String.eqb;
  TrimSpaceUnicode s := s;
  CanonicalName s := s +:+ ".";
  TypeToString t := if t =? 1 then Some "A" else None;
  IsDuplicate _ _ := true;
  RR_String _ := "rr";
  RcodeToString _ := "NOERROR"
|}.

Definition demoActionLibs : ActionLibs := {|
  ParseSocksaddrHostPort host port := mkSocksaddr AddrZero port host;
  AddrString s := sa_Fqdn s;
  tlsspoof_PlatformSupported := true;
  dialer_New _ := None;
  Addr_String _ := "address";
  Duration_String _ := "1s";
  Sprintf_0x _ := "0x1"
|}.

Definition demoServices : Services :=
  mkServices "rule" (mkWIFIState "home" "aa:bb") None [] [] [] None false.

(** A TCP connection from 10.0.0.1:1000 to example.org:443. *)
Definition demoMetadata : InboundContext :=
  inboundContextZero {{
    ic_Network := "tcp";
    ic_Domain := "www.example.org";
    ic_Source := mkSocksaddr (Addr4 167772161) 1000 "";
    ic_Destination := mkSocksaddr AddrZero 443 "www.example.org" }}.

(** * Decoded actions *)

Definition demoRejectOptions : RuleActionOptions := ruleActionZero {{ opt_Action := RuleActionTypeReject }}.

Definition demoDecodedReject : RuleActionOptions :=
  match @RuleAction_UnmarshalJSON demoRejectOptions with Ok o => o | _ => ruleActionZero end.

Lemma decoded_action_total_witness :
  opt_Method (opt_RejectOptions demoDecodedReject) = RuleActionRejectMethodDefault /\
  action_ok (@NewRuleAction demoActionLibs demoDecodedReject).
Proof.
  split; [reflexivity|].
  apply (@decoded_action_total demoActionLibs demoRejectOptions); [reflexivity|].
  unfold valid_strategy. cbn. lia.
Defined.

(** Three rejections; the third comes after the window of the first. *)
Lemma reject_flood_window_witness :
  exists c, Reject_run RuleActionRejectMethodDefault false [] [0; second; 31 * second]
            = (reject_spec_run [] [0; second; 31 * second], c).
Proof.
  destruct (reject_flood_window [0; second; 31 * second]) as (c & Hc & _); [|by exists c].
  repeat constructor; unfold second; lia.
Defined.
