(* ===== verification/RuleAbstract.v ===== *)
(** [route/rule/rule_abstract.go], [route/rule/rule_item_rule_set.go] and the
    matching half of [rule_set_local.go] / [rule_set_remote.go]: how a rule is
    matched against the metadata of a connection. *)
From S2P Require Import Prelude MatchState Netip Metadata RuleItem RuleAction.

(** * Rules *)

(** [setList] holds the tags of the shared rule-set objects, which live in a
    [ruleSetStore]; it is filled by [Start]. *)
Record RuleSetItem := mkRuleSetItem {
  tagList : list string;
  setList : list string;
  ipCidrMatchSource : bool;
  ipCidrAcceptEmpty : bool }.

Definition NewRuleSetItem (tagList : list string) (ipCIDRMatchSource ipCidrAcceptEmpty : bool) : RuleSetItem :=
  mkRuleSetItem tagList [] ipCIDRMatchSource ipCidrAcceptEmpty.

(** The reference counts of rule-sets, by tag. *)
Abbreviation refCounts := (gmap string Z).

Section rules.
Context `{Libs}.

(** The two kinds of item a rule lists: only a rule-set item yields states. *)
Inductive AnyItem :=
| PlainItem (item : RuleItem)
| SetItem (item : RuleSetItem).

Record abstractDefaultRule := mkAbstractDefaultRule {
  items : list RuleItem;
  sourceAddressItems : list RuleItem;
  sourcePortItems : list RuleItem;
  destinationAddressItems : list RuleItem;
  destinationIPCIDRItems : list RuleItem;
  destinationPortItems : list RuleItem;
  allItems : list AnyItem;
  ruleSetItem : option RuleSetItem;
  invert : bool;
  action : option RuleAction }.

Definition abstractDefaultRuleZero : abstractDefaultRule :=
  mkAbstractDefaultRule [] [] [] [] [] [] [] None false None.

#[local] Set Warnings "-register-all".

(** [DefaultRule], [DefaultHeadlessRule] and [DefaultDNSRule] embed
    [abstractDefaultRule]; only the last has [matchResponse]. *)
Inductive Rule :=
| DefaultRule (matchResponse : bool) (r : abstractDefaultRule)
| LogicalRule (rules : list Rule) (mode : string) (invert : bool) (action : option RuleAction).

Definition Rule_Action (r : Rule) : option RuleAction :=
  match r with DefaultRule _ r => action r | LogicalRule _ _ _ a => a end.

Definition Rule_Type (r : Rule) : string :=
  match r with DefaultRule _ _ => RuleTypeDefault | LogicalRule _ _ _ _ => RuleTypeLogical end.

Definition RuleSetItem_String (r : RuleSetItem) : string :=
  match tagList r with
  | [tag] => "rule_set=" +:+ tag
  | tags => "rule_set=[" +:+ join " " tags +:+ "]"
  end.

Definition AnyItem_String (i : AnyItem) : string :=
  match i with PlainItem i => RuleItem_String i | SetItem i => RuleSetItem_String i end.

Definition default_String (r : abstractDefaultRule) : string :=
  let s := join " " (map AnyItem_String (allItems r)) in
  if negb (invert r) then s else "!(" +:+ s +:+ ")".

Fixpoint Rule_String (r : Rule) : string :=
  match r with
  | DefaultRule _ r => default_String r
  | LogicalRule rules mode invert _ =>
      let op := if String.eqb mode LogicalTypeAnd then "&&"
                else if String.eqb mode LogicalTypeOr then "||" else "" in
      let s := join (" " +:+ op +:+ " ") (map Rule_String rules) in
      if negb invert then s else "!(" +:+ s +:+ ")"
  end.

(** * Matching *)

Section engine.
Variable svc : Services.
(** [matchRuleItemStatesWithBase] on a rule-set item. *)
Variable ruleSetStates : RuleSetItem -> InboundContext -> ruleMatchState -> ruleMatchStateSet.

Definition matchAnyItem (items : list RuleItem) (metadata : InboundContext) : bool :=
  anyb items (fun it => RuleItem_Match svc it metadata).

Definition destinationIPCIDRMatchesSource (r : abstractDefaultRule) (metadata : InboundContext) : bool :=
  negb (ic_IgnoreDestinationIPCIDRMatch metadata) && ic_IPCIDRMatchSource metadata
  && nonempty (destinationIPCIDRItems r).

Definition destinationIPCIDRMatchesDestination (r : abstractDefaultRule) (metadata : InboundContext) : bool :=
  negb (ic_IgnoreDestinationIPCIDRMatch metadata) && negb (ic_IPCIDRMatchSource metadata)
  && nonempty (destinationIPCIDRItems r).

Definition requiresSourceAddressMatch (r : abstractDefaultRule) (metadata : InboundContext) : bool :=
  nonempty (sourceAddressItems r) || destinationIPCIDRMatchesSource r metadata.

Definition requiresDestinationAddressMatch (r : abstractDefaultRule) (metadata : InboundContext) : bool :=
  nonempty (destinationAddressItems r) || destinationIPCIDRMatchesDestination r metadata.

Definition invertedFailure (r : abstractDefaultRule) (base : ruleMatchState) : ruleMatchStateSet :=
  if invert r then withBase emptyRuleMatchState base else 0.

(** [metadata.DidMatch = true] *)
Definition didMatch (metadata : InboundContext) : InboundContext := metadata {{ ic_DidMatch := true }}.

(** One item group: when it is consulted, [DidMatch] is set and [bit] is added
    to the state if any of its items matches. *)
Definition matchGroup (consult : bool) (group : list RuleItem) (bit : ruleMatchState)
    (st : ruleMatchState * InboundContext) : ruleMatchState * InboundContext :=
  let '(baseState, metadata) := st in
  if consult then
    let metadata := didMatch metadata in
    if matchAnyItem group metadata then (Z.lor baseState bit, metadata) else (baseState, metadata)
  else (baseState, metadata).

(** The destination IP CIDR group, which is only evaluated when [bit] is not
    already set, and sets [DidMatch] either way. *)
Definition matchCIDRGroup (consult : bool) (group : list RuleItem) (bit : ruleMatchState)
    (st : ruleMatchState * InboundContext) : ruleMatchState * InboundContext :=
  if consult && negb (has st.1 bit) then matchGroup true group bit st
  else if consult then (st.1, didMatch st.2) else st.

(** The item groups, in the order [matchStatesWithBase] evaluates them. *)
Definition matchGroups (r : abstractDefaultRule) (st : ruleMatchState * InboundContext)
    : ruleMatchState * InboundContext :=
  let st := matchGroup (nonempty (sourceAddressItems r)) (sourceAddressItems r) ruleMatchSourceAddress st in
  let st := matchCIDRGroup (destinationIPCIDRMatchesSource r st.2) (destinationIPCIDRItems r)
              ruleMatchSourceAddress st in
  let st := matchGroup (nonempty (sourcePortItems r)) (sourcePortItems r) ruleMatchSourcePort st in
  let st := matchGroup (nonempty (destinationAddressItems r)) (destinationAddressItems r)
              ruleMatchDestinationAddress st in
  let st := matchCIDRGroup (destinationIPCIDRMatchesDestination r st.2) (destinationIPCIDRItems r)
              ruleMatchDestinationAddress st in
  matchGroup (nonempty (destinationPortItems r)) (destinationPortItems r) ruleMatchDestinationPort st.

(** The loop over [items]: the metadata it leaves and whether all matched. *)
Fixpoint matchItems (l : list RuleItem) (metadata : InboundContext) : bool * InboundContext :=
  match l with
  | [] => (true, metadata)
  | item :: l' =>
      let metadata := didMatch metadata in
      if negb (RuleItem_Match svc item metadata) then (false, metadata) else matchItems l' metadata
  end.

(** The [filter] closure. *)
Definition stateAllowed (r : abstractDefaultRule) (metadata : InboundContext) (state : ruleMatchState) : bool :=
  if requiresSourceAddressMatch r metadata && negb (has state ruleMatchSourceAddress) then false
  else if nonempty (sourcePortItems r) && negb (has state ruleMatchSourcePort) then false
  else if requiresDestinationAddressMatch r metadata && negb (has state ruleMatchDestinationAddress) then false
  else if nonempty (destinationPortItems r) && negb (has state ruleMatchDestinationPort) then false
  else true.

(** [abstractDefaultRule.matchStatesWithBase], with the metadata it leaves. *)
Definition default_matchStatesWithBase (r : abstractDefaultRule) (metadata : InboundContext)
    (inheritedBase : ruleMatchState) : ruleMatchStateSet * InboundContext :=
  if negb (nonempty (allItems r)) then (withBase emptyRuleMatchState inheritedBase, metadata)
  else
    let evaluationBase := if invert r then 0 else inheritedBase in
    let '(baseState, metadata) := matchGroups r (evaluationBase, metadata) in
    let '(matched, metadata) := matchItems (items r) metadata in
    if negb matched then (invertedFailure r inheritedBase, metadata)
    else
      let '(stateSet, metadata) :=
        match ruleSetItem r with
        | Some item =>
            let metadata := didMatch metadata in (ruleSetStates item metadata baseState, metadata)
        | None => (singleRuleMatchState baseState, metadata)
        end in
      let stateSet := filterStates stateSet (stateAllowed r metadata) in
      if isEmpty stateSet then (invertedFailure r inheritedBase, metadata)
      else if invert r then
        if ic_IgnoreDestinationIPCIDRMatch metadata && (stateSet =? emptyRuleMatchState)
           && negb (ic_DidMatch metadata) && nonempty (destinationIPCIDRItems r)
        then (withBase emptyRuleMatchState inheritedBase, metadata)
        else (0, metadata)
      else (stateSet, metadata).

(** [abstractLogicalRule.matchStatesWithBase]; each sub rule sees a copy of the
    metadata with its rule cache reset. *)
Fixpoint logicalAnd (subs : list (InboundContext -> ruleMatchState -> ruleMatchStateSet))
    (invert : bool) (metadata : InboundContext) (base evaluationBase : ruleMatchState)
    (stateSet : ruleMatchStateSet) : ruleMatchStateSet :=
  match subs with
  | [] => if invert then 0 else stateSet
  | rule :: subs' =>
      let nestedStateSet := rule (ResetRuleCache metadata) evaluationBase in
      if isEmpty nestedStateSet
      then if invert then withBase emptyRuleMatchState base else 0
      else logicalAnd subs' invert metadata base evaluationBase (combine stateSet nestedStateSet)
  end.

Definition logicalOr (subs : list (InboundContext -> ruleMatchState -> ruleMatchStateSet))
    (metadata : InboundContext) (evaluationBase : ruleMatchState) : ruleMatchStateSet :=
  foldl (fun stateSet rule => merge stateSet (rule (ResetRuleCache metadata) evaluationBase)) 0 subs.

Definition logical_matchStatesWithBase
    (subs : list (InboundContext -> ruleMatchState -> ruleMatchStateSet)) (mode : string) (invert : bool)
    (metadata : InboundContext) (base : ruleMatchState) : ruleMatchStateSet :=
  let evaluationBase := if invert then 0 else base in
  if String.eqb mode LogicalTypeAnd
  then logicalAnd subs invert metadata base evaluationBase (withBase emptyRuleMatchState evaluationBase)
  else
    let stateSet := logicalOr subs metadata evaluationBase in
    if isEmpty stateSet then if invert then withBase emptyRuleMatchState base else 0
    else if invert then 0 else stateSet.

(** [matchHeadlessRuleStatesWithBase]: every rule type embeds one of the two
    abstract rules and so implements [ruleStateMatcherWithBase]. *)
Fixpoint rule_matchStatesWithBase (r : Rule) (metadata : InboundContext) (base : ruleMatchState)
    : ruleMatchStateSet :=
  match r with
  | DefaultRule _ r => (default_matchStatesWithBase r metadata base).1
  | LogicalRule rules mode invert _ =>
      logical_matchStatesWithBase (map rule_matchStatesWithBase rules) mode invert metadata base
  end.

(** [Match] of a route or headless rule, with the metadata it leaves. *)
Definition Rule_Match (r : Rule) (metadata : InboundContext) : bool * InboundContext :=
  (negb (isEmpty (rule_matchStatesWithBase r metadata 0)),
   match r with
   | DefaultRule _ r => (default_matchStatesWithBase r metadata 0).2
   | LogicalRule _ _ _ _ => metadata
   end).

End engine.

(** ** Rule-sets *)

(** [adapter.RuleSetMetadata] *)
Record RuleSetMetadata := mkRuleSetMetadata {
  ContainsProcessRule : bool;
  ContainsWIFIRule : bool;
  ContainsIPCIDRRule : bool;
  ContainsDNSQueryTypeRule : bool;
  ContainsNonIPCIDRRule : bool }.

(** A [LocalRuleSet] or [RemoteRuleSet] as the matcher sees it. *)
Record RuleSet := mkRuleSet { rs_rules : list Rule; rs_metadata : RuleSetMetadata }.

Definition ruleSetStore := gmap string RuleSet.

(** Headless rules have no rule-set item. *)
Definition noRuleSetStates (_ : RuleSetItem) (_ : InboundContext) (_ : ruleMatchState) : ruleMatchStateSet := 0.

(** [LocalRuleSet.matchStatesWithBase], which is also the text of
    [RemoteRuleSet.matchStatesWithBase]. *)
Definition RuleSet_matchStatesWithBase (svc : Services) (s : RuleSet) (metadata : InboundContext)
    (base : ruleMatchState) : ruleMatchStateSet :=
  foldl (fun stateSet rule =>
    merge stateSet (rule_matchStatesWithBase svc noRuleSetStates rule (ResetRuleMatchCache metadata) base))
    0 (rs_rules s).

Definition RuleSetItem_matchStatesWithBase (svc : Services) (store : ruleSetStore) (r : RuleSetItem)
    (metadata : InboundContext) (base : ruleMatchState) : ruleMatchStateSet :=
  foldl (fun stateSet ruleSet =>
    let nestedMetadata := (ResetRuleMatchCache metadata)
      {{ ic_IPCIDRMatchSource := ipCidrMatchSource r; ic_IPCIDRAcceptEmpty := ipCidrAcceptEmpty r }} in
    merge stateSet (RuleSet_matchStatesWithBase svc ruleSet nestedMetadata base))
    0 (omap (fun tag => store !! tag) (setList r)).

Definition ContainsDestinationIPCIDRRule (store : ruleSetStore) (r : RuleSetItem) : bool :=
  if ipCidrMatchSource r then false
  else anyb (omap (fun tag => store !! tag) (setList r)) (fun ruleSet => ContainsIPCIDRRule (rs_metadata ruleSet)).

(** * Start and Close *)

(** [RuleSet.IncRef] and [DecRef]; the count is an [atomic.Int32]. *)
Definition refs_of (c : refCounts) (tag : string) : Z := default 0 (c !! tag).
Definition int32 (z : Z) : Z := let u := u32 z in if u <? 2 ^ 31 then u else u - 2 ^ 32.
Definition IncRef (c : refCounts) (tag : string) : refCounts := <[tag := int32 (refs_of c tag + 1)]> c.
Definition DecRef (c : refCounts) (tag : string) : result refCounts :=
  let refs := int32 (refs_of c tag - 1) in
  if refs <? 0 then Panic "rule-set: negative refs" else Ok (<[tag := refs]> c).

Fixpoint decRefs (setList : list string) (c : refCounts) : result refCounts :=
  match setList with
  | [] => Ok c
  | tag :: setList' => c ← DecRef c tag; decRefs setList' c
  end.

Definition RuleSetItem_Close (r : RuleSetItem) (c : refCounts) : result (RuleSetItem * refCounts) :=
  c ← decRefs (setList r) c; Ok (r {{ setList := [] }}, c).

(** The loop of [RuleSetItem.Start]; [loaded] is [router.RuleSet].  Like the other
    [Start] methods below, it returns the error with what it has changed. *)
Fixpoint RuleSetItem_startLoop (loaded : string -> bool) (tags : list string) (r : RuleSetItem) (c : refCounts)
    : result (option GoError * RuleSetItem * refCounts) :=
  match tags with
  | [] => Ok (None, r, c)
  | tag :: tags' =>
      if negb (loaded tag) then
        '(r, c) ← RuleSetItem_Close r c; Ok (Some (E_New ("rule-set not found: " +:+ tag)), r, c)
      else RuleSetItem_startLoop loaded tags' (r {{ setList := setList r ++ [tag] }}) (IncRef c tag)
  end.

Definition RuleSetItem_Start (loaded : string -> bool) (r : RuleSetItem) (c : refCounts)
    : result (option GoError * RuleSetItem * refCounts) :=
  '(r, c) ← RuleSetItem_Close r c; RuleSetItem_startLoop loaded (tagList r) r c.

(** What [Start] finds in the context. *)
Record StartEnv := mkStartEnv {
  env_clashServer : bool;
  env_outbound : string -> option (string + PreferredRoutes);
  env_transport : string -> option (string + (string -> bool));
  env_ruleSet : string -> bool }.

(** The items that have a [Start] method; the others are left as they are. *)
Definition RuleItem_Start (env : StartEnv) (i : RuleItem) : result RuleItem :=
  match i with
  | ItemClashMode r => Ok (ItemClashMode (ClashModeItem_Start (env_clashServer env) r))
  | ItemPreferredBy r => r ← PreferredByItem_Start (env_outbound env) r; Ok (ItemPreferredBy r)
  | ItemPreferredByDNS r => r ← PreferredByDNSItem_Start (env_transport env) r; Ok (ItemPreferredByDNS r)
  | _ => Ok i
  end.

(** The loop over [allItems]; the items after a failing one are left as they are. *)
Fixpoint startItems (env : StartEnv) (l : list AnyItem) (c : refCounts)
    : result (option GoError * list AnyItem * refCounts) :=
  match l with
  | [] => Ok (None, [], c)
  | PlainItem i :: l' =>
      match RuleItem_Start env i with
      | Ok i => '(err, l', c) ← startItems env l' c; Ok (err, PlainItem i :: l', c)
      | Err err => Ok (Some err, l, c)
      | Panic p => Panic p
      end
  | SetItem i :: l' =>
      '(err, i, c) ← RuleSetItem_Start (env_ruleSet env) i c;
      match err with
      | Some err => Ok (Some err, SetItem i :: l', c)
      | None => '(err, l', c) ← startItems env l' c; Ok (err, SetItem i :: l', c)
      end
  end.

(** A group's items are the objects of [allItems], so they are started too. *)
Definition startedItem (env : StartEnv) (i : RuleItem) : RuleItem :=
  match RuleItem_Start env i with Ok i' => i' | _ => i end.

Fixpoint startedSetItem (l : list AnyItem) : option RuleSetItem :=
  match l with
  | [] => None
  | SetItem i :: _ => Some i
  | PlainItem _ :: l' => startedSetItem l'
  end.

(** When the start fails, the groups are left as they are: the rule is not matched
    then, but it is closed. *)
Definition default_Start (env : StartEnv) (r : abstractDefaultRule) (c : refCounts)
    : result (option GoError * abstractDefaultRule * refCounts) :=
  '(err, all, c) ← startItems env (allItems r) c;
  let started := match err with None => map (startedItem env) | Some _ => id end in
  Ok (err, mkAbstractDefaultRule (started (items r)) (started (sourceAddressItems r)) (started (sourcePortItems r))
        (started (destinationAddressItems r)) (started (destinationIPCIDRItems r))
        (started (destinationPortItems r)) all
        (match ruleSetItem r with Some _ => startedSetItem all | None => None end)
        (invert r) (action r), c).

(** Start a list of rules up to the first that fails, threading the reference counts. *)
Fixpoint startAll {A} (start : A -> refCounts -> result (option GoError * A * refCounts)) (l : list A) (c : refCounts)
    : result (option GoError * list A * refCounts) :=
  match l with
  | [] => Ok (None, [], c)
  | r :: l' =>
      '(err, r, c) ← start r c;
      match err with
      | Some err => Ok (Some err, r :: l', c)
      | None => '(err, l', c) ← startAll start l' c; Ok (err, r :: l', c)
      end
  end.

Fixpoint Rule_Start (env : StartEnv) (r : Rule) (c : refCounts) : result (option GoError * Rule * refCounts) :=
  match r with
  | DefaultRule m r => '(err, r, c) ← default_Start env r c; Ok (err, DefaultRule m r, c)
  | LogicalRule rules mode inv act =>
      '(err, rules, c) ← startAll (Rule_Start env) rules c; Ok (err, LogicalRule rules mode inv act, c)
  end.

(** Of the items only a rule-set item has a [Close] method. *)
Fixpoint closeItems (l : list AnyItem) (c : refCounts) : result (list AnyItem * refCounts) :=
  match l with
  | [] => Ok ([], c)
  | PlainItem i :: l' => '(l', c) ← closeItems l' c; Ok (PlainItem i :: l', c)
  | SetItem i :: l' =>
      '(i, c) ← RuleSetItem_Close i c;
      '(l', c) ← closeItems l' c; Ok (SetItem i :: l', c)
  end.

Definition default_Close (r : abstractDefaultRule) (c : refCounts) : result (abstractDefaultRule * refCounts) :=
  '(all, c) ← closeItems (allItems r) c;
  Ok (r {{ allItems := all;
           ruleSetItem := match ruleSetItem r with Some _ => startedSetItem all | None => None end }}, c).

Fixpoint closeAll {A} (close : A -> refCounts -> result (A * refCounts)) (l : list A) (c : refCounts)
    : result (list A * refCounts) :=
  match l with
  | [] => Ok ([], c)
  | r :: l' => '(r, c) ← close r c; '(l', c) ← closeAll close l' c; Ok (r :: l', c)
  end.

Fixpoint Rule_Close (r : Rule) (c : refCounts) : result (Rule * refCounts) :=
  match r with
  | DefaultRule m r => '(r, c) ← default_Close r c; Ok (DefaultRule m r, c)
  | LogicalRule rules mode inv act =>
      '(rules, c) ← closeAll Rule_Close rules c; Ok (LogicalRule rules mode inv act, c)
  end.

End rules.
