(* ===== verification/RuleBuild.v ===== *)
(** [route/rule/rule_default.go], [route/rule/rule_headless.go],
    [route/rule/rule_dns.go] and [route/rule/rule_nested_action.go]: building
    rules from their options. *)
From S2P Require Import Prelude Netip Metadata RuleItem RuleAction Options RuleAbstract.

Definition RouteRuleActionNestedUnsupportedMessage : string := "rule action is not supported in nested rules".
Definition DNSRuleActionNestedUnsupportedMessage : string := "DNS rule action is not supported in nested rules".

Section build.
Context `{Libs} `{ActionLibs}.

(** * The steps of a constructor *)

(** The slices of [abstractDefaultRule] an item can be appended to. *)
Inductive itemGroup :=
| GItems | GSourceAddress | GSourcePort | GDestinationAddress | GDestinationIPCIDR | GDestinationPort.

(** One [if] of a constructor: when the option is set, build the item and
    append it to its group and to [allItems]; refuse the option; or use the
    item as the rule-set item. *)
Inductive step :=
| On (set : bool) (item : result RuleItem) (group : itemGroup)
| Refuse (set : bool) (message : string)
| UseRuleSet (set : bool) (item : result RuleSetItem).

(** [else if option != nil] *)
Definition OnSome {A} (set : bool) (option : option A) (item : A -> RuleItem) (group : itemGroup) : step :=
  match option with
  | Some a => On set (Ok (item a)) group
  | None => On false (Err (E_New "nil")) group
  end.

Definition appendItem (group : itemGroup) (item : RuleItem) (r : abstractDefaultRule) : abstractDefaultRule :=
  let r := r {{ allItems := allItems r ++ [PlainItem item] }} in
  match group with
  | GItems => r {{ items := items r ++ [item] }}
  | GSourceAddress => r {{ sourceAddressItems := sourceAddressItems r ++ [item] }}
  | GSourcePort => r {{ sourcePortItems := sourcePortItems r ++ [item] }}
  | GDestinationAddress => r {{ destinationAddressItems := destinationAddressItems r ++ [item] }}
  | GDestinationIPCIDR => r {{ destinationIPCIDRItems := destinationIPCIDRItems r ++ [item] }}
  | GDestinationPort => r {{ destinationPortItems := destinationPortItems r ++ [item] }}
  end.

Definition runStep (s : step) (r : abstractDefaultRule) : result abstractDefaultRule :=
  match s with
  | On set item group => if set then i ← item; Ok (appendItem group i r) else Ok r
  | Refuse set message => if set then Err (E_New message) else Ok r
  | UseRuleSet set item =>
      if set then i ← item; Ok (r {{ ruleSetItem := Some i; allItems := allItems r ++ [SetItem i] }}) else Ok r
  end.

Fixpoint runSteps (steps : list step) (r : abstractDefaultRule) : result abstractDefaultRule :=
  match steps with
  | [] => Ok r
  | s :: steps' => r ← runStep s r; runSteps steps' r
  end.

Definition given {A} (s : slice A) : bool := nonempty (elems s).

(** [item, err := New...Item(...)] *)
Definition domainItem (domain domainSuffix : slice string) : result RuleItem :=
  i ← NewDomainItem (elems domain) (elems domainSuffix); Ok (ItemDomain i).
Definition domainRegexItem (expressions : slice string) : result RuleItem :=
  i ← NewDomainRegexItem (elems expressions); Ok (ItemDomainRegex i).
Definition ipCIDRItem (isSource : bool) (prefixes : slice string) : result RuleItem :=
  i ← NewIPCIDRItem isSource (elems prefixes); Ok (ItemIPCIDR i).
Definition portRangeItem (isSource : bool) (ranges : slice string) : result RuleItem :=
  i ← NewPortRangeItem isSource (elems ranges); Ok (ItemPortRange i).
Definition processPathRegexItem (expressions : slice string) : result RuleItem :=
  i ← NewProcessPathRegexItem (elems expressions); Ok (ItemProcessPathRegex i).
Definition packageNameRegexItem (expressions : slice string) : result RuleItem :=
  i ← NewPackageNameRegexItem (elems expressions); Ok (ItemPackageNameRegex i).
Definition ipVersionItem (version : Z) : result RuleItem :=
  if (version =? 4) || (version =? 6) then Ok (ItemIPVersion (NewIPVersionItem (version =? 6)))
  else Err (E_New ("invalid ip version: " +:+ F_ToString version)).

Definition geositeRemoved : string :=
  "geosite database is deprecated in sing-box 1.8.0 and removed in sing-box 1.12.0".
Definition geoipRemoved : string :=
  "geoip database is deprecated in sing-box 1.8.0 and removed in sing-box 1.12.0".
Definition matchSourceRemoved : string :=
  "rule_set_ipcidr_match_source is deprecated in sing-box 1.10.0 and removed in sing-box 1.11.0".

(** * Route rules *)

Definition defaultRuleSteps (o : RawDefaultRule) : list step :=
  [ On (given (r_Inbound o)) (Ok (ItemInbound (NewInboundRule (elems (r_Inbound o))))) GItems;
    On (0 <? r_IPVersion o) (ipVersionItem (r_IPVersion o)) GItems;
    On (given (r_Network o)) (Ok (ItemNetwork (NewNetworkItem (elems (r_Network o))))) GItems;
    On (given (r_AuthUser o)) (Ok (ItemAuthUser (NewAuthUserItem (elems (r_AuthUser o))))) GItems;
    On (given (r_Protocol o)) (Ok (ItemProtocol (NewProtocolItem (elems (r_Protocol o))))) GItems;
    On (given (r_Client o)) (Ok (ItemClient (NewClientItem (elems (r_Client o))))) GItems;
    On (given (r_Domain o) || given (r_DomainSuffix o)) (domainItem (r_Domain o) (r_DomainSuffix o))
       GDestinationAddress;
    On (given (r_DomainKeyword o)) (Ok (ItemDomainKeyword (NewDomainKeywordItem (elems (r_DomainKeyword o)))))
       GDestinationAddress;
    On (given (r_DomainRegex o)) (domainRegexItem (r_DomainRegex o)) GDestinationAddress;
    Refuse (given (r_Geosite o)) geositeRemoved;
    Refuse (given (r_SourceGeoIP o)) geoipRemoved;
    Refuse (given (r_GeoIP o)) geoipRemoved;
    On (given (r_SourceIPCIDR o)) (cause "source_ip_cidr" (ipCIDRItem true (r_SourceIPCIDR o))) GSourceAddress;
    On (r_SourceIPIsPrivate o) (Ok (ItemIPIsPrivate (NewIPIsPrivateItem true))) GSourceAddress;
    On (given (r_IPCIDR o)) (cause "ipcidr" (ipCIDRItem false (r_IPCIDR o))) GDestinationIPCIDR;
    On (r_IPIsPrivate o) (Ok (ItemIPIsPrivate (NewIPIsPrivateItem false))) GDestinationIPCIDR;
    On (given (r_SourcePort o)) (Ok (ItemPort (NewPortItem true (elems (r_SourcePort o))))) GSourcePort;
    On (given (r_SourcePortRange o)) (cause "source_port_range" (portRangeItem true (r_SourcePortRange o)))
       GSourcePort;
    On (given (r_Port o)) (Ok (ItemPort (NewPortItem false (elems (r_Port o))))) GDestinationPort;
    On (given (r_PortRange o)) (cause "port_range" (portRangeItem false (r_PortRange o))) GDestinationPort;
    On (given (r_ProcessName o)) (Ok (ItemProcess (NewProcessItem (elems (r_ProcessName o))))) GItems;
    On (given (r_ProcessPath o)) (Ok (ItemProcessPath (NewProcessPathItem (elems (r_ProcessPath o))))) GItems;
    On (given (r_ProcessPathRegex o)) (cause "process_path_regex" (processPathRegexItem (r_ProcessPathRegex o)))
       GItems;
    On (given (r_PackageName o)) (Ok (ItemPackageName (NewPackageNameItem (elems (r_PackageName o))))) GItems;
    On (given (r_PackageNameRegex o)) (cause "package_name_regex" (packageNameRegexItem (r_PackageNameRegex o)))
       GItems;
    On (given (r_User o)) (Ok (ItemUser (NewUserItem (elems (r_User o))))) GItems;
    On (given (r_UserID o)) (Ok (ItemUserId (NewUserIDItem (elems (r_UserID o))))) GItems;
    On (negb (String.eqb (r_ClashMode o) "")) (Ok (ItemClashMode (NewClashModeItem (r_ClashMode o)))) GItems;
    On (given (r_NetworkType o)) (Ok (ItemNetworkType (NewNetworkTypeItem (elems (r_NetworkType o))))) GItems;
    On (r_NetworkIsExpensive o) (Ok ItemNetworkIsExpensive) GItems;
    On (r_NetworkIsConstrained o) (Ok ItemNetworkIsConstrained) GItems;
    On (given (r_WIFISSID o)) (Ok (ItemWIFISSID (NewWIFISSIDItem (elems (r_WIFISSID o))))) GItems;
    On (given (r_WIFIBSSID o)) (Ok (ItemWIFIBSSID (NewWIFIBSSIDItem (elems (r_WIFIBSSID o))))) GItems;
    On (given (r_InterfaceAddress o))
       (Ok (ItemInterfaceAddress (NewInterfaceAddressItem (elems (r_InterfaceAddress o))))) GItems;
    On (given (r_NetworkInterfaceAddress o))
       (Ok (ItemNetworkInterfaceAddress (NewNetworkInterfaceAddressItem (elems (r_NetworkInterfaceAddress o))))) GItems;
    On (given (r_DefaultInterfaceAddress o))
       (Ok (ItemDefaultInterfaceAddress (NewDefaultInterfaceAddressItem (elems (r_DefaultInterfaceAddress o))))) GItems;
    On (given (r_SourceMACAddress o)) (Ok (ItemSourceMACAddress (NewSourceMACAddressItem (elems (r_SourceMACAddress o)))))
       GItems;
    On (given (r_SourceHostname o)) (Ok (ItemSourceHostname (NewSourceHostnameItem (elems (r_SourceHostname o)))))
       GItems;
    On (given (r_PreferredBy o)) (Ok (ItemPreferredBy (NewPreferredByItem (elems (r_PreferredBy o))))) GItems;
    UseRuleSet (given (r_RuleSet o))
       (if r_Deprecated_RulesetIPCIDRMatchSource o then Err (E_New matchSourceRemoved)
        else Ok (NewRuleSetItem (elems (r_RuleSet o)) (r_RuleSetIPCIDRMatchSource o) false)) ].

Definition NewDefaultRule (o : RawDefaultRule) (a : RuleActionOptions) : result Rule :=
  act ← cause "action" (NewRuleAction a);
  r ← runSteps (defaultRuleSteps o) (abstractDefaultRuleZero {{ invert := r_Invert o; action := act }});
  Ok (DefaultRule false r).

Definition ruleHasConfiguredAction (r : RuleOptions) : bool :=
  if String.eqb (ro_Type r) "" || String.eqb (ro_Type r) RuleTypeDefault
  then negb (RuleAction_isZero (ro_DefaultAction r))
  else if String.eqb (ro_Type r) RuleTypeLogical then negb (RuleAction_isZero (ro_LogicalAction r))
  else false.

(** The label of the [i]-th sub rule in error messages. *)
Definition subRule (i : nat) : string := "sub rule[" +:+ F_ToString (Z.of_nat i) +:+ "]".

Fixpoint validateNoNestedRuleActions (nested : bool) (r : RuleOptions) : result unit :=
  if nested && ruleHasConfiguredAction r then Err (E_New RouteRuleActionNestedUnsupportedMessage)
  else if negb (String.eqb (ro_Type r) RuleTypeLogical) then Ok tt
  else match r with
       | mkRuleOptions _ _ _ _ rules _ _ =>
           _ ← mapR_from (fun i sub => cause (subRule i) (validateNoNestedRuleActions true sub)) 0 rules; Ok tt
       end.

Definition ValidateNoNestedRuleActions (r : RuleOptions) : result unit := validateNoNestedRuleActions false r.

(** The mode of a logical rule. *)
Definition logicalMode (mode : string) : result string :=
  if String.eqb mode LogicalTypeAnd then Ok LogicalTypeAnd
  else if String.eqb mode LogicalTypeOr then Ok LogicalTypeOr
  else Err (E_New ("unknown logical mode: " +:+ mode)).

(** [NewRule], which calls [NewDefaultRule] or [NewLogicalRule]. *)
Fixpoint NewRule (checkOutbound : bool) (r : RuleOptions) : result Rule :=
  match r with
  | mkRuleOptions t o da mode rules inv la =>
      let missingOutbound a :=
        (String.eqb (opt_Action a) "" || String.eqb (opt_Action a) RuleActionTypeRoute)
        && String.eqb (opt_Outbound (opt_RouteOptions a)) "" && checkOutbound in
      if String.eqb t "" || String.eqb t RuleTypeDefault then
        if negb (DefaultRule_IsValid o da) then Err (E_New "missing conditions")
        else if missingOutbound da then Err (E_New "missing outbound field")
        else NewDefaultRule o da
      else if String.eqb t RuleTypeLogical then
        valid ← LogicalRule_IsValid rules;
        if negb valid then Err (E_New "missing conditions")
        else if missingOutbound la then Err (E_New "missing outbound field")
        else
          act ← cause "action" (NewRuleAction la);
          mode ← logicalMode mode;
          subs ← mapR_from (fun i sub =>
            _ ← cause (subRule i) (validateNoNestedRuleActions true sub);
            cause (subRule i) (NewRule false sub)) 0 rules;
          Ok (LogicalRule subs mode inv act)
      else Err (E_New ("unknown rule type: " +:+ t))
  end.

(** * Headless rules *)

(** [networkManager] says whether the context has one. *)
Definition headlessRuleSteps (networkManager : bool) (o : DefaultHeadlessRule) : list step :=
  [ On (given (h_QueryType o)) (Ok (ItemQueryType (NewQueryTypeItem (elems (h_QueryType o))))) GItems;
    On (given (h_Network o)) (Ok (ItemNetwork (NewNetworkItem (elems (h_Network o))))) GItems;
    On (given (h_Domain o) || given (h_DomainSuffix o)) (domainItem (h_Domain o) (h_DomainSuffix o))
       GDestinationAddress;
    OnSome (negb (given (h_Domain o) || given (h_DomainSuffix o))) (h_DomainMatcher o)
       (fun m => ItemDomain (NewRawDomainItem m)) GDestinationAddress;
    On (given (h_DomainKeyword o)) (Ok (ItemDomainKeyword (NewDomainKeywordItem (elems (h_DomainKeyword o)))))
       GDestinationAddress;
    On (given (h_DomainRegex o)) (cause "domain_regex" (domainRegexItem (h_DomainRegex o))) GDestinationAddress;
    On (given (h_SourceIPCIDR o)) (cause "source_ip_cidr" (ipCIDRItem true (h_SourceIPCIDR o))) GSourceAddress;
    OnSome (negb (given (h_SourceIPCIDR o))) (h_SourceIPSet o)
       (fun set => ItemIPCIDR (NewRawIPCIDRItem true set)) GSourceAddress;
    On (given (h_IPCIDR o)) (cause "ipcidr" (ipCIDRItem false (h_IPCIDR o))) GDestinationIPCIDR;
    OnSome (negb (given (h_IPCIDR o))) (h_IPSet o)
       (fun set => ItemIPCIDR (NewRawIPCIDRItem false set)) GDestinationIPCIDR;
    On (given (h_SourcePort o)) (Ok (ItemPort (NewPortItem true (elems (h_SourcePort o))))) GSourcePort;
    On (given (h_SourcePortRange o)) (cause "source_port_range" (portRangeItem true (h_SourcePortRange o)))
       GSourcePort;
    On (given (h_Port o)) (Ok (ItemPort (NewPortItem false (elems (h_Port o))))) GDestinationPort;
    On (given (h_PortRange o)) (cause "port_range" (portRangeItem false (h_PortRange o))) GDestinationPort;
    On (given (h_ProcessName o)) (Ok (ItemProcess (NewProcessItem (elems (h_ProcessName o))))) GItems;
    On (given (h_ProcessPath o)) (Ok (ItemProcessPath (NewProcessPathItem (elems (h_ProcessPath o))))) GItems;
    On (given (h_ProcessPathRegex o)) (cause "process_path_regex" (processPathRegexItem (h_ProcessPathRegex o)))
       GItems;
    On (given (h_PackageName o)) (Ok (ItemPackageName (NewPackageNameItem (elems (h_PackageName o))))) GItems;
    On (given (h_PackageNameRegex o)) (cause "package_name_regex" (packageNameRegexItem (h_PackageNameRegex o)))
       GItems;
    On (networkManager && given (h_NetworkType o))
       (Ok (ItemNetworkType (NewNetworkTypeItem (elems (h_NetworkType o))))) GItems;
    On (networkManager && h_NetworkIsExpensive o) (Ok ItemNetworkIsExpensive) GItems;
    On (networkManager && h_NetworkIsConstrained o) (Ok ItemNetworkIsConstrained) GItems;
    On (networkManager && given (h_WIFISSID o)) (Ok (ItemWIFISSID (NewWIFISSIDItem (elems (h_WIFISSID o))))) GItems;
    On (networkManager && given (h_WIFIBSSID o)) (Ok (ItemWIFIBSSID (NewWIFIBSSIDItem (elems (h_WIFIBSSID o)))))
       GItems;
    On (networkManager && given (h_NetworkInterfaceAddress o))
       (Ok (ItemNetworkInterfaceAddress (NewNetworkInterfaceAddressItem (elems (h_NetworkInterfaceAddress o))))) GItems;
    On (networkManager && given (h_DefaultInterfaceAddress o))
       (Ok (ItemDefaultInterfaceAddress (NewDefaultInterfaceAddressItem (elems (h_DefaultInterfaceAddress o))))) GItems;
    On (given (h_AdGuardDomain o)) (Ok (ItemAdGuardDomain (NewAdGuardDomainItem (elems (h_AdGuardDomain o)))))
       GDestinationAddress;
    OnSome (negb (given (h_AdGuardDomain o))) (h_AdGuardDomainMatcher o)
       (fun m => ItemAdGuardDomain (NewRawAdGuardDomainItem m)) GDestinationAddress ].

Definition NewDefaultHeadlessRule (networkManager : bool) (o : DefaultHeadlessRule) : result Rule :=
  r ← runSteps (headlessRuleSteps networkManager o) (abstractDefaultRuleZero {{ invert := h_Invert o }});
  Ok (DefaultRule false r).

(** [NewHeadlessRule] with [NewLogicalHeadlessRule]. *)
Fixpoint NewHeadlessRule (networkManager : bool) (r : HeadlessRule) : result Rule :=
  match r with
  | mkHeadlessRule t o mode rules inv =>
      if String.eqb t "" || String.eqb t RuleTypeDefault then
        if negb (DefaultHeadlessRule_IsValid o) then Err (E_New "missing conditions")
        else NewDefaultHeadlessRule networkManager o
      else if String.eqb t RuleTypeLogical then
        valid ← LogicalHeadlessRule_IsValid rules;
        if negb valid then Err (E_New "missing conditions")
        else
          mode ← logicalMode mode;
          subs ← mapR_from (fun i sub => cause (subRule i) (NewHeadlessRule networkManager sub)) 0 rules;
          Ok (LogicalRule subs mode inv None)
      else Err (E_New ("unknown rule type: " +:+ t))
  end.

(** * DNS rules *)

(** [deprecated.OptionRuleSetIPCIDRAcceptEmpty.MessageWithLink()] *)
Definition acceptEmptyDeprecated : string :=
  "Legacy `rule_set_ip_cidr_accept_empty` DNS rule item is deprecated in sing-box 1.14.0 and will be removed in sing-box 1.16.0, checkout documentation for migration: https://sing-box.sagernet.org/migration/#migrate-address-filter-fields-to-response-matching".

Definition dnsRuleSteps (legacyDNSMode : bool) (o : RawDefaultDNSRule) : list step :=
  [ On (given (d_Inbound o)) (Ok (ItemInbound (NewInboundRule (elems (d_Inbound o))))) GItems;
    On (0 <? d_IPVersion o) (ipVersionItem (d_IPVersion o)) GItems;
    On (given (d_QueryType o)) (Ok (ItemQueryType (NewQueryTypeItem (elems (d_QueryType o))))) GItems;
    On (given (d_Network o)) (Ok (ItemNetwork (NewNetworkItem (elems (d_Network o))))) GItems;
    On (given (d_AuthUser o)) (Ok (ItemAuthUser (NewAuthUserItem (elems (d_AuthUser o))))) GItems;
    On (given (d_Protocol o)) (Ok (ItemProtocol (NewProtocolItem (elems (d_Protocol o))))) GItems;
    On (given (d_Domain o) || given (d_DomainSuffix o)) (domainItem (d_Domain o) (d_DomainSuffix o))
       GDestinationAddress;
    On (given (d_DomainKeyword o)) (Ok (ItemDomainKeyword (NewDomainKeywordItem (elems (d_DomainKeyword o)))))
       GDestinationAddress;
    On (given (d_DomainRegex o)) (cause "domain_regex" (domainRegexItem (d_DomainRegex o))) GDestinationAddress;
    Refuse (given (d_Geosite o)) geositeRemoved;
    Refuse (given (d_SourceGeoIP o)) geoipRemoved;
    Refuse (given (d_GeoIP o)) geoipRemoved;
    On (given (d_SourceIPCIDR o)) (cause "source_ip_cidr" (ipCIDRItem true (d_SourceIPCIDR o))) GSourceAddress;
    On (given (d_IPCIDR o)) (cause "ip_cidr" (ipCIDRItem false (d_IPCIDR o))) GDestinationIPCIDR;
    On (d_SourceIPIsPrivate o) (Ok (ItemIPIsPrivate (NewIPIsPrivateItem true))) GSourceAddress;
    On (d_IPIsPrivate o) (Ok (ItemIPIsPrivate (NewIPIsPrivateItem false))) GDestinationIPCIDR;
    On (d_IPAcceptAny o) (Ok ItemIPAcceptAny) GDestinationIPCIDR;
    OnSome true (d_ResponseRcode o) (fun rcode => ItemResponseRCode (mkDNSResponseRCodeItem rcode)) GItems;
    On (given (d_ResponseAnswer o))
       (Ok (ItemResponseRecord (NewDNSResponseRecordItem "response_answer" (elems (d_ResponseAnswer o)) dnsResponseAnswers)))
       GItems;
    On (given (d_ResponseNs o))
       (Ok (ItemResponseRecord (NewDNSResponseRecordItem "response_ns" (elems (d_ResponseNs o)) dnsResponseNS))) GItems;
    On (given (d_ResponseExtra o))
       (Ok (ItemResponseRecord (NewDNSResponseRecordItem "response_extra" (elems (d_ResponseExtra o)) dnsResponseExtra)))
       GItems;
    On (given (d_SourcePort o)) (Ok (ItemPort (NewPortItem true (elems (d_SourcePort o))))) GSourcePort;
    On (given (d_SourcePortRange o)) (cause "source_port_range" (portRangeItem true (d_SourcePortRange o)))
       GSourcePort;
    On (given (d_Port o)) (Ok (ItemPort (NewPortItem false (elems (d_Port o))))) GDestinationPort;
    On (given (d_PortRange o)) (cause "port_range" (portRangeItem false (d_PortRange o))) GDestinationPort;
    On (given (d_ProcessName o)) (Ok (ItemProcess (NewProcessItem (elems (d_ProcessName o))))) GItems;
    On (given (d_ProcessPath o)) (Ok (ItemProcessPath (NewProcessPathItem (elems (d_ProcessPath o))))) GItems;
    On (given (d_ProcessPathRegex o)) (cause "process_path_regex" (processPathRegexItem (d_ProcessPathRegex o)))
       GItems;
    On (given (d_PackageName o)) (Ok (ItemPackageName (NewPackageNameItem (elems (d_PackageName o))))) GItems;
    On (given (d_PackageNameRegex o)) (cause "package_name_regex" (packageNameRegexItem (d_PackageNameRegex o)))
       GItems;
    On (given (d_User o)) (Ok (ItemUser (NewUserItem (elems (d_User o))))) GItems;
    On (given (d_UserID o)) (Ok (ItemUserId (NewUserIDItem (elems (d_UserID o))))) GItems;
    On (given (d_Outbound o)) (Ok (ItemOutbound (NewOutboundRule (elems (d_Outbound o))))) GItems;
    On (negb (String.eqb (d_ClashMode o) "")) (Ok (ItemClashMode (NewClashModeItem (d_ClashMode o)))) GItems;
    On (given (d_NetworkType o)) (Ok (ItemNetworkType (NewNetworkTypeItem (elems (d_NetworkType o))))) GItems;
    On (d_NetworkIsExpensive o) (Ok ItemNetworkIsExpensive) GItems;
    On (d_NetworkIsConstrained o) (Ok ItemNetworkIsConstrained) GItems;
    On (given (d_WIFISSID o)) (Ok (ItemWIFISSID (NewWIFISSIDItem (elems (d_WIFISSID o))))) GItems;
    On (given (d_WIFIBSSID o)) (Ok (ItemWIFIBSSID (NewWIFIBSSIDItem (elems (d_WIFIBSSID o))))) GItems;
    On (given (d_InterfaceAddress o))
       (Ok (ItemInterfaceAddress (NewInterfaceAddressItem (elems (d_InterfaceAddress o))))) GItems;
    On (given (d_NetworkInterfaceAddress o))
       (Ok (ItemNetworkInterfaceAddress (NewNetworkInterfaceAddressItem (elems (d_NetworkInterfaceAddress o))))) GItems;
    On (given (d_DefaultInterfaceAddress o))
       (Ok (ItemDefaultInterfaceAddress (NewDefaultInterfaceAddressItem (elems (d_DefaultInterfaceAddress o))))) GItems;
    On (given (d_SourceMACAddress o)) (Ok (ItemSourceMACAddress (NewSourceMACAddressItem (elems (d_SourceMACAddress o)))))
       GItems;
    On (given (d_SourceHostname o)) (Ok (ItemSourceHostname (NewSourceHostnameItem (elems (d_SourceHostname o)))))
       GItems;
    On (given (d_PreferredBy o)) (Ok (ItemPreferredByDNS (NewPreferredByDNSItem (elems (d_PreferredBy o))))) GItems;
    Refuse (d_RuleSetIPCIDRAcceptEmpty o && negb legacyDNSMode) acceptEmptyDeprecated;
    UseRuleSet (given (d_RuleSet o))
       (if d_Deprecated_RulesetIPCIDRMatchSource o then Err (E_New matchSourceRemoved)
        else Ok (NewRuleSetItem (elems (d_RuleSet o)) (d_RuleSetIPCIDRMatchSource o)
                   (d_RuleSetIPCIDRAcceptEmpty o))) ].

Definition NewDefaultDNSRule (legacyDNSMode : bool) (o : RawDefaultDNSRule) (a : DNSRuleActionOptions) : result Rule :=
  act ← NewDNSRuleAction a;
  r ← runSteps (dnsRuleSteps legacyDNSMode o) (abstractDefaultRuleZero {{ invert := d_Invert o; action := act }});
  Ok (DefaultRule (d_MatchResponse o) r).

Definition validateDNSRuleAction (a : DNSRuleActionOptions) : result unit :=
  if String.eqb (dopt_Action a) RuleActionTypeReject
     && String.eqb (opt_Method (dopt_RejectOptions a)) RuleActionRejectMethodReply
  then Err (E_New "reject method `reply` is not supported for DNS rules") else Ok tt.

Definition dnsRuleHasConfiguredAction (r : DNSRuleOptions) : bool :=
  if String.eqb (do_Type r) "" || String.eqb (do_Type r) RuleTypeDefault
  then negb (DNSRuleAction_isZero (do_DefaultAction r))
  else if String.eqb (do_Type r) RuleTypeLogical then negb (DNSRuleAction_isZero (do_LogicalAction r))
  else false.

Fixpoint validateNoNestedDNSRuleActions (nested : bool) (r : DNSRuleOptions) : result unit :=
  if nested && dnsRuleHasConfiguredAction r then Err (E_New DNSRuleActionNestedUnsupportedMessage)
  else if negb (String.eqb (do_Type r) RuleTypeLogical) then Ok tt
  else match r with
       | mkDNSRuleOptions _ _ _ _ rules _ _ =>
           _ ← mapR_from (fun i sub => cause (subRule i) (validateNoNestedDNSRuleActions true sub)) 0 rules; Ok tt
       end.

Definition ValidateNoNestedDNSRuleActions (r : DNSRuleOptions) : result unit :=
  validateNoNestedDNSRuleActions false r.

(** The checks [NewDNSRule] makes on the action of either kind of rule. *)
Definition checkDNSAction (checkServer : bool) (a : DNSRuleActionOptions) : result unit :=
  if negb checkServer && String.eqb (dopt_Action a) RuleActionTypeEvaluate
  then Err (E_New (dopt_Action a +:+ " is only allowed on top-level DNS rules"))
  else
    _ ← validateDNSRuleAction a;
    if (String.eqb (dopt_Action a) "" || String.eqb (dopt_Action a) RuleActionTypeRoute
        || String.eqb (dopt_Action a) RuleActionTypeEvaluate)
       && String.eqb (dopt_Server (dopt_RouteOptions a)) "" && checkServer
    then Err (E_New "missing server field") else Ok tt.

(** [NewDNSRule] with [NewLogicalDNSRule]. *)
Fixpoint NewDNSRule (legacyDNSMode checkServer : bool) (r : DNSRuleOptions) : result Rule :=
  match r with
  | mkDNSRuleOptions t o da mode rules inv la =>
      if String.eqb t "" || String.eqb t RuleTypeDefault then
        if negb (DefaultDNSRule_IsValid o da) then Err (E_New "missing conditions")
        else _ ← checkDNSAction checkServer da; NewDefaultDNSRule legacyDNSMode o da
      else if String.eqb t RuleTypeLogical then
        valid ← LogicalDNSRule_IsValid rules;
        if negb valid then Err (E_New "missing conditions")
        else
          _ ← checkDNSAction checkServer la;
          act ← NewDNSRuleAction la;
          mode ← logicalMode mode;
          subs ← mapR_from (fun i sub =>
            _ ← cause (subRule i) (validateNoNestedDNSRuleActions true sub);
            cause (subRule i) (NewDNSRule legacyDNSMode false sub)) 0 rules;
          Ok (LogicalRule subs mode inv act)
      else Err (E_New ("unknown rule type: " +:+ t))
  end.

End build.
