(* ===== verification/RuleSpec.v ===== *)
(** What rule matching means: the matching engine of [RuleAbstract] refines the
    boolean formula of [docs/configuration/route/rule.md]. *)
From S2P Require Import Prelude MatchState Netip Metadata RuleItem RuleAction RuleAbstract.

(** * States as four flags *)

Definition mask (sa sp da dp : bool) : ruleMatchState :=
  Z.b2z sa + 2 * Z.b2z sp + 4 * Z.b2z da + 8 * Z.b2z dp.

Lemma mask_wf a b c d : wf_state (mask a b c d).
Proof. unfold wf_state, mask. destruct a, b, c, d; simpl; lia. Qed.

Lemma mask_surj st : wf_state st -> exists a b c d, st = mask a b c d.
Proof.
  intros Hst. exists (Z.testbit st 0), (Z.testbit st 1), (Z.testbit st 2), (Z.testbit st 3).
  assert (Hin : In st allStates) by by apply list_elem_of_In, allStates_wf.
  repeat (destruct Hin as [<-|Hin]; [reflexivity|]). destruct Hin.
Qed.

Lemma mask_lor a b c d a' b' c' d' :
  Z.lor (mask a b c d) (mask a' b' c' d') = mask (a || a') (b || b') (c || c') (d || d').
Proof. destruct a, b, c, d, a', b', c', d'; reflexivity. Qed.

Lemma mask_has a b c d :
  has (mask a b c d) ruleMatchSourceAddress = a /\ has (mask a b c d) ruleMatchSourcePort = b /\
  has (mask a b c d) ruleMatchDestinationAddress = c /\ has (mask a b c d) ruleMatchDestinationPort = d.
Proof. destruct a, b, c, d; repeat split. Qed.

#[export] Hint Resolve mask_wf : sb.

(** * The documented formula

    A rule has four groups, in each of which one condition is enough, and
    further conditions which must all hold; a group without conditions is
    satisfied. *)

Record clauses := mkClauses {
  cl_source : list bool;
  cl_sourcePort : list bool;
  cl_destination : list bool;
  cl_destinationPort : list bool;
  cl_other : list bool }.

Definition groupHolds (g : list bool) : bool := negb (nonempty g) || anyb g id.

Definition clausesHold (c : clauses) : bool :=
  groupHolds (cl_source c) && groupHolds (cl_sourcePort c) && groupHolds (cl_destination c)
  && groupHolds (cl_destinationPort c) && allb (cl_other c) id.

(** Merging two rules puts their conditions side by side, group by group. *)
Definition clausesMerge (c d : clauses) : clauses :=
  mkClauses (cl_source c ++ cl_source d) (cl_sourcePort c ++ cl_sourcePort d)
    (cl_destination c ++ cl_destination d) (cl_destinationPort c ++ cl_destinationPort d)
    (cl_other c ++ cl_other d).

(** Metadata with its [DidMatch] flag set to [d]. *)
Abbreviation withDid md d := (md {{ ic_DidMatch := d }}).

Section spec.
Context `{Libs}.
Variable svc : Services.

Definition results (md : InboundContext) (l : list RuleItem) : list bool :=
  map (fun it => RuleItem_Match svc it md) l.

(** The conditions of a default rule, apart from its rule-sets.  The
    [ip_cidr] conditions belong to the destination group, or to the source
    group when the rule is evaluated in a rule-set with
    [rule_set_ip_cidr_match_source]; they are absent while they are ignored. *)
Definition cidrResults (r : abstractDefaultRule) (md : InboundContext) : list bool :=
  if ic_IgnoreDestinationIPCIDRMatch md then [] else results md (destinationIPCIDRItems r).

Definition clausesOf (r : abstractDefaultRule) (md : InboundContext) : clauses :=
  mkClauses
    (results md (sourceAddressItems r) ++ if ic_IPCIDRMatchSource md then cidrResults r md else [])
    (results md (sourcePortItems r))
    (results md (destinationAddressItems r) ++ if ic_IPCIDRMatchSource md then [] else cidrResults r md)
    (results md (destinationPortItems r))
    (results md (items r)).

(** ** The state a rule accumulates *)

Definition anyClause (g : list bool) : bool := anyb g id.

Definition satMask (c : clauses) : ruleMatchState :=
  mask (anyClause (cl_source c)) (anyClause (cl_sourcePort c))
       (anyClause (cl_destination c)) (anyClause (cl_destinationPort c)).

(** [required] may be satisfied by the rule itself or by its base. *)
Definition covers (c : clauses) (st : ruleMatchState) : bool :=
  implb (nonempty (cl_source c)) (has st ruleMatchSourceAddress)
  && implb (nonempty (cl_sourcePort c)) (has st ruleMatchSourcePort)
  && implb (nonempty (cl_destination c)) (has st ruleMatchDestinationAddress)
  && implb (nonempty (cl_destinationPort c)) (has st ruleMatchDestinationPort).

Lemma satMask_wf c : wf_state (satMask c).
Proof. apply mask_wf. Qed.

Lemma anyb_results md l : anyb (results md l) id = matchAnyItem svc l md.
Proof. apply anyb_map. Qed.

(** ** Items ignore the match cache *)

Lemma RuleItem_Match_DidMatch it md b :
  RuleItem_Match svc it (md {{ ic_DidMatch := b }}) = RuleItem_Match svc it md.
Proof. by destruct it. Qed.

Lemma matchAnyItem_DidMatch l md b :
  matchAnyItem svc l (md {{ ic_DidMatch := b }}) = matchAnyItem svc l md.
Proof. apply anyb_ext. intros. apply RuleItem_Match_DidMatch. Qed.

Lemma clausesOf_DidMatch r md b : clausesOf r (md {{ ic_DidMatch := b }}) = clausesOf r md.
Proof.
  assert (Hr : forall l, results (md {{ ic_DidMatch := b }}) l = results md l).
  { intros l. apply map_ext. intros. apply RuleItem_Match_DidMatch. }
  unfold clausesOf, cidrResults. by rewrite !Hr.
Qed.
(** ** One evaluation step at a time *)

Definition bitIf (b : bool) (bit : ruleMatchState) : ruleMatchState := if b then bit else 0.

Lemma matchGroup_spec g bit st md d :
  matchGroup svc (nonempty g) g bit (st, withDid md d)
  = (Z.lor st (bitIf (matchAnyItem svc g md) bit), withDid md (d || nonempty g)).
Proof.
  unfold matchGroup. destruct g as [|x g]; cbn [nonempty].
  - cbn. by rewrite Z.lor_0_r, orb_false_r.
  - change (didMatch (withDid md d)) with (withDid md true). rewrite matchAnyItem_DidMatch, orb_true_r.
    destruct (matchAnyItem _ _ _); cbn [bitIf]; by rewrite ?Z.lor_0_r.
Qed.

(** When the bit is already set, skipping the group changes nothing. *)
Lemma matchCIDRGroup_spec consult g bit st md d :
  (has st bit = true -> Z.lor st bit = st) ->
  matchCIDRGroup svc (consult && nonempty g) g bit (st, withDid md d)
  = (Z.lor st (bitIf (consult && matchAnyItem svc g md) bit), withDid md (d || consult && nonempty g)).
Proof.
  intros Hbit. unfold matchCIDRGroup. cbn [fst snd].
  destruct consult; cbn [andb]; [|cbn; by rewrite Z.lor_0_r, orb_false_r].
  destruct g as [|x g]; [cbn; by rewrite Z.lor_0_r, orb_false_r|].
  destruct (has st bit) eqn:Hhas; cbn [andb negb nonempty].
  - rewrite orb_true_r. f_equal. destruct (matchAnyItem _ _ _); cbn [bitIf]; [|by rewrite Z.lor_0_r].
    by rewrite Hbit.
  - rewrite <- (matchGroup_spec (x :: g)). done.
Qed.

Lemma matchItems_spec l md d :
  matchItems svc l (withDid md d) = (allb (results md l) id, withDid md (d || nonempty l)).
Proof.
  induction l as [|x l IH] in d |- *; cbn [matchItems results map]; [by rewrite orb_false_r|].
  change (didMatch (withDid md d)) with (withDid md true). rewrite RuleItem_Match_DidMatch, orb_true_r.
  unfold allb. cbn [forallb id]. destruct (RuleItem_Match svc x md); cbn [negb andb]; [|done].
  rewrite IH. done.
Qed.

(** Whether an evaluation consults any condition. *)
Definition consulted (r : abstractDefaultRule) (c : clauses) : bool :=
  nonempty (cl_source c) || nonempty (cl_sourcePort c) || nonempty (cl_destination c)
  || nonempty (cl_destinationPort c) || nonempty (cl_other c)
  || (allb (cl_other c) id && bool_decide (is_Some (ruleSetItem r))).

Lemma if_guard (a b x : bool) : (if a && negb b then false else x) = implb a b && x.
Proof. by destruct a, b. Qed.

Lemma stateAllowed_covers r md d st : stateAllowed r (withDid md d) st = covers (clausesOf r md) st.
Proof.
  unfold stateAllowed, covers, requiresSourceAddressMatch, requiresDestinationAddressMatch,
    destinationIPCIDRMatchesSource, destinationIPCIDRMatchesDestination, clausesOf, cidrResults.
  cbn [cl_source cl_sourcePort cl_destination cl_destinationPort].
  change (ic_IgnoreDestinationIPCIDRMatch (withDid md d)) with (ic_IgnoreDestinationIPCIDRMatch md).
  change (ic_IPCIDRMatchSource (withDid md d)) with (ic_IPCIDRMatchSource md).
  rewrite !if_guard, !nonempty_app. unfold results. rewrite !nonempty_map, andb_true_r, !andb_assoc.
  destruct (ic_IgnoreDestinationIPCIDRMatch md), (ic_IPCIDRMatchSource md); cbn [negb andb nonempty];
    by rewrite ?nonempty_map.
Qed.
(** The states of the whole evaluation from the starting state [st], before
    inversion. *)
Variable ruleSetStates : RuleSetItem -> InboundContext -> ruleMatchState -> ruleMatchStateSet.

Definition evalStates (r : abstractDefaultRule) (md : InboundContext) (st : ruleMatchState) : ruleMatchStateSet :=
  let c := clausesOf r md in
  if allb (cl_other c) id
  then filterStates
         match ruleSetItem r with
         | Some item => ruleSetStates item md (Z.lor st (satMask c))
         | None => singleRuleMatchState (Z.lor st (satMask c))
         end (covers c)
  else 0.

(** The one case in which an inverted rule whose conditions hold matches: all
    it has are [ip_cidr] conditions, which are being ignored. *)
Definition ignoredInvert (r : abstractDefaultRule) (md : InboundContext) (s : ruleMatchStateSet) : bool :=
  ic_IgnoreDestinationIPCIDRMatch md && (s =? emptyRuleMatchState)
  && negb (ic_DidMatch md || consulted r (clausesOf r md)) && nonempty (destinationIPCIDRItems r).

Definition default_reference (r : abstractDefaultRule) (md : InboundContext) (base : ruleMatchState) : ruleMatchStateSet :=
  if negb (nonempty (allItems r)) then singleRuleMatchState base
  else if invert r then
    let s := evalStates r md 0 in
    if isEmpty s || ignoredInvert r md s then singleRuleMatchState base else 0
  else evalStates r md base.

Lemma cidr_results r md (b : bool) :
  anyb (if b then cidrResults r md else []) id
  = negb (ic_IgnoreDestinationIPCIDRMatch md) && b && matchAnyItem svc (destinationIPCIDRItems r) md /\
  nonempty (if b then cidrResults r md else [])
  = negb (ic_IgnoreDestinationIPCIDRMatch md) && b && nonempty (destinationIPCIDRItems r).
Proof.
  unfold cidrResults. destruct b, (ic_IgnoreDestinationIPCIDRMatch md); cbn [negb andb]; try done.
  split; [apply anyb_results|apply nonempty_map].
Qed.

Lemma has_absorb st bit :
  wf_state st -> bit ∈ [ruleMatchSourceAddress; ruleMatchSourcePort; ruleMatchDestinationAddress; ruleMatchDestinationPort] ->
  has st bit = true -> Z.lor st bit = st.
Proof.
  intros (a & b & c & d & ->)%mask_surj Hbit Hhas.
  rewrite !elem_of_cons in Hbit.
  destruct Hbit as [->|[->|[->|[->|[]%elem_of_nil]]]]; destruct a, b, c, d; done.
Qed.

Lemma bitIf_mask (b : bool) :
  bitIf b ruleMatchSourceAddress = mask b false false false /\
  bitIf b ruleMatchSourcePort = mask false b false false /\
  bitIf b ruleMatchDestinationAddress = mask false false b false /\
  bitIf b ruleMatchDestinationPort = mask false false false b.
Proof. by destruct b. Qed.

Lemma matchGroups_spec r md d st :
  wf_state st ->
  let c := clausesOf r md in
  matchGroups svc r (st, withDid md d)
  = (Z.lor st (satMask c),
     withDid md (d || nonempty (cl_source c) || nonempty (cl_sourcePort c)
                 || nonempty (cl_destination c) || nonempty (cl_destinationPort c))).
Proof.
  intros (a & b & e & f & ->)%mask_surj c. unfold matchGroups. cbv zeta.
  pose (cs := negb (ic_IgnoreDestinationIPCIDRMatch md) && ic_IPCIDRMatchSource md).
  pose (cd := negb (ic_IgnoreDestinationIPCIDRMatch md) && negb (ic_IPCIDRMatchSource md)).
  assert (HS : forall d, destinationIPCIDRMatchesSource r (withDid md d) = cs && nonempty (destinationIPCIDRItems r))
    by reflexivity.
  assert (HD : forall d, destinationIPCIDRMatchesDestination r (withDid md d) = cd && nonempty (destinationIPCIDRItems r))
    by reflexivity.
  rewrite matchGroup_spec, (proj1 (bitIf_mask _)), mask_lor. cbn [snd]. rewrite HS.
  rewrite matchCIDRGroup_spec by (apply has_absorb; [apply mask_wf|set_solver]).
  rewrite (proj1 (bitIf_mask _)), mask_lor.
  rewrite matchGroup_spec, (proj1 (proj2 (bitIf_mask _))), mask_lor.
  rewrite matchGroup_spec, (proj1 (proj2 (proj2 (bitIf_mask _)))), mask_lor. cbn [snd]. rewrite HD.
  rewrite matchCIDRGroup_spec by (apply has_absorb; [apply mask_wf|set_solver]).
  rewrite (proj1 (proj2 (proj2 (bitIf_mask _)))), mask_lor.
  rewrite matchGroup_spec, (proj2 (proj2 (proj2 (bitIf_mask _)))), mask_lor.
  destruct (cidr_results r md (ic_IPCIDRMatchSource md)) as [C1 C2].
  destruct (cidr_results r md (negb (ic_IPCIDRMatchSource md))) as [C3 C4].
  unfold satMask, c, clausesOf, anyClause. cbn [cl_source cl_sourcePort cl_destination cl_destinationPort].
  replace (if ic_IPCIDRMatchSource md then [] else cidrResults r md)
    with (if negb (ic_IPCIDRMatchSource md) then cidrResults r md else []) by by destruct (ic_IPCIDRMatchSource md).
  rewrite !nonempty_app, !anyb_app, C1, C2, C3, C4, !anyb_results, mask_lor.
  unfold results. rewrite !nonempty_map. fold cs cd.
  rewrite !orb_false_r, !orb_assoc. f_equal.
Qed.
(** Rule-sets do not look at [DidMatch]. *)
Hypothesis ruleSetStates_DidMatch : forall i md d st, ruleSetStates i (withDid md d) st = ruleSetStates i md st.

Lemma filterStates_ext s p q : (forall st, p st = q st) -> filterStates s p = filterStates s q.
Proof.
  intros Hpq. apply set_ext; [auto with sb..|]. intros st Hst.
  rewrite !(proj2 (filterStates_spec _ _) st Hst). by rewrite Hpq.
Qed.

(** The engine computes the reference, and leaves the metadata as it found it
    except for [DidMatch]. *)
Lemma default_matchStatesWithBase_spec r md base :
  wf_state base ->
  default_matchStatesWithBase svc ruleSetStates r md base
  = (default_reference r md base,
     if nonempty (allItems r) then withDid md (ic_DidMatch md || consulted r (clausesOf r md)) else md).
Proof.
  intros Hb. unfold default_matchStatesWithBase, default_reference.
  destruct (nonempty (allItems r)) eqn:Ha; cbn [negb]; [|by rewrite empty_withBase].
  cbv zeta. set (st0 := if invert r then 0 else base).
  assert (Hst0 : wf_state st0) by (unfold st0; destruct (invert r); auto with sb).
  pose proof (matchGroups_spec r md (ic_DidMatch md) st0 Hst0) as Hg. cbv zeta in Hg.
  replace (withDid md (ic_DidMatch md)) with md in Hg by by destruct md.
  match goal with |- context [matchGroups svc r ?x] => rewrite (Hg : matchGroups svc r x = _) end.
  set (c := clausesOf r md). rewrite matchItems_spec.
  change (results md (items r)) with (cl_other c).
  assert (Hd : nonempty (items r) = nonempty (cl_other c)) by (symmetry; apply nonempty_map).
  unfold invertedFailure, evalStates, ignoredInvert, consulted. fold c.
  rewrite empty_withBase, Hd by done.
  destruct (allb (cl_other c) id) eqn:Hall; cbn [negb andb].
  2: { rewrite !orb_false_r, !orb_assoc. cbn. by destruct (invert r). }
  match goal with |- (let '(_, _) := ?m in _) = _ => replace m with
    (match ruleSetItem r with
     | Some item => ruleSetStates item md (Z.lor st0 (satMask c))
     | None => singleRuleMatchState (Z.lor st0 (satMask c))
     end, withDid md (ic_DidMatch md || (nonempty (cl_source c) || nonempty (cl_sourcePort c)
            || nonempty (cl_destination c) || nonempty (cl_destinationPort c) || nonempty (cl_other c)
            || bool_decide (is_Some (ruleSetItem r))))) end.
  2: { destruct (ruleSetItem r).
       - change (didMatch (withDid md _)) with (withDid md true).
         by rewrite ruleSetStates_DidMatch, bool_decide_true, !orb_true_r by done.
       - rewrite bool_decide_false by by intros []. by rewrite orb_false_r, !orb_assoc. }
  rewrite (filterStates_ext _ _ (covers c)) by (intros; apply stateAllowed_covers).
  set (d := ic_DidMatch md || _). subst st0. cbn [fst snd].
  change (ic_DidMatch (withDid md d)) with d.
  change (ic_IgnoreDestinationIPCIDRMatch (withDid md d)) with (ic_IgnoreDestinationIPCIDRMatch md).
  destruct (invert r); [|by case_bool; [symmetry; f_equal; apply isEmpty_true|]].
  repeat case_bool; try done.
Qed.
End spec.

Lemma negb_orb_implb a b : negb a || b = implb a b.
Proof. by destruct a. Qed.

(** * Default rules without rule-sets *)

Lemma covers_mask c a b d e :
  covers c (mask a b d e)
  = implb (nonempty (cl_source c)) a && implb (nonempty (cl_sourcePort c)) b
    && implb (nonempty (cl_destination c)) d && implb (nonempty (cl_destinationPort c)) e.
Proof. unfold covers. destruct (mask_has a b d e) as (-> & -> & -> & ->). done. Qed.

Lemma clausesHold_covers c : clausesHold c = allb (cl_other c) id && covers c (satMask c).
Proof.
  unfold satMask. rewrite covers_mask. unfold clausesHold, groupHolds, anyClause.
  rewrite !negb_orb_implb. apply andb_comm.
Qed.

Section default.
Context `{Libs}.
Variable svc : Services.
Variable rs : RuleSetItem -> InboundContext -> ruleMatchState -> ruleMatchStateSet.

Lemma evalStates_plain r md st :
  ruleSetItem r = None -> wf_state st ->
  let c := clausesOf svc r md in
  evalStates svc rs r md st
  = if allb (cl_other c) id && covers c (Z.lor st (satMask c))
    then singleRuleMatchState (Z.lor st (satMask c)) else 0.
Proof.
  intros Hr Hst c. unfold evalStates. fold c. rewrite Hr.
  destruct (allb _ _); [|done]. apply filterStates_single. auto using satMask_wf with sb.
Qed.

Lemma ignoredInvert_false r md s :
  ic_IgnoreDestinationIPCIDRMatch md = false -> ignoredInvert svc r md s = false.
Proof. unfold ignoredInvert. by intros ->. Qed.

Lemma default_reference_plain r md base :
  ruleSetItem r = None -> ic_IgnoreDestinationIPCIDRMatch md = false -> wf_state base ->
  let c := clausesOf svc r md in
  default_reference svc rs r md base
  = if negb (nonempty (allItems r)) then singleRuleMatchState base
    else if invert r then if clausesHold c then 0 else singleRuleMatchState base
    else if allb (cl_other c) id && covers c (Z.lor base (satMask c))
    then singleRuleMatchState (Z.lor base (satMask c)) else 0.
Proof.
  intros Hr Hi Hb c. unfold default_reference. rewrite ignoredInvert_false, orb_false_r by done.
  rewrite !evalStates_plain by auto with sb. fold c. rewrite Z.lor_0_l, clausesHold_covers.
  destruct (negb _); [done|]. destruct (invert r); [|done].
  destruct (allb _ _ && _); [|done]. by rewrite single_isEmpty by apply satMask_wf.
Qed.

End default.
