(* ===== verification/RuleTree.v ===== *)
(** Logical rules, rule-sets and rule trees: their states as a disjunction of
    merged branches, and the boolean meaning of [Match]. *)
From S2P Require Import Prelude MatchState Netip Metadata RuleItem RuleAction RuleAbstract RuleSpec.

(** Induction over a rule and the rules below it. *)
Lemma Rule_ind_nested `{Libs} (P : Rule -> Prop) :
  (forall m r, P (DefaultRule m r)) ->
  (forall rules mode inv act, Forall P rules -> P (LogicalRule rules mode inv act)) ->
  forall r, P r.
Proof.
  intros Hd Hl. fix IH 1. intros [m r|rules mode inv act]; [apply Hd|].
  apply Hl. induction rules as [|r rules IHr]; constructor; [apply IH|apply IHr].
Qed.

(** * Alternatives

    One way for a rule to match: the conditions of the branches that took
    part, each of which must hold together with the state inherited from the
    rule that includes them. *)

Definition alternative := list clauses.

Definition altHolds (b : ruleMatchState) (a : alternative) : bool :=
  allb a (fun c => allb (cl_other c) id && covers c (Z.lor b (satMask c))).

Definition altState (b : ruleMatchState) (a : alternative) : ruleMatchState :=
  foldr (fun c st => Z.lor st (satMask c)) b a.

Definition prodAlts (l k : list alternative) : list alternative :=
  flat_map (fun a => map (fun a' => a ++ a') k) l.

(** [s] holds exactly the states of the alternatives that hold at [b]. *)
Definition denotes (b : ruleMatchState) (alts : list alternative) (s : ruleMatchStateSet) : Prop :=
  wf_set s /\
  forall st, wf_state st ->
    contains s st = true <-> exists a, a ∈ alts /\ altHolds b a = true /\ st = altState b a.

Lemma altState_cons b c a : altState b (c :: a) = Z.lor (altState b a) (satMask c).
Proof. done. Qed.

Lemma altState_wf b a : wf_state b -> wf_state (altState b a).
Proof. intros Hb. induction a; [done|]. rewrite altState_cons. auto using satMask_wf with sb. Qed.

Lemma altHolds_app b a a' : altHolds b (a ++ a') = altHolds b a && altHolds b a'.
Proof. apply allb_app. Qed.

Lemma altState_base b a : Z.lor (altState b a) b = altState b a.
Proof.
  induction a as [|c a IH]; [apply Z.lor_diag|].
  by rewrite !altState_cons, <- Z.lor_assoc, (Z.lor_comm (satMask c)), Z.lor_assoc, IH.
Qed.

Lemma altState_lor b st a : altState (Z.lor st b) a = Z.lor st (altState b a).
Proof. induction a as [|c a IH]; [done|]. by rewrite !altState_cons, IH, Z.lor_assoc. Qed.

Lemma altState_app b a a' : altState b (a ++ a') = Z.lor (altState b a) (altState b a').
Proof.
  unfold altState at 1. rewrite foldr_app. fold (altState b a'). fold (altState (altState b a') a).
  rewrite <- (altState_base b a') at 1. by rewrite altState_lor, Z.lor_comm.
Qed.

Lemma denotes_none b : denotes b [] 0.
Proof.
  split; [auto with sb|]. intros st _. rewrite contains_zero. split; [done|].
  by intros (a & []%elem_of_nil & _).
Qed.

Lemma denotes_single b a :
  wf_state b -> denotes b [a] (if altHolds b a then singleRuleMatchState (altState b a) else 0).
Proof.
  intros Hb. split; [destruct (altHolds b a); auto using altState_wf with sb|]. intros st Hst.
  setoid_rewrite list_elem_of_singleton. destruct (altHolds b a) eqn:Ha.
  - rewrite contains_single, bool_decide_eq_true by auto using altState_wf. split.
    + intros <-. by exists a.
    + by intros (? & -> & _ & ->).
  - rewrite contains_zero. split; [done|]. intros (? & -> & ? & _). congruence.
Qed.

Lemma denotes_true b : wf_state b -> denotes b [[]] (singleRuleMatchState b).
Proof. intros Hb. apply (denotes_single b [] Hb). Qed.

Lemma denotes_merge b l k s t :
  denotes b l s -> denotes b k t -> denotes b (l ++ k) (merge s t).
Proof.
  intros [Hs Ds] [Ht Dt]. split; [auto with sb|]. intros st Hst.
  rewrite contains_merge, orb_true_iff, Ds, Dt by done. split.
  - intros [(a & ? & ?)|(a & ? & ?)]; exists a; rewrite elem_of_app; auto.
  - intros (a & [?|?]%elem_of_app & ?); [left|right]; by exists a.
Qed.

Lemma elem_of_prodAlts l k a :
  a ∈ prodAlts l k <-> exists x y, x ∈ l /\ y ∈ k /\ a = x ++ y.
Proof.
  unfold prodAlts. rewrite list_elem_of_In, in_flat_map. split.
  - intros (x & Hx & (y & <- & Hy)%in_map_iff). exists x, y. by rewrite !list_elem_of_In.
  - intros (x & y & Hx & Hy & ->). rewrite list_elem_of_In in Hx, Hy.
    exists x. split; [done|]. apply in_map_iff. by exists y.
Qed.

Lemma denotes_combine b l k s t :
  wf_state b -> denotes b l s -> denotes b k t -> denotes b (prodAlts l k) (combine s t).
Proof.
  intros Hb [Hs Ds] [Ht Dt]. split; [auto with sb|]. intros st Hst.
  rewrite (proj2 (combine_spec s t) st Hst). setoid_rewrite elem_of_prodAlts. split.
  - intros (x & y & Hx & Hy & Cx & Cy & E). apply Ds in Cx as (a & Ha & Hha & ->); [|done].
    apply Dt in Cy as (a' & Ha' & Hha' & ->); [|done].
    exists (a ++ a'). rewrite altHolds_app, altState_app, Hha, Hha'. split; [eauto|]. by split.
  - intros (? & (a & a' & Ha & Ha' & ->) & Hh & ->). rewrite altHolds_app in Hh. bool_to_prop.
    exists (altState b a), (altState b a'). rewrite altState_app, Ds, Dt by auto using altState_wf.
    split_and!; eauto 10 using altState_wf.
Qed.

Lemma denotes_isEmpty b alts s :
  wf_state b -> denotes b alts s -> negb (isEmpty s) = anyb alts (altHolds b).
Proof.
  intros Hb [Hs Ds]. apply eq_true_iff_eq. rewrite negb_true_iff, anyb_true.
  rewrite isEmpty_false_contains by done. split.
  - intros (st & Hst & (a & ? & ? & _)%Ds); eauto.
  - intros (a & ? & ?). exists (altState b a). split; [by apply altState_wf|].
    apply Ds; [by apply altState_wf|]. eauto.
Qed.

(** * The alternatives of a rule tree *)

Section trees.
Context `{Libs}.
Variable svc : Services.

(** A default rule contributes its own conditions; an inverted one only says
    whether they hold on their own. *)
Definition defaultAlts (r : abstractDefaultRule) (md : InboundContext) : list alternative :=
  let c := clausesOf svc r md in
  if negb (nonempty (allItems r)) then [[]]
  else if invert r then if clausesHold c then [] else [[]]
  else [[c]].

(** [or] gathers the alternatives of the sub rules and [and] takes one of each;
    an inverted rule has an alternative when none of these holds. *)
Definition logicalAlts (subs : list (list alternative)) (mode : string) (inv : bool) : list alternative :=
  let alts := if String.eqb mode LogicalTypeAnd then foldl prodAlts [[]] subs else concat subs in
  if inv then if anyb alts (altHolds 0) then [] else [[]] else alts.

Fixpoint ruleAlts (r : Rule) (md : InboundContext) : list alternative :=
  match r with
  | DefaultRule _ r => defaultAlts r md
  | LogicalRule rules mode inv _ =>
      logicalAlts (map (fun r => ruleAlts r (ResetRuleCache md)) rules) mode inv
  end.

(** A tree without rule-set items, as in a rule-set. *)
Fixpoint noRuleSet (r : Rule) : bool :=
  match r with
  | DefaultRule _ r => bool_decide (ruleSetItem r = None)
  | LogicalRule rules _ _ _ => allb rules noRuleSet
  end.
(** ** Logical rules *)

Lemma combine_zero_l s : combine 0 s = 0.
Proof. done. Qed.

Lemma combine_zero_r s : combine s 0 = 0.
Proof. by rewrite combine_comm. Qed.

Lemma foldl_combine_zero l : foldl combine 0 l = 0.
Proof. induction l as [|s l IH]; cbn [foldl]; [done|]. by rewrite combine_zero_l. Qed.

Definition subStates (subs : list (InboundContext -> ruleMatchState -> ruleMatchStateSet))
    (md : InboundContext) (b : ruleMatchState) : list ruleMatchStateSet :=
  map (fun f => f (ResetRuleCache md) b) subs.

Lemma logicalAnd_false subs md base b s :
  logicalAnd subs false md base b s = foldl combine s (subStates subs md b).
Proof.
  induction subs as [|f subs IH] in s |- *; cbn [logicalAnd subStates map foldl]; [done|].
  destruct (isEmpty _) eqn:E; [|apply IH]. apply isEmpty_true in E. rewrite E, combine_zero_r.
  by rewrite foldl_combine_zero.
Qed.

Lemma logicalAnd_true subs md base b s :
  Forall wf_set (subStates subs md b) -> wf_set s -> isEmpty s = false ->
  logicalAnd subs true md base b s
  = if isEmpty (foldl combine s (subStates subs md b)) then withBase emptyRuleMatchState base else 0.
Proof.
  induction subs as [|f subs IH] in s |- *; cbn [logicalAnd subStates map foldl]; intros Hsubs Hs Hne.
  { by rewrite Hne. }
  inversion Hsubs; subst. destruct (isEmpty (f (ResetRuleCache md) b)) eqn:E.
  - apply isEmpty_true in E. by rewrite E, combine_zero_r, foldl_combine_zero.
  - apply IH; [done|auto with sb|]. by rewrite combine_isEmpty, Hne, E.
Qed.

Lemma logicalOr_foldl subs md b : logicalOr subs md b = foldl merge 0 (subStates subs md b).
Proof. apply (foldl_map merge (fun f => f (ResetRuleCache md) b)). Qed.

Lemma denotes_foldl_combine b alts sets l s :
  wf_state b -> Forall2 (denotes b) alts sets -> denotes b l s ->
  denotes b (foldl prodAlts l alts) (foldl combine s sets).
Proof.
  intros Hb Hf. revert l s. induction Hf; intros l0 s0 Hd; cbn [foldl]; [done|].
  auto using denotes_combine.
Qed.

Lemma denotes_foldl_merge b alts sets l s :
  Forall2 (denotes b) alts sets -> denotes b l s ->
  denotes b (l ++ concat alts) (foldl merge s sets).
Proof.
  intros Hf. revert l s. induction Hf; intros l0 s0 Hd; cbn [foldl concat]; [by rewrite app_nil_r|].
  rewrite app_assoc. auto using denotes_merge.
Qed.

(** Inversion keeps the base when nothing matched from the empty state. *)
Lemma denotes_inverted b alts s :
  wf_state b -> denotes 0 alts s ->
  denotes b (if anyb alts (altHolds 0) then [] else [[]])
    (if isEmpty s then singleRuleMatchState b else 0).
Proof.
  intros Hb Hd. rewrite <- (denotes_isEmpty 0 alts s) by auto with sb.
  destruct (isEmpty s); cbn [negb]; [by apply denotes_true|apply denotes_none].
Qed.

Lemma isEmpty_zero s : (if isEmpty s then 0 else s) = s.
Proof. destruct (isEmpty s) eqn:E; [|done]. symmetry. by apply isEmpty_true. Qed.

Lemma denotes_Forall_wf b alts sets : Forall2 (denotes b) alts sets -> Forall wf_set sets.
Proof. induction 1 as [|? ? ? ? Hd]; [constructor|]. constructor; [apply Hd|done]. Qed.

Lemma logical_denotes subs alts mode inv md b :
  wf_state b ->
  Forall2 (fun a f => forall b, wf_state b -> denotes b a (f (ResetRuleCache md) b)) alts subs ->
  denotes b (logicalAlts alts mode inv) (logical_matchStatesWithBase subs mode inv md b).
Proof.
  intros Hb Hsubs.
  assert (Hst : forall b, wf_state b -> Forall2 (denotes b) alts (subStates subs md b)).
  { intros b' Hb'. clear Hb b. induction Hsubs; constructor; auto. }
  assert (Hwf : Forall wf_set (subStates subs md 0)).
  { by eapply denotes_Forall_wf, Hst, wf_state_zero. }
  unfold logicalAlts, logical_matchStatesWithBase. rewrite logicalOr_foldl.
  destruct inv, (String.eqb mode LogicalTypeAnd); rewrite ?empty_withBase by auto with sb.
  - rewrite logicalAnd_true by auto using single_isEmpty with sb.
    rewrite (empty_withBase b Hb).
    apply denotes_inverted, denotes_foldl_combine; auto using denotes_true with sb.
  - apply denotes_inverted; [done|].
    apply (denotes_foldl_merge 0 alts _ []); auto using denotes_none with sb.
  - rewrite logicalAnd_false. apply denotes_foldl_combine; auto using denotes_true.
  - rewrite isEmpty_zero. apply (denotes_foldl_merge b alts _ []); auto using denotes_none.
Qed.
(** ** Trees *)

Variable rs : RuleSetItem -> InboundContext -> ruleMatchState -> ruleMatchStateSet.
Hypothesis rs_DidMatch : forall i md d st, rs i (withDid md d) st = rs i md st.

Lemma default_denotes r md b :
  ruleSetItem r = None -> ic_IgnoreDestinationIPCIDRMatch md = false -> wf_state b ->
  denotes b (defaultAlts r md) (default_matchStatesWithBase svc rs r md b).1.
Proof.
  intros Hr Hi Hb. rewrite default_matchStatesWithBase_spec by done. cbn [fst].
  rewrite default_reference_plain by done. unfold defaultAlts.
  destruct (negb _); [by apply denotes_true|].
  destruct (invert r).
  - destruct (clausesHold _); [apply denotes_none|by apply denotes_true].
  - pose proof (denotes_single b [clausesOf svc r md] Hb) as Hd.
    unfold altHolds, allb in Hd. cbn [forallb] in Hd. by rewrite andb_true_r in Hd.
Qed.

(** The states of a tree without rule-sets are those of its alternatives. *)
Lemma rule_denotes r : forall md b,
  noRuleSet r = true -> ic_IgnoreDestinationIPCIDRMatch md = false -> wf_state b ->
  denotes b (ruleAlts r md) (rule_matchStatesWithBase svc rs r md b).
Proof.
  induction r as [m r|rules mode inv act IH] using Rule_ind_nested; intros md b Hn Hi Hb.
  - apply default_denotes; [|done..]. by apply bool_decide_eq_true in Hn.
  - apply logical_denotes; [done|]. cbn [noRuleSet] in Hn.
    induction IH as [|r rules Hr _ IH]; cbn [map]; constructor.
    + intros b' Hb'. apply Hr; [|done..]. unfold allb in Hn. cbn [forallb] in Hn. by bool_to_prop.
    + apply IH. unfold allb in Hn. cbn [forallb] in Hn. by bool_to_prop.
Qed.
End trees.
