(* ===== verification/StateMatcher.v ===== *)
(** What every [ruleStateMatcherWithBase] of [route/rule/match_state.go]
    promises to the rule that includes it, and that all of them keep it. *)
From S2P Require Import Prelude MatchState Netip Metadata RuleItem RuleAction RuleAbstract RuleSpec RuleTree.

(** * The interface *)

Abbreviation matcher := (InboundContext -> ruleMatchState -> ruleMatchStateSet).

(** [st] has every flag of [b]. *)
Definition includes (st b : ruleMatchState) : Prop := Z.lor st b = st.

(** Sets of states are 16 bits wide; no inherited flag is ever lost; and
    inheriting more flags turns every state into a larger one. *)
Class StateMatcher (f : matcher) : Prop := {
  sm_wf md b : wf_state b -> wf_set (f md b);
  sm_base md b st : wf_state b -> wf_state st -> contains (f md b) st = true -> includes st b;
  sm_mono md b b' st :
    wf_state b -> wf_state b' -> wf_state st -> contains (f md b) st = true ->
    exists st', wf_state st' /\ contains (f md (Z.lor b b')) st' = true /\ includes st' st }.

(** A rule-set item moreover ignores the [DidMatch] flag of its metadata. *)
Class RuleSetMatcher (rs : RuleSetItem -> matcher) : Prop := {
  rsm_matcher i :: StateMatcher (rs i);
  rsm_DidMatch i md d st : rs i (withDid md d) st = rs i md st }.

(** * Inclusion of states *)

Lemma includes_refl st : includes st st.
Proof. apply Z.lor_diag. Qed.

Lemma includes_lor_l a b : includes (Z.lor a b) a.
Proof. unfold includes. by rewrite <- Z.lor_assoc, (Z.lor_comm b), Z.lor_assoc, Z.lor_diag. Qed.

Lemma includes_lor_r a b : includes (Z.lor a b) b.
Proof. rewrite Z.lor_comm. apply includes_lor_l. Qed.

Lemma includes_trans a b c : includes a b -> includes b c -> includes a c.
Proof.
  unfold includes. intros Ha Hb. transitivity (Z.lor (Z.lor a b) c); [by rewrite Ha|].
  by rewrite <- Z.lor_assoc, Hb.
Qed.

Lemma includes_lor st a b : includes st a -> includes st b -> includes st (Z.lor a b).
Proof. unfold includes. intros Ha Hb. by rewrite Z.lor_assoc, Ha. Qed.

Lemma includes_lor_mono a b c d : includes a c -> includes b d -> includes (Z.lor a b) (Z.lor c d).
Proof. intros. apply includes_lor; eauto using includes_trans, includes_lor_l, includes_lor_r. Qed.

#[export] Hint Resolve includes_refl includes_lor_l includes_lor_r includes_lor includes_lor_mono : sb.

Lemma covers_includes c st st' :
  wf_state st -> wf_state st' -> includes st' st -> covers c st = true -> covers c st' = true.
Proof.
  intros (x & y & z & w & ->)%mask_surj (x' & y' & z' & w' & ->)%mask_surj Hi. unfold includes in Hi.
  rewrite mask_lor in Hi. rewrite !covers_mask.
  pose proof (mask_has (x' || x) (y' || y) (z' || z) (w' || w)) as Hm. rewrite Hi in Hm.
  destruct (mask_has x' y' z' w') as (E1 & E2 & E3 & E4). rewrite E1, E2, E3, E4 in Hm.
  destruct Hm as (-> & -> & -> & ->).
  destruct (nonempty (cl_source c)), (nonempty (cl_sourcePort c)), (nonempty (cl_destination c)),
    (nonempty (cl_destinationPort c)); cbn; intros Hc; bool_to_prop; subst; by rewrite ?orb_true_r.
Qed.

(** * Constant matchers *)

Lemma contains_single_true b st :
  wf_state b -> wf_state st -> contains (singleRuleMatchState b) st = true <-> b = st.
Proof. intros. by rewrite contains_single, bool_decide_eq_true. Qed.

(** The matchers of the abstract rules are one of these two, or a larger set. *)
#[global] Instance StateMatcher_none : StateMatcher (fun _ _ => 0).
Proof. split; intros; [auto with sb|..]; rewrite contains_zero in *; done. Qed.

#[global] Instance StateMatcher_single : StateMatcher (fun _ b => singleRuleMatchState b).
Proof.
  split.
  - auto with sb.
  - intros _ b st Hb Hst ->%contains_single_true; auto with sb.
  - intros _ b b' st Hb Hb' Hst ->%contains_single_true; [|done..]. exists (Z.lor st b').
    rewrite contains_single_true by auto with sb. auto with sb.
Qed.

(** * Combinations of sets *)

(** One evaluation of a matcher from [b] and one from a larger base. *)
Definition good (b : ruleMatchState) (s : ruleMatchStateSet) : Prop :=
  wf_set s /\ forall st, wf_state st -> contains s st = true -> includes st b.

Definition grows (s s' : ruleMatchStateSet) : Prop :=
  forall st, wf_state st -> contains s st = true ->
    exists st', wf_state st' /\ contains s' st' = true /\ includes st' st.

Lemma StateMatcher_intro (f : matcher) :
  (forall md b, wf_state b -> good b (f md b)) ->
  (forall md b b', wf_state b -> wf_state b' -> grows (f md b) (f md (Z.lor b b'))) ->
  StateMatcher f.
Proof. intros Hg Hm. split; intros; [by apply Hg|eapply (Hg md b); eauto|eapply Hm; eauto]. Qed.

Lemma good_matcher f `{StateMatcher f} md b : wf_state b -> good b (f md b).
Proof. intros. split; [by apply sm_wf|]. intros. by eapply sm_base. Qed.

Lemma grows_matcher f `{StateMatcher f} md b b' :
  wf_state b -> wf_state b' -> grows (f md b) (f md (Z.lor b b')).
Proof. intros ? ? st ? ?. by eapply sm_mono. Qed.

Lemma good_zero b : good b 0.
Proof. split; [auto with sb|]. intros st _. by rewrite contains_zero. Qed.

Lemma grows_zero s : grows 0 s.
Proof. intros st _. by rewrite contains_zero. Qed.

Lemma good_single b st : wf_state st -> includes st b -> good b (singleRuleMatchState st).
Proof. intros Hst Hi. split; [auto with sb|]. by intros st' ? <-%contains_single_true. Qed.

Lemma grows_single st st' :
  wf_state st -> wf_state st' -> includes st' st -> grows (singleRuleMatchState st) (singleRuleMatchState st').
Proof.
  intros Hst Hst' Hi x Hx <-%contains_single_true; [|done..]. exists st'.
  by rewrite contains_single_true.
Qed.

Lemma good_merge b s t : good b s -> good b t -> good b (merge s t).
Proof.
  intros [Hs Gs] [Ht Gt]. split; [auto with sb|]. intros st Hst.
  rewrite contains_merge, orb_true_iff by done. naive_solver.
Qed.

Lemma grows_merge s t s' t' : grows s s' -> grows t t' -> grows (merge s t) (merge s' t').
Proof.
  intros Gs Gt st Hst. rewrite contains_merge, orb_true_iff by done.
  intros [(st' & ? & E & ?)%Gs|(st' & ? & E & ?)%Gt]; try done; exists st';
    rewrite contains_merge, E, ?orb_true_r by done; auto.
Qed.

Lemma good_combine b s t : good b s -> good b t -> good b (combine s t).
Proof.
  intros [Hs Gs] [Ht Gt]. split; [auto with sb|]. intros st Hst.
  rewrite (proj2 (combine_spec s t) st Hst). intros (x & y & Hx & Hy & Cx & Cy & <-).
  eapply includes_trans; [apply includes_lor_l|]. by apply Gs.
Qed.

Lemma grows_combine s t s' t' : grows s s' -> grows t t' -> grows (combine s t) (combine s' t').
Proof.
  intros Gs Gt st Hst. rewrite (proj2 (combine_spec s t) st Hst).
  intros (x & y & Hx & Hy & Cx & Cy & <-).
  destruct (Gs x Hx Cx) as (x' & ? & ? & ?), (Gt y Hy Cy) as (y' & ? & ? & ?).
  exists (Z.lor x' y'). split; [auto with sb|]. split; [|auto with sb].
  apply combine_spec; [auto with sb|]. exists x', y'. by split_and!.
Qed.

Lemma good_filter b s c : good b s -> good b (filterStates s (covers c)).
Proof.
  intros [Hs Gs]. split; [auto with sb|]. intros st Hst.
  rewrite (proj2 (filterStates_spec s _) st Hst). intros ?. bool_to_prop. by apply Gs.
Qed.

Lemma grows_filter s s' c : grows s s' -> grows (filterStates s (covers c)) (filterStates s' (covers c)).
Proof.
  intros Gs st Hst. rewrite (proj2 (filterStates_spec s _) st Hst). intros ?. bool_to_prop.
  destruct (Gs st) as (st' & Hst' & C & ?); [done..|]. exists st'.
  rewrite (proj2 (filterStates_spec s' _) st' Hst'), C. split; [done|]. split; [|done].
  by apply (covers_includes c st st').
Qed.

Lemma good_foldl op b s l :
  (forall s t, good b s -> good b t -> good b (op s t)) ->
  good b s -> Forall (good b) l -> good b (foldl op s l).
Proof. intros Hop Hs Hl. revert s Hs. induction Hl; intros s0 Hs0; cbn; auto. Qed.

Lemma grows_foldl op s s' l l' :
  (forall s t s' t', grows s s' -> grows t t' -> grows (op s t) (op s' t')) ->
  grows s s' -> Forall2 grows l l' -> grows (foldl op s l) (foldl op s' l').
Proof. intros Hop Hs Hl. revert s s' Hs. induction Hl; intros s0 s0' Hs0; cbn; auto. Qed.

Lemma good_weaken b b' s : includes b b' -> good b s -> good b' s.
Proof. intros Hi [Hs Gs]. split; [done|]. eauto using includes_trans. Qed.

(** * The matchers of the repository *)

Section matchers.
Context `{Libs}.
Variable svc : Services.

Section with_rule_sets.
Variable rs : RuleSetItem -> matcher.
Context `{RuleSetMatcher rs}.

Lemma evalStates_good r md b : wf_state b -> good b (evalStates svc rs r md b).
Proof.
  intros Hb. unfold evalStates. destruct (allb _ _); [|apply good_zero].
  pose proof (satMask_wf (clausesOf svc r md)) as Hw. apply good_filter.
  destruct (ruleSetItem r); [eapply good_weaken, good_matcher|apply good_single]; auto with sb typeclass_instances.
Qed.

Lemma evalStates_grows r md b b' :
  wf_state b -> wf_state b' -> grows (evalStates svc rs r md b) (evalStates svc rs r md (Z.lor b b')).
Proof.
  intros Hb Hb'. unfold evalStates. destruct (allb _ _); [|apply grows_zero].
  pose proof (satMask_wf (clausesOf svc r md)) as Hw. apply grows_filter.
  rewrite <- Z.lor_assoc, (Z.lor_comm b'), Z.lor_assoc.
  destruct (ruleSetItem r); [apply grows_matcher|apply grows_single]; auto with sb typeclass_instances.
Qed.

#[export] Instance StateMatcher_default r :
  StateMatcher (fun md b => (default_matchStatesWithBase svc rs r md b).1).
Proof.
  apply StateMatcher_intro; intros md b; [intros Hb|intros b' Hb Hb'];
    rewrite !default_matchStatesWithBase_spec by auto using rsm_DidMatch with sb; cbn [fst];
    unfold default_reference; destruct (negb _).
  - auto using good_single with sb.
  - destruct (invert r); [|by apply evalStates_good].
    destruct (_ || _); auto using good_single, good_zero with sb.
  - auto using grows_single with sb.
  - destruct (invert r); [|by apply evalStates_grows].
    destruct (_ || _); auto using grows_single, grows_zero with sb.
Qed.

Lemma subStates_good subs md b :
  Forall StateMatcher subs -> wf_state b -> Forall (good b) (subStates subs md b).
Proof. intros Hs Hb. induction Hs; cbn; constructor; [by apply good_matcher|done]. Qed.

Lemma subStates_grows subs md b b' :
  Forall StateMatcher subs -> wf_state b -> wf_state b' ->
  Forall2 grows (subStates subs md b) (subStates subs md (Z.lor b b')).
Proof. intros Hs Hb Hb'. induction Hs; cbn; constructor; [by apply grows_matcher|done]. Qed.

Lemma logical_eq subs mode (inv : bool) md b :
  Forall StateMatcher subs -> wf_state b ->
  let s := if String.eqb mode LogicalTypeAnd
           then foldl combine (singleRuleMatchState (if inv then 0 else b)) (subStates subs md (if inv then 0 else b))
           else foldl merge 0 (subStates subs md (if inv then 0 else b)) in
  logical_matchStatesWithBase subs mode inv md b
  = if inv then if isEmpty s then singleRuleMatchState b else 0 else s.
Proof.
  intros Hs Hb. cbv zeta. unfold logical_matchStatesWithBase. rewrite logicalOr_foldl.
  assert (Hwf : Forall wf_set (subStates subs md 0)).
  { eapply Forall_impl; [|by apply subStates_good, wf_state_zero]. by intros ? []. }
  destruct inv, (String.eqb mode LogicalTypeAnd); rewrite ?empty_withBase by auto with sb.
  - rewrite logicalAnd_true, (empty_withBase b Hb) by auto using single_isEmpty with sb. done.
  - done.
  - apply logicalAnd_false.
  - apply isEmpty_zero.
Qed.

#[export] Instance StateMatcher_logical subs mode inv :
  Forall StateMatcher subs -> StateMatcher (logical_matchStatesWithBase subs mode inv).
Proof.
  intros Hs. apply StateMatcher_intro; intros md b; [intros Hb|intros b' Hb Hb'];
    rewrite !logical_eq by auto with sb; cbv zeta; destruct inv.
  - destruct (isEmpty _); auto using good_single, good_zero with sb.
  - destruct (String.eqb _ _); apply good_foldl;
      auto using good_combine, good_merge, good_single, good_zero, subStates_good with sb.
  - destruct (isEmpty _); auto using grows_single, grows_zero with sb.
  - destruct (String.eqb _ _); apply grows_foldl;
      auto using grows_combine, grows_merge, grows_single, grows_zero, subStates_grows with sb.
Qed.

#[export] Instance StateMatcher_rule r : StateMatcher (rule_matchStatesWithBase svc rs r).
Proof.
  induction r as [m r|rules mode inv act IH] using Rule_ind_nested; [apply StateMatcher_default|].
  apply StateMatcher_logical. by apply Forall_map.
Qed.
End with_rule_sets.

#[export] Instance RuleSetMatcher_none : RuleSetMatcher noRuleSetStates.
Proof. split; [|done]. intros i. apply StateMatcher_none. Qed.

(** A union of matchers over the same metadata. *)
Lemma StateMatcher_union {A} (l : list A) (f : A -> matcher) :
  (forall x, StateMatcher (f x)) -> StateMatcher (fun md b => foldl (fun s x => merge s (f x md b)) 0 l).
Proof.
  intros Hf.
  assert (Hl : forall md b, foldl (fun s x => merge s (f x md b)) 0 l = foldl merge 0 (map (fun x => f x md b) l)).
  { intros md b. apply (foldl_map merge (fun x => f x md b)). }
  apply StateMatcher_intro; intros md b; [intros Hb|intros b' Hb Hb']; rewrite !Hl.
  - apply good_foldl; auto using good_merge, good_zero. apply Forall_map, Forall_true. intros x. by apply good_matcher.
  - apply grows_foldl; auto using grows_merge, grows_zero.
    clear Hl. induction l; cbn; constructor; [by apply grows_matcher|done].
Qed.

(** A matcher stays one when its metadata is changed first. *)
Lemma StateMatcher_metadata (g : InboundContext -> InboundContext) f :
  StateMatcher f -> StateMatcher (fun md b => f (g md) b).
Proof. intros []. split; eauto. Qed.

#[export] Instance StateMatcher_RuleSet s : StateMatcher (RuleSet_matchStatesWithBase svc s).
Proof.
  apply (StateMatcher_union (rs_rules s)
    (fun rule md b => rule_matchStatesWithBase svc noRuleSetStates rule (ResetRuleMatchCache md) b)).
  intros rule. apply (StateMatcher_metadata ResetRuleMatchCache), StateMatcher_rule, RuleSetMatcher_none.
Qed.

#[export] Instance RuleSetMatcher_store store : RuleSetMatcher (RuleSetItem_matchStatesWithBase svc store).
Proof.
  split; [|done]. intros i.
  apply (StateMatcher_union (omap (fun tag => store !! tag) (setList i))
    (fun s md b => RuleSet_matchStatesWithBase svc s ((ResetRuleMatchCache md)
       {{ ic_IPCIDRMatchSource := ipCidrMatchSource i; ic_IPCIDRAcceptEmpty := ipCidrAcceptEmpty i }}) b)).
  intros s. apply (StateMatcher_metadata (fun md => (ResetRuleMatchCache md)
       {{ ic_IPCIDRMatchSource := ipCidrMatchSource i; ic_IPCIDRAcceptEmpty := ipCidrAcceptEmpty i }})).
  apply StateMatcher_RuleSet.
Qed.

(** C8: every rule, whatever its conditions, its nested rules and the
    rule-sets it includes, keeps the promises of [StateMatcher]: its result
    is a 16-bit set of states, each of which still has all the flags it
    inherited, and inheriting further flags never turns a match into a
    failure. *)
Theorem every_rule_is_a_state_matcher store r :
  StateMatcher (rule_matchStatesWithBase svc (RuleSetItem_matchStatesWithBase svc store) r).
Proof. apply StateMatcher_rule, RuleSetMatcher_store. Qed.

End matchers.
