(* ===== verification/RuleMatch.v ===== *)
(** The correctness of [Match]: rules mean the documented formula, rule-sets are
    merged into the rules that include them, and matching changes nothing but
    the [DidMatch] flag. *)
From Stdlib Require Import Btauto.
From S2P Require Import Prelude MatchState Netip Metadata RuleItem RuleAction Demo RuleAbstract RuleSpec.
From S2P Require Import RuleTree StateMatcher.

Section props.
Context `{Libs}.
Variable svc : Services.

(** * Rules without rule-sets *)

(** The meaning of a rule: a default rule holds when its formula does, a
    logical rule when all or some of its sub rules do, and [invert] negates.
    Sub rules see the metadata with the rule cache reset. *)
Fixpoint ruleHolds (r : Rule) (md : InboundContext) : bool :=
  match r with
  | DefaultRule _ r =>
      negb (nonempty (allItems r)) || xorb (invert r) (clausesHold (clausesOf svc r md))
  | LogicalRule rules mode inv _ =>
      xorb inv (if String.eqb mode LogicalTypeAnd
                then allb (map (fun r => ruleHolds r (ResetRuleCache md)) rules) id
                else anyb (map (fun r => ruleHolds r (ResetRuleCache md)) rules) id)
  end.

Lemma negb_isEmpty_foldl_combine s l :
  wf_set s -> isEmpty s = false -> Forall wf_set l ->
  negb (isEmpty (foldl combine s l)) = allb l (fun s => negb (isEmpty s)).
Proof.
  intros Hs Hne Hl. revert s Hs Hne. induction Hl as [|t l Ht Hl IH]; intros s Hs Hne; unfold allb; cbn.
  { by rewrite Hne. }
  destruct (isEmpty t) eqn:Et; cbn [negb andb].
  - apply isEmpty_true in Et as ->. by rewrite combine_zero_r, foldl_combine_zero.
  - apply IH; [auto with sb|]. by rewrite combine_isEmpty, Hne, Et.
Qed.

Lemma negb_isEmpty_foldl_merge s l :
  negb (isEmpty (foldl merge s l)) = negb (isEmpty s) || anyb l (fun s => negb (isEmpty s)).
Proof.
  induction l as [|t l IH] in s |- *; cbn [foldl]; [by rewrite orb_false_r|].
  by rewrite IH, merge_isEmpty, negb_andb, <- orb_assoc.
Qed.

(** A logical rule in terms of its sub rules, for every base. *)
Lemma logical_matches subs mode inv md b :
  Forall StateMatcher subs -> wf_state b ->
  let sub f := negb (isEmpty (f (ResetRuleCache md) (if inv : bool then 0 else b))) in
  negb (isEmpty (logical_matchStatesWithBase subs mode inv md b))
  = xorb inv (if String.eqb mode LogicalTypeAnd then allb subs sub else anyb subs sub).
Proof.
  intros Hs Hb sub. rewrite logical_eq by done. cbv zeta.
  assert (He : wf_state (if inv then 0 else b)) by (destruct inv; auto with sb).
  set (s := if String.eqb mode LogicalTypeAnd then _ else _).
  assert (Hn : negb (isEmpty s) = if String.eqb mode LogicalTypeAnd then allb subs sub else anyb subs sub).
  { unfold s. destruct (String.eqb _ _).
    - rewrite negb_isEmpty_foldl_combine;
        [unfold subStates; by rewrite allb_map|auto with sb|by apply single_isEmpty|].
      eapply Forall_impl; [|by apply subStates_good]. by intros ? [].
    - rewrite negb_isEmpty_foldl_merge. unfold subStates. by rewrite anyb_map. }
  rewrite <- Hn. destruct inv; cbn [xorb]; [|done].
  destruct (isEmpty s); cbn; [by rewrite single_isEmpty|done].
Qed.

Lemma default_matches rs r md :
  (forall i md d st, rs i (withDid md d) st = rs i md st) ->
  ruleSetItem r = None -> ic_IgnoreDestinationIPCIDRMatch md = false ->
  negb (isEmpty (default_matchStatesWithBase svc rs r md 0).1)
  = negb (nonempty (allItems r)) || xorb (invert r) (clausesHold (clausesOf svc r md)).
Proof.
  intros Hrs Hr Hi. rewrite default_matchStatesWithBase_spec by auto with sb. cbn [fst].
  rewrite default_reference_plain by auto with sb. rewrite Z.lor_0_l, <- clausesHold_covers.
  pose proof (satMask_wf (clausesOf svc r md)).
  repeat case_bool; cbn; try done; by rewrite single_isEmpty by auto with sb.
Qed.

Lemma rule_matches rs `{RuleSetMatcher rs} r : forall md,
  noRuleSet r = true -> ic_IgnoreDestinationIPCIDRMatch md = false ->
  negb (isEmpty (rule_matchStatesWithBase svc rs r md 0)) = ruleHolds r md.
Proof.
  induction r as [m r|rules mode inv act IH] using Rule_ind_nested; intros md Hn Hi.
  { apply default_matches; [apply rsm_DidMatch|by apply bool_decide_eq_true in Hn|done]. }
  cbn [rule_matchStatesWithBase ruleHolds]. rewrite logical_matches; [|apply Forall_map|auto with sb].
  2: { apply Forall_true. intros. apply StateMatcher_rule; done. }
  cbv zeta. f_equal. replace (if inv then 0 else 0) with 0 by by destruct inv.
  rewrite !allb_map, !anyb_map.
  assert (Hall : Forall (fun r => negb (isEmpty (rule_matchStatesWithBase svc rs r (ResetRuleCache md) 0))
                                  = ruleHolds r (ResetRuleCache md)) rules).
  { cbn [noRuleSet] in Hn. unfold allb in Hn. rewrite forallb_forall in Hn.
    rewrite Forall_forall in IH. apply Forall_forall. intros r Hr. apply IH; auto. }
  destruct (String.eqb _ _); [by apply allb_ext_Forall|by apply anyb_ext_Forall].
Qed.

(** C1: matching a rule tree that includes no rule-set computes the documented
    formula: in a default rule the address and port conditions are
    alternatives within each of the four groups, all other conditions must
    hold, [invert] negates the whole, and logical rules combine their sub
    rules with AND or OR.  A match only ever changes the [DidMatch] flag of
    the metadata. *)
Theorem rule_match_documented store r md :
  noRuleSet r = true -> ic_IgnoreDestinationIPCIDRMatch md = false ->
  let m := Rule_Match svc (RuleSetItem_matchStatesWithBase svc store) r md in
  m.1 = ruleHolds r md /\ withDid m.2 (ic_DidMatch md) = md.
Proof.
  intros Hn Hi m. split; [apply rule_matches; [apply RuleSetMatcher_store|done..]|].
  subst m. destruct r as [k r|]; cbn [Rule_Match snd]; [|by destruct md].
  rewrite default_matchStatesWithBase_spec by auto using rsm_DidMatch with sb.
  cbn [snd]. destruct (nonempty _); by destruct md.
Qed.
(** * Rules with rule-sets *)

(** The metadata the rules of a rule-set see. *)
Definition ruleSetMetadata (i : RuleSetItem) (md : InboundContext) : InboundContext :=
  (ResetRuleMatchCache md)
    {{ ic_IPCIDRMatchSource := ipCidrMatchSource i; ic_IPCIDRAcceptEmpty := ipCidrAcceptEmpty i }}.

(** The rules an item includes, from all its rule-sets. *)
Definition includedRules (store : ruleSetStore) (i : RuleSetItem) : list Rule :=
  flat_map rs_rules (omap (fun tag => store !! tag) (setList i)).

Definition includedAlts (store : ruleSetStore) (i : RuleSetItem) (md : InboundContext) : list alternative :=
  flat_map (fun r => ruleAlts svc r (ruleSetMetadata i md)) (includedRules store i).

Lemma ruleSets_flatten store i md b :
  RuleSetItem_matchStatesWithBase svc store i md b
  = foldl merge 0 (map (fun r => rule_matchStatesWithBase svc noRuleSetStates r (ruleSetMetadata i md) b)
                       (includedRules store i)).
Proof.
  unfold RuleSetItem_matchStatesWithBase, includedRules, RuleSet_matchStatesWithBase.
  generalize (omap (fun tag => store !! tag) (setList i)). intros sets.
  set (f := fun r => rule_matchStatesWithBase svc noRuleSetStates r (ruleSetMetadata i md) b).
  assert (Hm : forall l z, merge z (foldl merge 0 l) = foldl merge z l).
  { intros l. induction l as [|x l IH]; intros z; cbn [foldl]; [by unfold merge; rewrite Z.lor_0_r|].
    rewrite <- (IH (merge 0 x)), <- (IH (merge z x)). unfold merge. by rewrite Z.lor_0_l, Z.lor_assoc. }
  assert (Haux : forall z, foldl (fun st s => merge st (foldl (fun st r => merge st (f r)) 0 (rs_rules s))) z sets
                           = foldl merge z (map f (flat_map rs_rules sets))); [|exact (Haux 0)].
  induction sets as [|s sets IH]; intros z; cbn [foldl flat_map map]; [done|].
  rewrite IH, map_app, foldl_app, (foldl_map merge f). by rewrite Hm.
Qed.

Lemma included_denotes store i md b :
  allb (includedRules store i) noRuleSet = true -> ic_IgnoreDestinationIPCIDRMatch md = false -> wf_state b ->
  denotes b (includedAlts store i md) (RuleSetItem_matchStatesWithBase svc store i md b).
Proof.
  intros Hn Hi Hb. rewrite ruleSets_flatten. unfold includedAlts. rewrite flat_map_concat_map.
  apply (denotes_foldl_merge b _ _ []); [|apply denotes_none].
  unfold allb in Hn. rewrite forallb_forall in Hn.
  induction (includedRules store i) as [|r l IH]; cbn [map]; constructor.
  - apply rule_denotes; auto with datatypes.
  - apply IH. auto with datatypes.
Qed.

(** One alternative of the included rules, merged into a rule with the
    conditions [c]: the rule's flags count for every branch taken, and the
    flags of all of them count for the rule. *)
Definition mergedHolds (c : clauses) (a : alternative) : bool :=
  allb (cl_other c) id && altHolds (satMask c) a && covers c (altState (satMask c) a).

Lemma evalStates_merged store r i md :
  ruleSetItem r = Some i -> allb (includedRules store i) noRuleSet = true ->
  ic_IgnoreDestinationIPCIDRMatch md = false ->
  negb (isEmpty (evalStates svc (RuleSetItem_matchStatesWithBase svc store) r md 0))
  = anyb (includedAlts store i md) (mergedHolds (clausesOf svc r md)).
Proof.
  intros Hr Hn Hi. unfold evalStates, mergedHolds. rewrite Hr, Z.lor_0_l.
  set (c := clausesOf svc r md). pose proof (satMask_wf c) as Hc.
  destruct (included_denotes store i md (satMask c) Hn Hi Hc) as [Hwf Hd].
  apply eq_true_iff_eq. rewrite anyb_true, negb_true_iff.
  destruct (allb (cl_other c) id); cbn [andb]; [|split; [done|by intros (? & ? & ?)]].
  rewrite isEmpty_false_contains by auto with sb. split.
  - intros (st & Hst & Hs). rewrite (proj2 (filterStates_spec _ _) st Hst) in Hs. bool_to_prop.
    apply Hd in H0 as (a & Ha & Hh & ->); [|done]. exists a. by rewrite Hh.
  - intros (a & Ha & Hh). bool_to_prop. pose proof (altState_wf _ a Hc) as Hst.
    exists (altState (satMask c) a). split; [done|].
    rewrite (proj2 (filterStates_spec _ _) _ Hst). apply andb_true_iff. split; [|done].
    apply Hd; [done|]. by exists a.
Qed.

Lemma implb_orb_l a b x : implb (a || b) x = implb a x && implb b x.
Proof. by destruct a, b, x. Qed.

(** Merging one branch is matching the rule with both sets of conditions. *)
Lemma mergedHolds_single c d : mergedHolds c [d] = clausesHold (clausesMerge c d).
Proof.
  rewrite clausesHold_covers. unfold mergedHolds, altHolds, allb, clausesMerge, altState, satMask, anyClause.
  cbn [forallb foldr cl_source cl_sourcePort cl_destination cl_destinationPort cl_other].
  rewrite mask_lor, !covers_mask, forallb_app, !anyb_app. cbn [cl_source cl_sourcePort cl_destination cl_destinationPort].
  rewrite !nonempty_app, andb_true_r, !implb_orb_l. btauto.
Qed.

Lemma rule_set_matches store m r i md :
  ruleSetItem r = Some i -> nonempty (allItems r) = true ->
  allb (includedRules store i) noRuleSet = true -> ic_IgnoreDestinationIPCIDRMatch md = false ->
  (Rule_Match svc (RuleSetItem_matchStatesWithBase svc store) (DefaultRule m r) md).1
  = xorb (invert r) (anyb (includedAlts store i md) (mergedHolds (clausesOf svc r md))).
Proof.
  intros Hr Ha Hn Hi. cbn [Rule_Match fst rule_matchStatesWithBase].
  rewrite default_matchStatesWithBase_spec by auto using rsm_DidMatch with sb. cbn [fst].
  unfold default_reference. rewrite Ha, ignoredInvert_false, orb_false_r by done. cbn [negb].
  rewrite <- (evalStates_merged store r i md) by done.
  set (s := evalStates _ _ _ _ _). destruct (invert r); cbn [xorb]; [|done].
  destruct (isEmpty s); cbn [negb]; [|done]. by rewrite single_isEmpty by auto with sb.
Qed.

(** C5: a rule that includes rule-sets matches exactly when one branch of one
    of their rules, merged into the rule, does (negated under [invert]).  The
    branches of an included rule are its alternatives: those of an OR are
    alternatives, an AND takes one of each of its sub rules, and an inverted
    rule only acts as a condition.  Merging a branch that is a plain default
    rule is matching a single rule with the conditions of both. *)
Theorem rule_set_match_merges store m r i md :
  ruleSetItem r = Some i -> nonempty (allItems r) = true ->
  allb (includedRules store i) noRuleSet = true -> ic_IgnoreDestinationIPCIDRMatch md = false ->
  (Rule_Match svc (RuleSetItem_matchStatesWithBase svc store) (DefaultRule m r) md).1
  = xorb (invert r) (anyb (includedAlts store i md) (mergedHolds (clausesOf svc r md)))
  /\ forall c, mergedHolds (clausesOf svc r md) [c] = clausesHold (clausesMerge (clausesOf svc r md) c).
Proof. intros. split; [by apply rule_set_matches|intros; apply mergedHolds_single]. Qed.

(** the documented special case: when the included rules are plain default
    rules, the rule matches when its conditions together with those of one of
    the included rules hold, group by group. *)
Theorem rule_set_branches_merge store m r i md :
  ruleSetItem r = Some i -> nonempty (allItems r) = true ->
  ic_IgnoreDestinationIPCIDRMatch md = false ->
  forall branches,
    includedRules store i = map (DefaultRule false) branches ->
    Forall (fun h => ruleSetItem h = None /\ nonempty (allItems h) = true /\ invert h = false) branches ->
    (Rule_Match svc (RuleSetItem_matchStatesWithBase svc store) (DefaultRule m r) md).1
    = xorb (invert r) (anyb branches (fun h =>
        clausesHold (clausesMerge (clausesOf svc r md) (clausesOf svc h (ruleSetMetadata i md))))).
Proof.
  intros Hr Ha Hi branches Hb Hf.
  assert (Hn : allb (includedRules store i) noRuleSet = true).
  { rewrite Hb. unfold allb. clear Hb. induction Hf as [|h l (Hh & _) _ IH]; cbn [map forallb noRuleSet]; [done|].
    by rewrite Hh, IH, bool_decide_true. }
  rewrite (rule_set_matches store m r i md) by done.
  f_equal. unfold includedAlts. rewrite Hb. clear Hb.
  unfold anyb. induction Hf as [|h l (_ & Hh & Hv) _ IH]; cbn [map flat_map existsb]; [done|].
  cbn [ruleAlts]. unfold defaultAlts. rewrite Hh, Hv. cbn [negb app existsb].
  by rewrite mergedHolds_single, IH.
Qed.
End props.

(** A rule "domain_suffix example.org and port 443 or 80", inverted and not. *)
Definition demoRule (inv : bool) : @Rule demoLibs :=
  let d := @ItemDomain demoLibs (@mkDomainItem demoLibs ([], ["example.org"]) "domain_suffix=example.org") in
  let p := @ItemPort demoLibs (NewPortItem false [443; 80]) in
  @DefaultRule demoLibs false
    (@mkAbstractDefaultRule demoLibs [] [] [] [d] [] [p] [@PlainItem demoLibs d; @PlainItem demoLibs p] None inv None).

Lemma rule_match_documented_witness :
  let m := @Rule_Match demoLibs demoServices (@RuleSetItem_matchStatesWithBase demoLibs demoServices ∅)
             (@LogicalRule demoLibs [demoRule false; demoRule true] LogicalTypeOr false None) demoMetadata in
  m.1 = @ruleHolds demoLibs demoServices
          (@LogicalRule demoLibs [demoRule false; demoRule true] LogicalTypeOr false None) demoMetadata
  /\ withDid m.2 (ic_DidMatch demoMetadata) = demoMetadata.
Proof. apply (@rule_match_documented demoLibs demoServices ∅); reflexivity. Defined.

(** A rule "port 443 and rule_set a", with "a" holding the rule above and a
    rule "network udp". *)
Definition demoSetRule (inv : bool) : @abstractDefaultRule demoLibs :=
  let p := @ItemPort demoLibs (NewPortItem false [443]) in
  let i := mkRuleSetItem ["a"] ["a"] false false in
  @mkAbstractDefaultRule demoLibs [] [] [] [] [] [p] [@PlainItem demoLibs p; @SetItem demoLibs i] (Some i) inv None.

Definition demoBranches : list (@abstractDefaultRule demoLibs) :=
  let d := @ItemDomain demoLibs (@mkDomainItem demoLibs ([], ["example.org"]) "domain_suffix=example.org") in
  let n := @ItemNetwork demoLibs (NewNetworkItem ["udp"]) in
  [ @mkAbstractDefaultRule demoLibs [] [] [] [d] [] [] [@PlainItem demoLibs d] None false None;
    @mkAbstractDefaultRule demoLibs [n] [] [] [] [] [] [@PlainItem demoLibs n] None false None ].

Definition demoStore : @ruleSetStore demoLibs :=
  {[ "a" := @mkRuleSet demoLibs (map (@DefaultRule demoLibs false) demoBranches)
              (mkRuleSetMetadata false false false false true) ]}.

Lemma rule_set_match_merges_witness :
  (@Rule_Match demoLibs demoServices (@RuleSetItem_matchStatesWithBase demoLibs demoServices demoStore)
     (@DefaultRule demoLibs false (demoSetRule false)) demoMetadata).1 = true /\
  (forall c, @mergedHolds (@clausesOf demoLibs demoServices (demoSetRule false) demoMetadata) [c]
             = clausesHold (clausesMerge (@clausesOf demoLibs demoServices (demoSetRule false) demoMetadata) c)).
Proof.
  pose proof (@rule_set_match_merges demoLibs demoServices demoStore false (demoSetRule false)
    (mkRuleSetItem ["a"] ["a"] false false) demoMetadata eq_refl eq_refl eq_refl eq_refl) as [_ Hm].
  split; [vm_compute; reflexivity|exact Hm].
Defined.

Lemma rule_set_branches_merge_witness :
  (@Rule_Match demoLibs demoServices (@RuleSetItem_matchStatesWithBase demoLibs demoServices demoStore)
     (@DefaultRule demoLibs false (demoSetRule true)) demoMetadata).1
  = xorb true (anyb demoBranches (fun h =>
      clausesHold (clausesMerge (@clausesOf demoLibs demoServices (demoSetRule true) demoMetadata)
        (@clausesOf demoLibs demoServices h
           (ruleSetMetadata (mkRuleSetItem ["a"] ["a"] false false) demoMetadata))))).
Proof.
  apply (@rule_set_branches_merge demoLibs demoServices demoStore false (demoSetRule true)
    (mkRuleSetItem ["a"] ["a"] false false) demoMetadata eq_refl eq_refl eq_refl demoBranches eq_refl).
  repeat constructor.
Defined.
