(* ===== verification/RuleOptionsSpec.v ===== *)
(** From options to matches: a rule built by [NewDefaultRule] and started means
    the documented formula over its options. *)
From S2P Require Import Prelude MatchState Netip Metadata RuleItem RuleAction Options Demo RuleAbstract RuleBuild.
From S2P Require Import RuleSpec RuleTree StateMatcher RuleMatch.

Definition sameGroup (g g' : itemGroup) : bool :=
  match g, g' with
  | GItems, GItems | GSourceAddress, GSourceAddress | GSourcePort, GSourcePort
  | GDestinationAddress, GDestinationAddress | GDestinationIPCIDR, GDestinationIPCIDR
  | GDestinationPort, GDestinationPort => true
  | _, _ => false
  end.

(** * What the steps of a constructor build *)

Section steps.
Context `{Libs}.

Definition stepItems (g : itemGroup) (s : step) : list RuleItem :=
  match s with
  | On true (Ok i) g' => if sameGroup g g' then [i] else []
  | _ => []
  end.

Definition stepAllItems (s : step) : list AnyItem :=
  match s with
  | On true (Ok i) _ => [PlainItem i]
  | UseRuleSet true (Ok i) => [SetItem i]
  | _ => []
  end.

Definition stepRuleSet (acc : option RuleSetItem) (s : step) : option RuleSetItem :=
  match s with UseRuleSet true (Ok i) => Some i | _ => acc end.

(** The rule a successful run builds. *)
Definition built (steps : list step) (r : abstractDefaultRule) : abstractDefaultRule :=
  {| items := items r ++ flat_map (stepItems GItems) steps;
     sourceAddressItems := sourceAddressItems r ++ flat_map (stepItems GSourceAddress) steps;
     sourcePortItems := sourcePortItems r ++ flat_map (stepItems GSourcePort) steps;
     destinationAddressItems := destinationAddressItems r ++ flat_map (stepItems GDestinationAddress) steps;
     destinationIPCIDRItems := destinationIPCIDRItems r ++ flat_map (stepItems GDestinationIPCIDR) steps;
     destinationPortItems := destinationPortItems r ++ flat_map (stepItems GDestinationPort) steps;
     allItems := allItems r ++ flat_map stepAllItems steps;
     ruleSetItem := foldl stepRuleSet (ruleSetItem r) steps;
     invert := invert r;
     action := action r |}.

(** A step that can be taken: what it has to build is there, and it refuses
    nothing. *)
Definition stepOk (s : step) : Prop :=
  match s with
  | On set item _ => set = true -> exists i, item = Ok i
  | Refuse set _ => set = false
  | UseRuleSet set item => set = true -> exists i, item = Ok i
  end.

Lemma runStep_Ok s r r' : runStep s r = Ok r' -> stepOk s /\ r' = built [s] r.
Proof.
  unfold built. destruct r, s as [[] item g|[] m|[] item]; cbn; intros Hs; inv_ok;
    try (split; [done|]; by rewrite ?app_nil_r).
  - split; [by eexists|]. destruct g; cbn; by rewrite ?app_nil_r.
  - split; [by eexists|]. by rewrite ?app_nil_r.
Qed.

Lemma built_app s k r : built k (built s r) = built (s ++ k) r.
Proof. unfold built. cbn. by rewrite !flat_map_app, !app_assoc, foldl_app. Qed.

Lemma runSteps_Ok steps r r' : runSteps steps r = Ok r' -> Forall stepOk steps /\ r' = built steps r.
Proof.
  induction steps as [|s steps IH] in r |- *; cbn [runSteps]; intros Hr.
  - inv_ok. split; [done|]. unfold built. destruct r'; cbn. by rewrite !app_nil_r.
  - inv_ok. apply runStep_Ok in H0 as [Hs ->]. destruct (IH _ Hr) as [IH1 ->].
    split; [by constructor|]. apply (built_app [s]).
Qed.

(** Conversely, steps that can be taken are. *)
Lemma runSteps_stepOk steps r : Forall stepOk steps -> exists r', runSteps steps r = Ok r'.
Proof.
  intros Hs. induction Hs as [|s steps Hs _ IH] in r |- *; [by eexists|].
  assert (Hr : exists r', runStep s r = Ok r').
  { destruct s as [[] item g|[] m|[] item]; cbn in *; try discriminate; try by eexists.
    - destruct (Hs eq_refl) as [i ->]. by eexists.
    - destruct (Hs eq_refl) as [i ->]. by eexists. }
  destruct Hr as [r1 Hr]. cbn [runSteps]. rewrite Hr. apply IH.
Qed.

Lemma allItems_built steps inv act :
  allItems (built steps (abstractDefaultRuleZero {{ invert := inv; action := act }})) = flat_map stepAllItems steps.
Proof. done. Qed.

(** * Starting *)

Variable svc : Services.
Variable env : StartEnv.

Definition startedRule (r : abstractDefaultRule) : abstractDefaultRule :=
  let started := map (startedItem env) in
  r {{ items := started (items r);
       sourceAddressItems := started (sourceAddressItems r);
       sourcePortItems := started (sourcePortItems r);
       destinationAddressItems := started (destinationAddressItems r);
       destinationIPCIDRItems := started (destinationIPCIDRItems r);
       destinationPortItems := started (destinationPortItems r) }}.

(** A rule-set item that has started has resolved its tags. *)
Definition resolvedItem (i : RuleSetItem) : RuleSetItem := i {{ setList := tagList i }}.

Lemma startLoop_resolves loaded tags : forall i c i' c',
  RuleSetItem_startLoop loaded tags i c = Ok (None, i', c') -> i' = i {{ setList := setList i ++ tags }}.
Proof.
  induction tags as [|x tags IH]; intros i c i' c' Hs; cbn in Hs; [inv_ok; simplify_eq; rewrite app_nil_r; by destruct i'|].
  destruct (loaded x); cbn in Hs.
  - apply IH in Hs as ->. unfold constant. cbn. by rewrite <- app_assoc.
  - inv_ok. destruct x0. inv_ok. done.
Qed.

Lemma item_Start_resolves i c i' c' : RuleSetItem_Start (env_ruleSet env) i c = Ok (None, i', c') -> i' = resolvedItem i.
Proof.
  unfold RuleSetItem_Start, RuleSetItem_Close. intros Hs. apply bind_Ok in Hs as ([r1 c1] & Hc & Hs). apply bind_Ok in Hc as (c2 & _ & [= <- <-]).
  by apply startLoop_resolves in Hs as ->.
Qed.

Lemma startItems_Ok l : forall c l' c', startItems env l c = Ok (None, l', c') ->
  nonempty l' = nonempty l /\ startedSetItem l' = option_map resolvedItem (startedSetItem l).
Proof.
  induction l as [|[i|i] l IH]; intros c l' c' Hs; cbn [startItems] in Hs.
  - by inv_ok; simplify_eq.
  - destruct (RuleItem_Start env i); [|done..]. apply bind_Ok in Hs as ([[err l1] c1] & Hl & [= -> <- <-]).
    by apply IH in Hl as [_ Hl].
  - apply bind_Ok in Hs as ([[[err|] i1] c1] & Hi & Hs); [done|]. apply item_Start_resolves in Hi as ->.
    by apply bind_Ok in Hs as ([[err l1] c2] & _ & [= -> <- <-]).
Qed.

(** Only the last step may use rule-sets. *)
Fixpoint ruleSetLast (steps : list step) : bool :=
  match steps with
  | [] => true
  | UseRuleSet _ _ :: steps' => negb (nonempty steps')
  | _ :: steps' => ruleSetLast steps'
  end.

Lemma ruleSet_built steps : ruleSetLast steps = true ->
  startedSetItem (flat_map stepAllItems steps) = foldl stepRuleSet None steps.
Proof.
  induction steps as [|[[] [i|?|?] g|[] m|[] [i|?|?]] steps IH]; cbn; try done; by destruct steps.
Qed.

(** Whether the item a step builds holds once it is started. *)
Definition itemHolds (item : result RuleItem) (md : InboundContext) : bool :=
  match item with Ok i => RuleItem_Match svc (startedItem env i) md | _ => false end.

(** The condition a step adds to a group. *)
Definition stepCondition (g : itemGroup) (md : InboundContext) (s : step) : list bool :=
  match s with
  | On set item g' => if sameGroup g g' then if set then [itemHolds item md] else [] else []
  | _ => []
  end.

Lemma results_steps g md steps :
  Forall stepOk steps ->
  results svc md (map (startedItem env) (flat_map (stepItems g) steps)) = flat_map (stepCondition g md) steps.
Proof.
  induction 1 as [|s steps Hs _ IH]; [done|]. cbn [flat_map]. rewrite map_app. unfold results in *.
  rewrite map_app, IH. f_equal. destruct s as [[] item g'| |]; cbn in *; try done.
  - destruct (Hs eq_refl) as [i ->]. by destruct (sameGroup _ _).
  - by destruct (sameGroup _ _).
Qed.

Definition stepsClauses (steps : list step) (md : InboundContext) : clauses :=
  mkClauses
    (flat_map (stepCondition GSourceAddress md) steps)
    (flat_map (stepCondition GSourcePort md) steps)
    (flat_map (stepCondition GDestinationAddress md) steps ++ flat_map (stepCondition GDestinationIPCIDR md) steps)
    (flat_map (stepCondition GDestinationPort md) steps)
    (flat_map (stepCondition GItems md) steps).

(** The conditions of a rule that was built and started, at the top level. *)
Lemma clausesOf_steps steps md inv act :
  Forall stepOk steps ->
  ic_IPCIDRMatchSource md = false -> ic_IgnoreDestinationIPCIDRMatch md = false ->
  clausesOf svc (startedRule (built steps (abstractDefaultRuleZero {{ invert := inv; action := act }}))) md
  = stepsClauses steps md.
Proof.
  intros Hs Hm Hi. unfold clausesOf, cidrResults. rewrite Hm, Hi. cbn -[results].
  by rewrite !results_steps, !app_nil_r by done.
Qed.

(** Does any step add an item? *)
Definition stepSets (s : step) : bool :=
  match s with On set _ _ => set | Refuse _ _ => false | UseRuleSet set _ => set end.

Lemma nonempty_allItems steps :
  Forall stepOk steps -> nonempty (flat_map stepAllItems steps) = anyb steps stepSets.
Proof.
  unfold anyb. induction 1 as [|s steps Hs _ IH]; [done|]. cbn [flat_map existsb].
  rewrite nonempty_app, IH. f_equal. destruct s as [[] item g'|[] ?|[] item]; cbn in *; try done.
  - by destruct (Hs eq_refl) as [i ->].
  - by destruct (Hs eq_refl) as [i ->].
Qed.

End steps.

(** * The conditions of a route rule, from its options *)

Section documented.
Context `{Libs}.
Variable svc : Services.
Variable env : StartEnv.

Definition cond (set b : bool) : list bool := if set then [b] else [].

Definition oneOf {A} `{EqDecision A} (x : A) (s : slice A) : bool := bool_decide (x ∈ elems s).

(** A port range is [low:high], where either end may be left out. *)
Definition portIn (port : Z) (range : string) : bool :=
  match parsePortRange range with
  | Ok r => (range_start r <=? port) && (port <=? range_end r)
  | _ => false
  end.

Definition withProcess (md : InboundContext) (p : ConnectionOwner -> bool) : bool :=
  match ic_ProcessInfo md with Some info => p info | None => false end.

Definition withHost (md : InboundContext) (p : string -> bool) : bool :=
  negb (String.eqb (domainHost md) "") && p (ToLower (domainHost md)).

(** The formula of [docs/configuration/route/rule.md], field by field.
    Conditions that are decided by another package (regular expressions,
    address sets, interface addresses, preferred routes) are those of the item
    the constructor builds. *)
Definition documentedClauses (o : RawDefaultRule) (md : InboundContext) : clauses :=
  let itemHolds := itemHolds svc env in
  {| cl_source :=
       cond (given (r_SourceIPCIDR o)) (itemHolds (ipCIDRItem true (r_SourceIPCIDR o)) md)
       ++ cond (r_SourceIPIsPrivate o) (negb (IsPublicAddr (sa_Addr (ic_Source md))));
     cl_sourcePort :=
       cond (given (r_SourcePort o)) (oneOf (sa_Port (ic_Source md)) (r_SourcePort o))
       ++ cond (given (r_SourcePortRange o)) (anyb (elems (r_SourcePortRange o)) (portIn (sa_Port (ic_Source md))));
     cl_destination :=
       cond (given (r_Domain o) || given (r_DomainSuffix o))
         (withHost md (DomainMatcher_Match (NewMatcher (elems (r_Domain o)) (elems (r_DomainSuffix o)) false)))
       ++ cond (given (r_DomainKeyword o))
            (withHost md (fun host => anyb (elems (r_DomainKeyword o)) (stringContains host)))
       ++ cond (given (r_DomainRegex o)) (itemHolds (domainRegexItem (r_DomainRegex o)) md)
       ++ cond (given (r_IPCIDR o)) (itemHolds (ipCIDRItem false (r_IPCIDR o)) md)
       ++ cond (r_IPIsPrivate o) (IPIsPrivateItem_Match (NewIPIsPrivateItem false) md);
     cl_destinationPort :=
       cond (given (r_Port o)) (oneOf (sa_Port (ic_Destination md)) (r_Port o))
       ++ cond (given (r_PortRange o)) (anyb (elems (r_PortRange o)) (portIn (sa_Port (ic_Destination md))));
     cl_other :=
       cond (given (r_Inbound o)) (oneOf (ic_Inbound md) (r_Inbound o))
       ++ cond (0 <? r_IPVersion o) (IPVersionItem_Match (NewIPVersionItem (r_IPVersion o =? 6)) md)
       ++ cond (given (r_Network o)) (oneOf (ic_Network md) (r_Network o))
       ++ cond (given (r_AuthUser o)) (oneOf (ic_User md) (r_AuthUser o))
       ++ cond (given (r_Protocol o)) (oneOf (ic_Protocol md) (r_Protocol o))
       ++ cond (given (r_Client o)) (oneOf (ic_Client md) (r_Client o))
       ++ cond (given (r_ProcessName o)) (withProcess md (fun p =>
            negb (String.eqb (ProcessPath p) "") && oneOf (filepathBase (ProcessPath p)) (r_ProcessName o)))
       ++ cond (given (r_ProcessPath o)) (withProcess md (fun p =>
            negb (String.eqb (ProcessPath p) "") && oneOf (ProcessPath p) (r_ProcessPath o)
            || svc_IsAndroid svc && anyb (AndroidPackageNames p) (fun name => oneOf name (r_ProcessPath o))))
       ++ cond (given (r_ProcessPathRegex o)) (itemHolds (processPathRegexItem (r_ProcessPathRegex o)) md)
       ++ cond (given (r_PackageName o)) (withProcess md (fun p =>
            anyb (AndroidPackageNames p) (fun name => oneOf name (r_PackageName o))))
       ++ cond (given (r_PackageNameRegex o)) (itemHolds (packageNameRegexItem (r_PackageNameRegex o)) md)
       ++ cond (given (r_User o)) (withProcess md (fun p =>
            negb (String.eqb (UserName p) "") && oneOf (UserName p) (r_User o)))
       ++ cond (given (r_UserID o)) (withProcess md (fun p =>
            negb (UserId p =? -1) && oneOf (UserId p) (r_UserID o)))
       ++ cond (negb (String.eqb (r_ClashMode o) ""))
            (env_clashServer env && EqualFold (svc_ClashMode svc) (r_ClashMode o))
       ++ cond (given (r_NetworkType o)) (NetworkTypeItem_Match svc (NewNetworkTypeItem (elems (r_NetworkType o))) md)
       ++ cond (r_NetworkIsExpensive o) (NetworkIsExpensiveItem_Match svc md)
       ++ cond (r_NetworkIsConstrained o) (NetworkIsConstrainedItem_Match svc md)
       ++ cond (given (r_WIFISSID o)) (oneOf (SSID (svc_WIFIState svc)) (r_WIFISSID o))
       ++ cond (given (r_WIFIBSSID o))
            (bool_decide (BSSID (svc_WIFIState svc) ∈ map NormalizeWIFIBSSID (elems (r_WIFIBSSID o))))
       ++ cond (given (r_InterfaceAddress o))
            (InterfaceAddressItem_Match svc (NewInterfaceAddressItem (elems (r_InterfaceAddress o))) md)
       ++ cond (given (r_NetworkInterfaceAddress o))
            (NetworkInterfaceAddressItem_Match svc
               (NewNetworkInterfaceAddressItem (elems (r_NetworkInterfaceAddress o))) md)
       ++ cond (given (r_DefaultInterfaceAddress o))
            (DefaultInterfaceAddressItem_Match svc
               (NewDefaultInterfaceAddressItem (elems (r_DefaultInterfaceAddress o))) md)
       ++ cond (given (r_SourceMACAddress o))
            (SourceMACAddressItem_Match (NewSourceMACAddressItem (elems (r_SourceMACAddress o))) md)
       ++ cond (given (r_SourceHostname o))
            (negb (String.eqb (ic_SourceHostname md) "") && oneOf (ic_SourceHostname md) (r_SourceHostname o))
       ++ cond (given (r_PreferredBy o))
            (itemHolds (Ok (ItemPreferredBy (NewPreferredByItem (elems (r_PreferredBy o))))) md) |}.

Lemma itemHolds_cause s m md : itemHolds svc env (cause s m) md = itemHolds svc env m md.
Proof. by destruct m. Qed.

Lemma oneOf_boolMap {A} `{Countable A} (x : A) s : mapGet (boolMap (elems s)) x = oneOf x s.
Proof. apply mapGet_boolMap. Qed.

Lemma negb_if_false (b c : bool) : (if b then false else c) = negb b && c.
Proof. by destruct b. Qed.

Lemma if_true_orb (b c : bool) : (if b then true else c) = b || c.
Proof. by destruct b. Qed.

Lemma if_false_andb (b c : bool) : (if b then c else false) = b && c.
Proof. by destruct b. Qed.

Lemma portRange_holds isSource ranges i md :
  portRangeItem isSource ranges = Ok i ->
  RuleItem_Match svc i md
  = anyb (elems ranges) (portIn (if isSource then sa_Port (ic_Source md) else sa_Port (ic_Destination md))).
Proof.
  unfold portRangeItem, NewPortRangeItem. intros Hi. inv_ok. cbn. unfold PortRangeItem_Match. cbn.
  match goal with H : mapR _ _ = Ok _ |- _ => apply mapR_Forall2 in H; rename H into Hf end.
  unfold anyb. induction Hf as [|s r l l' Hr _ IH]; cbn; [done|]. rewrite IH. f_equal. unfold portIn.
  by rewrite Hr.
Qed.

Lemma domain_holds domains suffixes i md :
  domainItem domains suffixes = Ok i ->
  RuleItem_Match svc i md
  = withHost md (DomainMatcher_Match (NewMatcher (elems domains) (elems suffixes) false)).
Proof.
  unfold domainItem, NewDomainItem. repeat case_bool; intros Hi; inv_ok; cbn; apply negb_if_false.
Qed.

(** The condition of a step that can be taken. *)
Lemma cond_itemHolds (set : bool) m b md :
  (set = true -> exists i, m = Ok i) ->
  (forall i, m = Ok i -> RuleItem_Match svc (startedItem env i) md = b) ->
  (if set then [itemHolds svc env m md] else []) = cond set b.
Proof.
  intros Hs Hm. destruct set; [|done]. destruct (Hs eq_refl) as [i Hi]. cbn. rewrite Hi. cbn. by rewrite (Hm i Hi).
Qed.

Lemma app_cong {A} (a a' b b' : list A) : a = a' -> b = b' -> a ++ b = a' ++ b'.
Proof. by intros -> ->. Qed.

(** The items that look at the owner of the connection. *)
Lemma process_holds s md :
  ProcessItem_Match (NewProcessItem (elems s)) md
  = withProcess md (fun p => negb (String.eqb (ProcessPath p) "") && oneOf (filepathBase (ProcessPath p)) s).
Proof.
  unfold ProcessItem_Match, withProcess. destruct (ic_ProcessInfo md); [|done]. cbn.
  by rewrite negb_if_false, oneOf_boolMap.
Qed.

Lemma processPath_holds s md :
  ProcessPathItem_Match svc (NewProcessPathItem (elems s)) md
  = withProcess md (fun p =>
      negb (String.eqb (ProcessPath p) "") && oneOf (ProcessPath p) s
      || svc_IsAndroid svc && anyb (AndroidPackageNames p) (fun name => oneOf name s)).
Proof.
  unfold ProcessPathItem_Match, withProcess. destruct (ic_ProcessInfo md); [|done]. cbn.
  rewrite if_true_orb, if_false_andb, oneOf_boolMap. do 2 f_equal. apply anyb_ext. intros. apply oneOf_boolMap.
Qed.

Lemma packageName_holds s md :
  PackageNameItem_Match (NewPackageNameItem (elems s)) md
  = withProcess md (fun p => anyb (AndroidPackageNames p) (fun name => oneOf name s)).
Proof.
  unfold PackageNameItem_Match, withProcess. destruct (ic_ProcessInfo md); [|done]. cbn.
  rewrite (anyb_ext _ _ (fun name => oneOf name s)) by (intros; apply oneOf_boolMap).
  by destruct (AndroidPackageNames _).
Qed.

Lemma user_holds s md :
  UserItem_Match (NewUserItem (elems s)) md
  = withProcess md (fun p => negb (String.eqb (UserName p) "") && oneOf (UserName p) s).
Proof.
  unfold UserItem_Match, withProcess. destruct (ic_ProcessInfo md); [|done]. cbn.
  by rewrite negb_if_false, oneOf_boolMap.
Qed.

Lemma userId_holds s md :
  UserIdItem_Match (NewUserIDItem (elems s)) md
  = withProcess md (fun p => negb (UserId p =? -1) && oneOf (UserId p) s).
Proof.
  unfold UserIdItem_Match, withProcess. destruct (ic_ProcessInfo md); [|done]. cbn.
  by rewrite negb_if_false, oneOf_boolMap.
Qed.

(** Solve the goal for one option. *)
Ltac solve_condition :=
  apply cond_itemHolds; [first [assumption|by intros; eexists]|];
  let i := fresh "i" in let Hi := fresh "Hi" in
  intros i Hi; repeat match goal with H : cause _ _ = Ok _ |- _ => apply cause_Ok in H end;
  first
    [ by rewrite Hi
    | match type of Hi with
      | portRangeItem _ _ = _ =>
          rewrite <- (portRange_holds _ _ i _ Hi); unfold portRangeItem in Hi; by inv_ok
      | domainItem _ _ = _ => rewrite <- (domain_holds _ _ i _ Hi); unfold domainItem in Hi; by inv_ok
      | ipVersionItem _ = _ => revert Hi; unfold ipVersionItem; case_bool; intros Hi; by inv_ok
      end
    | simplify_eq; cbn [RuleItem_Match startedItem RuleItem_Start];
      rewrite ?process_holds, ?processPath_holds, ?packageName_holds, ?user_holds, ?userId_holds;
      unfold InboundItem_Match, NetworkItem_Match, AuthUserItem_Match, ProtocolItem_Match, ClientItem_Match,
        PortItem_Match, WIFISSIDItem_Match, WIFIBSSIDItem_Match, ClashModeItem_Match, SourceHostnameItem_Match,
        DomainKeywordItem_Match; cbn;
      rewrite ?negb_if_false, ?negb_involutive, ?oneOf_boolMap, ?mapGet_boolMap; reflexivity ].

Lemma stepsClauses_documented o md :
  Forall stepOk (defaultRuleSteps o) -> stepsClauses svc env (defaultRuleSteps o) md = documentedClauses o md.
Proof.
  intros Hok. unfold defaultRuleSteps in *.
  repeat (apply Forall_cons_1 in Hok as [? Hok]).
  unfold stepsClauses, documentedClauses. cbn [flat_map stepCondition sameGroup app].
  f_equal; rewrite ?app_nil_r, <- ?app_assoc; repeat apply app_cong; solve_condition.
Qed.
(** Does a rule state any condition? *)
Definition hasConditions (o : RawDefaultRule) : bool := anyb (defaultRuleSteps o) stepSets.

Lemma default_Start_Ok r c r' c' :
  default_Start env r c = Ok (None, r', c') ->
  clausesOf svc r' = clausesOf svc (startedRule env r) /\ invert r' = invert r /\
  nonempty (allItems r') = nonempty (allItems r) /\
  ruleSetItem r' = match ruleSetItem r with Some _ => option_map resolvedItem (startedSetItem (allItems r)) | None => None end.
Proof.
  unfold default_Start. intros Hs. apply bind_Ok in Hs as ([[[err|] all] c1] & Hs & Heq); [done|]. injection Heq as <- <-. cbn.
  apply startItems_Ok in Hs as [-> ->]. done.
Qed.

(** The rule-sets of a route rule, as its started item has them. *)
Definition ruleSetsOf (o : RawDefaultRule) : RuleSetItem :=
  mkRuleSetItem (elems (r_RuleSet o)) (elems (r_RuleSet o)) (r_RuleSetIPCIDRMatchSource o) false.

(** Only the last step of a route rule can give it a rule-set item. *)
Lemma defaultRuleSteps_ruleSet o : Forall stepOk (defaultRuleSteps o) ->
  foldl stepRuleSet None (defaultRuleSteps o) =
  if given (r_RuleSet o) then Some (NewRuleSetItem (elems (r_RuleSet o)) (r_RuleSetIPCIDRMatchSource o) false) else None.
Proof.
  intros Hok. assert (stepOk (UseRuleSet (given (r_RuleSet o))
    (if r_Deprecated_RulesetIPCIDRMatchSource o then Err (E_New matchSourceRemoved)
     else Ok (NewRuleSetItem (elems (r_RuleSet o)) (r_RuleSetIPCIDRMatchSource o) false)))) as Hs.
  { rewrite Forall_forall in Hok. apply Hok. unfold defaultRuleSteps. repeat (first [by left | right]). }
  unfold defaultRuleSteps. cbn [foldl].
  repeat match goal with |- context [stepRuleSet None (On ?b ?i ?g)] => change (stepRuleSet None (On b i g)) with (@None RuleSetItem) end.
  repeat match goal with |- context [stepRuleSet None (Refuse ?b ?m)] => change (stepRuleSet None (Refuse b m)) with (@None RuleSetItem) end.
  cbn in Hs |- *. destruct (given (r_RuleSet o)); [|done]. by destruct (r_Deprecated_RulesetIPCIDRMatchSource o); [destruct (Hs eq_refl)|].
Qed.

Context `{ActionLibs}.

(** C3: a route rule built from options and started matches a connection exactly
    when the formula over its options holds (negated under [invert]): one of
    the source address conditions, one of the source port, destination address
    and port conditions, for each group that has any, and every other
    condition; a rule without conditions always matches.  With [rule_set], the
    conditions of one branch of an included rule are merged into the formula,
    and one branch has to hold.  In particular the maps items build are
    equivalent to membership in the configured lists, and port ranges are
    inclusive intervals.  The rule-sets hold headless rules, and the metadata is
    that of a connection, outside of a rule-set and of an address filter. *)
Theorem default_rule_options_meaning store o a rule c rule' c' md :
  NewDefaultRule o a = Ok rule -> Rule_Start env rule c = Ok (None, rule', c') ->
  allb (includedRules store (ruleSetsOf o)) noRuleSet = true ->
  ic_IPCIDRMatchSource md = false -> ic_IgnoreDestinationIPCIDRMatch md = false ->
  (Rule_Match svc (RuleSetItem_matchStatesWithBase svc store) rule' md).1
  = if given (r_RuleSet o)
    then xorb (r_Invert o) (anyb (includedAlts svc store (ruleSetsOf o) md) (mergedHolds (documentedClauses o md)))
    else negb (hasConditions o) || xorb (r_Invert o) (clausesHold (documentedClauses o md)).
Proof.
  unfold NewDefaultRule. intros Hn Hs Hg Hm Hi. inv_ok. cbn [Rule_Start] in Hs. apply bind_Ok in Hs as ([[err r'] c1] & Hs & [= -> <- <-]).
  match goal with H : runSteps _ _ = Ok _ |- _ => apply runSteps_Ok in H as [Hok ->] end.
  apply default_Start_Ok in Hs as (Hc & Hv & Ha & Hr).
  rewrite allItems_built, ruleSet_built in Hr by reflexivity. cbn [built ruleSetItem abstractDefaultRuleZero] in Hr.
  change (ruleSetItem (abstractDefaultRuleZero {{ invert := r_Invert o; action := x }})) with (@None RuleSetItem) in Hr.
  rewrite defaultRuleSteps_ruleSet in Hr by done.
  apply (f_equal (fun f => f md)) in Hc. rewrite clausesOf_steps, stepsClauses_documented in Hc by done. rewrite allItems_built, nonempty_allItems in Ha by done.
  cbn [invert built] in Hv. change (invert (abstractDefaultRuleZero {{ invert := r_Invert o; action := x }})) with (r_Invert o) in Hv.
  destruct (given (r_RuleSet o)) eqn:Hset.
  - rewrite (rule_set_matches svc store _ r' (ruleSetsOf o)); [by rewrite Hc, Hv|exact Hr| |done|done].
    rewrite Ha. unfold anyb, defaultRuleSteps. cbn [existsb stepSets]. rewrite Hset. by rewrite !orb_true_r.
  - cbn [Rule_Match fst rule_matchStatesWithBase]. rewrite default_matches; [by rewrite Hc, Hv, Ha|apply rsm_DidMatch|exact Hr|done].
Qed.

End documented.

(** Ports 443 or 1000-2000, TCP, to a domain below example.org, and the rule-set "a". *)
Definition demoOptions : RawDefaultRule :=
  rawDefaultRuleZero {{
    r_Network := Some ["tcp"];
    r_Port := Some [443];
    r_PortRange := Some ["1000:2000"];
    r_DomainSuffix := Some ["example.org"];
    r_RuleSet := Some ["a"] }}.

Definition demoBuilt : @Rule demoLibs :=
  match @NewDefaultRule demoLibs demoActionLibs demoOptions ruleActionZero with
  | Ok r => r | _ => @LogicalRule demoLibs [] "" false None end.

Definition demoStartEnv : StartEnv := mkStartEnv true (fun _ => None) (fun _ => None) (fun tag => String.eqb tag "a").

Definition demoBuiltStarted : @Rule demoLibs * refCounts :=
  match @Rule_Start demoLibs demoStartEnv demoBuilt ∅ with
  | Ok (_, r, c) => (r, c) | _ => (demoBuilt, ∅) end.

Lemma default_rule_options_meaning_witness :
  (@Rule_Match demoLibs demoServices (@RuleSetItem_matchStatesWithBase demoLibs demoServices demoStore) demoBuiltStarted.1 demoMetadata).1 = true /\
  (@Rule_Match demoLibs demoServices (@RuleSetItem_matchStatesWithBase demoLibs demoServices demoStore) demoBuiltStarted.1 demoMetadata).1
  = xorb false (anyb (@includedAlts demoLibs demoServices demoStore (ruleSetsOf demoOptions) demoMetadata)
      (mergedHolds (@documentedClauses demoLibs demoServices demoStartEnv demoOptions demoMetadata))).
Proof.
  split; [vm_compute; reflexivity|].
  apply (@default_rule_options_meaning demoLibs demoServices demoStartEnv demoActionLibs demoStore demoOptions ruleActionZero
    demoBuilt ∅ demoBuiltStarted.1 demoBuiltStarted.2); reflexivity.
Defined.
