(* ===== verification/NestedActions.v ===== *)
(** The actions of built rules: nested rules have none, and a rule that routes
    names where to. *)
From S2P Require Import Prelude Netip Metadata RuleItem RuleAction Options Demo RuleAbstract RuleBuild.

Lemma RuleOptions_ind_nested (P : RuleOptions -> Prop) :
  (forall t o da mode rules inv la, Forall P rules -> P (mkRuleOptions t o da mode rules inv la)) ->
  forall r, P r.
Proof.
  intros Hl. fix IH 1. intros [t o da mode rules inv la]. apply Hl.
  induction rules as [|r rules IHr]; constructor; [apply IH|apply IHr].
Qed.

Lemma DNSRuleOptions_ind_nested (P : DNSRuleOptions -> Prop) :
  (forall t o da mode rules inv la, Forall P rules -> P (mkDNSRuleOptions t o da mode rules inv la)) ->
  forall r, P r.
Proof.
  intros Hl. fix IH 1. intros [t o da mode rules inv la]. apply Hl.
  induction rules as [|r rules IHr]; constructor; [apply IH|apply IHr].
Qed.

Section actions.
Context `{Libs} `{ActionLibs}.

(** No rule below [r] has an action. *)
Fixpoint nestedWithoutAction (r : Rule) : bool :=
  match r with
  | DefaultRule _ _ => true
  | LogicalRule rules _ _ _ => allb rules (fun sub => isNil (Rule_Action sub) && nestedWithoutAction sub)
  end.

Lemma RuleAction_isZero_action a : RuleAction_isZero a = true -> opt_Action a = "".
Proof. unfold RuleAction_isZero. intros Hz. bool_to_prop. by apply String.eqb_eq. Qed.

Lemma NewRuleAction_empty a : opt_Action a = "" -> NewRuleAction a = Ok None.
Proof. unfold NewRuleAction. by intros ->. Qed.

Lemma NewRuleAction_route a outbound opts :
  NewRuleAction a = Ok (Some (ActRoute outbound opts)) ->
  opt_Action a = RuleActionTypeRoute /\ outbound = opt_Outbound (opt_RouteOptions a).
Proof.
  unfold NewRuleAction. repeat case_bool; intros Ha; inv_ok; try done.
  - by split; [apply String.eqb_eq|].
  - destruct (dialer_New _); by inv_ok.
Qed.

Lemma NewDNSRuleAction_server a server opts :
  NewDNSRuleAction a = Ok (Some (ActDNSRoute server opts)) \/
  NewDNSRuleAction a = Ok (Some (ActEvaluate server opts)) ->
  (dopt_Action a = RuleActionTypeRoute \/ dopt_Action a = RuleActionTypeEvaluate)
  /\ server = dopt_Server (dopt_RouteOptions a).
Proof.
  unfold NewDNSRuleAction. repeat case_bool; intros [Ha|Ha]; inv_ok; try done;
    (split; [|congruence]); [left|right]; by apply String.eqb_eq.
Qed.

Lemma runStep_action s r r' : runStep s r = Ok r' -> action r' = action r.
Proof.
  destruct s as [[] item g|[] m|[] item]; cbn; intros Hs; inv_ok; try done. by destruct g.
Qed.

Lemma runSteps_action steps : forall r r', runSteps steps r = Ok r' -> action r' = action r.
Proof.
  induction steps as [|s steps IH]; intros r r' Hs; cbn in Hs; inv_ok; [done|].
  erewrite IH by eassumption. by eapply runStep_action.
Qed.

Lemma NewDefaultRule_action o a r :
  NewDefaultRule o a = Ok r -> nestedWithoutAction r = true /\ NewRuleAction a = Ok (Rule_Action r).
Proof.
  unfold NewDefaultRule. intros Hn. inv_ok. split; [done|]. cbn.
  match goal with H : runSteps _ _ = _ |- _ => apply runSteps_action in H as -> end. done.
Qed.

Lemma validated_no_action r u : validateNoNestedRuleActions true r = Ok u -> ruleHasConfiguredAction r = false.
Proof. destruct r. cbn [validateNoNestedRuleActions andb]. by destruct (ruleHasConfiguredAction _). Qed.

Lemma NewRule_actions r : forall check rule,
  NewRule check r = Ok rule ->
  nestedWithoutAction rule = true /\
  exists a, NewRuleAction a = Ok (Rule_Action rule) /\
    (ruleHasConfiguredAction r = false -> opt_Action a = "") /\
    (check = true -> opt_Action a = RuleActionTypeRoute -> opt_Outbound (opt_RouteOptions a) <> "").
Proof.
  induction r as [t o da mode rules inv la IH] using RuleOptions_ind_nested. intros check rule Hn.
  cbn [NewRule] in Hn. unfold ruleHasConfiguredAction. cbn [ro_Type ro_DefaultAction ro_LogicalAction].
  destruct (String.eqb t "" || String.eqb t RuleTypeDefault) eqn:Ht.
  - destruct (negb _); [done|]. destruct (_ && check) eqn:Hm in Hn; [done|].
    apply NewDefaultRule_action in Hn as [Hna Hac]. split; [done|]. exists da. split_and!; [done| |].
    + intros Hz%negb_false_iff. by apply RuleAction_isZero_action.
    + intros -> Ha Ho. rewrite Ha, Ho in Hm. done.
  - destruct (String.eqb t RuleTypeLogical) eqn:Hl; [|done]. inv_ok.
    destruct (negb _); [done|]. destruct (_ && check) eqn:Hm in Hn; [done|]. inv_ok.
    split.
    + match goal with Hs : mapR_from _ _ _ = Ok _ |- _ => apply mapR_from_Forall2 in Hs; rename Hs into Hf end.
      cbn [nestedWithoutAction]. clear -IH Hf. unfold allb.
      induction Hf as [|sub r' l l' (j & Hr) _ IHf]; inversion IH as [|? ? IHsub IHl]; subst; cbn [forallb]; [done|].
      rewrite IHf, andb_true_r by done. inv_ok. edestruct IHsub as (Hna & a & Ha & Hz & _); [eassumption|].
      rewrite NewRuleAction_empty in Ha; [injection Ha as <-; by rewrite Hna|].
      apply Hz. by eapply validated_no_action.
    + exists la. cbn [Rule_Action]. split_and!; [done| |].
      * intros Hz%negb_false_iff. by apply RuleAction_isZero_action.
      * intros -> Ha Ho. rewrite Ha, Ho in Hm. done.
Qed.

(** ** DNS rules *)

Lemma DNSRuleAction_isZero_action a : DNSRuleAction_isZero a = true -> dopt_Action a = "".
Proof. unfold DNSRuleAction_isZero. intros Hz. bool_to_prop. by apply String.eqb_eq. Qed.

Lemma NewDNSRuleAction_empty a : dopt_Action a = "" -> NewDNSRuleAction a = Ok None.
Proof. unfold NewDNSRuleAction. by intros ->. Qed.

Lemma NewDefaultDNSRule_action legacy o a r :
  NewDefaultDNSRule legacy o a = Ok r -> nestedWithoutAction r = true /\ NewDNSRuleAction a = Ok (Rule_Action r).
Proof.
  unfold NewDefaultDNSRule. intros Hn. inv_ok. split; [done|]. cbn.
  match goal with H : runSteps _ _ = _ |- _ => apply runSteps_action in H as -> end. done.
Qed.

Lemma checkDNSAction_server a u :
  checkDNSAction true a = Ok u ->
  dopt_Action a = RuleActionTypeRoute \/ dopt_Action a = RuleActionTypeEvaluate ->
  dopt_Server (dopt_RouteOptions a) <> "".
Proof.
  unfold checkDNSAction. cbn [negb andb]. intros Hc Ha Hs. inv_ok. rewrite Hs in Hc.
  destruct Ha as [Ha|Ha]; rewrite Ha in Hc; done.
Qed.

Lemma validated_no_dns_action r u :
  validateNoNestedDNSRuleActions true r = Ok u -> dnsRuleHasConfiguredAction r = false.
Proof. destruct r. cbn [validateNoNestedDNSRuleActions andb]. by destruct (dnsRuleHasConfiguredAction _). Qed.

Lemma NewDNSRule_actions legacy r : forall check rule,
  NewDNSRule legacy check r = Ok rule ->
  nestedWithoutAction rule = true /\
  exists a, NewDNSRuleAction a = Ok (Rule_Action rule) /\
    (dnsRuleHasConfiguredAction r = false -> dopt_Action a = "") /\
    (check = true -> dopt_Action a = RuleActionTypeRoute \/ dopt_Action a = RuleActionTypeEvaluate ->
     dopt_Server (dopt_RouteOptions a) <> "").
Proof.
  induction r as [t o da mode rules inv la IH] using DNSRuleOptions_ind_nested. intros check rule Hn.
  cbn [NewDNSRule] in Hn. unfold dnsRuleHasConfiguredAction. cbn [do_Type do_DefaultAction do_LogicalAction].
  destruct (String.eqb t "" || String.eqb t RuleTypeDefault) eqn:Ht.
  - destruct (negb _); [done|]. inv_ok.
    apply NewDefaultDNSRule_action in Hn as [Hna Hac]. split; [done|]. exists da. split_and!; [done| |].
    + intros Hz%negb_false_iff. by apply DNSRuleAction_isZero_action.
    + intros ->. by eapply checkDNSAction_server.
  - destruct (String.eqb t RuleTypeLogical) eqn:Hl; [|done]. inv_ok. destruct (negb _); [done|]. inv_ok.
    split.
    + match goal with Hs : mapR_from _ _ _ = Ok _ |- _ => apply mapR_from_Forall2 in Hs; rename Hs into Hf end.
      cbn [nestedWithoutAction]. clear -IH Hf. unfold allb.
      induction Hf as [|sub r' l l' (j & Hr) _ IHf]; inversion IH as [|? ? IHsub IHl]; subst; cbn [forallb]; [done|].
      rewrite IHf, andb_true_r by done. inv_ok. edestruct IHsub as (Hna & a & Ha & Hz & _); [eassumption|].
      rewrite NewDNSRuleAction_empty in Ha; [injection Ha as <-; by rewrite Hna|].
      apply Hz. by eapply validated_no_dns_action.
    + exists la. cbn [Rule_Action]. split_and!; [done| |].
      * intros Hz%negb_false_iff. by apply DNSRuleAction_isZero_action.
      * intros ->. by eapply checkDNSAction_server.
Qed.

(** C40: the constructors of route and DNS rules accept actions only where they
    take effect: no rule nested in a logical rule has an action, at any
    depth; and a top-level rule that routes names its outbound, or the
    server it queries. *)
Theorem rule_actions_top_level :
  (forall r rule, NewRule true r = Ok rule ->
     nestedWithoutAction rule = true /\
     forall outbound opts, Rule_Action rule = Some (ActRoute outbound opts) -> outbound <> "") /\
  (forall legacy r rule, NewDNSRule legacy true r = Ok rule ->
     nestedWithoutAction rule = true /\
     (forall server opts, Rule_Action rule = Some (ActDNSRoute server opts) -> server <> "") /\
     (forall server opts, Rule_Action rule = Some (ActEvaluate server opts) -> server <> "")).
Proof.
  split.
  - intros r rule Hn. destruct (NewRule_actions r true rule Hn) as (Hna & a & Ha & _ & Hr). split; [done|].
    intros outbound opts E. rewrite E in Ha. apply NewRuleAction_route in Ha as [Ht ->]. by apply Hr.
  - intros legacy r rule Hn. destruct (NewDNSRule_actions legacy r true rule Hn) as (Hna & a & Ha & _ & Hr).
    split; [done|]. split; intros server opts E; rewrite E in Ha;
      edestruct (NewDNSRuleAction_server a server opts) as [Ht ->]; eauto.
Qed.

End actions.

(** A top-level rule that routes the port 443 to an outbound. *)
Definition demoRouted : RuleOptions :=
  mkRuleOptions "" (rawDefaultRuleZero {{ r_Port := Some [443] }})
    (ruleActionZero {{ opt_Action := RuleActionTypeRoute;
                       opt_RouteOptions := mkRouteActionOptions "proxy" rawRouteOptionsZero }}) "" [] false ruleActionZero.

Definition demoRoutedRule : @Rule demoLibs :=
  match @NewRule demoLibs demoActionLibs true demoRouted with
  | Ok rule => rule
  | _ => @LogicalRule demoLibs [] "" false None
  end.

Lemma rule_actions_top_level_witness :
  match Rule_Action demoRoutedRule with Some (ActRoute outbound _) => outbound <> "" | _ => False end.
Proof.
  destruct (@rule_actions_top_level demoLibs demoActionLibs) as [Hr _].
  destruct (Hr demoRouted demoRoutedRule ltac:(reflexivity)) as [_ Ha].
  destruct (Rule_Action demoRoutedRule) as [[outbound opts| | | | | | | | | | | |]|] eqn:E; try discriminate E.
  exact (Ha outbound opts eq_refl).
Defined.
