(* ===== verification/RuleLifecycle.v ===== *)
(** Starting and closing rules: the reference counts of rule-sets. *)
From S2P Require Import Prelude MatchState Netip Metadata RuleItem RuleAction Demo RuleAbstract RuleTree.

(** How often a tag occurs in a list of tags. *)
Fixpoint occurrences (tag : string) (l : list string) : Z :=
  match l with
  | [] => 0
  | x :: l' => (if String.eqb x tag then 1 else 0) + occurrences tag l'
  end.

Lemma occurrences_app tag l k : occurrences tag (l ++ k) = occurrences tag l + occurrences tag k.
Proof. induction l as [|x l IH]; cbn; [done|]. rewrite IH. lia. Qed.

Lemma occurrences_nonneg tag l : 0 <= occurrences tag l.
Proof. induction l as [|x l IH]; cbn; [lia|]. destruct (String.eqb x tag); lia. Qed.

Lemma int32_small z : 0 <= z < 2 ^ 31 -> int32 z = z.
Proof. intros Hz. unfold int32, u32. rewrite wrap_small by lia. by rewrite (proj2 (Z.ltb_lt _ _)) by lia. Qed.

Lemma refs_of_IncRef c x tag : 0 <= refs_of c x < 2 ^ 31 - 1 ->
  refs_of (IncRef c x) tag = refs_of c tag + (if String.eqb x tag then 1 else 0).
Proof.
  intros Hc. unfold IncRef. rewrite int32_small by lia. unfold refs_of at 1. destruct (String.eqb_spec x tag) as [->|Hne].
  - by rewrite lookup_insert_eq.
  - rewrite lookup_insert_ne by done. unfold refs_of. lia.
Qed.

Lemma DecRef_spec c x : 1 <= refs_of c x < 2 ^ 31 ->
  exists c', DecRef c x = Ok c' /\ forall tag, refs_of c' tag = refs_of c tag - (if String.eqb x tag then 1 else 0).
Proof.
  intros Hc. unfold DecRef. rewrite int32_small, (proj2 (Z.ltb_ge _ _)) by lia. eexists. split; [done|]. intros tag.
  unfold refs_of at 1. destruct (String.eqb_spec x tag) as [->|Hne].
  - by rewrite lookup_insert_eq.
  - rewrite lookup_insert_ne by done. unfold refs_of. lia.
Qed.

(** Counts that the given references are part of, with room for more. *)
Definition counted (c : refCounts) (held more : string -> Z) : Prop :=
  forall tag, 0 <= held tag <= refs_of c tag /\ refs_of c tag + more tag < 2 ^ 31.

Lemma decRefs_spec l : forall c, counted c (fun tag => occurrences tag l) (fun _ => 0) ->
  exists c', decRefs l c = Ok c' /\ forall tag, refs_of c' tag = refs_of c tag - occurrences tag l.
Proof.
  induction l as [|x l IH]; intros c Hc; cbn [decRefs]; [exists c; split; [done|]; intros; cbn; lia|].
  destruct (DecRef_spec c x) as (c1 & -> & H1).
  { destruct (Hc x) as [Hx ?]. cbn in Hx. rewrite String.eqb_refl in Hx. pose proof (occurrences_nonneg x l). lia. }
  cbn [mbind result_bind]. destruct (IH c1) as (c2 & -> & H2).
  { intros tag. specialize (Hc tag). cbn in Hc. rewrite H1. pose proof (occurrences_nonneg tag l). destruct (String.eqb x tag); lia. }
  exists c2. split; [done|]. intros tag. rewrite H2, H1. cbn. lia.
Qed.

Lemma RuleSetItem_Close_spec r c : counted c (fun tag => occurrences tag (setList r)) (fun _ => 0) ->
  exists c', RuleSetItem_Close r c = Ok (r {{ setList := [] }}, c') /\
    forall tag, refs_of c' tag = refs_of c tag - occurrences tag (setList r).
Proof. intros (c' & Hd & Hc)%decRefs_spec. unfold RuleSetItem_Close. rewrite Hd. by exists c'. Qed.

(** * One rule-set item *)

Lemma startLoop_spec loaded tags : forall r c,
  counted c (fun tag => occurrences tag (setList r)) (fun tag => occurrences tag tags) ->
  exists err r' c', RuleSetItem_startLoop loaded tags r c = Ok (err, r', c') /\ tagList r' = tagList r /\
    (forall tag, refs_of c' tag = refs_of c tag - occurrences tag (setList r) + occurrences tag (setList r')) /\
    (if allb tags loaded then err = None /\ setList r' = setList r ++ tags else err <> None /\ setList r' = []).
Proof.
  induction tags as [|x tags IH]; intros r c Hc; cbn [RuleSetItem_startLoop].
  { exists None, r, c. unfold allb. cbn. rewrite app_nil_r. split_and!; try done. intros. lia. }
  unfold allb. cbn [forallb]. destruct (loaded x) eqn:Hx; cbn [negb andb].
  - assert (0 <= refs_of c x < 2 ^ 31 - 1) as Hcx.
    { destruct (Hc x) as [? Hx']. cbn in Hx'. rewrite String.eqb_refl in Hx'. pose proof (occurrences_nonneg x tags). lia. }
    pose proof (fun tag => refs_of_IncRef c x tag Hcx) as Hinc.
    destruct (IH (r {{ setList := setList r ++ [x] }}) (IncRef c x)) as (err & r' & c' & -> & Ht & Hr & Hs).
    { intros tag. specialize (Hc tag). cbn in Hc. rewrite Hinc. change (setList (r {{ setList := setList r ++ [x] }})) with (setList r ++ [x]).
      rewrite occurrences_app. cbn. destruct (String.eqb x tag); lia. }
    exists err, r', c'. split_and!; [done|done| |].
    + intros tag. rewrite Hr, Hinc. change (setList (r {{ setList := setList r ++ [x] }})) with (setList r ++ [x]).
      rewrite occurrences_app. cbn. lia.
    + fold (allb tags loaded). destruct (allb tags loaded); [|done]. destruct Hs as [-> ->]. split; [done|].
      exact (eq_sym (app_assoc (setList r) [x] tags)).
  - destruct (RuleSetItem_Close_spec r c) as (c' & -> & Hr).
    { intros tag. specialize (Hc tag). pose proof (occurrences_nonneg tag (x :: tags)). lia. }
    eexists _, _, c'. split_and!; try done. intros tag. rewrite Hr. cbn. lia.
Qed.

(** Starting a rule-set item takes one reference to each rule-set it names (as often
    as it is named) after giving back the ones it held, and resolves exactly its
    tags; if one of them is missing it fails holding none. *)
Theorem rule_set_item_references loaded r c :
  counted c (fun tag => occurrences tag (setList r)) (fun tag => occurrences tag (tagList r)) ->
  exists err r' c', RuleSetItem_Start loaded r c = Ok (err, r', c') /\ tagList r' = tagList r /\
    (forall tag, refs_of c' tag = refs_of c tag - occurrences tag (setList r) + occurrences tag (setList r')) /\
    (if allb (tagList r) loaded then err = None /\ setList r' = tagList r else err <> None /\ setList r' = []).
Proof.
  intros Hc. unfold RuleSetItem_Start. destruct (RuleSetItem_Close_spec r c) as (c1 & -> & H1).
  { intros tag. specialize (Hc tag). pose proof (occurrences_nonneg tag (tagList r)). lia. }
  cbn [mbind result_bind]. destruct (startLoop_spec loaded (tagList r) (r {{ setList := [] }}) c1) as (err & r' & c' & Hs & Ht & Hr & He).
  { intros tag. specialize (Hc tag). rewrite H1. cbn. lia. }
  exists err, r', c'. split_and!; [exact Hs|exact Ht| |exact He]. intros tag. rewrite Hr, H1. cbn. lia.
Qed.

(** * Whole rules *)

Section rules.
Context `{Libs}.

Definition sumZ (l : list Z) : Z := foldr Z.add 0 l.

(** A number of the rule-set items of a list of items, or of a rule, added up. *)
Definition sumItems (f : RuleSetItem -> Z) (l : list AnyItem) : Z :=
  sumZ (map (fun i => match i with SetItem i => f i | PlainItem _ => 0 end) l).

Fixpoint sumRule (f : RuleSetItem -> Z) (r : Rule) : Z :=
  match r with
  | DefaultRule _ r => sumItems f (allItems r)
  | LogicalRule rules _ _ _ => sumZ (map (sumRule f) rules)
  end.

(** The references an item holds to a rule-set, and those it takes when it starts. *)
Definition held (tag : string) (i : RuleSetItem) : Z := occurrences tag (setList i).
Definition named (tag : string) (i : RuleSetItem) : Z := occurrences tag (tagList i).

(** A property of every rule-set item of a rule. *)
Definition allSetItems (p : RuleSetItem -> bool) (l : list AnyItem) : bool :=
  allb l (fun i => match i with SetItem i => p i | PlainItem _ => true end).

Fixpoint everySetItem (p : RuleSetItem -> bool) (r : Rule) : bool :=
  match r with
  | DefaultRule _ r => allSetItems p (allItems r)
  | LogicalRule rules _ _ _ => allb rules (everySetItem p)
  end.

Definition unresolved (i : RuleSetItem) : bool := bool_decide (setList i = []).
Definition resolved (env : StartEnv) (i : RuleSetItem) : bool :=
  bool_decide (setList i = tagList i) && allb (tagList i) (env_ruleSet env).

Lemma sumZ_cons x l : sumZ (x :: l) = x + sumZ l.
Proof. done. Qed.

Lemma sumZ_nonneg {A} (f : A -> Z) l : Forall (fun a => 0 <= f a) l -> 0 <= sumZ (map f l).
Proof. induction 1; [done|]. cbn [map]. rewrite sumZ_cons. lia. Qed.

Lemma sumItems_nonneg f l : (forall i, 0 <= f i) -> 0 <= sumItems f l.
Proof. intros Hf. apply sumZ_nonneg, list.Forall_forall. intros [i|i] _; [lia|apply Hf]. Qed.

Lemma sumRule_nonneg f r : (forall i, 0 <= f i) -> 0 <= sumRule f r.
Proof.
  intros Hf. induction r as [m r|rules mode inv act IH] using Rule_ind_nested; cbn [sumRule]; [by apply sumItems_nonneg|by apply sumZ_nonneg].
Qed.

Lemma held_nonneg tag i : 0 <= held tag i.
Proof. apply occurrences_nonneg. Qed.
Lemma named_nonneg tag i : 0 <= named tag i.
Proof. apply occurrences_nonneg. Qed.

Variable env : StartEnv.

Lemma RuleItem_Start_no_panic i p : RuleItem_Start env i <> Panic p.
Proof.
  destruct i; cbn; try done.
  all: unfold PreferredByItem_Start, PreferredByDNSItem_Start; match goal with |- context [mapR ?f ?l] =>
    pose proof (mapR_no_panic f l) as Hm; destruct (mapR f l) as [?|?|q]; [done|done|destruct (Hm q); [|done]] end.
  all: intros tag q'; by repeat case_match.
Qed.

(** What starting does to the counts, for an object that holds [heldBy] references
    and can take [takes]. *)
Definition startOutcome {A} (heldBy : string -> A -> Z) (isResolved : A -> bool) (takes : string -> Z) (c : refCounts)
    (r : result (option GoError * A * refCounts)) : Prop :=
  exists err a c', r = Ok (err, a, c') /\ (err = None -> isResolved a = true) /\
    forall tag, refs_of c' tag = refs_of c tag + heldBy tag a /\ heldBy tag a <= takes tag.

Definition room (c : refCounts) (takes : string -> Z) : Prop := forall tag, 0 <= refs_of c tag /\ refs_of c tag + takes tag < 2 ^ 31.

Lemma item_Start_spec i c : unresolved i = true -> room c (fun tag => named tag i) ->
  startOutcome held (resolved env) (fun tag => named tag i) c (RuleSetItem_Start (env_ruleSet env) i c).
Proof.
  intros Hu%bool_decide_eq_true Hc. destruct (rule_set_item_references (env_ruleSet env) i c) as (err & i' & c' & -> & Ht & Hr & Hs).
  { intros tag. rewrite Hu. specialize (Hc tag). cbn. unfold named in Hc. lia. }
  exists err, i', c'. split; [done|]. rewrite Hu in Hr. unfold held, named, resolved. rewrite Ht.
  destruct (allb _ _) eqn:Ha; destruct Hs as [He Hl]; (split; [done || (intros _; by rewrite bool_decide_true)|]);
    intros tag; rewrite Hr, Hl; cbn; pose proof (occurrences_nonneg tag (tagList i)); lia.
Qed.

Lemma unresolved_items tag l : allSetItems unresolved l = true -> sumItems (held tag) l = 0.
Proof.
  unfold allSetItems, allb, sumItems. induction l as [|[i|i] l IH]; [done|exact IH|]. cbn [forallb map].
  intros [Hu%bool_decide_eq_true Hl]%andb_true_iff. rewrite sumZ_cons, IH by done. unfold held. by rewrite Hu.
Qed.

Lemma startItems_spec l : forall c, allSetItems unresolved l = true -> room c (fun tag => sumItems (named tag) l) ->
  startOutcome (fun tag => sumItems (held tag)) (allSetItems (resolved env)) (fun tag => sumItems (named tag) l) c (startItems env l c).
Proof.
  induction l as [|[i|i] l IH]; intros c Hu Hc; cbn [startItems].
  - exists None, [], c. split_and!; try done. intros tag. cbn. lia.
  - pose proof (RuleItem_Start_no_panic i) as Hp. destruct (RuleItem_Start env i) as [i'|err|p]; [| |by destruct (Hp p)].
    + destruct (IH c Hu Hc) as (err & l' & c' & -> & Hr & Hh). cbn. by exists err, (PlainItem i' :: l'), c'.
    + exists (Some err), (PlainItem i :: l), c. split_and!; try done. intros tag.
      rewrite unresolved_items by done. pose proof (sumItems_nonneg (named tag) (PlainItem i :: l) (named_nonneg tag)). lia.
  - unfold allSetItems, allb in Hu. cbn [forallb] in Hu. apply andb_true_iff in Hu as [Hi Hu]. fold (allb l (fun i => match i with SetItem i => unresolved i | PlainItem _ => true end)) in Hu. fold (allSetItems unresolved l) in Hu.
    assert (forall tag, sumItems (named tag) (SetItem i :: l) = named tag i + sumItems (named tag) l) as Hn by done.
    assert (forall tag, 0 <= sumItems (named tag) l) as Hnn by (intros tag; apply sumItems_nonneg, named_nonneg).
    destruct (item_Start_spec i c Hi) as (err & i' & c1 & -> & Hr & Hh).
    { intros tag. specialize (Hc tag); cbn beta in Hc. specialize (Hnn tag); cbn beta in Hnn. rewrite Hn in Hc. lia. }
    cbn [mbind result_bind]. destruct err as [err|].
    + exists (Some err), (SetItem i' :: l), c1. split_and!; try done. intros tag. rewrite Hn.
      replace (sumItems (held tag) (SetItem i' :: l)) with (held tag i' + sumItems (held tag) l) by done. rewrite unresolved_items by done.
      specialize (Hh tag); cbn beta in Hh. specialize (Hnn tag); cbn beta in Hnn. lia.
    + destruct (IH c1 Hu) as (err & l' & c' & -> & Hr' & Hh').
      { intros tag. specialize (Hc tag); cbn beta in Hc. specialize (Hh tag); cbn beta in Hh. rewrite Hn in Hc. pose proof (held_nonneg tag i'). lia. }
      cbn [mbind result_bind]. exists err, (SetItem i' :: l'), c'. split_and!; [done| |].
      * intros He. specialize (Hr' He). unfold allSetItems, allb in *. cbn [forallb]. by rewrite Hr, Hr'.
      * intros tag. rewrite Hn. replace (sumItems (held tag) (SetItem i' :: l')) with (held tag i' + sumItems (held tag) l') by done.
        specialize (Hh tag); cbn beta in Hh. specialize (Hh' tag). lia.
Qed.

Lemma sumRules_cons f r rules : sumZ (map (sumRule f) (r :: rules)) = sumRule f r + sumZ (map (sumRule f) rules).
Proof. done. Qed.

Lemma unresolved_zero tag r : everySetItem unresolved r = true -> sumRule (held tag) r = 0.
Proof.
  induction r as [m r|rules mode inv act IH] using Rule_ind_nested; cbn [everySetItem sumRule]; [apply unresolved_items|].
  unfold allb. induction IH as [|r rules Hr _ IHrs]; [done|]. cbn [forallb]. intros [Hu Hus]%andb_true_iff.
  by rewrite sumRules_cons, Hr, IHrs.
Qed.

Lemma Rule_Start_spec r : forall c, everySetItem unresolved r = true -> room c (fun tag => sumRule (named tag) r) ->
  startOutcome (fun tag => sumRule (held tag)) (everySetItem (resolved env)) (fun tag => sumRule (named tag) r) c (Rule_Start env r c).
Proof.
  induction r as [m r|rules mode inv act IH] using Rule_ind_nested; intros c Hu Hc; cbn [Rule_Start].
  - unfold default_Start. destruct (startItems_spec (allItems r) c Hu Hc) as (err & l & c' & -> & Hr & Hh). cbn.
    by eexists err, _, c'.
  - enough (startOutcome (fun tag rules => sumZ (map (sumRule (held tag)) rules)) (fun rules => allb rules (everySetItem (resolved env)))
      (fun tag => sumZ (map (sumRule (named tag)) rules)) c (startAll (Rule_Start env) rules c)) as (err & rules' & c' & -> & Hr & Hh).
    { cbn. by eexists err, _, c'. }
    cbn [everySetItem sumRule] in Hu, Hc. unfold allb in Hu.
    induction IH as [|r rules Hr Hrs IHrs] in c, Hu, Hc |- *; cbn [startAll].
    { exists None, [], c. split_and!; try done. intros tag. cbn. lia. }
    cbn [forallb] in Hu. apply andb_true_iff in Hu as [Hu Hus].
    assert (forall tag, 0 <= sumZ (map (sumRule (named tag)) rules)) as Hnn.
    { intros tag. apply sumZ_nonneg, list.Forall_forall. intros ? _. apply sumRule_nonneg, named_nonneg. }
    destruct (Hr c Hu) as (err & r' & c1 & -> & Hr1 & Hh1).
    { intros tag. specialize (Hc tag); cbn beta in Hc. specialize (Hnn tag); cbn beta in Hnn. rewrite sumRules_cons in Hc. lia. }
    cbn [mbind result_bind]. destruct err as [err|].
    + exists (Some err), (r' :: rules), c1. split_and!; try done. intros tag. rewrite !sumRules_cons.
      replace (sumZ (map (sumRule (held tag)) rules)) with 0.
      { specialize (Hh1 tag); cbn beta in Hh1. specialize (Hnn tag); cbn beta in Hnn. lia. }
      symmetry. apply (unresolved_zero tag (LogicalRule rules mode inv act)). exact Hus.
    + destruct (IHrs c1 Hus) as (err & rs & c2 & -> & Hr2 & Hh2).
      { intros tag. specialize (Hc tag); cbn beta in Hc. specialize (Hh1 tag); cbn beta in Hh1. rewrite sumRules_cons in Hc.
        pose proof (sumRule_nonneg (held tag) r' (held_nonneg tag)). lia. }
      cbn [mbind result_bind]. exists err, (r' :: rs), c2. split_and!; [done| |].
      * intros He. specialize (Hr2 He). unfold allb in *. cbn [forallb]. by rewrite Hr1, Hr2.
      * intros tag. rewrite !sumRules_cons. specialize (Hh1 tag); cbn beta in Hh1. specialize (Hh2 tag); cbn beta in Hh2. lia.
Qed.

(** What closing does to the counts. *)
Definition closeOutcome {A} (isUnresolved : A -> bool) (heldBy : string -> Z) (c : refCounts) (r : result (A * refCounts)) : Prop :=
  exists a c', r = Ok (a, c') /\ isUnresolved a = true /\ forall tag, refs_of c' tag = refs_of c tag - heldBy tag.

Definition covers (c : refCounts) (heldBy : string -> Z) : Prop := forall tag, heldBy tag <= refs_of c tag < 2 ^ 31.

Lemma closeItems_spec l : forall c, covers c (fun tag => sumItems (held tag) l) ->
  closeOutcome (allSetItems unresolved) (fun tag => sumItems (held tag) l) c (closeItems l c).
Proof.
  induction l as [|[i|i] l IH]; intros c Hc; cbn [closeItems].
  - exists [], c. split_and!; try done. intros. cbn. lia.
  - destruct (IH c Hc) as (l' & c' & -> & Hu & Hr). cbn. by eexists _, c'.
  - assert (forall tag, sumItems (held tag) (SetItem i :: l) = held tag i + sumItems (held tag) l) as Hs by done.
    assert (forall tag, 0 <= sumItems (held tag) l) as Hnn by (intros tag; apply sumItems_nonneg, held_nonneg).
    destruct (RuleSetItem_Close_spec i c) as (c1 & -> & H1).
    { intros tag. specialize (Hc tag); cbn beta in Hc. rewrite Hs in Hc. specialize (Hnn tag); cbn beta in Hnn. pose proof (held_nonneg tag i). unfold held in *. lia. }
    cbn [mbind result_bind]. destruct (IH c1) as (l' & c' & -> & Hu & Hr).
    { intros tag. specialize (Hc tag); cbn beta in Hc. rewrite Hs in Hc. rewrite H1. pose proof (held_nonneg tag i). unfold held in *. lia. }
    cbn [mbind result_bind]. eexists _, c'. split_and!; [done|by unfold allSetItems, allb in *; cbn; rewrite Hu|].
    intros tag. rewrite Hr, H1, Hs. unfold held. lia.
Qed.

Lemma Rule_Close_spec r : forall c, covers c (fun tag => sumRule (held tag) r) ->
  closeOutcome (everySetItem unresolved) (fun tag => sumRule (held tag) r) c (Rule_Close r c).
Proof.
  induction r as [m r|rules mode inv act IH] using Rule_ind_nested; intros c Hc; cbn [Rule_Close].
  - unfold default_Close. destruct (closeItems_spec (allItems r) c Hc) as (l & c' & -> & Hu & Hr). cbn. by eexists _, c'.
  - enough (closeOutcome (fun rules => allb rules (everySetItem unresolved)) (fun tag => sumZ (map (sumRule (held tag)) rules)) c
      (closeAll Rule_Close rules c)) as (rules' & c' & -> & Hu & Hr) by (cbn; by eexists _, c').
    cbn [sumRule] in Hc. induction IH as [|r rules Hr _ IHrs] in c, Hc |- *; cbn [closeAll].
    { exists [], c. split_and!; try done. intros. cbn. lia. }
    assert (forall tag, 0 <= sumZ (map (sumRule (held tag)) rules)) as Hnn.
    { intros tag. apply sumZ_nonneg, list.Forall_forall. intros ? _. apply sumRule_nonneg, held_nonneg. }
    destruct (Hr c) as (r' & c1 & -> & Hu1 & H1).
    { intros tag. specialize (Hc tag); cbn beta in Hc. specialize (Hnn tag); cbn beta in Hnn. rewrite sumRules_cons in Hc. lia. }
    cbn [mbind result_bind]. destruct (IHrs c1) as (rs & c2 & -> & Hu2 & H2).
    { intros tag. specialize (Hc tag); cbn beta in Hc. rewrite sumRules_cons in Hc. rewrite H1. pose proof (sumRule_nonneg (held tag) r (held_nonneg tag)). lia. }
    cbn [mbind result_bind]. eexists _, c2. split_and!; [done|unfold allb in *; cbn [forallb]; by rewrite Hu1, Hu2|].
    intros tag. rewrite H2, H1, sumRules_cons. lia.
Qed.

(** C38: Starting a rule that was not started, or was closed, ends without a panic.
    When it succeeds, every rule-set the rule names exists and is resolved.
    When it succeeds or fails, closing the rule does not drive a reference count
    below zero, returns every count to what it was, and leaves a rule that can
    be started again.  The counts have to leave room for the references the rule
    takes in 32 bits. *)
Theorem rule_start_close_balanced r c :
  everySetItem unresolved r = true -> room c (fun tag => sumRule (named tag) r) ->
  exists err r' c' r'' c'', Rule_Start env r c = Ok (err, r', c') /\
    (err = None -> everySetItem (resolved env) r' = true) /\
    Rule_Close r' c' = Ok (r'', c'') /\ everySetItem unresolved r'' = true /\
    forall tag, refs_of c'' tag = refs_of c tag.
Proof.
  intros Hu Hc. destruct (Rule_Start_spec r c Hu Hc) as (err & r' & c' & Hs & Hr & Hh).
  destruct (Rule_Close_spec r' c') as (r'' & c'' & Hcl & Hu' & Hr').
  { intros tag. specialize (Hh tag); cbn beta in Hh. specialize (Hc tag); cbn beta in Hc. pose proof (sumRule_nonneg (held tag) r' (held_nonneg tag)). lia. }
  exists err, r', c', r'', c''. split_and!; try done. intros tag. rewrite Hr'. specialize (Hh tag); cbn beta in Hh. lia.
Qed.
End rules.

(** A logical rule over two rules that include the rule-sets "a" and "b". *)
Definition demoUnstarted : @Rule demoLibs :=
  let i tags := mkRuleSetItem tags [] false false in
  let r tags := @DefaultRule demoLibs false
    (@mkAbstractDefaultRule demoLibs [] [] [] [] [] [] [@SetItem demoLibs (i tags)] (Some (i tags)) false None) in
  @LogicalRule demoLibs [r ["a"; "b"]; r ["a"]] LogicalTypeOr false None.

(** Only the rule-set "a" is there in the first environment, both in the second. *)
Definition demoEnv (both : bool) : StartEnv :=
  mkStartEnv true (fun _ => None) (fun _ => None) (fun tag => String.eqb tag "a" || both && String.eqb tag "b").

Definition demoBalanced (both : bool) : Prop :=
  exists err r' c' r'' c'', @Rule_Start demoLibs (demoEnv both) demoUnstarted ∅ = Ok (err, r', c') /\
    (err = None <-> both = true) /\ refs_of c' "a" = (if both then 2 else 0) /\
    @Rule_Close demoLibs r' c' = Ok (r'', c'') /\ refs_of c'' "a" = 0.

Lemma rule_start_close_balanced_witness : demoBalanced true /\ demoBalanced false.
Proof.
  assert (forall both, demoBalanced both) as Hb; [|by split].
  intros both. destruct (@rule_start_close_balanced demoLibs (demoEnv both) demoUnstarted ∅) as (err & r' & c' & r'' & c'' & Hs & _ & Hc & _ & Hr).
  - reflexivity.
  - intros tag. change (0 <= 0 /\ 0 + ((occurrences tag ["a"; "b"] + 0) + ((occurrences tag ["a"] + 0) + 0)) < 2 ^ 31).
    cbn [occurrences]. destruct (String.eqb "a" tag), (String.eqb "b" tag); lia.
  - exists err, r', c', r'', c''. specialize (Hr "a").
    pose proof (f_equal (fun r => match r with Ok (err, _, c) => (bool_decide (err = None), refs_of c "a") | _ => (false, -1) end) Hs) as Hx.
    destruct both; cbn beta iota in Hx.
    + assert (bool_decide (err = None) = true /\ refs_of c' "a" = 2) as [He Ha] by (split; [exact (eq_sym (f_equal fst Hx))|exact (eq_sym (f_equal snd Hx))]).
      apply bool_decide_eq_true in He. by split_and!.
    + assert (bool_decide (err = None) = false /\ refs_of c' "a" = 0) as [He Ha] by (split; [exact (eq_sym (f_equal fst Hx))|exact (eq_sym (f_equal snd Hx))]).
      apply bool_decide_eq_false in He. by split_and!.
Defined.
