(* ===== verification/RuleDNS.v ===== *)
(** The matching methods of DNS rules in [route/rule/rule_dns.go]: matching with
    a response, the legacy two-phase address filter, and its soundness. *)
From S2P Require Import Prelude MatchState Netip Metadata RuleItem RuleAction Demo RuleAbstract RuleSpec RuleTree.
From S2P Require Import StateMatcher RuleMatch.

Section dns.
Context `{Libs}.
Variable svc : Services.
Variable store : ruleSetStore.

Abbreviation states := (RuleSetItem_matchStatesWithBase svc store).

(** [WithAddressLimit] of both kinds of DNS rule. *)
Fixpoint WithAddressLimit (r : Rule) : bool :=
  match r with
  | DefaultRule _ r =>
      if nonempty (destinationIPCIDRItems r) then true
      else match ruleSetItem r with
           | Some ruleSet => ContainsDestinationIPCIDRRule store ruleSet
           | None => false
           end
  | LogicalRule rules _ _ _ => anyb rules WithAddressLimit
  end.

(** [DefaultDNSRule.matchStatesForMatch], with the metadata it leaves: with
    [match_response] it works on a copy. *)
Definition default_matchStatesForMatch (matchResponse : bool) (r : abstractDefaultRule) (metadata : InboundContext)
    : ruleMatchStateSet * InboundContext :=
  if matchResponse then
    match ic_DNSResponse metadata with
    | None => (invertedFailure r 0, metadata)
    | Some _ =>
        let matchMetadata := metadata {{ ic_DestinationAddressMatchFromResponse := true }} in
        ((default_matchStatesWithBase svc states r matchMetadata 0).1, metadata)
    end
  else default_matchStatesWithBase svc states r metadata 0.

(** [LogicalDNSRule.matchStatesForMatch] over its sub rules. *)
Fixpoint dnsLogicalAnd (subs : list (InboundContext -> ruleMatchStateSet)) (invert : bool)
    (metadata : InboundContext) (stateSet : ruleMatchStateSet) : ruleMatchStateSet :=
  match subs with
  | [] => if invert then 0 else stateSet
  | rule :: subs' =>
      let nestedStateSet := rule (ResetRuleCache metadata) in
      if isEmpty nestedStateSet then if invert then emptyRuleMatchState else 0
      else dnsLogicalAnd subs' invert metadata (combine stateSet nestedStateSet)
  end.

Definition dnsLogical_matchStatesForMatch (subs : list (InboundContext -> ruleMatchStateSet)) (mode : string)
    (invert : bool) (metadata : InboundContext) : ruleMatchStateSet :=
  if String.eqb mode LogicalTypeAnd then dnsLogicalAnd subs invert metadata emptyRuleMatchState
  else
    let stateSet := foldl (fun stateSet rule => merge stateSet (rule (ResetRuleCache metadata))) 0 subs in
    if isEmpty stateSet then if invert then emptyRuleMatchState else 0
    else if invert then 0 else stateSet.

(** [matchDNSHeadlessRuleStatesForMatch]: the sub rules of a logical DNS rule
    are DNS rules. *)
Fixpoint matchStatesForMatch (r : Rule) (metadata : InboundContext) : ruleMatchStateSet :=
  match r with
  | DefaultRule matchResponse r => (default_matchStatesForMatch matchResponse r metadata).1
  | LogicalRule rules mode invert _ =>
      dnsLogical_matchStatesForMatch (map matchStatesForMatch rules) mode invert metadata
  end.

(** [DNSRule.Match] *)
Definition DNSRule_Match (r : Rule) (metadata : InboundContext) : bool * InboundContext :=
  (negb (isEmpty (matchStatesForMatch r metadata)),
   match r with
   | DefaultRule matchResponse r => (default_matchStatesForMatch matchResponse r metadata).2
   | LogicalRule _ _ _ _ => metadata
   end).

(** [LegacyPreMatch]: address conditions are ignored, and the flag that says so
    is cleared afterwards. *)
Definition LegacyPreMatch (r : Rule) (metadata : InboundContext) : bool * InboundContext :=
  match r with
  | DefaultRule true _ => (false, metadata)
  | _ =>
      let '(matched, metadata) := Rule_Match svc states r (metadata {{ ic_IgnoreDestinationIPCIDRMatch := true }}) in
      (matched, metadata {{ ic_IgnoreDestinationIPCIDRMatch := false }})
  end.

Definition MatchAddressLimit (r : Rule) (metadata : InboundContext) (response : option Msg) : bool :=
  let matchMetadata := metadata {{ ic_DNSResponse := response; ic_DestinationAddressMatchFromResponse := true }} in
  negb (isEmpty (rule_matchStatesWithBase svc states r matchMetadata 0)).

(** * What a DNS rule means *)

(** A default rule: its formula holds, or, with rule-sets, one branch of an included
    rule merged into it does. *)
Definition defaultRuleHolds (d : abstractDefaultRule) (md : InboundContext) : bool :=
  match ruleSetItem d with
  | None => negb (nonempty (allItems d)) || xorb (invert d) (clausesHold (clausesOf svc d md))
  | Some i => xorb (invert d) (anyb (includedAlts svc store i md) (mergedHolds (clausesOf svc d md)))
  end.

(** The documented meaning: with [match_response] the address conditions look
    at the answer, and without an answer only an inverted rule holds. *)
Fixpoint dnsRuleHolds (r : Rule) (md : InboundContext) : bool :=
  match r with
  | DefaultRule true d =>
      match ic_DNSResponse md with
      | None => invert d
      | Some _ => defaultRuleHolds d (md {{ ic_DestinationAddressMatchFromResponse := true }})
      end
  | DefaultRule false d => defaultRuleHolds d md
  | LogicalRule rules mode inv _ =>
      xorb inv (if String.eqb mode LogicalTypeAnd
                then allb (map (fun r => dnsRuleHolds r (ResetRuleCache md)) rules) id
                else anyb (map (fun r => dnsRuleHolds r (ResetRuleCache md)) rules) id)
  end.

(** A rule-set item is among the items of its rule, and the rule-sets it includes hold
    headless rules. *)
Fixpoint headlessSets (r : Rule) : bool :=
  match r with
  | DefaultRule _ d =>
      match ruleSetItem d with
      | None => true
      | Some i => nonempty (allItems d) && allb (includedRules store i) noRuleSet
      end
  | LogicalRule rules _ _ _ => allb rules headlessSets
  end.

Definition dnsSubStates (subs : list (InboundContext -> ruleMatchStateSet)) (md : InboundContext) :=
  map (fun f => f (ResetRuleCache md)) subs.

Lemma dnsLogical_eq subs mode inv md :
  dnsLogical_matchStatesForMatch subs mode inv md
  = logical_matchStatesWithBase (map (fun f md (_ : ruleMatchState) => f md) subs) mode inv md 0.
Proof.
  unfold dnsLogical_matchStatesForMatch, logical_matchStatesWithBase.
  replace (if inv then 0 else 0) with 0 by by destruct inv.
  rewrite !empty_withBase by auto with sb. change (singleRuleMatchState 0) with emptyRuleMatchState.
  destruct (String.eqb _ _).
  - assert (Ha : forall s, dnsLogicalAnd subs inv md s
               = logicalAnd (map (fun f md (_ : ruleMatchState) => f md) subs) inv md 0 0 s); [|apply Ha].
    induction subs as [|f subs IH]; intros s; cbn [dnsLogicalAnd logicalAnd map]; [done|].
    rewrite IH. by rewrite empty_withBase by auto with sb.
  - assert (Ho : forall z, foldl (fun st f => merge st (f (ResetRuleCache md))) z subs
               = foldl (fun st f => merge st (f (ResetRuleCache md) 0)) z
                   (map (fun f md (_ : ruleMatchState) => f md) subs)).
    { induction subs as [|f subs IH]; intros z; [done|]. apply IH. }
    unfold logicalOr. by rewrite Ho.
Qed.

(** A logical rule whose sub rules yield proper state sets, from the empty base. *)
Lemma dnsLogical_matches subs mode inv md :
  Forall (fun f => forall md, wf_set (f md)) subs ->
  negb (isEmpty (dnsLogical_matchStatesForMatch subs mode inv md))
  = xorb inv (if String.eqb mode LogicalTypeAnd
              then allb subs (fun f => negb (isEmpty (f (ResetRuleCache md))))
              else anyb subs (fun f => negb (isEmpty (f (ResetRuleCache md))))).
Proof.
  intros Hs. rewrite dnsLogical_eq. unfold logical_matchStatesWithBase.
  replace (if inv then 0 else 0) with 0 by by destruct inv.
  rewrite logicalOr_foldl, !empty_withBase by auto with sb.
  set (l := subStates _ md 0).
  assert (Hl : l = dnsSubStates subs md) by (unfold l, subStates, dnsSubStates; by rewrite map_map).
  assert (Hw : Forall wf_set l).
  { rewrite Hl. unfold dnsSubStates. clear -Hs. induction Hs; cbn; constructor; auto. }
  assert (Ha : negb (isEmpty (foldl combine (singleRuleMatchState 0) l))
               = allb subs (fun f => negb (isEmpty (f (ResetRuleCache md))))).
  { rewrite negb_isEmpty_foldl_combine by auto using single_isEmpty with sb. rewrite Hl. unfold dnsSubStates. by rewrite allb_map. }
  assert (Ho : negb (isEmpty (foldl merge 0 l)) = anyb subs (fun f => negb (isEmpty (f (ResetRuleCache md))))).
  { rewrite negb_isEmpty_foldl_merge, Hl. unfold dnsSubStates. by rewrite anyb_map. }
  rewrite <- Ha, <- Ho. destruct inv, (String.eqb _ _).
  - rewrite logicalAnd_true, (empty_withBase 0 wf_state_zero) by auto using single_isEmpty with sb.
    fold l. by destruct (isEmpty (foldl combine _ l)).
  - by destruct (isEmpty (foldl merge 0 l)).
  - by rewrite logicalAnd_false, xorb_false_l.
  - by rewrite isEmpty_zero, xorb_false_l.
Qed.

Lemma default_ForMatch_wf m r md : wf_set (default_matchStatesForMatch m r md).1.
Proof.
  assert (Hd : forall md, wf_set (default_matchStatesWithBase svc states r md 0).1).
  { intros md'. apply (sm_wf (StateMatcher := StateMatcher_default svc _ r)); auto with sb. }
  unfold default_matchStatesForMatch, invertedFailure.
  destruct m, (ic_DNSResponse md); cbn [fst]; try apply Hd.
  destruct (invert r); auto with sb.
Qed.

Lemma dnsLogicalAnd_wf subs inv md s :
  Forall (fun f => forall md, wf_set (f md)) subs -> wf_set s -> wf_set (dnsLogicalAnd subs inv md s).
Proof.
  intros Hs. revert s. induction Hs as [|f subs Hf _ IH]; intros s Hw; cbn [dnsLogicalAnd].
  - destruct inv; auto with sb.
  - destruct (isEmpty _); [destruct inv; auto with sb|]. apply IH. auto with sb.
Qed.

Lemma matchStatesForMatch_wf r : forall md, wf_set (matchStatesForMatch r md).
Proof.
  induction r as [m r|rules mode inv act IH] using Rule_ind_nested; intros md; [apply default_ForMatch_wf|].
  assert (Hs : Forall (fun f => forall md, wf_set (f md)) (map matchStatesForMatch rules)) by by apply Forall_map.
  cbn [matchStatesForMatch]. unfold dnsLogical_matchStatesForMatch.
  destruct (String.eqb _ _); [apply dnsLogicalAnd_wf; auto with sb|].
  assert (Hw : forall z, wf_set z ->
    wf_set (foldl (fun st f => merge st (f (ResetRuleCache md))) z (map matchStatesForMatch rules))).
  { clear IH. induction Hs as [|f l Hf _ IHl]; intros z Hz; cbn [foldl]; [done|]. apply IHl. auto with sb. }
  specialize (Hw 0 wf_zero). repeat case_bool; auto with sb.
Qed.

Lemma dns_rule_matches r : forall md,
  headlessSets r = true -> ic_IgnoreDestinationIPCIDRMatch md = false ->
  negb (isEmpty (matchStatesForMatch r md)) = dnsRuleHolds r md.
Proof.
  induction r as [m r|rules mode inv act IH] using Rule_ind_nested; intros md Hn Hi.
  - assert (Hm : forall md, ic_IgnoreDestinationIPCIDRMatch md = false ->
                 negb (isEmpty (default_matchStatesWithBase svc states r md 0).1) = defaultRuleHolds r md).
    { intros md' Hi'. unfold defaultRuleHolds. cbn [headlessSets] in Hn. destruct (ruleSetItem r) as [i|] eqn:Hr.
      - apply andb_true_iff in Hn as [Ha Hn]. exact (rule_set_matches svc store m r i md' Hr Ha Hn Hi').
      - by apply default_matches; [apply rsm_DidMatch|..]. }
    cbn [matchStatesForMatch dnsRuleHolds]. unfold default_matchStatesForMatch.
    destruct m; [|by apply Hm]. destruct (ic_DNSResponse md); [by apply Hm|].
    unfold invertedFailure. by destruct (invert r).
  - cbn [matchStatesForMatch dnsRuleHolds].
    rewrite dnsLogical_matches by (apply Forall_map, Forall_true; apply matchStatesForMatch_wf).
    rewrite !allb_map, !anyb_map. f_equal.
    assert (Hall : Forall (fun r => negb (isEmpty (matchStatesForMatch r (ResetRuleCache md)))
                                    = dnsRuleHolds r (ResetRuleCache md)) rules).
    { cbn [headlessSets] in Hn. unfold allb in Hn. rewrite forallb_forall in Hn.
      rewrite Forall_forall in IH. apply Forall_forall. intros r Hr. apply IH; auto. }
    destruct (String.eqb _ _); [by apply allb_ext_Forall|by apply anyb_ext_Forall].
Qed.

(** ** The legacy address filter *)

(** A rule all of whose conditions are address conditions. *)
Definition addressOnly (r : abstractDefaultRule) : bool :=
  nonempty (destinationIPCIDRItems r)
  && negb (nonempty (sourceAddressItems r) || nonempty (sourcePortItems r) || nonempty (destinationAddressItems r)
           || nonempty (destinationPortItems r) || nonempty (items r)).

Abbreviation ignoring md := (md {{ ic_IgnoreDestinationIPCIDRMatch := true }}).

Lemma consulted_ignoring r md :
  ruleSetItem r = None ->
  consulted r (clausesOf svc r (ignoring md))
  = nonempty (sourceAddressItems r) || nonempty (sourcePortItems r) || nonempty (destinationAddressItems r)
    || nonempty (destinationPortItems r) || nonempty (items r).
Proof.
  intros Hr. unfold consulted, clausesOf, cidrResults. rewrite Hr.
  change (ic_IgnoreDestinationIPCIDRMatch (ignoring md)) with true. cbn [cl_source cl_sourcePort cl_destination
    cl_destinationPort cl_other]. rewrite bool_decide_false by by intros [].
  rewrite !nonempty_app, andb_false_r, !orb_false_r.
  destruct (ic_IPCIDRMatchSource _); cbn [nonempty]; unfold results; rewrite !nonempty_map, !orb_false_r; done.
Qed.

(** Without any condition to look at, the state is the empty one. *)
Lemma evalStates_unconsulted rs r md :
  ruleSetItem r = None -> consulted r (clausesOf svc r md) = false ->
  evalStates svc rs r md 0 = emptyRuleMatchState.
Proof.
  intros Hr Hc. rewrite evalStates_plain by auto with sb. unfold consulted in Hc.
  destruct (clausesOf svc r md) as [[] [] [] [] []]; try discriminate. done.
Qed.

(** the legacy pre-match of a rule without rule-sets is its match with the
    address conditions left out; an inverted rule that has nothing but address
    conditions passes, since they can only be decided on the response.  The
    flag that suppresses them is off afterwards, whatever the outcome. *)
Theorem legacy_prematch_documented r md :
  ruleSetItem r = None -> ic_DidMatch md = false ->
  let m := LegacyPreMatch (DefaultRule false r) md in
  let holds := clausesHold (clausesOf svc r (ignoring md)) in
  m.1 = negb (nonempty (allItems r)) || (if invert r then negb holds || addressOnly r else holds) /\
  ic_IgnoreDestinationIPCIDRMatch m.2 = false /\
  (LegacyPreMatch (DefaultRule true r) md) = (false, md).
Proof.
  intros Hr Hd m holds. split; [|split; [|done]]; subst m.
  2: { cbn [LegacyPreMatch]. by destruct (Rule_Match _ _ _ _). }
  cbn [LegacyPreMatch]. unfold Rule_Match. cbn [fst rule_matchStatesWithBase].
  rewrite default_matchStatesWithBase_spec by auto using rsm_DidMatch with sb. cbn [fst].
  unfold default_reference. destruct (nonempty (allItems r)); cbn [negb orb]; [|done].
  assert (He : negb (isEmpty (evalStates svc states r (ignoring md) 0)) = holds).
  { rewrite evalStates_plain by auto with sb. rewrite Z.lor_0_l, <- clausesHold_covers. fold holds.
    destruct holds; [by rewrite single_isEmpty by apply satMask_wf|done]. }
  destruct (invert r); [|done].
  assert (Hi : ignoredInvert svc r (ignoring md) (evalStates svc states r (ignoring md) 0) = addressOnly r).
  { unfold ignoredInvert, addressOnly. change (ic_IgnoreDestinationIPCIDRMatch (ignoring md)) with true.
    change (ic_DidMatch (ignoring md)) with (ic_DidMatch md). rewrite Hd. cbn [orb andb].
    rewrite <- (consulted_ignoring r md Hr),  (andb_comm (nonempty _)).
    destruct (consulted r _) eqn:Hc; cbn [negb]; [by rewrite andb_false_r|].
    by rewrite evalStates_unconsulted. }
  rewrite Hi, <- He. set (e := isEmpty (evalStates _ _ _ _ _)). by destruct e, (addressOnly r).
Qed.
End dns.

(** An inverted rule on the network and on the addresses of the response. *)
Definition demoDNSRule (items : list (@RuleItem demoLibs)) : @abstractDefaultRule demoLibs :=
  let cidr := @ItemIPCIDR demoLibs (mkIPCIDRItem (mkIPSet [mkIPRange (Addr4 167772160) (Addr4 184549375)]) false "") in
  @mkAbstractDefaultRule demoLibs items [] [] [] [cidr] []
    (map (@PlainItem demoLibs) items ++ [@PlainItem demoLibs cidr]) None true None.

(** Such a rule without a response, and a rule that includes a rule-set. *)
Definition demoDNSTree : @Rule demoLibs :=
  @LogicalRule demoLibs [@DefaultRule demoLibs true (demoDNSRule []); @DefaultRule demoLibs false (demoSetRule false)] LogicalTypeAnd false None.


Lemma legacy_prematch_documented_witness :
  let r := demoDNSRule [] in
  let m := @LegacyPreMatch demoLibs demoServices ∅ (@DefaultRule demoLibs false r) demoMetadata in
  m.1 = true /\ ic_IgnoreDestinationIPCIDRMatch m.2 = false.
Proof.
  pose proof (@legacy_prematch_documented demoLibs demoServices ∅ (demoDNSRule []) demoMetadata eq_refl eq_refl)
    as (Hm & Hi & _).
  split; [rewrite Hm; vm_compute; reflexivity|exact Hi].
Defined.
