(* ===== verification/Sniff.v ===== *)
(** [common/sniff/sniff.go] and [Router.actionSniff] of [route/route.go]: trying
    sniffers on the payload of a connection, while keeping what was read for
    the outbound.  The sniffers themselves are arguments, which may also panic; a
    stream sniffer reads from the buffers in turn. *)
From S2P Require Import Prelude Netip Metadata RuleItem RuleAction.

Abbreviation bytes := (list byte).

Definition ErrNeedMoreData : GoError := E_New "need more data".

(** [errors.Is(err, ErrNeedMoreData)] *)
Fixpoint IsNeedMoreData (e : GoError) : bool :=
  match e with
  | E_Cause e' _ | E_Extend e' _ => IsNeedMoreData e'
  | E_Multi e1 e2 => IsNeedMoreData e1 || IsNeedMoreData e2
  | _ => bool_decide (e = ErrNeedMoreData)
  end.

(** [E.Errors] of a possibly nil error and an error. *)
Definition E_Errors (e1 : option GoError) (e2 : GoError) : GoError :=
  match e1 with None => e2 | Some e1 => E_Multi e1 e2 end.

Definition Skip (metadata : InboundContext) : bool :=
  bool_decide (sa_Port (ic_Destination metadata) ∈ [25; 465; 587; 143; 993; 110; 995]).

(** What the next reads of a connection return.  When nothing more arrives the
    read deadline expires.  A failing read may have filled part of the buffer;
    a full buffer is such a failure without data.  Setting the deadline may fail
    before the read. *)
Inductive StreamRead :=
| StreamData (data : bytes)
| StreamError (data : bytes) (err : GoError)
| StreamNoDeadline (err : GoError).
Inductive PacketRead :=
| PacketData (data : bytes) (destination : Socksaddr)
| PacketTimeout
| PacketError (err : GoError)
| PacketCanceled (err : GoError).

(** [N.PacketBuffer] *)
Record PacketBuffer := mkPacketBuffer { pb_Buffer : bytes; pb_Destination : Socksaddr }.

Section sniff.
(** [SC] is the state packet sniffers keep in [metadata.SniffContext]. *)
Context {SC : Type}.
Abbreviation mdc := (InboundContext * SC)%type.
(** A sniffer changes the metadata, and returns nil, an error, or panics. *)
Variable streamSniffer : StreamSniffer -> mdc -> list bytes -> mdc * result unit.
Variable packetSniffer : PacketSniffer -> mdc -> bytes -> mdc * result unit.
(** [M.IsDomainName] *)
Variable IsDomainName : string -> bool.

(** The loop over the sniffers in [PeekStream]: [None] when one succeeded. *)
Fixpoint tryStreamSniffers (sniffers : list StreamSniffer) (reader : list bytes) (sniffError : option GoError) (m : mdc)
    : result (mdc * option GoError) :=
  match sniffers with
  | [] => Ok (m, sniffError)
  | sniffer :: sniffers' =>
      match streamSniffer sniffer m reader with
      | (m, Ok _) => Ok (m, None)
      | (m, Err err) => tryStreamSniffers sniffers' reader (Some (E_Errors sniffError err)) m
      | (_, Panic p) => Panic p
      end
  end.

(** [PeekStream] after [i] reads: [buffer] is what it has read, [sniffError]
    the outcome of the last attempt.  Returns also the reads that are left. *)
Fixpoint PeekStream (m : mdc) (reads : list StreamRead) (buffers : list bytes) (buffer : bytes)
    (sniffers : list StreamSniffer) (i : nat) (sniffError : option GoError)
    : result (mdc * bytes * option GoError * list StreamRead) :=
  let readFailed data err reads :=
    if (0 <? i)%nat then Ok (m, buffer ++ data, sniffError, reads)
    else Ok (m, buffer ++ data, Some (E_Cause err "read payload"), reads) in
  match reads with
  | [] => readFailed [] OS_ErrDeadlineExceeded []
  | StreamNoDeadline err :: reads' => Ok (m, buffer, Some (E_Cause err "set read deadline"), reads')
  | StreamError data err :: reads' => readFailed data err reads'
  | StreamData data :: reads' =>
      let buffer := buffer ++ data in
      '(m, sniffError) ← tryStreamSniffers sniffers (buffers ++ [buffer]) None m;
      match sniffError with
      | None => Ok (m, buffer, None, reads')
      | Some err =>
          if IsNeedMoreData err then PeekStream m reads' buffers buffer sniffers (S i) (Some err)
          else Ok (m, buffer, Some err, reads')
      end
  end.

(** [PeekPacket] *)
Fixpoint tryPacketSniffers (sniffers : list PacketSniffer) (packet : bytes) (sniffError : option GoError) (m : mdc)
    : result (mdc * option GoError) :=
  match sniffers with
  | [] => Ok (m, sniffError)
  | sniffer :: sniffers' =>
      match packetSniffer sniffer m packet with
      | (m, Ok _) => Ok (m, None)
      | (m, Err err) => tryPacketSniffers sniffers' packet (Some (E_Errors sniffError err)) m
      | (_, Panic p) => Panic p
      end
  end.

Definition PeekPacket (m : mdc) (packet : bytes) (sniffers : list PacketSniffer) : result (mdc * option GoError) :=
  tryPacketSniffers sniffers packet None m.

(** * [Router.actionSniff] *)

Definition setSniffed (m : mdc) (names : list string) (err : option GoError) : mdc :=
  (m.1 {{ ic_SnifferNames := names; ic_SniffError := err }}, m.2).

Definition needMore (err : option GoError) : bool :=
  match err with Some e => IsNeedMoreData e | None => false end.

(** The part of [finally] that changes the metadata. *)
Definition overrideDestination (action : RuleActionSniff) (err : option GoError) (m : mdc) : mdc :=
  match err with
  | None =>
      if OverrideDestination action && IsDomainName (ic_Domain m.1)
      then (m.1 {{ ic_Destination := mkSocksaddr AddrZero (sa_Port (ic_Destination m.1)) (ic_Domain m.1) }}, m.2)
      else m
  | Some _ => m
  end.

(** A previous attempt with the same sniffers failed for good. *)
Definition previousFailure (metadata : InboundContext) (action : RuleActionSniff) : bool :=
  bool_decide (ic_SnifferNames metadata = SnifferNames action)
  && match ic_SniffError metadata with Some e => negb (IsNeedMoreData e) | None => false end.

Definition quicMoreData (metadata : InboundContext) (action : RuleActionSniff) : bool :=
  bool_decide (ic_SnifferNames metadata = SnifferNames action) && needMore (ic_SniffError metadata).

Definition streamSniffersOf (action : RuleActionSniff) : list StreamSniffer :=
  if nonempty (StreamSniffers action) then StreamSniffers action
  else [TLSClientHello; HTTPHost; StreamDomainNameQuery; BitTorrent; SSH; RDP].

Definition packetSniffersOf (action : RuleActionSniff) : list PacketSniffer :=
  if nonempty (PacketSniffers action) then PacketSniffers action
  else [DomainNameQuery; QUICClientHello; STUNMessage; UTP; UDPTracker; DTLSRecord; NTP].

(** The branch for a stream: the metadata, the new buffer (nil when nothing was
    read) and the reads that are left. *)
Definition sniffStream (action : RuleActionSniff) (m : mdc) (reads : list StreamRead) (inputBuffers : list bytes)
    : result (mdc * option bytes * list StreamRead) :=
  if negb (nonempty (StreamSniffers action)) && nonempty (PacketSniffers action) then Ok (m, None, reads)
  else if previousFailure m.1 action then Ok (m, None, reads)
  else
    '(m, sniffBuffer, err, reads) ← PeekStream m reads inputBuffers [] (streamSniffersOf action) 0 None;
    let m := overrideDestination action err (setSniffed m (SnifferNames action) err) in
    Ok (m, if nonempty sniffBuffer then Some sniffBuffer else None, reads).

(** One packet: sniffed with the QUIC sniffer alone while it asks for more. *)
Definition sniffOne (action : RuleActionSniff) (m : mdc) (packet : bytes) : result (mdc * option GoError) :=
  '(m, err) ← PeekPacket m packet
    (if quicMoreData m.1 action then [QUICClientHello] else packetSniffersOf action);
  Ok (setSniffed m (SnifferNames action) err, err).

(** The packets read by earlier actions: [Some err] when one decided. *)
Fixpoint sniffInputPackets (action : RuleActionSniff) (m : mdc) (packets : list PacketBuffer)
    : result (mdc * option (option GoError)) :=
  match packets with
  | [] => Ok (m, None)
  | packet :: packets' =>
      '(m, err) ← sniffOne action m (pb_Buffer packet);
      if needMore err then sniffInputPackets action m packets' else Ok (m, Some err)
  end.

(** The loop that reads more packets; [packetBuffers] is its result so far.  It
    ends with the packets that arrive: each read has its own deadline, and while
    the sniffers ask for more it goes on for as long as packets come. *)
Fixpoint sniffReadPackets (action : RuleActionSniff) (m : mdc) (reads : list PacketRead)
    (packetBuffers : list PacketBuffer)
    : result (mdc * list PacketBuffer * option GoError * list PacketRead) :=
  match reads with
  | [] | PacketTimeout :: _ => Ok (m, packetBuffers, None, tail reads)
  | PacketError err :: reads' => Ok (m, packetBuffers, Some err, reads')
  | PacketCanceled err :: reads' => Ok (m, packetBuffers, Some err, reads')
  | PacketData data destination :: reads' =>
      '(m, err) ← sniffOne action m data;
      let packetBuffers := packetBuffers ++ [mkPacketBuffer data destination] in
      if needMore err then sniffReadPackets action m reads' packetBuffers
      else Ok (overrideDestination action err m, packetBuffers, None, reads')
  end.

(** The branch for packets: the metadata, the packets returned, the fatal error
    and the reads that are left. *)
Definition sniffPackets (action : RuleActionSniff) (m : mdc) (reads : list PacketRead)
    (inputPacketBuffers : list PacketBuffer) : result (mdc * list PacketBuffer * option GoError * list PacketRead) :=
  if negb (nonempty (PacketSniffers action)) && nonempty (StreamSniffers action) then Ok (m, [], None, reads)
  else if previousFailure m.1 action then Ok (m, [], None, reads)
  else
    input ← sniffInputPackets action m inputPacketBuffers;
    match input with
    | (m, Some err) => Ok (overrideDestination action err m, [], None, reads)
    | (m, None) => sniffReadPackets action m reads inputPacketBuffers
    end.

(** The connection a rule is matched for. *)
Inductive Input :=
| InputNone
| InputStream (reads : list StreamRead)
| InputPackets (reads : list PacketRead).

(** [actionSniff]: metadata, new buffer, new packets, fatal error, input. *)
Definition actionSniff (action : RuleActionSniff) (m : mdc) (input : Input) (buffers : list bytes)
    (packetBuffers : list PacketBuffer) : result (mdc * option bytes * list PacketBuffer * option GoError * Input) :=
  if Skip m.1 then Ok (m, None, [], None, input)
  else if negb (String.eqb (ic_Protocol m.1) "") then Ok (m, None, [], None, input)
  else match input with
       | InputStream reads =>
           '(m, buffer, reads) ← sniffStream action m reads buffers;
           Ok (m, buffer, [], None, InputStream reads)
       | InputPackets reads =>
           '(m, packets, err, reads) ← sniffPackets action m reads packetBuffers;
           Ok (m, None, packets, err, InputPackets reads)
       | InputNone => Ok (m, None, [], None, input)
       end.

End sniff.
