(* ===== verification/Router.v ===== *)
(** [route/route.go] and [route/process_cache.go]: what the router does with a
    connection, from the first look at its metadata to the outbound, rejection
    or DNS hijack it ends in. *)
From S2P Require Import Prelude MatchState Netip Metadata RuleItem RuleAction RuleAbstract Sniff.

Definition TypeTun : string := "tun".
Definition ProtocolDNS : string := "dns".

Abbreviation AddrPort := (Addr * Z)%type.

(** [processCacheKey]: network, source, destination. *)
Abbreviation processCacheKey := (string * AddrPort * AddrPort)%type.

(** What the router needs of an [adapter.Outbound]: its tag, its networks and
    whether it is an [adapter.DirectRouteOutbound]. *)
Record Outbound := mkOutbound { ob_Tag : string; ob_Network : list string; ob_DirectRoute : bool }.

(** An [adapter.Inbound] as a detour target. *)
Record InboundDetour := mkInboundDetour { in_TCPInjectable : bool; in_UDPInjectable : bool }.

(** A connection with what the router wraps around it. *)
Inductive Conn :=
| RawConn
| CachedConn (conn : Conn) (buffer : bytes)
| TrackedConn (tracker : nat) (conn : Conn).

Inductive PacketConn :=
| RawPacketConn
| CachedPacketConn (conn : PacketConn) (packet : PacketBuffer)
| TrackedPacketConn (tracker : nat) (conn : PacketConn)
| NATPacketConn (conn : PacketConn) (origin destination : Socksaddr).

Section router.
Context `{Libs}.

(** The services of the router.  [pc] is the process cache (a third-party LRU
    cache), [SC] the state of the packet sniffers. *)
Record Router (pc SC : Type) := mkRouter {
  r_services : Services;
  r_ruleSets : ruleSetStore;
  r_rules : list Rule;
  (* process searcher, nil when the option is off *)
  r_processSearcher : option (string -> AddrPort -> AddrPort -> ConnectionOwner + GoError);
  r_lookupUser : Z -> option string;
  r_cacheGet : pc -> processCacheKey -> option (ConnectionOwner + GoError);
  r_cacheAdd : pc -> processCacheKey -> ConnectionOwner + GoError -> pc;
  r_platformAddresses : option (list Addr);
  (* neighbor resolver: MAC address and hostname *)
  r_neighborResolver : option ((Addr -> option (list byte)) * (Addr -> option string));
  (* FakeIP store: Contains and Lookup *)
  r_fakeIP : option ((Addr -> bool) * (Addr -> option string));
  r_LookupReverseMapping : Addr -> option string;
  r_transportLoaded : string -> bool;
  r_Lookup : InboundContext -> string -> RuleActionResolve -> list Addr + GoError;
  r_inbound : string -> option InboundDetour;
  r_outbound : string -> option Outbound;
  r_default : option Outbound;
  r_trackers : nat;
  r_streamSniffer : StreamSniffer -> InboundContext * SC -> list bytes -> (InboundContext * SC) * result unit;
  r_packetSniffer : PacketSniffer -> InboundContext * SC -> bytes -> (InboundContext * SC) * result unit;
  r_IsDomainName : string -> bool;
  r_AddrPort : Socksaddr -> AddrPort;
  (* names of the multiplex and UDP-over-TCP pseudo destinations *)
  r_muxFqdn : string;
  r_vmessMuxFqdn : string;
  r_uotMagicAddress : string;
  r_uotLegacyMagicAddress : string;
  (* the drop counter of the reject action of rule [i], and the time *)
  r_dropCounter : nat -> list Z;
  r_now : Z }.

#[global] Arguments r_services {pc SC}.
#[global] Arguments r_ruleSets {pc SC}.
#[global] Arguments r_rules {pc SC}.
#[global] Arguments r_processSearcher {pc SC}.
#[global] Arguments r_lookupUser {pc SC}.
#[global] Arguments r_cacheGet {pc SC}.
#[global] Arguments r_cacheAdd {pc SC}.
#[global] Arguments r_platformAddresses {pc SC}.
#[global] Arguments r_neighborResolver {pc SC}.
#[global] Arguments r_fakeIP {pc SC}.
#[global] Arguments r_LookupReverseMapping {pc SC}.
#[global] Arguments r_transportLoaded {pc SC}.
#[global] Arguments r_Lookup {pc SC}.
#[global] Arguments r_inbound {pc SC}.
#[global] Arguments r_outbound {pc SC}.
#[global] Arguments r_default {pc SC}.
#[global] Arguments r_trackers {pc SC}.
#[global] Arguments r_streamSniffer {pc SC}.
#[global] Arguments r_packetSniffer {pc SC}.
#[global] Arguments r_IsDomainName {pc SC}.
#[global] Arguments r_AddrPort {pc SC}.
#[global] Arguments r_muxFqdn {pc SC}.
#[global] Arguments r_vmessMuxFqdn {pc SC}.
#[global] Arguments r_uotMagicAddress {pc SC}.
#[global] Arguments r_uotLegacyMagicAddress {pc SC}.
#[global] Arguments r_dropCounter {pc SC}.
#[global] Arguments r_now {pc SC}.

Context {pc SC : Type}.
Variable rt : Router pc SC.

(** * Process information *)

(** [process.FindProcessInfo] *)
Definition FindProcessInfo (searcher : string -> AddrPort -> AddrPort -> ConnectionOwner + GoError)
    (network : string) (source destination : AddrPort) : ConnectionOwner + GoError :=
  match searcher network source destination with
  | inr err => inr err
  | inl info =>
      inl (if negb (UserId info =? -1) && String.eqb (UserName info) ""
           then match r_lookupUser rt (UserId info) with
                | Some name => info {{ UserName := name }}
                | None => info
                end
           else info)
  end.

Definition findProcessInfoCached (searcher : string -> AddrPort -> AddrPort -> ConnectionOwner + GoError)
    (network : string) (source destination : AddrPort) (cache : pc) : (ConnectionOwner + GoError) * pc :=
  let key := (network, source, destination) in
  match r_cacheGet rt cache key with
  | Some entry => (entry, cache)
  | None => let entry := FindProcessInfo searcher network source destination in
            (entry, r_cacheAdd rt cache key entry)
  end.

Definition isLocalSource (source : Addr) : bool :=
  Netip.IsLoopback source
  || match r_platformAddresses rt with Some addrs => bool_decide (source ∈ addrs) | None => false end
  || anyb (svc_Interfaces (r_services rt)) (fun netInterface =>
       anyb (if_Addresses netInterface) (fun prefix => bool_decide (pfx_addr prefix = source))).

(** The zero [netip.AddrPort]. *)
Definition addrPortZero : AddrPort := (AddrZero, 0).

(** The destination a process is searched for. *)
Definition processDestination (metadata : InboundContext) : AddrPort :=
  if Socksaddr_IsValid (ic_OriginDestination metadata) then r_AddrPort rt (ic_OriginDestination metadata)
  else if IsIP (ic_Destination metadata) then r_AddrPort rt (ic_Destination metadata)
  else addrPortZero.

Definition searchProcessInfo (metadata : InboundContext) (cache : pc) : InboundContext * pc :=
  match r_processSearcher rt with
  | None => (metadata, cache)
  | Some searcher =>
      if bool_decide (is_Some (ic_ProcessInfo metadata)) || negb (isLocalSource (sa_Addr (ic_Source metadata)))
      then (metadata, cache)
      else
        match findProcessInfoCached searcher (ic_Network metadata) (r_AddrPort rt (ic_Source metadata))
                (processDestination metadata) cache with
        | (inl processInfo, cache) => (metadata {{ ic_ProcessInfo := Some processInfo }}, cache)
        | (inr _, cache) => (metadata, cache)
        end
  end.

(** * What [matchRule] does before the rules *)

Definition lookupNeighbor (metadata : InboundContext) : InboundContext :=
  match r_neighborResolver rt with
  | None => metadata
  | Some (lookupMAC, lookupHostname) =>
      if bool_decide (is_Some (ic_SourceMACAddress metadata))
         || negb (Netip.IsValid (sa_Addr (ic_Source metadata)))
      then metadata
      else
        let source := sa_Addr (ic_Source metadata) in
        let metadata := match lookupMAC source with
                        | Some mac => metadata {{ ic_SourceMACAddress := Some mac }}
                        | None => metadata
                        end in
        match lookupHostname source with
        | Some hostname => metadata {{ ic_SourceHostname := hostname }}
        | None => metadata
        end
  end.

Definition reverseMapping (metadata : InboundContext) : InboundContext :=
  if String.eqb (ic_Domain metadata) "" then
    match r_LookupReverseMapping rt (sa_Addr (ic_Destination metadata)) with
    | Some domain => metadata {{ ic_Domain := domain }}
    | None => metadata
    end
  else metadata.

Definition lookupFakeIP (metadata : InboundContext) : InboundContext + GoError :=
  match r_fakeIP rt with
  | Some (contains, lookup) =>
      let destination := sa_Addr (ic_Destination metadata) in
      if Netip.IsValid destination && contains destination then
        match lookup destination with
        | None => inr (E_New "missing fakeip record, try enable `experimental.cache_file`")
        | Some domain =>
            inl (if String.eqb domain "" then metadata
                else metadata {{ ic_OriginDestination := ic_Destination metadata;
                                 ic_Destination := mkSocksaddr AddrZero (sa_Port (ic_Destination metadata)) domain;
                                 ic_FakeIP := true }})
        end
      else inl (reverseMapping metadata)
  | None => inl (reverseMapping metadata)
  end.

Definition setIPVersion (metadata : InboundContext) : InboundContext :=
  if IsIPv4 (ic_Destination metadata) then metadata {{ ic_IPVersion := 4 }}
  else if IsIPv6 (ic_Destination metadata) then metadata {{ ic_IPVersion := 6 }}
  else metadata.

(** * Actions *)

(** The options an action applies to the connection. *)
Definition routeOptionsOf (a : RuleAction) : option RuleActionRouteOptions :=
  match a with
  | ActRoute _ options | ActRouteOptions options => Some options
  | ActBypass outbound options => if String.eqb outbound "" then None else Some options
  | _ => None
  end.

Definition applyOverride (o : RuleActionRouteOptions) (m : InboundContext) : InboundContext :=
  let m := if (Socksaddr_IsValid (OverrideAddress o) || (0 <? OverridePort o))
              && negb (Socksaddr_IsValid (ic_RouteOriginalDestination m))
           then m {{ ic_RouteOriginalDestination := ic_Destination m }} else m in
  let m := if Socksaddr_IsValid (OverrideAddress o)
           then m {{ ic_Destination := mkSocksaddr (sa_Addr (OverrideAddress o))
                                         (sa_Port (ic_Destination m)) (sa_Fqdn (OverrideAddress o));
                     ic_DestinationAddresses := [] }} else m in
  if 0 <? OverridePort o
  then m {{ ic_Destination := mkSocksaddr (sa_Addr (ic_Destination m)) (OverridePort o)
                                (sa_Fqdn (ic_Destination m)) }}
  else m.

Definition applyNetworkOptions (o : RuleActionRouteOptions) (m : InboundContext) : InboundContext :=
  let m := match NetworkStrategy o with Some s => m {{ ic_NetworkStrategy := Some s }} | None => m end in
  let m := if nonempty (NetworkType o) then m {{ ic_NetworkType := NetworkType o }} else m in
  let m := if nonempty (FallbackNetworkType o)
           then m {{ ic_FallbackNetworkType := FallbackNetworkType o }} else m in
  if negb (FallbackDelay o =? 0) then m {{ ic_FallbackDelay := FallbackDelay o }} else m.

Definition applyUDPOptions (o : RuleActionRouteOptions) (m : InboundContext) : InboundContext :=
  let m := if UDPDisableDomainUnmapping o then m {{ ic_UDPDisableDomainUnmapping := true }} else m in
  let m := if UDPConnect o then m {{ ic_UDPConnect := true }} else m in
  if 0 <? UDPTimeout o then m {{ ic_UDPTimeout := UDPTimeout o }} else m.

Definition applyTLSOptions (o : RuleActionRouteOptions) (m : InboundContext) : InboundContext :=
  let m := if TLSFragment o
           then m {{ ic_TLSFragment := true; ic_TLSFragmentFallbackDelay := TLSFragmentFallbackDelay o }}
           else m in
  let m := if TLSRecordFragment o then m {{ ic_TLSRecordFragment := true }} else m in
  if negb (String.eqb (TLSSpoof o) "")
  then m {{ ic_TLSSpoof := TLSSpoof o; ic_TLSSpoofMethod := TLSSpoofMethod o }} else m.

(** [if routeOptions != nil { ... }] *)
Definition applyRouteOptions (o : RuleActionRouteOptions) (m : InboundContext) : InboundContext :=
  applyTLSOptions o (applyUDPOptions o (applyNetworkOptions o (applyOverride o m))).

Definition actionResolve (m : InboundContext) (action : RuleActionResolve) : InboundContext + GoError :=
  if IsDomain (ic_Destination m) then
    if negb (String.eqb (res_Server action) "") && negb (r_transportLoaded rt (res_Server action))
    then inr (E_New ("DNS server not found: " +:+ res_Server action))
    else
      match r_Lookup rt m (sa_Fqdn (ic_Destination m)) action with
      | inr err => inr err
      | inl addresses => inl (m {{ ic_DestinationAddresses := addresses }})
      end
  else inl m.

(** * [matchRule] *)

(** The variables of the loop: metadata and sniffer state, what was read, and
    the input that is left. *)
Record matchRuleState := mkMatchRuleState {
  st_metadata : InboundContext * SC;
  st_buffers : list bytes;
  st_packetBuffers : list PacketBuffer;
  st_input : Input }.

(** How a run of [matchRule] ends: the selected rule and its index, or nil, or
    a fatal error. *)
Inductive Selected :=
| NoRule
| SelectRule (index : nat) (rule : Rule)
| Fatal (err : GoError).

(** The two [switch] statements on the action of a matching rule, after the
    route options: [None] to go on with the next rule. *)
Definition runAction (preMatch supportBypass : bool) (index : nat) (rule : Rule) (a : RuleAction) (st : matchRuleState)
    : result (matchRuleState * option Selected) :=
  match a with
  | ActSniff action =>
      if negb preMatch then
        '(m, newBuffer, newPacketBuffers, newErr, input) ←
          actionSniff (r_streamSniffer rt) (r_packetSniffer rt) (r_IsDomainName rt) action
            (st_metadata st) (st_input st) (st_buffers st) (st_packetBuffers st);
        let st := mkMatchRuleState m
          (match newBuffer with Some b => st_buffers st ++ [b] | None => st_buffers st end)
          (match newBuffer with
           | Some _ => st_packetBuffers st
           | None => st_packetBuffers st ++ newPacketBuffers
           end) input in
        Ok (st, option_map Fatal newErr)
      else if negb (String.eqb (ic_Network (st_metadata st).1) NetworkICMP)
      then Ok (st, Some (SelectRule index rule))
      else Ok (st, None)
  | ActResolve action =>
      match actionResolve (st_metadata st).1 action with
      | inl metadata => Ok (st {{ st_metadata := (metadata, (st_metadata st).2) }}, None)
      | inr err => Ok (st, Some (Fatal err))
      end
  | ActRoute _ _ | ActReject _ _ | ActHijackDNS => Ok (st, Some (SelectRule index rule))
  | ActBypass outbound _ =>
      Ok (st, if negb supportBypass && String.eqb outbound "" then None else Some (SelectRule index rule))
  | _ => Ok (st, None)
  end.

(** The body of the loop for rule [index]. *)
Definition ruleTurn (preMatch supportBypass : bool) (index : nat) (currentRule : Rule) (st : matchRuleState)
    : result (matchRuleState * option Selected) :=
  let metadata := ResetRuleCache (st_metadata st).1 in
  let '(matched, metadata) :=
    Rule_Match (r_services rt) (RuleSetItem_matchStatesWithBase (r_services rt) (r_ruleSets rt)) currentRule metadata in
  let st := st {{ st_metadata := (metadata, (st_metadata st).2) }} in
  if negb matched then Ok (st, None)
  else
    match Rule_Action currentRule with
    | None => Panic "nil rule action"
    | Some action =>
        let st := match routeOptionsOf action with
                  | Some o => st {{ st_metadata := (applyRouteOptions o metadata, (st_metadata st).2) }}
                  | None => st
                  end in
        runAction preMatch supportBypass index currentRule action st
    end.

(** The loop over the rules, from rule [index]. *)
Fixpoint matchRules (preMatch supportBypass : bool) (rules : list Rule) (index : nat) (st : matchRuleState)
    : result (matchRuleState * Selected) :=
  match rules with
  | [] => Ok (st, NoRule)
  | currentRule :: rules' =>
      '(st, selected) ← ruleTurn preMatch supportBypass index currentRule st;
      match selected with
      | Some selected => Ok (st, selected)
      | None => matchRules preMatch supportBypass rules' (S index) st
      end
  end.

(** [matchRule] with the process cache. *)
Definition matchRule (metadata : InboundContext) (sc : SC) (cache : pc) (preMatch supportBypass : bool) (input : Input)
    : result (matchRuleState * Selected) * pc :=
  let '(metadata, cache) := searchProcessInfo metadata cache in
  let metadata := lookupNeighbor metadata in
  (match lookupFakeIP metadata with
   | inr err => Ok (mkMatchRuleState (metadata, sc) [] [] input, Fatal err)
   | inl metadata =>
       matchRules preMatch supportBypass (r_rules rt) 0
         (mkMatchRuleState (setIPVersion metadata, sc) [] [] input)
   end, cache).

(** * Routing *)

(** What a call of the router ends in: a returned error, or the call that takes
    over the connection. *)
Inductive RouteOutcome :=
| ReturnError (err : GoError)
| ReturnRejected (index : nat) (cause : option RejectCause) (dropCounter : list Z)
| InjectInbound (tag : string) (metadata : InboundContext)
| HijackDNSStream (conn : Conn) (metadata : InboundContext)
| HijackDNSPacket (packetBuffers : list PacketBuffer) (metadata : InboundContext)
| NewConnection (outbound : option Outbound) (conn : Conn) (metadata : InboundContext)
| NewPacketConnection (outbound : option Outbound) (conn : PacketConn) (metadata : InboundContext).

(** The hand-over to [metadata.InboundDetour]. *)
Definition injectDetour (isInjectable : InboundDetour -> bool) (network : string) (metadata : InboundContext)
    : RouteOutcome :=
  if String.eqb (ic_LastInbound metadata) (ic_InboundDetour metadata)
  then ReturnError (E_New ("routing loop on detour: " +:+ ic_InboundDetour metadata))
  else
    match r_inbound rt (ic_InboundDetour metadata) with
    | None => ReturnError (E_New ("inbound detour not found: " +:+ ic_InboundDetour metadata))
    | Some detour =>
        if negb (isInjectable detour)
        then ReturnError (E_New ("inbound detour is not " +:+ network +:+ " injectable: " +:+ ic_InboundDetour metadata))
        else InjectInbound (ic_InboundDetour metadata)
               (metadata {{ ic_LastInbound := ic_Inbound metadata;
                            ic_Inbound := ic_InboundDetour metadata;
                            ic_InboundDetour := "" }})
    end.

(** The outbound named by a route or bypass action. *)
Definition namedOutbound (network name tag : string) : Outbound + GoError :=
  match r_outbound rt tag with
  | None => inr (E_New ("outbound not found: " +:+ tag))
  | Some outbound =>
      if negb (bool_decide (network ∈ ob_Network outbound))
      then inr (E_New (name +:+ " is not supported by outbound: " +:+ ob_Tag outbound))
      else inl outbound
  end.

(** [r.outbound.Default()], on which the code calls methods at once. *)
Definition defaultOutbound (network message : string) : result Outbound :=
  match r_default rt with
  | None => Panic "nil default outbound"
  | Some outbound =>
      if negb (bool_decide (network ∈ ob_Network outbound))
      then Err (E_New (message +:+ ob_Tag outbound))
      else Ok outbound
  end.

(** What the action of the selected rule decides: an outbound (nil when the
    [switch] leaves it unset), or the end of the call. *)
Definition actionOutbound (network name : string) (index : nat) (a : option RuleAction)
    (hijack : RouteOutcome) : result (option Outbound + RouteOutcome) :=
  let byName tag := match namedOutbound network name tag with
                    | inl outbound => Ok (inl (Some outbound))
                    | inr err => Ok (inr (ReturnError err))
                    end in
  match a with
  | Some (ActRoute tag _) => byName tag
  | Some (ActBypass tag _) => if String.eqb tag "" then Ok (inl None) else byName tag
  | Some (ActReject method noDrop) =>
      if String.eqb method RuleActionRejectMethodReply
      then Ok (inr (ReturnError (E_New ("reject method `reply` is not supported for " +:+ name +:+ " connections"))))
      else
        let '(err, dropCounter) := Reject_Error method noDrop (r_dropCounter rt index) (r_now rt) in
        cause ← err; Ok (inr (ReturnRejected index cause dropCounter))
  | Some ActHijackDNS => Ok (inr hijack)
  | _ => Ok (inl None)
  end.

(** [for _, buffer := range buffers { conn = bufio.NewCachedConn(conn, buffer) }] *)
Definition cachedConn (conn : Conn) (buffers : list bytes) : Conn := foldl CachedConn conn buffers.
Definition trackedConn (conn : Conn) : Conn := foldl (fun c i => TrackedConn i c) conn (seq 0 (r_trackers rt)).

Definition cachedPacketConn (conn : PacketConn) (packetBuffers : list PacketBuffer) : PacketConn :=
  foldl CachedPacketConn conn packetBuffers.
Definition trackedPacketConn (conn : PacketConn) : PacketConn :=
  foldl (fun c i => TrackedPacketConn i c) conn (seq 0 (r_trackers rt)).

(** The pseudo destinations of removed features. *)
Definition magicDestination (fqdn : string) : option GoError :=
  if String.eqb fqdn (r_muxFqdn rt) then
    Some (E_New "global multiplex is deprecated since sing-box v1.7.0, enable multiplex in Inbound fields instead.")
  else if String.eqb fqdn (r_vmessMuxFqdn rt) then
    Some (E_New "global multiplex (v2ray legacy) not supported since sing-box v1.7.0.")
  else if String.eqb fqdn (r_uotMagicAddress rt) then
    Some (E_New "global UoT not supported since sing-box v1.7.0.")
  else if String.eqb fqdn (r_uotLegacyMagicAddress rt) then
    Some (E_New "global UoT (legacy) not supported since sing-box v1.7.0.")
  else None.

(** After [matchRule] in [routeConnection]. *)
Definition dispatchConnection (st : matchRuleState) (selected : Selected) : result RouteOutcome :=
  let metadata := (st_metadata st).1 in
  let conn := cachedConn RawConn (st_buffers st) in
  let dispatch outbound := Ok (NewConnection outbound (trackedConn conn) metadata) in
  match selected with
  | Fatal err => Ok (ReturnError err)
  | NoRule =>
      match defaultOutbound NetworkTCP "TCP is not supported by default outbound: " with
      | Ok outbound => dispatch (Some outbound)
      | Err err => Ok (ReturnError err)
      | Panic p => Panic p
      end
  | SelectRule index rule =>
      decided ← actionOutbound NetworkTCP "TCP" index (Rule_Action rule) (HijackDNSStream conn metadata);
      match decided with inl outbound => dispatch outbound | inr outcome => Ok outcome end
  end.

(** [routeConnection] for a connection on which [reads] arrive. *)
Definition routeConnection (metadata : InboundContext) (sc : SC) (cache : pc) (reads : list StreamRead)
    : result RouteOutcome :=
  if negb (String.eqb (ic_InboundDetour metadata) "") then Ok (injectDetour in_TCPInjectable "TCP" metadata)
  else
    let metadata := metadata {{ ic_Network := NetworkTCP }} in
    match magicDestination (sa_Fqdn (ic_Destination metadata)) with
    | Some err => Ok (ReturnError err)
    | None =>
        if String.eqb (ic_InboundType metadata) TypeTun && String.eqb (ic_Protocol metadata) ProtocolDNS
        then Ok (HijackDNSStream RawConn metadata)
        else '(st, selected) ← (matchRule metadata sc cache false false (InputStream reads)).1;
             dispatchConnection st selected
    end.

(** After [matchRule] in [routePacketConnection]. *)
Definition dispatchPacketConnection (st : matchRuleState) (selected : Selected) : result RouteOutcome :=
  let metadata := (st_metadata st).1 in
  let dispatch outbound :=
    let conn := trackedPacketConn (cachedPacketConn RawPacketConn (st_packetBuffers st)) in
    Ok (NewPacketConnection outbound
          (if ic_FakeIP metadata
           then NATPacketConn conn (ic_OriginDestination metadata) (ic_Destination metadata)
           else conn) metadata) in
  match selected with
  | Fatal err => Ok (ReturnError err)
  | NoRule =>
      match defaultOutbound NetworkUDP "UDP is not supported by outbound: " with
      | Ok outbound => dispatch (Some outbound)
      | Err err => Ok (ReturnError err)
      | Panic p => Panic p
      end
  | SelectRule index rule =>
      decided ← actionOutbound NetworkUDP "UDP" index (Rule_Action rule)
                  (HijackDNSPacket (st_packetBuffers st) metadata);
      match decided with inl outbound => dispatch outbound | inr outcome => Ok outcome end
  end.

Definition routePacketConnection (metadata : InboundContext) (sc : SC) (cache : pc) (reads : list PacketRead)
    : result RouteOutcome :=
  if negb (String.eqb (ic_InboundDetour metadata) "") then Ok (injectDetour in_UDPInjectable "UDP" metadata)
  else
    let metadata := metadata {{ ic_Network := NetworkUDP }} in
    if String.eqb (ic_InboundType metadata) TypeTun && String.eqb (ic_Protocol metadata) ProtocolDNS
    then Ok (HijackDNSPacket [] metadata)
    else '(st, selected) ← (matchRule metadata sc cache false false (InputPackets reads)).1;
         dispatchPacketConnection st selected.

(** * [PreMatch] *)

(** What [PreMatch] returns; [PreDirect] is the call of
    [NewDirectRouteConnection], with the address its answers are written to. *)
Inductive PreMatchOutcome :=
| PreContinue
| PreError (err : GoError)
| PreRejected (index : nat) (cause : option RejectCause) (dropCounter : list Z)
| PreBypassed
| PreDirect (outbound : Outbound) (metadata : InboundContext) (newDestination : option Addr).

(** [outbound.(adapter.DirectRouteOutbound)] *)
Definition asDirectRoute (outbound : Outbound) : result Outbound :=
  if ob_DirectRoute outbound then Ok outbound else Panic "interface conversion: DirectRouteOutbound".

Definition preNamed (network tag : string) : result (Outbound + PreMatchOutcome) :=
  match r_outbound rt tag with
  | None => Ok (inr (PreError (E_New ("outbound not found: " +:+ tag))))
  | Some outbound =>
      if negb (bool_decide (network ∈ ob_Network outbound))
      then Ok (inr (PreError (E_New (network +:+ " is not supported by outbound: " +:+ tag))))
      else direct ← asDirectRoute outbound; Ok (inl direct)
  end.

(** The [switch] on the action: an outbound, nothing, or the result. *)
Definition preAction (supportBypass hasRouteContext : bool) (network : string) (index : nat) (a : option RuleAction)
    : result (option Outbound + PreMatchOutcome) :=
  let byName tag :=
    if negb hasRouteContext then Ok (inr PreContinue)
    else named ← preNamed network tag;
         match named with inl o => Ok (inl (Some o)) | inr outcome => Ok (inr outcome) end in
  match a with
  | Some (ActReject method noDrop) =>
      if String.eqb network NetworkTCP && String.eqb method RuleActionRejectMethodReply
      then Ok (inr (PreError (E_New "reject method `reply` is not supported for TCP connections")))
      else if String.eqb network NetworkUDP && String.eqb method RuleActionRejectMethodReply
      then Ok (inr (PreError (E_New "reject method `reply` is not supported for UDP connections")))
      else
        let '(err, dropCounter) := Reject_Error method noDrop (r_dropCounter rt index) (r_now rt) in
        cause ← err; Ok (inr (PreRejected index cause dropCounter))
  | Some (ActBypass tag _) => if supportBypass then Ok (inr PreBypassed) else byName tag
  | Some (ActRoute tag _) => byName tag
  | _ => Ok (inl None)
  end.

(** The resolution of a domain destination, and the call. *)
Definition preDirect (outbound : Outbound) (metadata : InboundContext) : PreMatchOutcome :=
  if IsDomain (ic_Destination metadata) then
    let is4 := IsIPv4 (ic_Source metadata) in
    let resolve := mkRuleActionResolve "" 0 (if is4 then DomainStrategyIPv4Only else DomainStrategyIPv6Only)
                     false false None prefixZero in
    match (if nonempty (ic_DestinationAddresses metadata) then inl metadata else actionResolve metadata resolve) with
    | inr err => PreError err
    | inl metadata =>
        match list_find (fun a => (if is4 then Netip.Is4 a else Netip.Is6 a) = true) (ic_DestinationAddresses metadata) with
        | None => PreError (E_New ((if is4 then "no IPv4 address found for domain: "
                                    else "no IPv6 address found for domain: ")
                                   +:+ sa_Fqdn (ic_Destination metadata)))
        | Some (_, newDestination) =>
            PreDirect outbound (metadata {{ ic_Destination := mkSocksaddr newDestination 0 "" }}) (Some newDestination)
        end
    end
  else PreDirect outbound metadata None.

Definition PreMatch (metadata : InboundContext) (sc : SC) (cache : pc) (hasRouteContext supportBypass : bool)
    : result PreMatchOutcome :=
  '(st, selected) ← (matchRule metadata sc cache true supportBypass InputNone).1;
  let metadata := (st_metadata st).1 in
  match selected with
  | Fatal err => Ok (PreError err)
  | NoRule =>
      if negb (String.eqb (ic_Network metadata) NetworkICMP) then Ok PreContinue
      else match defaultOutbound (ic_Network metadata)
                   (ic_Network metadata +:+ " is not supported by default outbound: ") with
           | Ok outbound => direct ← asDirectRoute outbound; Ok (preDirect direct metadata)
           | Err err => Ok (PreError err)
           | Panic p => Panic p
           end
  | SelectRule index rule =>
      decided ← preAction supportBypass hasRouteContext (ic_Network metadata) index (Rule_Action rule);
      Ok (match decided with
          | inr outcome => outcome
          | inl None => PreContinue
          | inl (Some outbound) => preDirect outbound metadata
          end)
  end.

End router.
