(* ===== verification/RouterSpec.v ===== *)
(** Properties of the router: which rule decides, where a connection ends up,
    and what happens to the payload read while sniffing. *)
From S2P Require Import Prelude MatchState Netip Metadata RuleItem RuleAction RuleAbstract Sniff Router Demo.

(** * The payload read by sniffing *)

Definition streamPayload (reads : list StreamRead) : bytes :=
  concat (map (fun e => match e with StreamData d | StreamError d _ => d | StreamNoDeadline _ => [] end) reads).

Definition packetPayload (reads : list PacketRead) : list PacketBuffer :=
  flat_map (fun e => match e with PacketData d a => [mkPacketBuffer d a] | _ => [] end) reads.

(** What is still to be read from the input. *)
Definition inputStream (i : Input) : bytes := match i with InputStream reads => streamPayload reads | _ => [] end.
Definition inputPackets (i : Input) : list PacketBuffer :=
  match i with InputPackets reads => packetPayload reads | _ => [] end.

Section sniffing.
Context {SC : Type}.
Variable streamSniffer : StreamSniffer -> InboundContext * SC -> list bytes -> (InboundContext * SC) * result unit.
Variable packetSniffer : PacketSniffer -> InboundContext * SC -> bytes -> (InboundContext * SC) * result unit.
Variable IsDomainName : string -> bool.

Lemma PeekStream_payload reads : forall m bufs buffer sn i e m' buffer' e' reads',
  PeekStream streamSniffer m reads bufs buffer sn i e = Ok (m', buffer', e', reads') ->
  buffer' ++ streamPayload reads' = buffer ++ streamPayload reads.
Proof.
  induction reads as [|[d|d err|err] reads IH]; intros m bufs buffer sn i e m' buffer' e' reads' He; cbn in He.
  - destruct i; simplify_eq; by rewrite !app_nil_r.
  - destruct (tryStreamSniffers _ _ _ _ _) as [[m1 [err|]]|?|?]; try done; cbn in He;
      [|simplify_eq; unfold streamPayload; cbn; by rewrite <- app_assoc].
    destruct (IsNeedMoreData err).
    + apply IH in He. rewrite He. unfold streamPayload. cbn. by rewrite <- app_assoc.
    + simplify_eq. unfold streamPayload; cbn; by rewrite <- app_assoc.
  - unfold streamPayload. destruct i; simplify_eq; cbn; by rewrite <- app_assoc.
  - by simplify_eq.
Qed.

Lemma sniffStream_payload a m reads bufs m' b reads' :
  sniffStream streamSniffer IsDomainName a m reads bufs = Ok (m', b, reads') ->
  default [] b ++ streamPayload reads' = streamPayload reads.
Proof.
  unfold sniffStream. destruct (_ && _); [by intros [= <- <- <-]|]. destruct (previousFailure _ _); [by intros [= <- <- <-]|].
  destruct (PeekStream _ _ _ _ _ _ _ _) as [[[[m1 buffer] err] reads1]|?|?] eqn:He; cbn; [|done..].
  apply PeekStream_payload in He. intros [= <- <- <-]. by destruct buffer.
Qed.

Lemma sniffReadPackets_payload a reads : forall m pbs m' pbs' e reads',
  sniffReadPackets packetSniffer IsDomainName a m reads pbs = Ok (m', pbs', e, reads') ->
  pbs' ++ packetPayload reads' = pbs ++ packetPayload reads.
Proof.
  induction reads as [|[d dst| |err|err] reads IH]; intros m pbs m' pbs' e reads' He; cbn in He; simplify_eq; try done.
  destruct (sniffOne _ _ _ _) as [[m1 e1]|?|?]; cbn in He; [|done..]. destruct (needMore e1).
  - apply IH in He. rewrite He. by rewrite <- app_assoc.
  - simplify_eq. by rewrite <- app_assoc.
Qed.

Lemma sniffPackets_payload a m reads m' pbs' e reads' :
  sniffPackets packetSniffer IsDomainName a m reads [] = Ok (m', pbs', e, reads') ->
  pbs' ++ packetPayload reads' = packetPayload reads.
Proof.
  unfold sniffPackets. destruct (_ && _); [by intros [= <- <- <- <-]|]. destruct (previousFailure _ _); [by intros [= <- <- <- <-]|].
  cbn. apply sniffReadPackets_payload.
Qed.

Lemma actionSniff_stream a m input bufs pbs m' b pbs' e input' :
  actionSniff streamSniffer packetSniffer IsDomainName a m input bufs pbs = Ok (m', b, pbs', e, input') ->
  default [] b ++ inputStream input' = inputStream input.
Proof.
  unfold actionSniff. destruct (Skip _); [by intros [= <- <- <- <- <-]|]. destruct (negb _); [by intros [= <- <- <- <- <-]|].
  destruct input as [|reads|reads]; [by intros [= <- <- <- <- <-]|..].
  - destruct (sniffStream _ _ _ _ _ _) as [[[m1 b1] reads1]|?|?] eqn:Hs; cbn; [|done..]. intros [= <- <- <- <- <-].
    by eapply sniffStream_payload.
  - destruct (sniffPackets _ _ _ _ _ _) as [[[[m1 pbs1] e1] reads1]|?|?]; cbn; [|done..]. by intros [= <- <- <- <- <-].
Qed.

Lemma actionSniff_packets a m input bufs m' b pbs' e input' :
  actionSniff streamSniffer packetSniffer IsDomainName a m input bufs [] = Ok (m', b, pbs', e, input') ->
  pbs' ++ inputPackets input' = inputPackets input /\ (is_Some b -> pbs' = []).
Proof.
  unfold actionSniff. destruct (Skip _); [by intros [= <- <- <- <- <-]|]. destruct (negb _); [by intros [= <- <- <- <- <-]|].
  destruct input as [|reads|reads]; [by intros [= <- <- <- <- <-]|..].
  - destruct (sniffStream _ _ _ _ _ _) as [[[m1 b1] reads1]|?|?]; cbn; [|done..]. by intros [= <- <- <- <- <-].
  - destruct (sniffPackets _ _ _ _ _ _) as [[[[m1 pbs1] e1] reads1]|?|?] eqn:Hs; cbn; [|done..]. intros [= <- <- <- <- <-].
    split; [by eapply sniffPackets_payload|by intros [? ?]].
Qed.

End sniffing.

(** * Which rule decides *)

Section routing.
Context `{Libs} {pc SC : Type}.
Variable rt : Router pc SC.

(** Whether a rule matches at its turn. *)
Definition ruleMatches (st : matchRuleState) (rule : Rule) : bool :=
  (Rule_Match (r_services rt) (RuleSetItem_matchStatesWithBase (r_services rt) (r_ruleSets rt)) rule
     (ResetRuleCache (st_metadata (SC:=SC) st).1)).1.

(** Whether an action ends the search. *)
Definition finalAction (preMatch supportBypass : bool) (network : string) (a : RuleAction) : bool :=
  match a with
  | ActRoute _ _ | ActReject _ _ | ActHijackDNS => true
  | ActBypass outbound _ => supportBypass || negb (String.eqb outbound "")
  | ActSniff _ => preMatch && negb (String.eqb network NetworkICMP)
  | _ => false
  end.

(** Whether an action can fail the connection. *)
Definition fallibleAction (a : RuleAction) : bool :=
  match a with ActSniff _ | ActResolve _ => true | _ => false end.

Definition networkOf (st : matchRuleState) : string := ic_Network (st_metadata (SC:=SC) st).1.

Lemma ruleTurn_outcome pre byp i rule st st' sel :
  ruleTurn rt pre byp i rule st = Ok (st', sel) ->
  match sel with
  | None => ruleMatches st rule = false \/
            exists a, Rule_Action rule = Some a /\ finalAction pre byp (networkOf st') a = false
  | Some (SelectRule j rule') =>
      j = i /\ rule' = rule /\ ruleMatches st rule = true /\
      exists a, Rule_Action rule = Some a /\ finalAction pre byp (networkOf st') a = true
  | Some (Fatal _) => ruleMatches st rule = true /\ exists a, Rule_Action rule = Some a /\ fallibleAction a = true
  | Some NoRule => False
  end.
Proof.
  unfold ruleTurn, ruleMatches. destruct (Rule_Match _ _ _ _) as [[|] m]; cbn; [|intros; simplify_eq; by left].
  destruct (Rule_Action rule) as [a|] eqn:Ha; [|done]. intros Ht. simplify_eq. revert Ht.
  set (st1 := match routeOptionsOf a with Some _ => _ | None => _ end). clearbody st1.
  destruct a; cbn [runAction]; intros Ht; simplify_eq; try (right; eexists; split; [done|done]).
  all: try (split_and!; [done..|eexists; split; done]).
  - destruct byp, (String.eqb Outbound "") eqn:Ho; cbn in *; try (split_and!; [done..|eexists; split; [done|by cbn; rewrite ?Ho]]).
    right. eexists; split; [done|]. cbn. by rewrite Ho.
  - destruct pre; cbn in Ht.
    + destruct (String.eqb _ NetworkICMP) eqn:Hn; cbn in Ht; simplify_eq.
      * right. eexists; split; [done|]. cbn. unfold networkOf. by rewrite Hn.
      * split_and!; [done..|]. eexists; split; [done|]. cbn. unfold networkOf. by rewrite Hn.
    + destruct (actionSniff _ _ _ _ _ _ _ _) as [[[[[m1 b] pbs] [e|]] inp]|?|?]; cbn in Ht; simplify_eq.
      * split; [done|]. by eexists.
      * right. by eexists.
  - destruct (actionResolve _ _ _); simplify_eq; [right|split; [done|]]; by eexists.
Qed.

(** The states in which the rules get their turn, starting from [st0]. *)
Inductive reaches (pre byp : bool) (rules : list Rule) (st0 : matchRuleState) : nat -> matchRuleState -> Prop :=
| reaches_start : reaches pre byp rules st0 0 st0
| reaches_next i st st' rule :
    reaches pre byp rules st0 i st -> rules !! i = Some rule ->
    ruleTurn rt pre byp i rule st = Ok (st', None) -> reaches pre byp rules st0 (S i) st'.

Lemma reaches_deterministic pre byp rules st0 i st :
  reaches pre byp rules st0 i st -> forall st', reaches pre byp rules st0 i st' -> st' = st.
Proof.
  induction 1 as [|i st st1 rule Hr IH Hl Ht]; intros st' Hr'; inversion Hr' as [|? st2 ? rule' Hr2 Hl2 Ht2];
    subst; [done|].
  rewrite (IH _ Hr2) in Ht2. congruence.
Qed.

Lemma matchRules_reaches pre byp rules st0 st' sel : forall n k st,
  length rules = (k + n)%nat -> reaches pre byp rules st0 k st ->
  matchRules rt pre byp (drop k rules) k st = Ok (st', sel) ->
  exists i sti, reaches pre byp rules st0 i sti /\
    ((sel = NoRule /\ i = length rules /\ st' = sti) \/
     exists rule, rules !! i = Some rule /\ ruleTurn rt pre byp i rule sti = Ok (st', Some sel)).
Proof.
  induction n as [|n IH]; intros k st Hlen Hr Hm.
  - rewrite drop_ge in Hm by lia. cbn in Hm. simplify_eq. exists k, st'. split; [done|]. left. by split_and!; [|lia|].
  - destruct (lookup_lt_is_Some_2 rules k ltac:(lia)) as [rule Hk].
    rewrite (drop_S _ _ _ Hk) in Hm. cbn [matchRules] in Hm.
    destruct (ruleTurn rt pre byp k rule st) as [[st1 [s|]]|e|p] eqn:Ht; try done.
    + injection Hm as <- <-. exists k, st. split; [done|]. right. by exists rule.
    + apply (IH (S k) st1); [lia|by eapply reaches_next|done].
Qed.

(** C2: [matchRule] fails before the rules when the destination is a fake address
    without a record.  Otherwise the rule it selects is the first one, in
    configuration order, that matches the metadata at its turn and carries an
    action that ends the search: every rule before it did not match or had an
    action that only updates the connection.  No rule is selected only when
    every rule was passed, and the loop fails only on a sniff or resolve action
    of a matching rule. *)
Theorem selected_rule_is_first md sc cache pre byp input st' sel :
  (matchRule rt md sc cache pre byp input).1 = Ok (st', sel) ->
  match lookupFakeIP rt (lookupNeighbor rt (searchProcessInfo rt md cache).1) with
  | inr err => sel = Fatal err
  | inl metadata =>
      let st0 := mkMatchRuleState (setIPVersion metadata, sc) [] [] input in
      exists i sti, reaches pre byp (r_rules rt) st0 i sti /\
        (forall j stj stj', (j < i)%nat -> reaches pre byp (r_rules rt) st0 j stj -> reaches pre byp (r_rules rt) st0 (S j) stj' ->
          exists rule, r_rules rt !! j = Some rule /\
            (ruleMatches stj rule = false \/
             exists a, Rule_Action rule = Some a /\ finalAction pre byp (networkOf stj') a = false)) /\
        match sel with
        | NoRule => i = length (r_rules rt)
        | SelectRule k rule =>
            k = i /\ r_rules rt !! i = Some rule /\ ruleMatches sti rule = true /\
            exists a, Rule_Action rule = Some a /\ finalAction pre byp (networkOf st') a = true
        | Fatal _ =>
            exists rule a, r_rules rt !! i = Some rule /\ ruleMatches sti rule = true /\
              Rule_Action rule = Some a /\ fallibleAction a = true
        end
  end.
Proof.
  unfold matchRule. destruct (searchProcessInfo _ _ _) as [md1 cache1]. cbn [fst]. destruct (lookupFakeIP _ _) as [metadata|err]; [|congruence].
  set (st0 := mkMatchRuleState _ _ _ _). set (rules := r_rules rt). cbv zeta. intros Hm.
  destruct (matchRules_reaches pre byp rules st0 st' sel (length rules) 0 st0) as (i & sti & Hr & Hs);
    [done|constructor|done|].
  exists i, sti. split_and!; [done| |].
  - intros j stj stj' _ Hj HSj. inversion HSj as [|? stj1 ? rule Hj1 Hl Ht]; subst.
    rewrite (reaches_deterministic _ _ _ _ _ _ Hj _ Hj1) in Ht.
    exists rule. split; [done|]. apply (ruleTurn_outcome _ _ _ _ _ _ _ Ht).
  - destruct Hs as [(-> & -> & ->)|(rule & Hl & Ht)]; [done|]. apply ruleTurn_outcome in Ht. destruct sel; [done| |].
    + destruct Ht as (-> & -> & ? & ?). done.
    + destruct Ht as (? & a & ? & ?). by exists rule, a.
Qed.

(** * Where a connection ends up *)

Lemma matchRules_selected pre byp rules st0 st' i rule :
  matchRules rt pre byp rules 0 st0 = Ok (st', SelectRule i rule) ->
  rules !! i = Some rule /\
  exists a, Rule_Action rule = Some a /\ finalAction pre byp (networkOf st') a = true.
Proof.
  intros Hm. destruct (matchRules_reaches pre byp rules st0 st' (SelectRule i rule) (length rules) 0 st0) as (k & stk & Hr & Hs);
    [done|constructor|done|].
  destruct Hs as [(? & _)|(rule' & Hl & Ht)]; [done|].
  apply ruleTurn_outcome in Ht as (-> & -> & _ & Ha). done.
Qed.

Lemma matchRule_selected md sc cache pre byp input st' i rule :
  (matchRule rt md sc cache pre byp input).1 = Ok (st', SelectRule i rule) ->
  r_rules rt !! i = Some rule /\
  exists a, Rule_Action rule = Some a /\ finalAction pre byp (networkOf st') a = true.
Proof.
  unfold matchRule. destruct (searchProcessInfo _ _ _) as [md1 cache1]. cbn [fst].
  destruct (lookupFakeIP _ _); [|done]. apply matchRules_selected.
Qed.

(** The outbounds a rule of the router names, and the default one. *)
Definition configuredOutbound (ob : Outbound) : Prop :=
  r_default rt = Some ob \/
  exists i rule tag o, r_rules rt !! i = Some rule /\ r_outbound rt tag = Some ob /\
    (Rule_Action rule = Some (ActRoute tag o) \/ (tag <> "" /\ Rule_Action rule = Some (ActBypass tag o))).

Lemma namedOutbound_spec network name tag ob :
  namedOutbound rt network name tag = inl ob -> r_outbound rt tag = Some ob /\ network ∈ ob_Network ob.
Proof.
  unfold namedOutbound. destruct (r_outbound rt tag) as [o|]; [|done]. case_bool_decide; [|done].
  cbn. intros Heq. by simplify_eq.
Qed.

Lemma defaultOutbound_spec network message ob :
  defaultOutbound rt network message = Ok ob -> r_default rt = Some ob /\ network ∈ ob_Network ob.
Proof.
  unfold defaultOutbound. destruct (r_default rt) as [o|]; [|done]. case_bool_decide; [|done].
  cbn. intros Heq. by simplify_eq.
Qed.

Lemma actionOutbound_spec network name i rule net hijack out o :
  r_rules rt !! i = Some rule -> Rule_Action rule = Some o -> finalAction false false net o = true ->
  actionOutbound rt network name i (Rule_Action rule) hijack = Ok (inl out) ->
  exists ob, out = Some ob /\ network ∈ ob_Network ob /\ configuredOutbound ob.
Proof.
  intros Hl Ha Hf. rewrite Ha. destruct o; cbn in Hf |- *; try done.
  - destruct (namedOutbound _ _ _ _) as [ob|] eqn:Hn; [|done]. intros He. simplify_eq.
    apply namedOutbound_spec in Hn as [Ho Hn]. exists ob. split_and!; [done..|]. right. exists i, rule. naive_solver.
  - destruct (String.eqb_spec Outbound ""); [done|].
    destruct (namedOutbound _ _ _ _) as [ob|] eqn:Hn; [|done]. intros He. simplify_eq.
    apply namedOutbound_spec in Hn as [Ho Hn]. exists ob. split_and!; [done..|]. right. exists i, rule. naive_solver.
  - destruct (String.eqb _ _); [done|]. destruct (Reject_Error _ _ _ _) as [[e|e|e] c]; cbn; done.
Qed.

(** The outbound and the network of an outcome that hands the connection over. *)
Definition handedOver (out : RouteOutcome) : option (option Outbound * string) :=
  match out with
  | NewConnection o _ _ => Some (o, NetworkTCP)
  | NewPacketConnection o _ _ => Some (o, NetworkUDP)
  | _ => None
  end.

(** The outcomes of the code after [matchRule], for both networks. *)
Lemma dispatch_outbound network name message hijack (dispatch : option Outbound -> result RouteOutcome) st sel out o :
  (forall i rule, sel = SelectRule i rule ->
     r_rules rt !! i = Some rule /\ exists a, Rule_Action rule = Some a /\ finalAction false false (networkOf st) a = true) ->
  (forall ob out, dispatch ob = Ok out -> handedOver out = Some (ob, network)) ->
  handedOver hijack = None ->
  match sel with
  | Fatal err => Ok (ReturnError err)
  | NoRule =>
      match defaultOutbound rt network message with
      | Ok outbound => dispatch (Some outbound)
      | Err err => Ok (ReturnError err)
      | Panic p => Panic p
      end
  | SelectRule index rule =>
      decided ← actionOutbound rt network name index (Rule_Action rule) hijack;
      match decided with inl outbound => dispatch outbound | inr outcome => Ok outcome end
  end = Ok out ->
  handedOver out = Some o -> exists ob, o = (Some ob, network) /\ network ∈ ob_Network ob /\ configuredOutbound ob.
Proof.
  intros Hsel Hd Hh. destruct sel as [|i rule|err].
  - destruct (defaultOutbound _ _ _) as [ob|e|p] eqn:Hdef; [|by intros; simplify_eq|done]. intros Ho Hout.
    apply Hd in Ho. rewrite Ho in Hout. simplify_eq. apply defaultOutbound_spec in Hdef as [? ?].
    exists ob. split_and!; [done..|by left].
  - destruct (Hsel _ _ eq_refl) as (Hl & a & Ha & Hf).
    destruct (actionOutbound _ _ _ _ _ _) as [[ob|oc]|e|p] eqn:Hact; cbn; try done; intros Ho Hout.
    + destruct (actionOutbound_spec _ _ _ _ _ _ _ _ Hl Ha Hf Hact) as (ob' & -> & Hn & Hc).
      apply Hd in Ho. rewrite Ho in Hout. simplify_eq. by exists ob'.
    + simplify_eq. revert Hact. rewrite Ha. destruct a; cbn in Hf |- *; try done.
      * destruct (namedOutbound _ _ _ _); intros; simplify_eq.
      * destruct (String.eqb _ _); [done|]. destruct (namedOutbound _ _ _ _); intros; simplify_eq.
      * destruct (String.eqb _ _); [by intros; simplify_eq|].
        destruct (Reject_Error _ _ _ _) as [[e|e|e] c]; cbn; intros; simplify_eq.
      * intros; simplify_eq.
  - intros; simplify_eq.
Qed.

(** C9: a connection the router hands over is handed to an existing outbound
    that supports the connection's network, and that outbound is the default
    one or is named by the route or bypass action of one of the rules. *)
Theorem handed_to_supporting_outbound md sc cache out o :
  (exists reads, routeConnection rt md sc cache reads = Ok out) \/
  (exists reads, routePacketConnection rt md sc cache reads = Ok out) ->
  handedOver out = Some o ->
  exists ob network, o = (Some ob, network) /\ network ∈ ob_Network ob /\ configuredOutbound ob.
Proof.
  intros [[reads Hr]|[reads Hr]] Hout; revert Hr.
  - unfold routeConnection. destruct (negb _).
    { unfold injectDetour. repeat case_match; intros; by simplify_eq. }
    destruct (magicDestination _ _); [by intros; simplify_eq|]. destruct (_ && _); [by intros; simplify_eq|].
    destruct (matchRule _ _ _ _ _ _ _) as [[[st sel]|e|p] c] eqn:Hm; cbn; try done. intros Hr.
    edestruct (dispatch_outbound NetworkTCP "TCP") as (ob & ? & ?); [| | |exact Hr|exact Hout|by exists ob, NetworkTCP].
    + intros i rule ->. exact (matchRule_selected _ _ _ _ _ _ _ _ _ (f_equal fst Hm)).
    + cbn. intros ob out' Ho. by simplify_eq.
    + done.
  - unfold routePacketConnection. destruct (negb _).
    { unfold injectDetour. repeat case_match; intros; by simplify_eq. }
    destruct (_ && _); [by intros; simplify_eq|].
    destruct (matchRule _ _ _ _ _ _ _) as [[[st sel]|e|p] c] eqn:Hm; cbn; try done. intros Hr.
    edestruct (dispatch_outbound NetworkUDP "UDP") as (ob & ? & ?); [| | |exact Hr|exact Hout|by exists ob, NetworkUDP].
    + intros i rule ->. exact (matchRule_selected _ _ _ _ _ _ _ _ _ (f_equal fst Hm)).
    + cbn. intros ob out' Ho. by simplify_eq.
    + done.
Qed.

(** * The code after the rules always comes to an outcome *)

Lemma Reject_Error_no_error m nd c t e : (Reject_Error m nd c t).1 <> Err e.
Proof. unfold Reject_Error. repeat case_bool; done. Qed.

Lemma actionOutbound_total network name i a hijack :
  action_ok (Ok (Some a)) -> exists x, actionOutbound rt network name i (Some a) hijack = Ok x.
Proof.
  destruct a; cbn; intros Ha; try by eexists.
  - destruct (namedOutbound _ _ _ _); by eexists.
  - destruct (String.eqb _ _); [by eexists|]. destruct (namedOutbound _ _ _ _); by eexists.
  - destruct (String.eqb _ _); [by eexists|]. specialize (Ha (r_dropCounter rt i) (r_now rt)).
    pose proof (Reject_Error_no_error Method NoDrop (r_dropCounter rt i) (r_now rt)) as Hne.
    destruct (Reject_Error _ _ _ _) as [[c|e|p] k]; cbn in *; [by eexists|by destruct (Hne e)|done].
Qed.

Lemma dispatch_total (dispatch : option Outbound -> result RouteOutcome) network name message hijack sel :
  Forall (fun rule => action_ok (Ok (Rule_Action rule))) (r_rules rt) -> is_Some (r_default rt) ->
  (forall ob, exists out, dispatch ob = Ok out) ->
  (forall i rule, sel = SelectRule i rule -> r_rules rt !! i = Some rule) ->
  exists out, match sel with
  | Fatal err => Ok (ReturnError err)
  | NoRule =>
      match defaultOutbound rt network message with
      | Ok outbound => dispatch (Some outbound)
      | Err err => Ok (ReturnError err)
      | Panic p => Panic p
      end
  | SelectRule index rule =>
      decided ← actionOutbound rt network name index (Rule_Action rule) hijack;
      match decided with inl outbound => dispatch outbound | inr outcome => Ok outcome end
  end = Ok out.
Proof.
  intros Hf [d Hd] Hdis Hsel. destruct sel as [|i rule|err].
  - unfold defaultOutbound. rewrite Hd. destruct (negb _); [by eexists|apply Hdis].
  - pose proof (proj1 (Forall_lookup _ _) Hf i rule (Hsel _ _ eq_refl)) as Ha. cbn beta in Ha.
    destruct (Rule_Action rule) as [a|]; [|destruct Ha].
    destruct (actionOutbound_total network name i a hijack Ha) as [[ob|out] ->]; [apply Hdis|by eexists].
  - by eexists.
Qed.

End routing.

(** * A concrete router *)

Definition demoActionRule (a : RuleAction) : @Rule demoLibs :=
  @DefaultRule demoLibs false ((@abstractDefaultRuleZero demoLibs) {{ action := Some a }}).

Definition demoRouteOptions : RuleActionRouteOptions :=
  mkRouteOptions socksaddrZero 0 None [] [] 0 false false 0 false 0 false "" 0.

Definition demoSniff : RuleActionSniff := mkRuleActionSniff [] [] [] 0 false.

Definition demoProxy : Outbound := mkOutbound "proxy" [NetworkTCP; NetworkUDP] false.
Definition demoDirect : Outbound := mkOutbound "direct" [NetworkTCP; NetworkUDP; NetworkICMP] true.

(** A router with the given rules whose sniffers always ask for more. *)
Definition demoRouter (rules : list (@Rule demoLibs)) : @Router demoLibs unit unit :=
  @mkRouter demoLibs unit unit demoServices ∅ rules
    (Some (fun _ _ _ => inl (mkConnectionOwner 1 0 "" "/bin/curl" [])))
    (fun _ => Some "root") (fun _ _ => None) (fun c _ _ => c) None None None
    (fun _ => None) (fun _ => true) (fun _ _ _ => inl [Addr4 16909060])
    (fun _ => None) (fun tag => if String.eqb tag "proxy" then Some demoProxy else None) (Some demoDirect) 1
    (fun _ m _ => (m, Err ErrNeedMoreData)) (fun _ m _ => (m, Err ErrNeedMoreData))
    (fun _ => true) (fun s => (sa_Addr s, sa_Port s))
    "sp.mux.sing-box.arpa" "v1.mux.cool" "sp.v2.udp-over-tcp.arpa" "sp.udp-over-tcp.arpa" (fun _ => []) 0.

Definition demoRules : list (@Rule demoLibs) :=
  [demoActionRule (ActSniff demoSniff); demoActionRule (ActBypass "" demoRouteOptions);
   demoActionRule (ActRoute "proxy" demoRouteOptions); demoActionRule ActHijackDNS].

Definition demoStreamStart : @matchRuleState unit :=
  mkMatchRuleState (demoMetadata, tt) [] [] (InputStream [StreamData [Byte.x61]; StreamData [Byte.x62]]).

Definition demoRun : @matchRuleState unit * @Selected demoLibs :=
  match (@matchRule demoLibs unit unit (demoRouter demoRules) demoMetadata tt tt false false (st_input demoStreamStart)).1 with
  | Ok p => p
  | _ => (demoStreamStart, NoRule)
  end.

Lemma selected_rule_is_first_witness :
  match demoRun.2 with SelectRule i _ => i = 2%nat | _ => False end /\
  exists st0 i sti, @reaches demoLibs unit unit (demoRouter demoRules) false false demoRules st0 i sti.
Proof.
  split; [reflexivity|].
  destruct (@selected_rule_is_first demoLibs unit unit (demoRouter demoRules) demoMetadata tt tt false false
              (st_input demoStreamStart) demoRun.1 demoRun.2 ltac:(reflexivity)) as (i & sti & Hr & _). by eexists _, i, sti.
Defined.

Definition demoOutcome : @RouteOutcome :=
  match @routeConnection demoLibs unit unit (demoRouter demoRules) demoMetadata tt tt [StreamData [Byte.x61]] with
  | Ok out => out
  | _ => ReturnError IO_EOF
  end.

Lemma handed_to_supporting_outbound_witness :
  exists ob network, handedOver demoOutcome = Some (Some ob, network) /\ network ∈ ob_Network ob.
Proof.
  destruct (@handed_to_supporting_outbound demoLibs unit unit (demoRouter demoRules) demoMetadata tt tt
              demoOutcome (Some demoProxy, NetworkTCP)
              ltac:(left; exists [StreamData [Byte.x61]]; reflexivity) ltac:(reflexivity)) as (ob & network & Ho & Hn & _).
  exists ob, network. split; [by rewrite <- Ho|done].
Defined.
