(* ===== verification/RouterPayload.v ===== *)
(** What the outbound receives of the payload that was read while sniffing. *)
From S2P Require Import Prelude MatchState Netip Metadata RuleItem RuleAction RuleAbstract Sniff Router RouterSpec Demo.

Definition isSniff `{Libs} (rule : Rule) : bool :=
  match Rule_Action rule with Some (ActSniff _) => true | _ => false end.

(** The number of rules with a sniff action. *)
Fixpoint sniffRules `{Libs} (rules : list Rule) : nat :=
  match rules with [] => 0 | rule :: rules' => ((if isSniff rule then 1 else 0) + sniffRules rules')%nat end.

Section payload.
Context `{Libs} {pc SC : Type}.
Variable rt : Router pc SC.

(** The parts of the state that hold the payload. *)
Definition samePayload (st st' : matchRuleState (SC:=SC)) : Prop :=
  st_buffers st' = st_buffers st /\ st_packetBuffers st' = st_packetBuffers st /\ st_input st' = st_input st.

(** A turn is a change of the metadata, then the action of a matching rule. *)
Lemma ruleTurn_action pre byp i rule st st' sel :
  ruleTurn rt pre byp i rule st = Ok (st', sel) ->
  exists st1, samePayload st st1 /\
    (st' = st1 \/ exists a, Rule_Action rule = Some a /\ runAction rt pre byp i rule a st1 = Ok (st', sel)).
Proof.
  unfold ruleTurn. destruct (Rule_Match _ _ _ _) as [[|] m]; cbn [negb].
  - destruct (Rule_Action rule) as [a|]; [|done]. intros Hrun.
    eexists. split; [|right; exists a; split; [done|exact Hrun]]. by destruct (routeOptionsOf a).
  - intros Heq. injection Heq as <- <-. eexists. split; [|by left]. done.
Qed.

Lemma runAction_other pre byp i rule a st st' sel :
  Rule_Action rule = Some a -> isSniff rule = false -> runAction rt pre byp i rule a st = Ok (st', sel) -> samePayload st st'.
Proof.
  unfold isSniff. intros ->. destruct a; cbn; intros ? Hr; try discriminate; simplify_eq; try done.
  by destruct (actionResolve _ _ _); simplify_eq.
Qed.

Lemma runAction_stream pre byp i rule a st st' sel :
  Rule_Action rule = Some a -> runAction rt pre byp i rule a st = Ok (st', sel) ->
  concat (st_buffers st') ++ inputStream (st_input st') = concat (st_buffers st) ++ inputStream (st_input st) /\
  (length (st_buffers st') <= length (st_buffers st) + (if isSniff rule then 1 else 0))%nat.
Proof.
  intros Ha Hr. destruct (isSniff rule) eqn:Hs.
  2: { destruct (runAction_other _ _ _ _ _ _ _ _ Ha Hs Hr) as (-> & _ & ->). split; [done|lia]. }
  unfold isSniff in Hs. rewrite Ha in Hs. destruct a; try done. cbn in Hr. destruct pre; cbn in Hr.
  { destruct (negb _); simplify_eq; split; [done|lia|done|lia]. }
  destruct (actionSniff _ _ _ _ _ _ _ _) as [[[[[m b] pbs] e] inp]|?|?] eqn:Hact; [|done..]. apply actionSniff_stream in Hact.
  injection Hr as <- _. cbn. destruct b as [b|]; cbn in Hact |- *.
  - rewrite concat_app, length_app. cbn. rewrite app_nil_r, <- app_assoc, Hact. split; [done|lia].
  - by rewrite Hact; split; [|lia].
Qed.

Lemma ruleTurn_stream pre byp i rule st st' sel :
  ruleTurn rt pre byp i rule st = Ok (st', sel) ->
  concat (st_buffers st') ++ inputStream (st_input st') = concat (st_buffers st) ++ inputStream (st_input st) /\
  (length (st_buffers st') <= length (st_buffers st) + (if isSniff rule then 1 else 0))%nat.
Proof.
  intros Ht. apply ruleTurn_action in Ht as (st1 & (Hb & _ & Hi) & Hs). rewrite <- Hb, <- Hi.
  destruct Hs as [->|(a & Ha & Hr)]; [split; [done|lia]|]. by eapply runAction_stream.
Qed.

Lemma matchRules_stream pre byp rules : forall i st st' sel,
  matchRules rt pre byp rules i st = Ok (st', sel) ->
  concat (st_buffers st') ++ inputStream (st_input st') = concat (st_buffers st) ++ inputStream (st_input st) /\
  (length (st_buffers st') <= length (st_buffers st) + sniffRules rules)%nat.
Proof.
  induction rules as [|rule rules IH]; intros i st st' sel Hm; cbn [matchRules sniffRules] in *.
  { simplify_eq. split; [done|lia]. }
  destruct (ruleTurn _ _ _ _ _ _) as [[st1 [s|]]|e|p] eqn:Ht; try done; apply ruleTurn_stream in Ht as [Hc Hl].
  - injection Hm as <- <-. split; [done|lia].
  - apply IH in Hm as [Hc' Hl']. split; [congruence|lia].
Qed.

(** The packets read, when no earlier action has read any. *)
Lemma ruleTurn_packets pre byp i rule st st' sel :
  ruleTurn rt pre byp i rule st = Ok (st', sel) -> st_packetBuffers st = [] \/ isSniff rule = false ->
  st_packetBuffers st' ++ inputPackets (st_input st') = st_packetBuffers st ++ inputPackets (st_input st) /\
  (isSniff rule = false -> st_packetBuffers st' = st_packetBuffers st).
Proof.
  intros Ht. apply ruleTurn_action in Ht as (st1 & (_ & Hb & Hi) & Hs). rewrite <- Hb, <- Hi.
  destruct Hs as [->|(a & Ha & Hr)]; [done|]. destruct (isSniff rule) eqn:Hsn; intros Hor.
  2: { destruct (runAction_other _ _ _ _ _ _ _ _ Ha Hsn Hr) as (_ & -> & ->). done. }
  destruct Hor as [He|]; [|done]. split; [|done].
  unfold isSniff in Hsn. rewrite Ha in Hsn. destruct a; try done. cbn in Hr. destruct pre; cbn in Hr.
  { by destruct (negb _); simplify_eq. }
  rewrite He in Hr |- *.
  destruct (actionSniff _ _ _ _ _ _ _ _) as [[[[[m b] pbs] e] inp]|?|?] eqn:Hact; [|done..].
  apply actionSniff_packets in Hact as [Hp Hn].
  injection Hr as <- _. cbn. destruct b as [b|]; [|done]. rewrite Hn in Hp by done. done.
Qed.

Lemma matchRules_packets pre byp rules : forall i st st' sel,
  matchRules rt pre byp rules i st = Ok (st', sel) ->
  (sniffRules rules <= (if nonempty (st_packetBuffers st) then 0 else 1))%nat ->
  st_packetBuffers st' ++ inputPackets (st_input st') = st_packetBuffers st ++ inputPackets (st_input st).
Proof.
  induction rules as [|rule rules IH]; intros i st st' sel Hm Hle; cbn [matchRules sniffRules] in *; [by simplify_eq|].
  destruct (ruleTurn _ _ _ _ _ _) as [[st1 s]|e|p] eqn:Ht; try done; apply ruleTurn_packets in Ht as [Hc Hs].
  2: { destruct (st_packetBuffers st), (isSniff rule); cbn in Hle; try lia; tauto. }
  destruct s as [s|]; [by injection Hm as <- <-|].
  rewrite (IH _ _ _ _ Hm); [done|].
  destruct (isSniff rule); [|rewrite Hs by done; done]. destruct (nonempty _), (nonempty (st_packetBuffers st)); lia.
Qed.

Lemma matchRule_stream md sc cache pre byp reads st sel :
  (matchRule rt md sc cache pre byp (InputStream reads)).1 = Ok (st, sel) ->
  concat (st_buffers st) ++ inputStream (st_input st) = streamPayload reads /\
  (length (st_buffers st) <= sniffRules (r_rules rt))%nat.
Proof.
  unfold matchRule. destruct (searchProcessInfo _ _ _). cbn [fst]. destruct (lookupFakeIP _ _).
  - intros Hm%matchRules_stream. done.
  - intros Hm. injection Hm as <- <-. cbn. split; [done|lia].
Qed.

Lemma matchRule_packets md sc cache pre byp reads st sel :
  (matchRule rt md sc cache pre byp (InputPackets reads)).1 = Ok (st, sel) ->
  (sniffRules (r_rules rt) <= 1)%nat ->
  st_packetBuffers st ++ inputPackets (st_input st) = packetPayload reads.
Proof.
  unfold matchRule. destruct (searchProcessInfo _ _ _). cbn [fst]. destruct (lookupFakeIP _ _).
  - intros Hm Hle. by apply matchRules_packets in Hm.
  - intros Hm. by injection Hm as <- <-.
Qed.

(** The connection an outcome passes on. *)
Definition passedConn (out : RouteOutcome) : option Conn :=
  match out with NewConnection _ conn _ | HijackDNSStream conn _ => Some conn | _ => None end.

Definition passedPacketConn (out : RouteOutcome) : option PacketConn :=
  match out with NewPacketConnection _ conn _ => Some conn | _ => None end.

(** The outcome of an action never carries a connection of its own. *)
Lemma actionOutbound_outcome network name i a hijack out :
  actionOutbound rt network name i a hijack = Ok (inr out) ->
  out = hijack \/ (passedConn out = None /\ passedPacketConn out = None).
Proof.
  destruct a as [a|]; cbn; [|done]. destruct a; try done; try (intros; simplify_eq; by left).
  - destruct (namedOutbound _ _ _ _); intros; simplify_eq; by right.
  - destruct (String.eqb _ _); [done|]. destruct (namedOutbound _ _ _ _); intros; simplify_eq; by right.
  - destruct (String.eqb _ _); [intros; simplify_eq; by right|].
    destruct (Reject_Error _ _ _ _) as [[c|e|p] k]; cbn; intros; simplify_eq; by right.
Qed.

Lemma dispatchConnection_conn st sel out conn :
  dispatchConnection rt st sel = Ok out -> passedConn out = Some conn ->
  conn = cachedConn RawConn (st_buffers st) \/ conn = trackedConn rt (cachedConn RawConn (st_buffers st)).
Proof.
  unfold dispatchConnection. destruct sel as [|i rule|e]; [| |by intros; simplify_eq].
  - destruct (defaultOutbound _ _ _); intros; simplify_eq; cbn in *; simplify_eq; by right.
  - destruct (actionOutbound _ _ _ _ _ _) as [[ob|oc]|e|p] eqn:Ha; cbn; intros Hd Hc; simplify_eq.
    + cbn in Hc. simplify_eq. by right.
    + apply actionOutbound_outcome in Ha as [->|[Hn _]]; [cbn in Hc; simplify_eq; by left|congruence].
Qed.

Lemma dispatchPacketConnection_conn st sel out conn :
  dispatchPacketConnection rt st sel = Ok out -> passedPacketConn out = Some conn ->
  let c := trackedPacketConn rt (cachedPacketConn RawPacketConn (st_packetBuffers st)) in
  conn = c \/ exists o d, conn = NATPacketConn c o d.
Proof.
  unfold dispatchPacketConnection. destruct sel as [|i rule|e]; [| |by intros; simplify_eq].
  - destruct (defaultOutbound _ _ _); intros; simplify_eq; cbn in *; simplify_eq. case_match; eauto.
  - destruct (actionOutbound _ _ _ _ _ _) as [[ob|oc]|e|p] eqn:Ha; cbn; intros Hd Hc; simplify_eq.
    + cbn in Hc. simplify_eq. case_match; eauto.
    + apply actionOutbound_outcome in Ha as [->|[_ Hn]]; [done|congruence].
Qed.

(** C4: with at most one sniffing rule the stream an outbound (or the DNS
    hijacker) gets is the stream the client sent: what sniffing read comes
    first, then what is left, nothing lost, repeated or reordered.  [connReads
    rest] is what reading a connection yields when the client's connection
    still holds [rest]; its laws are those of the cached connection, which
    serves its buffer first, and of trackers, which pass data through. *)
Theorem sniffed_stream_delivered (connReads : bytes -> Conn -> bytes) md sc cache reads st sel out conn :
  (forall rest, connReads rest RawConn = rest) ->
  (forall rest c b, connReads rest (CachedConn c b) = b ++ connReads rest c) ->
  (forall rest i c, connReads rest (TrackedConn i c) = connReads rest c) ->
  (sniffRules (r_rules rt) <= 1)%nat ->
  (matchRule rt md sc cache false false (InputStream reads)).1 = Ok (st, sel) ->
  dispatchConnection rt st sel = Ok out -> passedConn out = Some conn ->
  connReads (inputStream (st_input st)) conn = streamPayload reads.
Proof.
  intros Hraw Hcached Htracked Hle Hm Hd Hc. apply matchRule_stream in Hm as [Hp Hl]. rewrite <- Hp.
  assert (Hbuf : forall rest, connReads rest (cachedConn RawConn (st_buffers st)) = concat (st_buffers st) ++ rest).
  { intros rest. destruct (st_buffers st) as [|b [|b' bs]]; cbn in *; [apply Hraw| |lia].
    by rewrite Hcached, Hraw, app_nil_r. }
  destruct (dispatchConnection_conn _ _ _ _ Hd Hc) as [->| ->]; [apply Hbuf|].
  unfold trackedConn. rewrite <- Hbuf. generalize (cachedConn RawConn (st_buffers st)) as c.
  induction (seq 0 (r_trackers rt)) as [|i l IH]; intros c; cbn; [done|]. by rewrite IH, Htracked.
Qed.

(** with at most one sniffing rule the packets an outbound gets are the
    packets the client sent, each one once, in some order: those read while
    sniffing and those still to be read.  [packetReads rest] is what reading
    yields when the client's connection still holds [rest]; address
    translation leaves the contents alone. *)
Theorem sniffed_packets_delivered (packetReads : list PacketBuffer -> PacketConn -> list PacketBuffer)
    md sc cache reads st sel out conn :
  (forall rest, packetReads rest RawPacketConn = rest) ->
  (forall rest c b, packetReads rest (CachedPacketConn c b) = b :: packetReads rest c) ->
  (forall rest i c, packetReads rest (TrackedPacketConn i c) = packetReads rest c) ->
  (forall rest c o d, map pb_Buffer (packetReads rest (NATPacketConn c o d)) = map pb_Buffer (packetReads rest c)) ->
  (sniffRules (r_rules rt) <= 1)%nat ->
  (matchRule rt md sc cache false false (InputPackets reads)).1 = Ok (st, sel) ->
  dispatchPacketConnection rt st sel = Ok out -> passedPacketConn out = Some conn ->
  map pb_Buffer (packetReads (inputPackets (st_input st)) conn) ≡ₚ map pb_Buffer (packetPayload reads).
Proof.
  intros Hraw Hcached Htracked Hnat Hle Hm Hd Hc. apply matchRule_packets in Hm; [|done]. rewrite <- Hm.
  assert (Hbuf : forall rest c pbs, packetReads rest (cachedPacketConn c pbs) ≡ₚ pbs ++ packetReads rest c).
  { intros rest c pbs. revert c. induction pbs as [|b pbs IH]; intros c; cbn; [done|].
    unfold cachedPacketConn in IH. rewrite IH, Hcached. symmetry. apply Permutation_middle. }
  assert (Htr : forall rest c, packetReads rest (trackedPacketConn rt c) = packetReads rest c).
  { intros rest. unfold trackedPacketConn. induction (seq 0 (r_trackers rt)) as [|i l IH]; intros c; cbn; [done|].
    by rewrite IH, Htracked. }
  destruct (dispatchPacketConnection_conn _ _ _ _ Hd Hc) as [->|(o & d & ->)]; rewrite ?Hnat, Htr;
    apply Permutation_map; by rewrite Hbuf, Hraw.
Qed.

End payload.

(** * Concrete runs *)

(** Connections that behave as their documentation says. *)
Fixpoint demoConnReads (rest : bytes) (c : Conn) : bytes :=
  match c with
  | RawConn => rest
  | CachedConn c b => b ++ demoConnReads rest c
  | TrackedConn _ c => demoConnReads rest c
  end.

Fixpoint demoPacketReads (rest : list PacketBuffer) (c : PacketConn) : list PacketBuffer :=
  match c with
  | RawPacketConn => rest
  | CachedPacketConn c b => b :: demoPacketReads rest c
  | TrackedPacketConn _ c => demoPacketReads rest c
  | NATPacketConn c _ d => map (fun p => mkPacketBuffer (pb_Buffer p) d) (demoPacketReads rest c)
  end.

Definition demoReads : list StreamRead := [StreamData [Byte.x61]; StreamError [] OS_ErrDeadlineExceeded; StreamData [Byte.x62]].

Definition demoMatch (rules : list (@Rule demoLibs)) (input : Input) : @matchRuleState unit * @Selected demoLibs :=
  match (@matchRule demoLibs unit unit (demoRouter rules) demoMetadata tt tt false false input).1 with
  | Ok p => p
  | _ => (demoStreamStart, NoRule)
  end.

Definition demoDispatch (rules : list (@Rule demoLibs)) (reads : list StreamRead) : RouteOutcome :=
  match @dispatchConnection demoLibs unit unit (demoRouter rules)
          (demoMatch rules (InputStream reads)).1 (demoMatch rules (InputStream reads)).2 with
  | Ok out => out
  | _ => ReturnError IO_EOF
  end.

Definition demoDispatchPackets (rules : list (@Rule demoLibs)) (reads : list PacketRead) : RouteOutcome :=
  match @dispatchPacketConnection demoLibs unit unit (demoRouter rules)
          (demoMatch rules (InputPackets reads)).1 (demoMatch rules (InputPackets reads)).2 with
  | Ok out => out
  | _ => ReturnError IO_EOF
  end.

Lemma sniffed_stream_delivered_witness :
  exists conn, passedConn (demoDispatch demoRules demoReads) = Some conn /\
    demoConnReads (inputStream (st_input (demoMatch demoRules (InputStream demoReads)).1)) conn = streamPayload demoReads.
Proof.
  eexists. split; [reflexivity|].
  apply (@sniffed_stream_delivered demoLibs unit unit (demoRouter demoRules) demoConnReads demoMetadata tt tt demoReads
           (demoMatch demoRules (InputStream demoReads)).1 (demoMatch demoRules (InputStream demoReads)).2
           (demoDispatch demoRules demoReads)); reflexivity.
Defined.

Definition demoPackets : list PacketRead :=
  [PacketData [Byte.x61] socksaddrZero; PacketTimeout; PacketData [Byte.x62] socksaddrZero].

Lemma sniffed_packets_delivered_witness :
  exists conn, passedPacketConn (demoDispatchPackets demoRules demoPackets) = Some conn /\
    map pb_Buffer (demoPacketReads (inputPackets (st_input (demoMatch demoRules (InputPackets demoPackets)).1)) conn)
      ≡ₚ map pb_Buffer (packetPayload demoPackets).
Proof.
  eexists. split; [reflexivity|].
  apply (@sniffed_packets_delivered demoLibs unit unit (demoRouter demoRules) demoPacketReads demoMetadata tt tt
           demoPackets (demoMatch demoRules (InputPackets demoPackets)).1
           (demoMatch demoRules (InputPackets demoPackets)).2 (demoDispatchPackets demoRules demoPackets));
    try reflexivity.
  - intros rest c o d. cbn. rewrite map_map. by apply map_ext.
Defined.

(** Two sniffing rules: each one that reads adds a cached connection around the
    previous one, so the second payload is served before the first. *)
Definition twoSniffs : list (@Rule demoLibs) :=
  [demoActionRule (ActSniff demoSniff); demoActionRule (ActSniff demoSniff);
   demoActionRule (ActRoute "proxy" demoRouteOptions)].

Lemma two_sniffs_reorder_stream :
  exists conn, passedConn (demoDispatch twoSniffs demoReads) = Some conn /\
    streamPayload demoReads = [Byte.x61; Byte.x62] /\
    demoConnReads (inputStream (st_input (demoMatch twoSniffs (InputStream demoReads)).1)) conn = [Byte.x62; Byte.x61].
Proof. eexists. split_and!; reflexivity. Qed.

(** Two sniffing rules: the packets the first one read are returned again by the
    second one and delivered twice. *)
Lemma two_sniffs_duplicate_packets :
  exists conn, passedPacketConn (demoDispatchPackets twoSniffs demoPackets) = Some conn /\
    map pb_Buffer (packetPayload demoPackets) = [[Byte.x61]; [Byte.x62]] /\
    map pb_Buffer (demoPacketReads (inputPackets (st_input (demoMatch twoSniffs (InputPackets demoPackets)).1)) conn)
      = [[Byte.x62]; [Byte.x61]; [Byte.x61]].
Proof. eexists. split_and!; reflexivity. Qed.
