(* ===== verification/RouterContext.v ===== *)
(** Properties of what the router records about a connection: process lookups
    through the cache, destination overrides, and the direct routes offered by
    [PreMatch]. *)
From S2P Require Import Prelude MatchState Netip Metadata RuleItem RuleAction RuleAbstract Sniff Router RouterSpec Demo.

Section context.
Context `{Libs} {pc SC : Type}.
Variable rt : Router pc SC.

(** ** The process cache *)

(** Every cached entry is what a lookup would find. *)
Definition cacheCoherent (searcher : string -> AddrPort -> AddrPort -> ConnectionOwner + GoError) (cache : pc) : Prop :=
  forall network source destination entry,
    r_cacheGet rt cache (network, source, destination) = Some entry ->
    entry = FindProcessInfo rt searcher network source destination.

(** The process information the metadata should get, without a cache. *)
Definition uncachedProcessInfo (searcher : string -> AddrPort -> AddrPort -> ConnectionOwner + GoError)
    (md : InboundContext) : InboundContext :=
  if bool_decide (is_Some (ic_ProcessInfo md)) || negb (isLocalSource rt (sa_Addr (ic_Source md))) then md
  else match FindProcessInfo rt searcher (ic_Network md) (r_AddrPort rt (ic_Source md)) (processDestination rt md) with
       | inl info => md {{ ic_ProcessInfo := Some info }}
       | inr _ => md
       end.

(** while process lookups are stable, the process cache is invisible: from
    a coherent cache the router records what an uncached lookup finds, and
    leaves a coherent cache.  The cache may evict entries at will; it must
    only return entries that were added under the same key. *)
Theorem process_cache_transparent searcher md cache :
  (forall c k v k' v', r_cacheGet rt (r_cacheAdd rt c k v) k' = Some v' ->
     (k' = k /\ v' = v) \/ r_cacheGet rt c k' = Some v') ->
  r_processSearcher rt = Some searcher -> cacheCoherent searcher cache ->
  (searchProcessInfo rt md cache).1 = uncachedProcessInfo searcher md /\
  cacheCoherent searcher (searchProcessInfo rt md cache).2.
Proof.
  intros Hadd Hs Hc. unfold searchProcessInfo, uncachedProcessInfo. rewrite Hs.
  destruct (_ || _); [done|]. unfold findProcessInfoCached.
  destruct (r_cacheGet rt cache _) as [entry|] eqn:Hg.
  - pose proof (Hc _ _ _ _ Hg) as ->. by destruct (FindProcessInfo _ _ _ _ _).
  - set (e := FindProcessInfo _ _ _ _ _).
    assert (Hc' : cacheCoherent searcher
      (r_cacheAdd rt cache (ic_Network md, r_AddrPort rt (ic_Source md), processDestination rt md) e)).
    { intros n s d v Hv. apply Hadd in Hv as [[Hk ->]|Hv]; [by simplify_eq|by apply Hc]. }
    destruct e; done.
Qed.

(** ** Destination overrides *)

Definition overrides (o : RuleActionRouteOptions) : bool :=
  Socksaddr_IsValid (OverrideAddress o) || (0 <? OverridePort o).

(** The destination after a list of options: the last override of the address
    and the last override of the port win independently. *)
Definition overridden (destination : Socksaddr) (os : list RuleActionRouteOptions) : Socksaddr :=
  let addr := list.last (filter (fun o => Socksaddr_IsValid (OverrideAddress o) = true) os) in
  let port := list.last (filter (fun o => (0 <? OverridePort o) = true) os) in
  mkSocksaddr (match addr with Some o => sa_Addr (OverrideAddress o) | None => sa_Addr destination end)
    (match port with Some o => OverridePort o | None => sa_Port destination end)
    (match addr with Some o => sa_Fqdn (OverrideAddress o) | None => sa_Fqdn destination end).

(** The options outside the overrides do not touch these fields. *)
Lemma applyRouteOptions_override o m :
  ic_Destination (applyRouteOptions o m) = ic_Destination (applyOverride o m) /\
  ic_RouteOriginalDestination (applyRouteOptions o m) = ic_RouteOriginalDestination (applyOverride o m).
Proof.
  assert (Hn : forall m, ic_Destination (applyNetworkOptions o m) = ic_Destination m /\
    ic_RouteOriginalDestination (applyNetworkOptions o m) = ic_RouteOriginalDestination m).
  { intros x. unfold applyNetworkOptions. destruct (NetworkStrategy o), (nonempty (NetworkType o)),
      (nonempty (FallbackNetworkType o)), (negb (FallbackDelay o =? 0)); split; reflexivity. }
  assert (Hu : forall m, ic_Destination (applyUDPOptions o m) = ic_Destination m /\
    ic_RouteOriginalDestination (applyUDPOptions o m) = ic_RouteOriginalDestination m).
  { intros x. unfold applyUDPOptions.
    destruct (UDPDisableDomainUnmapping o), (UDPConnect o), (0 <? UDPTimeout o); split; reflexivity. }
  assert (Ht : forall m, ic_Destination (applyTLSOptions o m) = ic_Destination m /\
    ic_RouteOriginalDestination (applyTLSOptions o m) = ic_RouteOriginalDestination m).
  { intros x. unfold applyTLSOptions.
    destruct (TLSFragment o), (TLSRecordFragment o), (negb (String.eqb (TLSSpoof o) "")); split; reflexivity. }
  unfold applyRouteOptions.
  split; [by rewrite (proj1 (Ht _)), (proj1 (Hu _)), (proj1 (Hn _))|by rewrite (proj2 (Ht _)), (proj2 (Hu _)), (proj2 (Hn _))].
Qed.

Lemma applyOverride_destination o m : ic_Destination (applyOverride o m) = overridden (ic_Destination m) [o].
Proof.
  unfold applyOverride, overridden. rewrite !filter_cons, !filter_nil.
  destruct (Socksaddr_IsValid (OverrideAddress o)), (0 <? OverridePort o),
    (Socksaddr_IsValid (ic_RouteOriginalDestination m)); cbn [negb orb andb]; repeat case_decide; try done;
    destruct m as [? ? ? ? ? [a p f]]; reflexivity.
Qed.

Lemma overridden_snoc d os o : overridden d (os ++ [o]) = overridden (overridden d os) [o].
Proof.
  unfold overridden. rewrite !list.filter_app, !last_app, !filter_cons, !filter_nil.
  repeat case_decide; reflexivity.
Qed.

Lemma overridden_none d os : anyb os overrides = false -> overridden d os = d.
Proof.
  induction os as [|o os IH] using rev_ind; intros Ha; [by destruct d|].
  unfold anyb in Ha. rewrite existsb_app in Ha. apply orb_false_iff in Ha as [Hos Ho].
  rewrite overridden_snoc, IH by done. cbn in Ho. rewrite orb_false_r in Ho. apply orb_false_iff in Ho as [Hv Hp].
  unfold overridden. rewrite !filter_cons, !filter_nil, Hv, Hp. by destruct d.
Qed.

Lemma applyOverride_original o m :
  ic_RouteOriginalDestination (applyOverride o m) =
  if overrides o && negb (Socksaddr_IsValid (ic_RouteOriginalDestination m)) then ic_Destination m
  else ic_RouteOriginalDestination m.
Proof.
  unfold applyOverride, overrides.
  destruct (Socksaddr_IsValid (OverrideAddress o)), (0 <? OverridePort o),
    (Socksaddr_IsValid (ic_RouteOriginalDestination m)); reflexivity.
Qed.

(** applying the options of any number of matching rules in turn, the
    connection goes to the last overridden address and the last overridden
    port, and the destination the client asked for is remembered: the
    original destination is the one before the first override, no matter how
    many follow. *)
Theorem overrides_compose os m :
  Socksaddr_IsValid (ic_Destination m) = true -> Socksaddr_IsValid (ic_RouteOriginalDestination m) = false ->
  let m' := foldl (fun m o => applyRouteOptions o m) m os in
  ic_Destination m' = overridden (ic_Destination m) os /\
  ic_RouteOriginalDestination m' = if anyb os overrides then ic_Destination m else ic_RouteOriginalDestination m.
Proof.
  intros Hv Hi. cbv zeta. induction os as [|o os [IHd IHo]] using rev_ind.
  { split; [|done]. cbn [foldl]. by destruct (ic_Destination m). }
  rewrite foldl_app. cbn [foldl]. destruct (applyRouteOptions_override o (foldl (fun m o => applyRouteOptions o m) m os)) as [-> ->].
  rewrite applyOverride_destination, applyOverride_original, IHd, IHo, overridden_snoc. split; [done|].
  unfold anyb. rewrite existsb_app. cbn [existsb]. rewrite orb_false_r.
  destruct (existsb overrides os) eqn:Hos; cbn [orb].
  - by rewrite Hv, andb_false_r.
  - rewrite Hi, overridden_none by done. by destruct (overrides o).
Qed.

(** ** Direct routes *)

Lemma asDirectRoute_ok ob ob' : asDirectRoute ob = Ok ob' -> ob' = ob /\ ob_DirectRoute ob = true.
Proof. unfold asDirectRoute. destruct (ob_DirectRoute ob); intros; by simplify_eq. Qed.

Lemma preNamed_ok network tag ob :
  preNamed rt network tag = Ok (inl ob) ->
  r_outbound rt tag = Some ob /\ network ∈ ob_Network ob /\ ob_DirectRoute ob = true.
Proof.
  unfold preNamed. destruct (r_outbound rt tag) as [o|]; [|done]. case_bool_decide; cbn; [|done].
  destruct (asDirectRoute o) as [d|e|p] eqn:Hd; cbn; [|done..]. intros. simplify_eq.
  by apply asDirectRoute_ok in Hd as [-> ?].
Qed.

Lemma preAction_ok byp ctx network net i rule a out :
  r_rules rt !! i = Some rule -> Rule_Action rule = Some a -> finalAction true byp net a = true ->
  preAction rt byp ctx network i (Some a) = Ok (inl (Some out)) ->
  network ∈ ob_Network out /\ ob_DirectRoute out = true /\ configuredOutbound rt out.
Proof.
  intros Hl Ha Hf. destruct a; cbn in Hf |- *; try done.
  - destruct ctx; cbn; [|done]. destruct (preNamed _ _ _) as [[o|oc]|e|p] eqn:Hn; cbn; try done. intros. simplify_eq.
    apply preNamed_ok in Hn as (? & ? & ?). split_and!; [done..|]. right. exists i, rule. naive_solver.
  - destruct byp; [done|]. cbn in Hf. destruct (String.eqb_spec Outbound ""); [done|].
    destruct ctx; cbn; [|done]. destruct (preNamed _ _ _) as [[o|oc]|e|p] eqn:Hn; cbn; try done. intros. simplify_eq.
    apply preNamed_ok in Hn as (? & ? & ?). split_and!; [done..|]. right. exists i, rule. naive_solver.
  - destruct (_ && _); [done|]. destruct (_ && _); [done|].
    destruct (Reject_Error _ _ _ _) as [[c|e|p] k]; cbn; done.
Qed.

(** An action itself never asks for a direct route. *)
Lemma preAction_no_direct byp ctx network i a out ob md nd :
  preAction rt byp ctx network i a = Ok (inr out) -> out <> PreDirect ob md nd.
Proof.
  assert (Hnamed : forall tag x, preNamed rt network tag = Ok (inr x) -> x <> PreDirect ob md nd).
  { intros tag x. unfold preNamed. repeat case_match; try done; try (intros; by simplify_eq).
    destruct (asDirectRoute _); cbn; intros; by simplify_eq. }
  assert (Hby : forall tag x, (if negb ctx then Ok (inr PreContinue)
    else named ← preNamed rt network tag;
         match named with inl o => Ok (inl (Some o)) | inr outcome => Ok (inr outcome) end) = Ok (inr x) ->
    x <> PreDirect ob md nd).
  { intros tag x. destruct ctx; cbn; [|intros; by simplify_eq].
    destruct (preNamed rt network tag) as [[o|oc]|e|p] eqn:Hn; cbn; try done. intros. simplify_eq. by eapply Hnamed. }
  destruct a as [a|]; cbn; [|done]. destruct a; try done; try apply Hby.
  - destruct byp; [intros; by simplify_eq|apply Hby].
  - destruct (_ && _); [intros; by simplify_eq|]. destruct (_ && _); [intros; by simplify_eq|].
    destruct (Reject_Error _ _ _ _) as [[c|e|p] k]; cbn; intros; by simplify_eq.
Qed.

Lemma preDirect_ok ob0 m ob m' nd :
  preDirect rt ob0 m = PreDirect ob m' nd ->
  ob = ob0 /\ ic_Network m' = ic_Network m /\
  match nd with
  | None => IsDomain (ic_Destination m') = false
  | Some a => ic_Destination m' = mkSocksaddr a 0 "" /\ a ∈ ic_DestinationAddresses m' /\
              (if IsIPv4 (ic_Source m') then Netip.Is4 a else Netip.Is6 a) = true
  end.
Proof.
  unfold preDirect. destruct (IsDomain (ic_Destination m)) eqn:Hdom; [|intros; by simplify_eq].
  set (act := mkRuleActionResolve _ _ _ _ _ _ _).
  assert (Hr : forall m1, (if nonempty (ic_DestinationAddresses m) then inl m else actionResolve rt m act) = inl m1 ->
    ic_Network m1 = ic_Network m /\ ic_Source m1 = ic_Source m).
  { intros m1. destruct (nonempty _); [intros; by simplify_eq|]. unfold actionResolve. rewrite Hdom.
    destruct (_ && _); [done|]. destruct (r_Lookup _ _ _ _); intros; by simplify_eq. }
  destruct (if nonempty _ then _ else _) as [m1|e]; [|done]. destruct (Hr _ eq_refl) as [Hnet Hsrc].
  destruct (list_find _ _) as [[k a]|] eqn:Hf; [|done]. intros. simplify_eq.
  apply list_find_Some in Hf as (Hl & Hfam & _). split_and!; [done|done|done| |].
  - by eapply list_elem_of_lookup_2.
  - rewrite <- Hsrc in Hfam. exact Hfam.
Qed.

(** a direct route offered before the connection is accepted uses a
    configured outbound that can route packets directly and supports the
    network, and goes to an address: the destination itself, or one of the
    addresses its domain resolved to, of the family of the source. *)
Theorem prematch_direct_route md sc cache ctx byp ob md' nd :
  PreMatch rt md sc cache ctx byp = Ok (PreDirect ob md' nd) ->
  ic_Network md' ∈ ob_Network ob /\ ob_DirectRoute ob = true /\ configuredOutbound rt ob /\
  match nd with
  | None => IsDomain (ic_Destination md') = false
  | Some a => ic_Destination md' = mkSocksaddr a 0 "" /\ a ∈ ic_DestinationAddresses md' /\
              (if IsIPv4 (ic_Source md') then Netip.Is4 a else Netip.Is6 a) = true
  end.
Proof.
  unfold PreMatch. destruct (matchRule _ _ _ _ _ _ _) as [[[st sel]|e|p] c] eqn:Hm; try done.
  cbn [fst mbind]. destruct sel as [|i rule|err].
  - intros Hp. cbn in Hp.
    destruct (negb _); [done|]. destruct (defaultOutbound _ _ _) as [o|e|p] eqn:Hd; try done.
    destruct (asDirectRoute o) as [d|e|p] eqn:Has; cbn in Hp; try done. injection Hp as Hp.
    apply asDirectRoute_ok in Has as [-> ?]. apply defaultOutbound_spec in Hd as [? ?].
    apply preDirect_ok in Hp as (-> & -> & ?). split_and!; [done|done|by left|done].
  - intros Hp. cbn in Hp. destruct (matchRule_selected _ _ _ _ _ _ _ _ _ _ (f_equal fst Hm)) as (Hl & a & Ha & Hf).
    rewrite Ha in Hp. destruct (preAction _ _ _ _ _ _) as [[[o|]|oc]|e|p] eqn:Hact; cbn in Hp; try done.
    + injection Hp as Hp. destruct (preAction_ok _ _ _ _ _ _ _ _ Hl Ha Hf Hact) as (? & ? & ?).
      by apply preDirect_ok in Hp as (-> & -> & ?).
    + injection Hp as ->. by eapply preAction_no_direct in Hact.
  - done.
Qed.

End context.

(** * Concrete instances *)

Definition demoSearcher : string -> AddrPort -> AddrPort -> ConnectionOwner + GoError :=
  fun _ _ _ => inl (mkConnectionOwner 1 0 "" "/bin/curl" []).

Lemma process_cache_transparent_witness :
  (@searchProcessInfo demoLibs unit unit (demoRouter []) (demoMetadata {{ ic_Source := mkSocksaddr (Addr4 2130706433) 1 "" }}) tt).1
  = demoMetadata {{ ic_Source := mkSocksaddr (Addr4 2130706433) 1 "";
                    ic_ProcessInfo := Some (mkConnectionOwner 1 0 "root" "/bin/curl" []) }}.
Proof.
  destruct (@process_cache_transparent demoLibs unit unit (demoRouter []) demoSearcher
              (demoMetadata {{ ic_Source := mkSocksaddr (Addr4 2130706433) 1 "" }}) tt
              ltac:(done) ltac:(reflexivity) ltac:(done)) as [-> _]. reflexivity.
Defined.

Lemma overrides_compose_witness :
  let o1 := demoRouteOptions {{ OverridePort := 53 }} in
  let o2 := demoRouteOptions {{ OverrideAddress := mkSocksaddr (Addr4 134744072) 0 "" }} in
  let m := demoMetadata {{ ic_Destination := mkSocksaddr (Addr4 16909060) 443 "" }} in
  let m' := foldl (fun m o => @applyRouteOptions demoLibs o m) m [o1; o2] in
  ic_Destination m' = mkSocksaddr (Addr4 134744072) 53 "" /\
  ic_RouteOriginalDestination m' = mkSocksaddr (Addr4 16909060) 443 "".
Proof.
  intros o1 o2 m m'.
  destruct (@overrides_compose demoLibs [o1; o2] m ltac:(reflexivity) ltac:(reflexivity)) as [Hd Ho].
  unfold m'. rewrite Hd, Ho. split; reflexivity.
Defined.

(** An ICMP packet to a domain, with no matching rule. *)
Definition demoICMP : InboundContext :=
  demoMetadata {{ ic_Network := NetworkICMP; ic_Source := mkSocksaddr (Addr4 167772161) 0 "";
                  ic_Destination := mkSocksaddr AddrZero 0 "example.com"; ic_DestinationAddresses := [] }}.

Definition demoPreMatch : PreMatchOutcome :=
  match @PreMatch demoLibs unit unit (demoRouter []) demoICMP tt tt true false with
  | Ok out => out
  | _ => PreContinue
  end.

Lemma prematch_direct_route_witness :
  match demoPreMatch with
  | PreDirect ob md' (Some a) => ob_DirectRoute ob = true /\ a ∈ ic_DestinationAddresses md'
  | _ => False
  end.
Proof.
  pose proof (@prematch_direct_route demoLibs unit unit (demoRouter []) demoICMP tt tt true false) as Hp.
  destruct demoPreMatch as [| | | |ob md' [a|]] eqn:E; try discriminate E.
  destruct (Hp ob md' (Some a) ltac:(exact (f_equal (@Ok _) E))) as (_ & ? & _ & _ & ? & _). done.
Defined.
