(* ===== verification/Bytes.v ===== *)
(** Byte streams: the readers of [io], [bufio] and [encoding/binary] over a
    finite stream, and big-endian integers. *)
From S2P Require Import Prelude Netip Metadata.
From coqutil Require Import Byte Word.LittleEndianList.
Import LittleEndianList.

#[global] Instance byte_eq_decision : EqDecision byte := Byte.byte_eq_dec.

Abbreviation byteOf := byte.of_Z.
Abbreviation byteVal := byte.unsigned.

(** Big-endian bytes of an integer, and back. *)
Definition be (n : nat) (z : Z) : list byte := rev (le_split n z).
Definition beVal (l : list byte) : Z := le_combine (rev l).

(** [Addr.AsSlice] *)
Definition AsSlice (a : Addr) : list byte :=
  match a with AddrZero => [] | Addr4 ip => be 4 ip | Addr6 ip _ => be 16 ip end.

Abbreviation bytes := (list byte).

(** * Slices of bytes *)

Definition len {A} (l : list A) : Z := Z.of_nat (length l).

(** [l[i]], [l[lo:]], [l[lo:hi]]; out of range they panic. *)
Definition at_ (l : bytes) (i : Z) : result Z :=
  if (0 <=? i) && (i <? len l) then Ok (byteVal (nth (Z.to_nat i) l (byteOf 0))) else Panic "index out of range".

Definition from_ (l : bytes) (lo : Z) : result bytes :=
  if (0 <=? lo) && (lo <=? len l) then Ok (drop (Z.to_nat lo) l) else Panic "slice bounds out of range".

Definition range_ (l : bytes) (lo hi : Z) : result bytes :=
  if (0 <=? lo) && (lo <=? hi) && (hi <=? len l) then Ok (take (Z.to_nat (hi - lo)) (drop (Z.to_nat lo) l))
  else Panic "slice bounds out of range".

(** [uint16(l[i])<<8 | uint16(l[i+1])] *)
Definition uint16At (l : bytes) (i : Z) : result Z :=
  hi ← at_ l i; lo ← at_ l (i + 1); Ok (Z.lor (u16 (Z.shiftl hi 8)) lo).

(** [[]byte(s)] *)
Definition stringBytes (s : string) : list byte := String.list_byte_of_string s.

Definition hexChar (n : Z) : Ascii.ascii := Ascii.ascii_of_N (Z.to_N (if n <? 10 then 48 + n else 87 + n)).

(** [hex.EncodeToString] *)
Fixpoint EncodeToString (l : bytes) : string :=
  match l with
  | [] => ""
  | b :: l' => String (hexChar (byteVal b / 16)) (String (hexChar (byteVal b mod 16)) (EncodeToString l'))
  end.

Section reader.
(** The error a read returns once the data is used up. *)
Variable endErr : GoError.

(** [ReadByte], and [binary.Read] of a [uint8]. *)
Definition readByte (s : list byte) : result (Z * list byte) :=
  match s with [] => Err endErr | b :: s' => Ok (byteVal b, s') end.

(** [binary.Read] of a [bool]. *)
Definition readBool (s : list byte) : result (bool * list byte) :=
  '(b, s) ← readByte s; Ok (negb (b =? 0), s).

(** [io.ReadFull] into a buffer of [n] bytes. *)
Definition ReadFull (n : Z) (s : list byte) : result (list byte * list byte) :=
  if n <=? Z.of_nat (length s) then Ok (take (Z.to_nat n) s, drop (Z.to_nat n) s)
  else Err (if nonempty s && bool_decide (endErr = IO_EOF) then IO_UnexpectedEOF else endErr).

Definition MaxVarintLen64 : nat := 10.

Definition errOverflow : GoError := E_Lib "binary: varint overflows a 64-bit integer".

(** The loop of [binary.ReadUvarint] with [left] iterations to go, at byte [i]. *)
Fixpoint uvarintLoop (left i : nat) (x shift : Z) (s : list byte) : result (Z * list byte) :=
  match left with
  | O => Err errOverflow
  | S left' =>
      match s with
      | [] => Err (if (0 <? i)%nat && bool_decide (endErr = IO_EOF) then IO_UnexpectedEOF else endErr)
      | b :: s' =>
          let b := byteVal b in
          if b <? 128 then
            if (i =? MaxVarintLen64 - 1)%nat && (1 <? b) then Err errOverflow
            else Ok (Z.lor x (u64 (Z.shiftl b shift)), s')
          else uvarintLoop left' (S i) (Z.lor x (u64 (Z.shiftl (Z.land b 127) shift))) (shift + 7) s'
      end
  end.

Definition ReadUvarint (s : list byte) : result (Z * list byte) := uvarintLoop MaxVarintLen64 0 0 0 s.

(** [for i := range n] around a read: the values read.  The counter of the loop
    is bounded by the data, of which each turn uses at least a byte. *)
Definition outOfFuel : string := "out of fuel".

Fixpoint readMany {A} (read : Z -> list byte -> result (A * list byte)) (fuel : nat) (i n : Z) (s : list byte)
    : result (list A * list byte) :=
  if n <=? i then Ok ([], s)
  else match fuel with
       | O => Panic outOfFuel
       | S fuel' =>
           '(a, s) ← read i s;
           '(l, s) ← readMany read fuel' (i + 1) n s;
           Ok (a :: l, s)
       end.

Definition readLoop {A} (read : Z -> list byte -> result (A * list byte)) (n : Z) (s : list byte)
    : result (list A * list byte) := readMany read (S (length s)) 0 n s.

End reader.

#[global] Arguments readLoop : simpl never.
#[global] Arguments ReadUvarint : simpl never.
#[global] Arguments ReadFull : simpl never.
#[global] Arguments be : simpl never.
#[global] Arguments beVal : simpl never.

(** * Properties *)

Lemma be_length n z : length (be n z) = n.
Proof. unfold be. by rewrite length_rev, length_le_split. Qed.

Lemma beVal_be n z : 0 <= z < 2 ^ (8 * Z.of_nat n) -> beVal (be n z) = z.
Proof.
  intros Hz. unfold be, beVal. rewrite rev_involutive, le_combine_split. apply Z.mod_small.
  by rewrite (Z.mul_comm (Z.of_nat n) 8).
Qed.

Lemma byteVal_byteOf z : 0 <= z < 256 -> byteVal (byteOf z) = z.
Proof. intros Hz. rewrite byte.unsigned_of_Z. by apply Z.mod_small. Qed.

Lemma byteVal_range b : 0 <= byteVal b < 256.
Proof. apply (byte.unsigned_range b). Qed.

Lemma ReadFull_app e l s : ReadFull e (Z.of_nat (length l)) (l ++ s) = Ok (l, s).
Proof.
  unfold ReadFull. rewrite length_app, (proj2 (Z.leb_le _ _)) by lia.
  by rewrite Nat2Z.id, take_app_length, drop_app_length.
Qed.

Lemma ReadFull_shorter e n s l s' : ReadFull e n s = Ok (l, s') -> (length s' <= length s)%nat.
Proof. unfold ReadFull. case_match; [|done]. intros. simplify_eq. rewrite length_drop. lia. Qed.

Lemma readByte_shorter e s b s' : readByte e s = Ok (b, s') -> (length s' < length s)%nat.
Proof. destruct s; cbn; intros; simplify_eq. lia. Qed.

Lemma uvarintLoop_shorter e left : forall i x shift s n s',
  uvarintLoop e left i x shift s = Ok (n, s') -> (length s' < length s)%nat.
Proof.
  induction left as [|left IH]; intros i x shift s n s' Hr; cbn [uvarintLoop] in Hr; [done|].
  destruct s as [|b s]; [done|]. cbn [length]. destruct (byteVal b <? 128).
  - destruct (_ && _); [done|]. injection Hr as _ <-. lia.
  - apply IH in Hr. lia.
Qed.

Lemma ReadUvarint_shorter e s n s' : ReadUvarint e s = Ok (n, s') -> (length s' < length s)%nat.
Proof. apply uvarintLoop_shorter. Qed.
