(* ===== verification/Streams.v ===== *)
(** Streams that arrive in parts: connections as the chunks that successive reads
    return, the buffered reader of [bufio], and variable-length integers. *)
From S2P Require Import Prelude Netip Metadata Bytes.

(** * Readers *)

(** [io.MultiReader] over the buffers that are left: a read returns data of one
    buffer only. *)
Abbreviation Reader := (list bytes).

Fixpoint Reader_Read (n : nat) (r : Reader) : bytes * option GoError * Reader :=
  match r with
  | [] => ([], Some IO_EOF, [])
  | [] :: r' => Reader_Read n r'
  | c :: r' => (take n c, None, drop n c :: r')
  end.

(** What is left after [n] bytes. *)
Fixpoint skipBytes (n : nat) (r : Reader) : Reader :=
  match r with
  | [] => []
  | c :: r' => if (n <=? length c)%nat then drop n c :: r' else skipBytes (n - length c) r'
  end.

(** [io.ReadFull] into [n] bytes, with the bytes read before an error. *)
Definition readFull (n : nat) (r : Reader) : bytes * option GoError * Reader :=
  let data := concat r in
  (take n data,
   if (n <=? length data)%nat then None else Some (if nonempty data then IO_UnexpectedEOF else IO_EOF),
   skipBytes n r).

(** [io.ReadFull] and [rw.SkipN] as calls that fail. *)
Definition readExact (n : nat) (r : Reader) : result (bytes * Reader) :=
  match readFull n r with
  | (data, None, r) => Ok (data, r)
  | (_, Some err, _) => Err err
  end.

Definition SkipN (n : nat) (r : Reader) : result Reader := '(_, r) ← readExact n r; Ok r.

(** [binary.Read] of an unsigned integer of [n] bytes. *)
Definition binaryRead (n : nat) (r : Reader) : result (Z * Reader) := '(data, r) ← readExact n r; Ok (beVal data, r).

(** * Variable-length integers *)

(** [int] of a [uint64]. *)
Definition toInt (z : Z) : Z := if z <? 2 ^ 63 then z else z - 2 ^ 64.

(** [binary.PutUvarint]; ten bytes hold any 64-bit integer. *)
Fixpoint putUvarint (more : nat) (x : Z) : list byte :=
  match more with
  | O => [byteOf x]
  | S more' => if x <? 128 then [byteOf x] else byteOf (Z.lor (x mod 128) 128) :: putUvarint more' (x / 128)
  end.

Lemma more_byte x : 0 <= x -> Z.lor (x mod 128) 128 = 128 + x mod 128.
Proof.
  intros Hx. pose proof (Z.mod_pos_bound x 128 ltac:(lia)).
  pose proof (lor_shifted (x mod 128) 1 7 ltac:(lia) ltac:(lia) ltac:(lia)) as Hl.
  change (Z.shiftl 1 7) with 128 in Hl. rewrite Hl. lia.
Qed.

Lemma uvarintLoop_cons e k i x shift b s :
  uvarintLoop e (S k) i x shift (b :: s)
  = if byteVal b <? 128 then
      if (i =? MaxVarintLen64 - 1)%nat && (1 <? byteVal b) then Err errOverflow
      else Ok (Z.lor x (u64 (Z.shiftl (byteVal b) shift)), s)
    else uvarintLoop e k (S i) (Z.lor x (u64 (Z.shiftl (Z.land (byteVal b) 127) shift))) (shift + 7) s.
Proof. done. Qed.

Lemma uvarintLoop_put e rest : forall k i x n,
  (i + S k = 10)%nat -> 0 <= x < 2 ^ (7 * Z.of_nat i) -> 0 <= n < 2 ^ (64 - 7 * Z.of_nat i) ->
  uvarintLoop e (S k) i x (7 * Z.of_nat i) (putUvarint k n ++ rest) = Ok (x + n * 2 ^ (7 * Z.of_nat i), rest).
Proof.
  assert (Hwrap : forall i x b n, (i < 10)%nat -> 0 <= x < 2 ^ (7 * Z.of_nat i) -> 0 <= b <= n ->
    n < 2 ^ (64 - 7 * Z.of_nat i) -> Z.lor x (u64 (Z.shiftl b (7 * Z.of_nat i))) = x + b * 2 ^ (7 * Z.of_nat i)).
  { intros i x b n Hi Hx Hb Hn. unfold u64. rewrite wrap_small; [by apply lor_shifted; lia|].
    rewrite Z.shiftl_mul_pow2 by lia. split; [nia|].
    replace 64 with (64 - 7 * Z.of_nat i + 7 * Z.of_nat i) by lia. rewrite Z.pow_add_r by lia. nia. }
  induction k as [|k IH]; intros i x n Hi Hx Hn.
  - assert (i = 9)%nat as -> by lia. cbn [putUvarint app]. rewrite uvarintLoop_cons.
    change (64 - 7 * Z.of_nat 9) with 1 in Hn. rewrite byteVal_byteOf by lia.
    rewrite (proj2 (Z.ltb_lt n 128)), (proj2 (Z.ltb_ge 1 n)), andb_false_r by lia.
    by rewrite (Hwrap 9%nat x n n) by (change (64 - 7 * Z.of_nat 9) with 1; lia).
  - assert (H64 : 2 ^ (64 - 7 * Z.of_nat i) = 128 * 2 ^ (64 - 7 * Z.of_nat (S i))).
    { replace (64 - 7 * Z.of_nat i) with (7 + (64 - 7 * Z.of_nat (S i))) by lia. by rewrite Z.pow_add_r by lia. }
    cbn [putUvarint]. destruct (Z.ltb_spec n 128) as [Hlt|Hge]; cbn [app]; rewrite uvarintLoop_cons.
    + rewrite byteVal_byteOf by lia. rewrite (proj2 (Z.ltb_lt n 128)) by lia.
      replace (i =? MaxVarintLen64 - 1)%nat with false by (symmetry; apply Nat.eqb_neq; cbn; lia). cbn [andb].
      by rewrite (Hwrap i x n n) by lia.
    + pose proof (Z.mod_pos_bound n 128 ltac:(lia)). pose proof (Z.div_mod n 128 ltac:(lia)) as Hdm.
      rewrite more_byte, byteVal_byteOf by lia. rewrite (proj2 (Z.ltb_ge _ 128)) by lia.
      replace (Z.land (128 + n mod 128) 127) with (n mod 128).
      2:{ change 127 with (Z.ones 7). rewrite Z.land_ones by lia. change (2 ^ 7) with 128.
          replace (128 + n mod 128) with (n mod 128 + 1 * 128) by lia. by rewrite Z.mod_add, Z.mod_mod by lia. }
      rewrite (Hwrap i x (n mod 128) n) by lia.
      replace (7 * Z.of_nat i + 7) with (7 * Z.of_nat (S i)) by lia.
      assert (Hp : 2 ^ (7 * Z.of_nat (S i)) = 128 * 2 ^ (7 * Z.of_nat i)).
      { replace (7 * Z.of_nat (S i)) with (7 + 7 * Z.of_nat i) by lia. by rewrite Z.pow_add_r by lia. }
      rewrite IH; [|lia|rewrite Hp; nia|split; [by apply Z.div_pos; lia|apply Z.div_lt_upper_bound; lia]].
      do 2 f_equal. rewrite Hp. nia.
Qed.


(** * The data of a stream *)

Lemma concat_skipBytes n r : concat (skipBytes n r) = drop n (concat r).
Proof.
  revert n. induction r as [|c r IH]; intros n; cbn; [by rewrite drop_nil|]. destruct (Nat.leb_spec n (length c)).
  - cbn. by rewrite drop_app_le.
  - rewrite IH, drop_app_ge by lia. done.
Qed.

Lemma Reader_Read_data n r : forall d err r', Reader_Read n r = (d, err, r') ->
  concat r = d ++ concat r' /\ (length d <= n)%nat /\
  (err = None -> (0 < n)%nat -> d <> []) /\ (err <> None -> err = Some IO_EOF /\ concat r = []).
Proof.
  induction r as [|c r IH]; intros d err r'; cbn.
  - intros [= <- <- <-]. split_and!; try done; cbn; lia.
  - destruct c as [|b c].
    + apply IH.
    + intros [= <- <- <-]. cbn [concat]. rewrite app_assoc, take_drop. split_and!; try done; [rewrite length_take; lia|].
      intros _ Hn. destruct n; [lia|done].
Qed.

Lemma readExact_app n r w rest : concat r = w ++ rest -> length w = n ->
  exists r', readExact n r = Ok (w, r') /\ concat r' = rest.
Proof.
  intros Hc Hw. exists (skipBytes n r). unfold readExact, readFull. rewrite concat_skipBytes, Hc.
  rewrite (proj2 (Nat.leb_le n _)) by (rewrite length_app; lia).
  by rewrite take_app_length', drop_app_length'.
Qed.

Lemma SkipN_app n r w rest : concat r = w ++ rest -> length w = n -> exists r', SkipN n r = Ok r' /\ concat r' = rest.
Proof. intros Hc Hw. destruct (readExact_app n r w rest Hc Hw) as (r' & Hr & Hr'). exists r'. unfold SkipN. by rewrite Hr. Qed.

Lemma binaryRead_app n r z rest : concat r = be n z ++ rest -> 0 <= z < 2 ^ (8 * Z.of_nat n) ->
  exists r', binaryRead n r = Ok (z, r') /\ concat r' = rest.
Proof.
  intros Hc Hz. destruct (readExact_app n r (be n z) rest Hc) as (r' & Hr & Hr'); [apply be_length|]. exists r'.
  unfold binaryRead. rewrite Hr. cbn. by rewrite beVal_be.
Qed.

Lemma elem_of_Forall {A} (P : A -> Prop) (l : list A) x : Forall P l -> x ∈ l -> P x.
Proof. rewrite List.Forall_forall. intros Hf Hx%list_elem_of_In. by apply Hf. Qed.


(** * Reading to the end *)

Section drain.
Context {C : Type} (read : C -> nat -> result (bytes * C)).

(** Reads with buffers of the given sizes until one fails. *)
Fixpoint drain (fuel : nat) (sizes : nat -> nat) (c : C) : bytes * option GoError :=
  match fuel with
  | O => ([], None)
  | S fuel' =>
      match read c (sizes fuel') with
      | Ok (d, c) => let (data, err) := drain fuel' sizes c in (d ++ data, err)
      | Err err => ([], Some err)
      | Panic s => ([], Some (E_New s))
      end
  end.

(** [awaits c data]: [data] is still to come; each read gets on with it, by a
    measure, or has come to the end. *)
Variables (awaits : C -> bytes -> Prop) (left : C -> nat).
Hypothesis read_awaits : forall c data n, (0 < n)%nat -> awaits c data ->
  (data = [] /\ read c n = Err IO_EOF) \/
  exists d c' data', read c n = Ok (d, c') /\ awaits c' data' /\ data = d ++ data' /\ (left c' < left c)%nat.

Lemma drain_awaits sizes : (forall i, (0 < sizes i)%nat) -> forall fuel c data, awaits c data ->
  (left c < fuel)%nat -> drain fuel sizes c = (data, Some IO_EOF).
Proof.
  intros Hsz. induction fuel as [|fuel IH]; intros c data Ha Hf; [lia|]. cbn [drain].
  destruct (read_awaits c data (sizes fuel) (Hsz _) Ha) as [(-> & ->)|(d & c' & data' & -> & Ha' & -> & Hlt)]; [done|].
  by rewrite (IH c' data' Ha') by lia.
Qed.
End drain.

Lemma app_prefix {A} (p f d s : list A) : p ++ f = d ++ s -> (length d <= length p)%nat -> exists q, p = d ++ q /\ s = q ++ f.
Proof.
  revert d. induction p as [|x p IH]; intros [|y d] He Hl; cbn in *; [by exists []|lia|by exists (x :: p)|].
  injection He as -> He. destruct (IH d He) as (q & -> & ->); [lia|]. by exists q.
Qed.
