(* ===== verification/Sniffers.v ===== *)
(** The sniffers of [common/sniff] that parse what they look at themselves:
    [bittorrent.go], [dns.go], [dtls.go], [ntp.go], [rdp.go], [ssh.go] and
    [stun.go].  Those for TLS and HTTP hand the data to other packages. *)
From S2P Require Import Prelude Netip Metadata RuleItem RuleAction Bytes Streams Sniff.

(** * Readers *)

(** [E.Cause1(ErrNeedMoreData, err)] *)
Definition needMoreData (err : GoError) : GoError := E_Multi ErrNeedMoreData err.

(** [binary.Read] of an unsigned integer of [n] bytes, where an error asks for
    more data. *)
Definition readUint (n : nat) (r : Reader) : result (Z * Reader) :=
  match readFull n r with
  | (data, None, r) => Ok (beVal data, r)
  | (_, Some err, _) => Err (needMoreData err)
  end.

(** [if v != want { return os.ErrInvalid }] *)
Definition require (b : bool) : result unit := if b then Ok tt else Err OS_ErrInvalid.

(** * Protocols *)

Definition ProtocolBitTorrent : string := "bittorrent".
Definition ProtocolDTLS : string := "dtls".
Definition ProtocolNTP : string := "ntp".
Definition ProtocolRDP : string := "rdp".
Definition ProtocolSSH : string := "ssh".
Definition ProtocolSTUN : string := "stun".
Definition ProtocolDNS : string := "dns".

Definition trackerConnectFlag : Z := 0.
Definition trackerProtocolID : Z := 0x41727101980.
Definition trackerConnectMinSize : Z := 16.
Definition bitTorrentHeader : string := "BitTorrent protocol".
Definition sshPrefix : string := "SSH-2.0-".

(** * Streams *)

Definition sniffBitTorrent (metadata : InboundContext) (reader : Reader) : result InboundContext :=
  '(first, reader) ← readUint 1 reader;
  _ ← require (first =? 19);
  let header := stringBytes bitTorrentHeader in
  let '(protocol, err, reader) := Reader_Read 19 reader in
  _ ← require (bool_decide (protocol = take (length protocol) header));
  match err with
  | Some err => Err (needMoreData err)
  | None =>
      if (length protocol <? 19)%nat then Err ErrNeedMoreData
      else Ok (metadata {{ ic_Protocol := ProtocolBitTorrent }})
  end.

(** [rw.SkipN], where an error asks for more data. *)
Definition skipN (n : nat) (r : Reader) : result Reader :=
  match readFull n r with
  | (_, None, r) => Ok r
  | (_, Some err, _) => Err (needMoreData err)
  end.

Definition sniffRDP (metadata : InboundContext) (reader : Reader) : result InboundContext :=
  '(tpktVersion, reader) ← readUint 1 reader;
  _ ← require (tpktVersion =? 0x03);
  '(tpktReserved, reader) ← readUint 1 reader;
  _ ← require (tpktReserved =? 0x00);
  '(tpktLength, reader) ← readUint 2 reader;
  _ ← require (tpktLength =? 19);
  '(cotpLength, reader) ← readUint 1 reader;
  _ ← require (cotpLength =? 14);
  '(cotpTpduType, reader) ← readUint 1 reader;
  _ ← require (cotpTpduType =? 0xE0);
  reader ← skipN 5 reader;
  '(rdpType, reader) ← readUint 1 reader;
  _ ← require (rdpType =? 0x01);
  '(rdpFlags, reader) ← readUint 1 reader;
  '(rdpLength, reader) ← readUint 1 reader;
  _ ← require (rdpLength =? 8);
  Ok (metadata {{ ic_Protocol := ProtocolRDP }}).

(** [bufio.Reader.ReadLine] with a buffer of 4096 bytes: a line without its end,
    or the part of it that fits; [line] is what was passed. *)
Definition dropCR (line : bytes) : bytes :=
  match rev line with
  | b :: l => if byteVal b =? 13 then rev l else line
  | [] => line
  end.

Fixpoint readLine (space : nat) (line data : bytes) {struct space} : bytes :=
  match space, data with
  | O, _ => dropCR line
  | _, [] => line
  | S space', b :: data' => if byteVal b =? 10 then dropCR line else readLine space' (line ++ [b]) data'
  end.

Definition bufioSize : nat := 4096.

Definition sniffSSH (metadata : InboundContext) (reader : Reader) : result InboundContext :=
  let '(prefix, err, _) := readFull (String.length sshPrefix) reader in
  _ ← require (bool_decide (prefix = take (length prefix) (stringBytes sshPrefix)));
  match err with
  | Some _ => Err (needMoreData IO_EOF)
  | None =>
      let firstLine := readLine bufioSize [] (concat reader) in
      client ← from_ firstLine 8;
      Ok (metadata {{ ic_Protocol := ProtocolSSH; ic_Client := String.string_of_list_byte client }})
  end.

Section dns.
(** [mDNS.Msg.Unpack] *)
Variable Unpack : bytes -> Msg + GoError.

(** [return err] without an error leaves the metadata as it is. *)
Definition sniffDomainNameQuery (metadata : InboundContext) (packet : bytes) : result InboundContext :=
  match Unpack packet with
  | inr err => Err err
  | inl msg =>
      if msg_Response msg || negb (nonempty (msg_Question msg)) || nonempty (msg_Answer msg) || nonempty (msg_Ns msg)
      then Ok metadata
      else Ok (metadata {{ ic_Protocol := ProtocolDNS }})
  end.

(** [n > i && packet[i] != 0] *)
Definition byteIf (packet : bytes) (i : nat) (test : Z -> bool) : bool :=
  match packet !! i with Some b => test (byteVal b) | None => false end.

Definition sniffStreamDomainNameQuery (metadata : InboundContext) (reader : Reader) : result InboundContext :=
  '(length, reader) ← readUint 2 reader;
  _ ← require (12 <=? length);
  let '(packet, err, _) := readFull (Z.to_nat length) reader in
  _ ← require (negb (byteIf packet 2 (fun b => negb (Z.land b 0x80 =? 0))));
  _ ← require (negb (byteIf packet 5 (fun b => b =? 0) && byteIf packet 4 (fun b => b =? 0)));
  _ ← require (allb (seq 6 4) (fun i => negb (byteIf packet i (fun b => negb (b =? 0)))));
  match err with
  | Some err => Err (needMoreData err)
  | None => sniffDomainNameQuery metadata packet
  end.
End dns.

(** * Packets *)

(** The loop over the extensions; each turn uses two bytes.  [reader.Seek] may
    go beyond the end. *)
Fixpoint utpExtensions (fuel : nat) (extension : Z) (reader : bytes) : result unit :=
  if extension =? 0 then Ok tt
  else
    match fuel with
    | O => Panic outOfFuel
    | S fuel' =>
        '(extension, reader) ← readByte IO_EOF reader;
        _ ← require (extension <=? 0x04);
        '(length, reader) ← readByte IO_EOF reader;
        utpExtensions fuel' extension (drop (Z.to_nat length) reader)
    end.

Definition sniffUTP (metadata : InboundContext) (packet : bytes) : result InboundContext :=
  _ ← require (20 <=? len packet);
  first ← at_ packet 0;
  let version := Z.land first 0x0F in
  let ty := Z.shiftr first 4 in
  _ ← require ((version =? 1) && (ty <=? 4));
  extension ← at_ packet 1;
  reader ← from_ packet 20;
  _ ← utpExtensions (length packet) extension reader;
  Ok (metadata {{ ic_Protocol := ProtocolBitTorrent }}).

Definition sniffUDPTracker (metadata : InboundContext) (packet : bytes) : result InboundContext :=
  _ ← require (trackerConnectMinSize <=? len packet);
  protocolID ← range_ packet 0 8;
  _ ← require (beVal protocolID =? trackerProtocolID);
  action ← range_ packet 8 12;
  _ ← require (beVal action =? trackerConnectFlag);
  Ok (metadata {{ ic_Protocol := ProtocolBitTorrent }}).

Definition sniffSTUNMessage (metadata : InboundContext) (packet : bytes) : result InboundContext :=
  let pLen := len packet in
  _ ← require (20 <=? pLen);
  cookie ← range_ packet 4 8;
  _ ← require (beVal cookie =? 0x2112A442);
  length ← range_ packet 2 4;
  _ ← require (20 + beVal length <=? len packet);
  Ok (metadata {{ ic_Protocol := ProtocolSTUN }}).

(** The delays are divided by 65536 as [float64], which is exact. *)
Definition sniffNTP (metadata : InboundContext) (packet : bytes) : result InboundContext :=
  let pLen := len packet in
  _ ← require (48 <=? pLen);
  firstByte ← at_ packet 0;
  let li := Z.land (Z.shiftr firstByte 6) 0x03 in
  let vn := Z.land (Z.shiftr firstByte 3) 0x07 in
  let mode := Z.land firstByte 0x07 in
  _ ← require (li <=? 3);
  _ ← require ((vn =? 3) || (vn =? 4));
  _ ← require (mode =? 3);
  rootDelay ← range_ packet 4 8;
  rootDispersion ← range_ packet 8 12;
  _ ← require (beVal rootDelay <=? 16 * 65536);
  _ ← require (beVal rootDispersion <=? 16 * 65536);
  Ok (metadata {{ ic_Protocol := ProtocolNTP }}).

Definition sniffDTLSRecord (metadata : InboundContext) (packet : bytes) : result InboundContext :=
  _ ← require (13 <=? len packet);
  contentType ← at_ packet 0;
  _ ← require (bool_decide (contentType ∈ [20; 21; 22; 23; 25]));
  versionMajor ← at_ packet 1;
  _ ← require (versionMajor =? 0xfe);
  versionMinor ← at_ packet 2;
  _ ← require ((versionMinor =? 0xff) || (versionMinor =? 0xfd));
  Ok (metadata {{ ic_Protocol := ProtocolDTLS }}).

(** The stream sniffers as [PeekStream] calls them; those of other packages are
    [others]. *)
Definition sniffedBy {SC} (m : InboundContext * SC) (r : result InboundContext) : (InboundContext * SC) * result unit :=
  match r with
  | Ok metadata => ((metadata, m.2), Ok tt)
  | Err err => (m, Err err)
  | Panic s => (m, Panic s)
  end.

Definition streamSniffers {SC} (Unpack : bytes -> Msg + GoError)
    (others : StreamSniffer -> InboundContext * SC -> Reader -> (InboundContext * SC) * result unit)
    (sniffer : StreamSniffer) (m : InboundContext * SC) (reader : Reader) : (InboundContext * SC) * result unit :=
  match sniffer with
  | StreamDomainNameQuery => sniffedBy m (sniffStreamDomainNameQuery Unpack m.1 reader)
  | BitTorrent => sniffedBy m (sniffBitTorrent m.1 reader)
  | SSH => sniffedBy m (sniffSSH m.1 reader)
  | RDP => sniffedBy m (sniffRDP m.1 reader)
  | _ => others sniffer m reader
  end.
