(* ===== verification/SniffersSpec.v ===== *)
(** The sniffers stay within the data, and do not depend on how it arrives. *)
From S2P Require Import Prelude Netip Metadata RuleItem RuleAction Bytes Streams Sniff Sniffers.

(** * Bounds *)

(** A sniffer ends without a panic, and with accepted metadata when it succeeds. *)
Definition sniffs (accepted : InboundContext -> Prop) (r : result InboundContext) : Prop :=
  match r with
  | Ok metadata => accepted metadata
  | Err _ => True
  | Panic _ => False
  end.

Lemma sniffs_no_panic accepted r s : sniffs accepted r -> r <> Panic s.
Proof. by intros Hs ->. Qed.

(** The metadata with nothing changed but the protocol. *)
Definition sets (metadata : InboundContext) (protocol : string) (metadata' : InboundContext) : Prop :=
  metadata' = metadata {{ ic_Protocol := protocol }}.

Section sniffs.
Context (accepted : InboundContext -> Prop).

Lemma sniffs_require b k : (b = true -> sniffs accepted (k tt)) -> sniffs accepted (require b ≫= k).
Proof. destruct b; [|done]. intros Hk. by apply Hk. Qed.

Lemma sniffs_at packet i k :
  0 <= i < len packet -> (forall v, sniffs accepted (k v)) -> sniffs accepted (at_ packet i ≫= k).
Proof. intros Hi Hk. unfold at_. rewrite (proj2 (Z.leb_le _ _)), (proj2 (Z.ltb_lt _ _)) by lia. apply Hk. Qed.

Lemma sniffs_from packet i k :
  0 <= i <= len packet -> sniffs accepted (k (drop (Z.to_nat i) packet)) -> sniffs accepted (from_ packet i ≫= k).
Proof. intros Hi Hk. unfold from_. rewrite !(proj2 (Z.leb_le _ _)) by lia. apply Hk. Qed.

Lemma sniffs_range packet lo hi k :
  0 <= lo <= hi -> hi <= len packet -> (forall v, sniffs accepted (k v)) -> sniffs accepted (range_ packet lo hi ≫= k).
Proof. intros Hl Hh Hk. unfold range_. rewrite !(proj2 (Z.leb_le _ _)) by lia. apply Hk. Qed.

Lemma sniffs_readUint n r k : (forall v r, sniffs accepted (k (v, r))) -> sniffs accepted (readUint n r ≫= k).
Proof. intros Hk. unfold readUint. destruct (readFull n r) as [[data [e|]] r']; [done|]. apply Hk. Qed.

Lemma sniffs_skipN n r k : (forall r, sniffs accepted (k r)) -> sniffs accepted (skipN n r ≫= k).
Proof. intros Hk. unfold skipN. destruct (readFull n r) as [[data [e|]] r']; [done|]. apply Hk. Qed.
End sniffs.

Ltac sniff_step :=
  first [ lazymatch goal with |- sniffs _ (Ok _) => reflexivity end
        | apply sniffs_require; intros ?; bool_to_prop
        | apply sniffs_at; [lia|intros ?]
        | apply sniffs_range; [lia|lia|intros ?]
        | apply sniffs_from; [lia|]
        | apply sniffs_readUint; intros ? ?
        | apply sniffs_skipN; intros ? ].

(** A step of the loop over the extensions leaves less data. *)
Lemma utpExtensions_safe fuel : forall extension reader,
  (length reader < fuel)%nat -> forall s, utpExtensions fuel extension reader <> Panic s.
Proof.
  induction fuel as [|fuel IH]; intros extension reader Hf s; [lia|]. cbn [utpExtensions].
  destruct (extension =? 0); [done|]. destruct reader as [|b [|b' reader]]; cbn [readByte mbind result_bind] in *.
  - done.
  - unfold require. by destruct (_ <=? _).
  - unfold require. destruct (_ <=? _); [|done]. cbn. apply IH. rewrite length_drop. cbn in Hf. lia.
Qed.

(** The first line keeps a prefix without line ends. *)
Definition plain (p : bytes) : Prop := Forall (fun b => byteVal b <> 10 /\ byteVal b <> 13) p.

Lemma dropCR_keeps p x : plain p -> exists y, dropCR (p ++ x) = p ++ y.
Proof.
  intros Hp. unfold dropCR. destruct (rev (p ++ x)) as [|b l] eqn:Hr; [by exists x|].
  destruct (Z.eqb_spec (byteVal b) 13) as [Hb|]; [|by exists x].
  apply (f_equal (@rev byte)) in Hr. rewrite rev_involutive in Hr. cbn in Hr.
  destruct x as [|c x _] using rev_ind.
  - exfalso. rewrite app_nil_r in Hr. unfold plain in Hp. rewrite Hr, Forall_app in Hp. destruct Hp as [_ Hp].
    by apply Forall_cons_iff in Hp as [[_ ?] _].
  - exists x. rewrite app_assoc in Hr. by apply app_inj_tail in Hr as [-> _].
Qed.

Lemma readLine_keeps space : forall p x data, plain p -> exists y, readLine space (p ++ x) data = p ++ y.
Proof.
  induction space as [|space IH]; intros p x data Hp; [by apply dropCR_keeps|]. destruct data as [|b data]; cbn; [by exists x|].
  destruct (_ =? _); [by apply dropCR_keeps|]. rewrite <- app_assoc. by apply IH.
Qed.

Lemma readLine_prefix p : forall space line data, plain p -> (length p <= space)%nat ->
  readLine space line (p ++ data) = readLine (space - length p) (line ++ p) data.
Proof.
  induction p as [|b p IH]; intros space line data Hp Hs; cbn; [by rewrite app_nil_r, Nat.sub_0_r|].
  destruct space as [|space]; [cbn in Hs; lia|]. apply Forall_cons_iff in Hp as [[Hb _] Hp]. cbn.
  destruct (Z.eqb_spec (byteVal b) 10); [done|]. rewrite IH by (done || (cbn in Hs; lia)). by rewrite <- app_assoc.
Qed.

Lemma ssh_plain : plain (stringBytes sshPrefix).
Proof. repeat constructor; vm_compute; discriminate. Qed.

Lemma ssh_first_line data : exists y, readLine bufioSize [] (stringBytes sshPrefix ++ data) = stringBytes sshPrefix ++ y.
Proof.
  rewrite readLine_prefix; [|apply ssh_plain|cbn; unfold bufioSize; lia]. cbn [app].
  rewrite <- (app_nil_r (stringBytes sshPrefix)). by apply readLine_keeps, ssh_plain.
Qed.

(** The client of an SSH connection is the rest of its first line. *)
Definition setsSSH (metadata metadata' : InboundContext) : Prop :=
  exists client, metadata' = metadata {{ ic_Protocol := ProtocolSSH; ic_Client := client }}.

(** A message that is no query ends the search as a success that sets nothing. *)
Definition setsDNS (metadata metadata' : InboundContext) : Prop :=
  metadata' = metadata \/ sets metadata ProtocolDNS metadata'.

Lemma sniffSSH_safe metadata reader : sniffs (setsSSH metadata) (sniffSSH metadata reader).
Proof.
  unfold sniffSSH, readFull. apply sniffs_require. intros Hp%bool_decide_eq_true.
  destruct (_ <=? _)%nat eqn:Hl; [|done]. apply Nat.leb_le in Hl.
  assert (take (String.length sshPrefix) (concat reader) = stringBytes sshPrefix) as Ht.
  { rewrite Hp at 1. rewrite length_take, Nat.min_l by done. done. }
  rewrite <- (take_drop (String.length sshPrefix) (concat reader)), Ht.
  destruct (ssh_first_line (drop (String.length sshPrefix) (concat reader))) as [y ->].
  apply sniffs_from; [unfold len; rewrite length_app; cbn; lia|]. by eexists.
Qed.

Lemma sniffBitTorrent_safe metadata reader : sniffs (sets metadata ProtocolBitTorrent) (sniffBitTorrent metadata reader).
Proof.
  unfold sniffBitTorrent. repeat sniff_step. destruct (Reader_Read _ _) as [[p e] r']. repeat sniff_step.
  destruct e; [done|]. by case_bool.
Qed.

Lemma sniffRDP_safe metadata reader : sniffs (sets metadata ProtocolRDP) (sniffRDP metadata reader).
Proof. unfold sniffRDP. repeat sniff_step. Qed.

Lemma sniffDomainNameQuery_safe Unpack metadata packet : sniffs (setsDNS metadata) (sniffDomainNameQuery Unpack metadata packet).
Proof. unfold sniffDomainNameQuery. destruct (Unpack packet); [|done]. case_bool; [by left|by right]. Qed.

Lemma sniffStreamDomainNameQuery_safe Unpack metadata reader :
  sniffs (setsDNS metadata) (sniffStreamDomainNameQuery Unpack metadata reader).
Proof. unfold sniffStreamDomainNameQuery. repeat sniff_step. destruct (_ <=? _)%nat; [apply sniffDomainNameQuery_safe|done]. Qed.

Lemma sniffUTP_safe metadata packet : sniffs (sets metadata ProtocolBitTorrent) (sniffUTP metadata packet).
Proof.
  unfold sniffUTP. repeat sniff_step. destruct (utpExtensions _ _ _) eqn:Hu; [done..|].
  eapply utpExtensions_safe; [|exact Hu]. rewrite length_drop. unfold len in *. lia.
Qed.

Lemma sniffUDPTracker_safe metadata packet : sniffs (sets metadata ProtocolBitTorrent) (sniffUDPTracker metadata packet).
Proof. unfold sniffUDPTracker, trackerConnectMinSize. repeat sniff_step. Qed.

Lemma sniffSTUNMessage_safe metadata packet : sniffs (sets metadata ProtocolSTUN) (sniffSTUNMessage metadata packet).
Proof. unfold sniffSTUNMessage. repeat sniff_step. Qed.

Lemma sniffNTP_safe metadata packet : sniffs (sets metadata ProtocolNTP) (sniffNTP metadata packet).
Proof. unfold sniffNTP. repeat sniff_step. Qed.

Lemma sniffDTLSRecord_safe metadata packet : sniffs (sets metadata ProtocolDTLS) (sniffDTLSRecord metadata packet).
Proof. unfold sniffDTLSRecord. repeat sniff_step. Qed.


(** * Data that arrives in parts *)

Inductive Verdict := Accept (protocol : string) | Reject | More.

Definition verdict (r : result InboundContext) : Verdict :=
  match r with
  | Ok metadata => Accept (ic_Protocol metadata)
  | Err err => if IsNeedMoreData err then More else Reject
  | Panic _ => Reject
  end.

(** More data does not change a verdict. *)
Definition stable (f : bytes -> result InboundContext) : Prop :=
  forall d e, verdict (f d) <> More -> verdict (f (d ++ e)) = verdict (f d).

Lemma readFull_single n d :
  readFull n [d] = (take n d, if (n <=? length d)%nat then None else Some (if nonempty d then IO_UnexpectedEOF else IO_EOF),
                    if (n <=? length d)%nat then [drop n d] else []).
Proof. unfold readFull. cbn. by rewrite app_nil_r. Qed.

Lemma stable_readUint n k : (forall v, stable (fun d => k (v, [d]))) -> stable (fun d => readUint n [d] ≫= k).
Proof.
  intros Hk d e. unfold readUint. rewrite !readFull_single. destruct (Nat.leb_spec n (length d)); [|done]. rewrite length_app.
  rewrite (proj2 (Nat.leb_le _ _)) by lia. rewrite take_app_le, drop_app_le by done. apply Hk.
Qed.

Lemma stable_skipN n k : stable (fun d => k [d]) -> stable (fun d => skipN n [d] ≫= k).
Proof.
  intros Hk d e. unfold skipN. rewrite !readFull_single. destruct (Nat.leb_spec n (length d)); [|done]. rewrite length_app.
  rewrite (proj2 (Nat.leb_le _ _)) by lia. rewrite drop_app_le by done. apply Hk.
Qed.

Lemma stable_require b k : (b = true -> stable (fun d => k d tt)) -> stable (fun d => require b ≫= k d).
Proof. destruct b; [|done]. intros Hk. by apply Hk. Qed.

Lemma stable_const r : stable (fun _ => r).
Proof. done. Qed.

Lemma stable_ext f g : (forall d, f d = g d) -> stable g -> stable f.
Proof. intros He Hg d e. rewrite !He. apply Hg. Qed.

(** A header that is compared as far as it has arrived. *)
Definition headed (header : bytes) (k : bytes -> result InboundContext) (more : bytes -> GoError) (d : bytes)
    : result InboundContext :=
  _ ← require (bool_decide (take (length header) d = take (length (take (length header) d)) header));
  if (length header <=? length d)%nat then k d else Err (more d).

Lemma header_extends (header d e : bytes) :
  take (length header) (d ++ e) = take (length (take (length header) (d ++ e))) header ->
  take (length header) d = take (length (take (length header) d)) header.
Proof.
  intros Hq. apply (f_equal (take (length d))) in Hq. rewrite !take_take, length_take, length_app in *.
  rewrite (Nat.min_comm (length d)), <- take_take, take_app_length' in Hq by done. rewrite Hq at 1. f_equal. lia.
Qed.

Lemma stable_headed header k more :
  (forall d, IsNeedMoreData (more d) = true) ->
  (forall d e, take (length header) d = header -> verdict (k (d ++ e)) = verdict (k d)) ->
  stable (headed header k more).
Proof.
  intros Hm Hk d e Hv. unfold headed, require in *.
  destruct (bool_decide_reflect (take (length header) d = take (length (take (length header) d)) header)) as [Hp|Hp]; cbn in *.
  - destruct (Nat.leb_spec (length header) (length d)) as [Hl|Hl]; [|cbn in Hv; by rewrite Hm in Hv].
    rewrite take_app_le, bool_decide_eq_true_2 by done. cbn.
    rewrite (proj2 (Nat.leb_le _ (length (d ++ e)))) by (rewrite length_app; lia). apply Hk.
    rewrite Hp, length_take, take_ge by lia. done.
  - by rewrite bool_decide_eq_false_2 by (intros Hq; by eapply Hp, header_extends).
Qed.

Lemma headed_accepts header k more d p : (forall d, IsNeedMoreData (more d) = true) ->
  verdict (headed header k more d) = Accept p -> take (length header) d = header.
Proof.
  intros Hm. unfold headed, require. case_bool_decide as Hp; [|done]. cbn.
  destruct (Nat.leb_spec (length header) (length d)); [|cbn; by rewrite Hm]. intros _.
  rewrite Hp, length_take, take_ge by lia. done.
Qed.

(** The stream sniffers that look at one run of bytes. *)
Definition sniffed (sniffer : StreamSniffer) (metadata : InboundContext) (d : bytes) : result InboundContext :=
  match sniffer with
  | BitTorrent => sniffBitTorrent metadata [d]
  | SSH => sniffSSH metadata [d]
  | _ => sniffRDP metadata [d]
  end.

(** The first byte each of them asks for, and the protocol it finds. *)
Definition expects (sniffer : StreamSniffer) : Z * string :=
  match sniffer with
  | BitTorrent => (19, ProtocolBitTorrent)
  | SSH => (83, ProtocolSSH)
  | _ => (3, ProtocolRDP)
  end.

Definition fixedHeader (sniffer : StreamSniffer) : Prop := sniffer ∈ [BitTorrent; SSH; RDP].

Lemma fixedHeader_cases sniffer : fixedHeader sniffer -> sniffer = BitTorrent \/ sniffer = SSH \/ sniffer = RDP.
Proof. unfold fixedHeader. rewrite !elem_of_cons. intros [-> | [-> | [-> | []%not_elem_of_nil]]]; auto. Qed.

Definition afterLength (metadata : InboundContext) : bytes -> result InboundContext :=
  headed (stringBytes bitTorrentHeader) (fun _ => Ok (metadata {{ ic_Protocol := ProtocolBitTorrent }}))
    (fun d => if nonempty d then ErrNeedMoreData else needMoreData IO_EOF).

Definition afterPrefix (metadata : InboundContext) : bytes -> result InboundContext :=
  headed (stringBytes sshPrefix)
    (fun d => client ← from_ (readLine bufioSize [] (concat [d])) 8;
       Ok (metadata {{ ic_Protocol := ProtocolSSH; ic_Client := String.string_of_list_byte client }}))
    (fun _ => needMoreData IO_EOF).

Lemma sniffBitTorrent_headed metadata d :
  sniffBitTorrent metadata [d] =
  ('(first, reader) ← readUint 1 [d]; _ ← require (first =? 19); afterLength metadata (concat reader)).
Proof.
  unfold sniffBitTorrent, readUint. rewrite readFull_single. destruct (_ <=? _)%nat; [|done]. cbn [mbind result_bind].
  destruct (require _) as [[]| |]; [|done..]. cbn [mbind result_bind concat]. rewrite app_nil_r.
  destruct (drop 1 d) as [|b r]; [done|]. unfold afterLength, headed. cbn [Reader_Read].
  replace (length (stringBytes bitTorrentHeader)) with 19%nat by done.
  destruct (require _) as [[]| |]; [|done..]. cbn [mbind result_bind]. rewrite length_take.
  destruct (Nat.leb_spec 19 (length (b :: r))); destruct (Nat.ltb_spec (19 `min` length (b :: r)) 19); (done || lia).
Qed.

Lemma sniffSSH_headed metadata d : sniffSSH metadata [d] = afterPrefix metadata d.
Proof.
  unfold sniffSSH, afterPrefix, headed. rewrite readFull_single.
  replace (String.length sshPrefix) with (length (stringBytes sshPrefix)) by done.
  destruct (require _) as [[]| |]; [|done..]. cbn [mbind result_bind]. by destruct (_ <=? _)%nat.
Qed.

Lemma ssh_verdict metadata d :
  take (length (stringBytes sshPrefix)) d = stringBytes sshPrefix ->
  verdict (client ← from_ (readLine bufioSize [] (concat [d])) 8;
           Ok (metadata {{ ic_Protocol := ProtocolSSH; ic_Client := String.string_of_list_byte client }})) = Accept ProtocolSSH.
Proof.
  intros Ht. cbn [concat]. rewrite app_nil_r, <- (take_drop (length (stringBytes sshPrefix)) d), Ht.
  destruct (ssh_first_line (drop (length (stringBytes sshPrefix)) d)) as [y ->].
  unfold from_. rewrite !(proj2 (Z.leb_le _ _)) by (unfold len; rewrite ?length_app; cbn; lia). done.
Qed.

Lemma sniffed_stable sniffer metadata : fixedHeader sniffer -> stable (sniffed sniffer metadata).
Proof.
  intros [-> | [-> | ->]]%fixedHeader_cases; cbn [sniffed].
  - eapply stable_ext; [apply sniffBitTorrent_headed|]. apply stable_readUint. intros v. apply stable_require. intros _.
    cbn [concat]. eapply stable_ext; [intros d; by rewrite app_nil_r|]. apply stable_headed; [by intros []|done].
  - eapply stable_ext; [apply sniffSSH_headed|]. apply stable_headed; [done|]. intros d e Ht.
    rewrite !ssh_verdict; [done..|]. rewrite take_app_le; [done|]. apply (f_equal length) in Ht. rewrite length_take in Ht. lia.
  - repeat first [apply stable_readUint; intros ? | apply stable_require; intros _ | apply stable_skipN | apply stable_const].
Qed.

Lemma beVal_single b : beVal [b] = byteVal b.
Proof. by destruct b. Qed.

Lemma readUint_head d k p : verdict (readUint 1 [d] ≫= k) = Accept p ->
  exists b d', d = b :: d' /\ verdict (k (byteVal b, [d'])) = Accept p.
Proof.
  unfold readUint. rewrite readFull_single. destruct d as [|b d]; [done|]. intros Hv. exists b, d. split; [done|].
  rewrite <- beVal_single. exact Hv.
Qed.

Lemma verdict_bind {A} (r : result A) k p : verdict (r ≫= k) = Accept p -> exists v, r = Ok v /\ verdict (k v) = Accept p.
Proof. destruct r as [v|err|]; cbn; [by exists v|by destruct (IsNeedMoreData err)|done]. Qed.

Lemma require_Ok b v : require b = Ok v -> b = true.
Proof. by destruct b. Qed.

Lemma headed_verdict header k more d p : (forall d, IsNeedMoreData (more d) = true) ->
  verdict (headed header k more d) = Accept p -> verdict (k d) = Accept p.
Proof. intros Hm (v & _ & Hv)%verdict_bind. destruct (_ <=? _)%nat; [done|]. cbn in Hv. by rewrite Hm in Hv. Qed.

Ltac accept_step :=
  match goal with
  | H : verdict (_ ≫= _) = Accept _ |- _ => let v := fresh "v" in apply verdict_bind in H as (v & ? & H);
      lazymatch type of v with (_ * _)%type => destruct v | _ => idtac end
  | H : require (_ =? _) = Ok _ |- _ => apply require_Ok, Z.eqb_eq in H
  end.

(** Two of them never accept the same data. *)
Lemma sniffed_expects sniffer metadata d p : fixedHeader sniffer -> verdict (sniffed sniffer metadata d) = Accept p ->
  exists b d', d = b :: d' /\ (byteVal b, p) = expects sniffer.
Proof.
  intros [-> | [-> | ->]]%fixedHeader_cases; cbn [sniffed].
  - rewrite sniffBitTorrent_headed. intros (b & d' & -> & Hv)%readUint_head. exists b, d'. split; [done|].
    repeat accept_step. apply headed_verdict in Hv; [|by intros []]. injection Hv as <-. cbn. unfold constant. congruence.
  - rewrite sniffSSH_headed. intros Hv. pose proof Hv as Ht. apply headed_accepts in Ht; [|done].
    destruct d as [|b d']; [done|]. exists b, d'. split; [done|]. injection Ht as -> _.
    apply headed_verdict in Hv; [|done]. accept_step. by injection Hv as <-.
  - intros (b & d' & -> & Hv)%readUint_head. exists b, d'. split; [done|]. cbn beta iota in Hv.
    repeat accept_step. injection Hv as <-. cbn. unfold constant. congruence.
Qed.

Corollary sniffed_unique s1 s2 metadata d p1 p2 : fixedHeader s1 -> fixedHeader s2 ->
  verdict (sniffed s1 metadata d) = Accept p1 -> verdict (sniffed s2 metadata d) = Accept p2 -> p1 = p2.
Proof.
  intros Hs1 Hs2 (b & d' & -> & H1)%sniffed_expects (b2 & d2 & [= <- <-] & H2)%sniffed_expects; [|done..].
  apply fixedHeader_cases in Hs1 as [-> | [-> | ->]], Hs2 as [-> | [-> | ->]]; cbn in *; congruence.
Qed.

(** The protocol of the first sniffer that accepts the data. *)
Fixpoint recognised (sniffers : list StreamSniffer) (metadata : InboundContext) (d : bytes) : option string :=
  match sniffers with
  | [] => None
  | sniffer :: sniffers' =>
      match verdict (sniffed sniffer metadata d) with
      | Accept protocol => Some protocol
      | _ => recognised sniffers' metadata d
      end
  end.

Lemma recognised_Some sniffers metadata d p : recognised sniffers metadata d = Some p ->
  exists sniffer, sniffer ∈ sniffers /\ verdict (sniffed sniffer metadata d) = Accept p.
Proof.
  induction sniffers as [|s sniffers IH]; [done|]. cbn. destruct (verdict _) eqn:Hv; [intros [= ->]; exists s; set_solver|..];
  intros (s' & ? & ?)%IH; exists s'; set_solver.
Qed.

Lemma recognised_complete sniffers metadata d sniffer p : Forall fixedHeader sniffers -> sniffer ∈ sniffers ->
  verdict (sniffed sniffer metadata d) = Accept p -> recognised sniffers metadata d = Some p.
Proof.
  intros Hf Hin Hv.
  destruct (recognised sniffers metadata d) as [q|] eqn:Hr.
  - apply recognised_Some in Hr as (s' & ? & ?). f_equal. by eapply (sniffed_unique s' sniffer metadata d); (done || eapply elem_of_Forall).
  - exfalso. clear Hf. revert Hr. induction sniffers as [|s sniffers IH]; [set_solver|]. cbn.
    apply elem_of_cons in Hin as [<-|Hin]; [by rewrite Hv|]. destruct (verdict (sniffed s metadata d)); [done|by apply IH..].
Qed.

Section stream.
Context {SC : Type} (Unpack : bytes -> Msg + GoError).
Variable others : StreamSniffer -> InboundContext * SC -> Reader -> (InboundContext * SC) * result unit.

Lemma streamSniffers_fixed sniffer m d : fixedHeader sniffer ->
  streamSniffers Unpack others sniffer m [d] = sniffedBy m (sniffed sniffer m.1 d).
Proof. by intros [-> | [-> | ->]]%fixedHeader_cases. Qed.

Lemma sniffed_safe sniffer metadata d s : sniffed sniffer metadata d <> Panic s.
Proof.
  destruct sniffer; cbn [sniffed]; eapply sniffs_no_panic; (apply sniffBitTorrent_safe || apply sniffSSH_safe || apply sniffRDP_safe).
Qed.

Lemma IsNeedMoreData_Errors e err : IsNeedMoreData (E_Errors e err) = needMore e || IsNeedMoreData err.
Proof. by destruct e. Qed.

(** One attempt: success, or the same metadata and an error that asks for more
    data when a sniffer does. *)
Lemma attempt sniffers : Forall fixedHeader sniffers -> forall e (m : InboundContext * SC) d,
  match tryStreamSniffers (streamSniffers Unpack others) sniffers [d] e m with
  | Ok (m', None) => e = None /\ sniffers = [] \/ recognised sniffers m.1 d = Some (ic_Protocol m'.1)
  | Ok (m', Some err) =>
      m' = m /\ recognised sniffers m.1 d = None /\
      (needMore e = true \/ (exists s, s ∈ sniffers /\ verdict (sniffed s m.1 d) = More) -> IsNeedMoreData err = true)
  | _ => False
  end.
Proof.
  induction 1 as [|s sniffers Hs _ IH]; intros e m d; cbn [tryStreamSniffers].
  - destruct e; [|auto]. split_and!; [done..|]. intros [?|(? & ?%not_elem_of_nil & _)]; done.
  - rewrite streamSniffers_fixed by done. cbn [recognised]. pose proof (sniffed_safe s m.1 d) as Hsafe.
    destruct (sniffed s m.1 d) as [metadata|err|] eqn:Hv; cbn [sniffedBy verdict]; [by right| |by eapply Hsafe].
    specialize (IH (Some (E_Errors e err)) m d). destruct (tryStreamSniffers _ _ _ _ _) as [[m' [err'|]]|?|?]; [..|done|done].
    + destruct IH as (-> & Hr & Hm). split_and!; [done|by destruct (IsNeedMoreData err)|].
      intros Hmore. apply Hm. cbn [needMore]. rewrite IsNeedMoreData_Errors, orb_true_iff.
      destruct Hmore as [?|(s' & [->|?]%elem_of_cons & Hs')]; [by left; left| |by eauto].
      rewrite Hv in Hs'. cbn in Hs'. destruct (IsNeedMoreData err); [by left; right|done].
    + destruct IH as [[? _]|Hr]; [done|]. right. by destruct (IsNeedMoreData err).
Qed.

(** What the outcome says about the protocol. *)
Definition found (r : result ((InboundContext * SC) * bytes * option GoError * list StreamRead)) : option string :=
  match r with
  | Ok (m, _, None, _) => Some (ic_Protocol m.1)
  | _ => None
  end.

Lemma recognised_mono sniffers metadata d e p : Forall fixedHeader sniffers ->
  recognised sniffers metadata d = Some p -> recognised sniffers metadata (d ++ e) = Some p.
Proof.
  intros Hf (s & Hin & Hv)%recognised_Some. apply (recognised_complete _ _ _ s); [done..|].
  rewrite sniffed_stable; [done|by eapply elem_of_Forall|by rewrite Hv].
Qed.

Lemma rejected_mono sniffers metadata d e : Forall fixedHeader sniffers -> recognised sniffers metadata d = None ->
  ~ (exists s, s ∈ sniffers /\ verdict (sniffed s metadata d) = More) -> recognised sniffers metadata (d ++ e) = None.
Proof.
  intros Hf Hr Hm. destruct (recognised sniffers metadata (d ++ e)) as [p|] eqn:He; [|done]. exfalso.
  apply recognised_Some in He as (s & Hin & Hv).
  rewrite sniffed_stable in Hv; [|by eapply elem_of_Forall|by intros ?; eauto].
  by rewrite (recognised_complete sniffers metadata d s p) in Hr.
Qed.

Lemma peek_found sniffers : sniffers <> [] -> Forall fixedHeader sniffers ->
  forall (data : list bytes) (m : InboundContext * SC) buffer i e,
  (data = [] -> recognised sniffers m.1 buffer = None /\ (e = None -> i = 0%nat)) ->
  found (PeekStream (streamSniffers Unpack others) m (map StreamData data) [] buffer sniffers i e) =
  recognised sniffers m.1 (buffer ++ concat data).
Proof.
  intros Hn Hf. induction data as [|d data IH]; intros m buffer i e He; cbn [map PeekStream concat].
  - destruct (He eq_refl) as [Hr Hi]. rewrite app_nil_r, Hr. destruct e; [by destruct i|]. by rewrite Hi.
  - pose proof (attempt sniffers Hf None m (buffer ++ d)) as Ha. cbn [app]. rewrite app_assoc.
    destruct (tryStreamSniffers _ _ _ _ _) as [[m' [err|]]|?|?]; [..|done|done]; cbn [mbind result_bind].
    + destruct Ha as (-> & Hr & Hm). destruct (IsNeedMoreData err) eqn:Hmore; [by apply IH|]. cbn.
      symmetry. apply rejected_mono; [done..|]. intros Hs. discriminate Hm. by right.
    + destruct Ha as [[_ ?]|Ha]; [done|]. cbn. symmetry. by apply recognised_mono.
Qed.

(** C28: For a list of sniffers made of those for BitTorrent, SSH and RDP, and without
    buffers of an earlier sniff, the protocol that is found does not depend on
    how the stream is cut into reads: sniffing stops with the protocol of the
    sniffer that accepts all the data that arrives, and without one when there
    is none. *)
Theorem sniffing_ignores_segmentation sniffers (m : InboundContext * SC) (data : list bytes) :
  sniffers <> [] -> Forall fixedHeader sniffers -> data <> [] ->
  found (PeekStream (streamSniffers Unpack others) m (map StreamData data) [] [] sniffers 0 None) =
  recognised sniffers m.1 (concat data).
Proof. intros Hn Hf Hd. by rewrite peek_found. Qed.
End stream.

Definition splitHandshake : list bytes :=
  [stringBytes (String (Ascii.ascii_of_nat 19) "BitTorrent"); []; stringBytes " protocol"; stringBytes "00000000"].

Lemma sniffing_ignores_segmentation_witness :
  found (PeekStream (streamSniffers (fun _ => inr IO_EOF) (fun _ m _ => (m, Err OS_ErrInvalid)))
           (inboundContextZero, tt) (map StreamData splitHandshake) [] [] [SSH; BitTorrent; RDP] 0 None) = Some ProtocolBitTorrent.
Proof.
  rewrite sniffing_ignores_segmentation; [reflexivity|discriminate| |discriminate].
  repeat constructor.
Defined.

(** A handshake that an earlier action left in one buffer while its end arrives
    in the next is not found: one [Read] does not go beyond a buffer. *)
Lemma bittorrent_over_two_buffers : exists first second,
  verdict (sniffBitTorrent inboundContextZero [first ++ second]) = Accept ProtocolBitTorrent /\
  forall more, verdict (sniffBitTorrent inboundContextZero [first; second ++ more]) = More.
Proof. exists (stringBytes (String (Ascii.ascii_of_nat 19) "BitTorrent")), (stringBytes " protocol"). split; [reflexivity|]. reflexivity. Qed.
