(* ===== verification/Srs.v ===== *)
(** [common/srs]: the binary format of rule-sets.  The writer is a function to
    bytes (the underlying writer is assumed not to fail); the reader works on
    the bytes of a file. *)
From S2P Require Import Prelude Netip Metadata RuleItem RuleAction Options RuleBuild Bytes.

(** Packages the format relies on: [sing]'s [varbin], [domain] and [badjson],
    [netipx], and [compress/zlib].  [zlib_NewReader] yields the data that can
    be decompressed and the error met after it ([io.EOF] in a complete file). *)
Class SrsLibs `{Libs} := {
  WriteUvarint : Z -> list byte;
  Matcher_Write : DomainMatcher -> list byte;
  ReadMatcher : GoError -> list byte -> result (DomainMatcher * list byte);
  Matcher_Dump : DomainMatcher -> slice string * slice string;
  AdGuardMatcher_Write : AdGuardMatcher -> list byte;
  ReadAdGuardMatcher : GoError -> list byte -> result (AdGuardMatcher * list byte);
  AdGuardMatcher_Dump : AdGuardMatcher -> slice string;
  IPSet_Prefixes : IPSet -> list Prefix;
  TypedMap_Put : list (Z * list Prefix) -> Z -> list Prefix -> list (Z * list Prefix);
  zlib_compress : list byte -> list byte;
  zlib_NewReader : list byte -> (list byte * GoError) + GoError;
  (* the memory the run-time grants a slice, and the size of a rule in it *)
  maxAlloc : Z;
  sizeofHeadlessRule : Z
}.

Definition MagicBytes : list byte := [Byte.x53; Byte.x52; Byte.x53].

Definition RuleSetVersion1 : Z := 1.
Definition RuleSetVersion2 : Z := 2.
Definition RuleSetVersion3 : Z := 3.
Definition RuleSetVersion4 : Z := 4.
Definition RuleSetVersion5 : Z := 5.
Definition RuleSetVersionCurrent : Z := RuleSetVersion5.

Definition ruleItemQueryType : Z := 0.
Definition ruleItemNetwork : Z := 1.
Definition ruleItemDomain : Z := 2.
Definition ruleItemDomainKeyword : Z := 3.
Definition ruleItemDomainRegex : Z := 4.
Definition ruleItemSourceIPCIDR : Z := 5.
Definition ruleItemIPCIDR : Z := 6.
Definition ruleItemSourcePort : Z := 7.
Definition ruleItemSourcePortRange : Z := 8.
Definition ruleItemPort : Z := 9.
Definition ruleItemPortRange : Z := 10.
Definition ruleItemProcessName : Z := 11.
Definition ruleItemProcessPath : Z := 12.
Definition ruleItemPackageName : Z := 13.
Definition ruleItemWIFISSID : Z := 14.
Definition ruleItemWIFIBSSID : Z := 15.
Definition ruleItemAdGuardDomain : Z := 16.
Definition ruleItemProcessPathRegex : Z := 17.
Definition ruleItemNetworkType : Z := 18.
Definition ruleItemNetworkIsExpensive : Z := 19.
Definition ruleItemNetworkIsConstrained : Z := 20.
Definition ruleItemNetworkInterfaceAddress : Z := 21.
Definition ruleItemDefaultInterfaceAddress : Z := 22.
Definition ruleItemPackageNameRegex : Z := 23.
Definition ruleItemFinal : Z := 255.

Section srs.
Context `{SrsLibs}.

(** * Writing *)

Definition writeUvarintLen {A} (l : list A) : list byte := WriteUvarint (Z.of_nat (length l)).


Definition writeString (s : string) : list byte := writeUvarintLen (stringBytes s) ++ stringBytes s.

Definition writeRuleItemString (itemType : Z) (value : list string) : list byte :=
  byteOf itemType :: writeUvarintLen value ++ concat (map writeString value).

Definition writeRuleItemUint8 (itemType : Z) (value : list Z) : list byte :=
  byteOf itemType :: writeUvarintLen value ++ map byteOf value.

Definition writeRuleItemUint16 (itemType : Z) (value : list Z) : list byte :=
  byteOf itemType :: writeUvarintLen value ++ concat (map (be 2) value).

Definition writePrefix (prefix : Prefix) : list byte :=
  let addrSlice := AsSlice (pfx_addr prefix) in
  writeUvarintLen addrSlice ++ addrSlice ++ [byteOf (pfx_bits prefix)].

Definition writeIPRange (r : IPRange) : list byte :=
  let fromBytes := AsSlice (range_from r) in
  let toBytes := AsSlice (range_to r) in
  writeUvarintLen fromBytes ++ fromBytes ++ writeUvarintLen toBytes ++ toBytes.

Definition writeIPSet (set : IPSet) : list byte :=
  byteOf 1 :: be 8 (Z.of_nat (length (rr set))) ++ concat (map writeIPRange (rr set)).

(** The set of a list of prefixes and addresses. *)
Definition cidrSet (value : list string) : result IPSet :=
  builder ← mapR_from parseCIDR 0 value; IPSetBuilder_IPSet builder.

Definition writeRuleItemCIDR (itemType : Z) (value : list string) : result (list byte) :=
  ipSet ← cidrSet value; Ok (byteOf itemType :: writeIPSet ipSet).

(** An item that needs a version of the format. *)
Definition since (version generateVersion : Z) (message : string) (b : list byte) : result (list byte) :=
  if generateVersion <? version then Err (E_New message) else Ok b.

Definition whenGiven {A} (s : slice A) (write : list A -> result (list byte)) : result (list byte) :=
  if given s then write (elems s) else Ok [].

Definition writeInterfaceEntry (e : Z * list Prefix) : list byte :=
  byteOf e.1 :: writeUvarintLen e.2 ++ concat (map writePrefix e.2).

(** The items of a default rule in the order they are written. *)
Definition defaultRuleItems (rule : DefaultHeadlessRule) (generateVersion : Z) : list (result (list byte)) :=
  [ whenGiven (h_QueryType rule) (fun l => Ok (writeRuleItemUint16 ruleItemQueryType l));
    whenGiven (h_Network rule) (fun l => Ok (writeRuleItemString ruleItemNetwork l));
    (if given (h_Domain rule) || given (h_DomainSuffix rule)
     then Ok (byteOf ruleItemDomain :: Matcher_Write
                (NewMatcher (elems (h_Domain rule)) (elems (h_DomainSuffix rule)) (generateVersion =? RuleSetVersion1)))
     else Ok []);
    whenGiven (h_DomainKeyword rule) (fun l => Ok (writeRuleItemString ruleItemDomainKeyword l));
    whenGiven (h_DomainRegex rule) (fun l => Ok (writeRuleItemString ruleItemDomainRegex l));
    whenGiven (h_SourceIPCIDR rule) (fun l => cause "source_ip_cidr" (writeRuleItemCIDR ruleItemSourceIPCIDR l));
    whenGiven (h_IPCIDR rule) (fun l => cause "ipcidr" (writeRuleItemCIDR ruleItemIPCIDR l));
    whenGiven (h_SourcePort rule) (fun l => Ok (writeRuleItemUint16 ruleItemSourcePort l));
    whenGiven (h_SourcePortRange rule) (fun l => Ok (writeRuleItemString ruleItemSourcePortRange l));
    whenGiven (h_Port rule) (fun l => Ok (writeRuleItemUint16 ruleItemPort l));
    whenGiven (h_PortRange rule) (fun l => Ok (writeRuleItemString ruleItemPortRange l));
    whenGiven (h_ProcessName rule) (fun l => Ok (writeRuleItemString ruleItemProcessName l));
    whenGiven (h_ProcessPath rule) (fun l => Ok (writeRuleItemString ruleItemProcessPath l));
    whenGiven (h_ProcessPathRegex rule) (fun l => Ok (writeRuleItemString ruleItemProcessPathRegex l));
    whenGiven (h_PackageName rule) (fun l => Ok (writeRuleItemString ruleItemPackageName l));
    whenGiven (h_PackageNameRegex rule) (fun l =>
      since RuleSetVersion5 generateVersion
        "`package_name_regex` rule item is only supported in version 5 or later" (writeRuleItemString ruleItemPackageNameRegex l));
    whenGiven (h_NetworkType rule) (fun l =>
      since RuleSetVersion3 generateVersion
        "`network_type` rule item is only supported in version 3 or later" (writeRuleItemUint8 ruleItemNetworkType l));
    (if h_NetworkIsExpensive rule
     then since RuleSetVersion3 generateVersion
        "`network_is_expensive` rule item is only supported in version 3 or later" [byteOf ruleItemNetworkIsExpensive] else Ok []);
    (if h_NetworkIsConstrained rule
     then since RuleSetVersion3 generateVersion
        "`network_is_constrained` rule item is only supported in version 3 or later" [byteOf ruleItemNetworkIsConstrained] else Ok []);
    whenGiven (h_NetworkInterfaceAddress rule) (fun l =>
      since RuleSetVersion4 generateVersion
        "`network_interface_address` rule item is only supported in version 4 or later"
        (byteOf ruleItemNetworkInterfaceAddress :: writeUvarintLen l ++ concat (map writeInterfaceEntry l)));
    whenGiven (h_DefaultInterfaceAddress rule) (fun l =>
      since RuleSetVersion4 generateVersion
        "`default_interface_address` rule item is only supported in version 4 or later"
        (byteOf ruleItemDefaultInterfaceAddress :: writeUvarintLen l ++ concat (map writePrefix l)));
    whenGiven (h_WIFISSID rule) (fun l => Ok (writeRuleItemString ruleItemWIFISSID l));
    whenGiven (h_WIFIBSSID rule) (fun l => Ok (writeRuleItemString ruleItemWIFIBSSID l));
    whenGiven (h_AdGuardDomain rule) (fun l =>
      if generateVersion <? RuleSetVersion2
      then Err (E_New "AdGuard rule items is only supported in version 2 or later")
      else Ok (byteOf ruleItemAdGuardDomain :: AdGuardMatcher_Write (NewAdGuardMatcher l))) ].

(** Bytes written one after the other, until an error. *)
Fixpoint concatR (l : list (result (list byte))) : result (list byte) :=
  match l with
  | [] => Ok []
  | m :: l' => b ← m; bs ← concatR l'; Ok (b ++ bs)
  end.

Definition boolByte (b : bool) : byte := if b then Byte.x01 else Byte.x00.

Definition writeDefaultRule (rule : DefaultHeadlessRule) (generateVersion : Z) : result (list byte) :=
  items ← concatR (defaultRuleItems rule generateVersion);
  Ok (byteOf 0 :: items ++ [byteOf ruleItemFinal; boolByte (h_Invert rule)]).

(** [subs] is what writing the rules comes to. *)
Definition writeLogicalRule (mode : string) (rules : list HeadlessRule) (inv : bool) (subs : list (result (list byte)))
    : result (list byte) :=
  modeByte ← (if String.eqb mode LogicalTypeAnd then Ok (byteOf 0)
              else if String.eqb mode LogicalTypeOr then Ok (byteOf 1)
              else Panic ("unknown logical mode: " +:+ mode));
  subs ← concatR subs;
  Ok (byteOf 1 :: modeByte :: writeUvarintLen rules ++ subs ++ [boolByte inv]).

Fixpoint writeRule (rule : HeadlessRule) (generateVersion : Z) : result (list byte) :=
  match rule with
  | mkHeadlessRule t o mode rules inv =>
      if String.eqb t RuleTypeDefault then writeDefaultRule o generateVersion
      else if String.eqb t RuleTypeLogical then
        writeLogicalRule mode rules inv (map (fun r => writeRule r generateVersion) rules)
      else Panic ("unknown rule type: " +:+ t)
  end.

(** What is compressed. *)
Definition writeBody (rules : list HeadlessRule) (generateVersion : Z) : result (list byte) :=
  bs ← concatR (map (fun r => writeRule r generateVersion) rules);
  Ok (writeUvarintLen rules ++ bs).

Definition Write (rules : list HeadlessRule) (generateVersion : Z) : result (list byte) :=
  body ← writeBody rules generateVersion;
  Ok (MagicBytes ++ [byteOf generateVersion] ++ zlib_compress body).

(** * Reading *)

Section reading.
(** The error met after the data. *)
Variable endErr : GoError.

(** [make([]T, n)] for elements of [size] bytes. *)
Definition makeSlice (size n : Z) : result unit :=
  if n * size <=? maxAlloc then Ok tt else Panic "makeslice: len out of range".

(** A length, a buffer of that length, and its contents. *)
Definition readBytes (s : list byte) : result (list byte * list byte) :=
  '(n, s) ← ReadUvarint endErr s;
  _ ← makeSlice 1 n;
  ReadFull endErr n s.

Definition readRuleItemString (s : list byte) : result (list string * list byte) :=
  '(n, s) ← ReadUvarint endErr s;
  _ ← makeSlice 16 n;
  readLoop (fun _ s => '(buf, s) ← readBytes s; Ok (String.string_of_list_byte buf, s)) n s.

Definition readRuleItemUint8 (s : list byte) : result (list Z * list byte) :=
  '(buf, s) ← readBytes s; Ok (map byteVal buf, s).

(** Pairs of bytes as 16-bit integers. *)
Fixpoint uint16s (l : list byte) : list Z :=
  match l with a :: b :: l' => beVal [a; b] :: uint16s l' | _ => [] end.

Definition readRuleItemUint16 (s : list byte) : result (list Z * list byte) :=
  '(n, s) ← ReadUvarint endErr s;
  _ ← makeSlice 2 n;
  '(buf, s) ← ReadFull endErr (2 * n) s;
  Ok (uint16s buf, s).

Definition readPrefix (s : list byte) : result (Prefix * list byte) :=
  '(addrSlice, s) ← readBytes s;
  '(prefixBits, s) ← readByte endErr s;
  Ok (NetipPrefix.PrefixFrom (AddrFromIP addrSlice) prefixBits, s).

Definition readIPRange (s : list byte) : result (IPRange * list byte) :=
  '(fromBytes, s) ← readBytes s;
  '(toBytes, s) ← readBytes s;
  Ok (mkIPRange (AddrFromIP fromBytes) (AddrFromIP toBytes), s).

Definition readIPSet (s : list byte) : result (IPSet * list byte) :=
  '(version, s) ← readByte endErr s;
  if negb (version =? 1) then Err OS_ErrInvalid
  else
    '(lengthBytes, s) ← ReadFull endErr 8 s;
    let n := beVal lengthBytes in
    _ ← makeSlice 48 n;
    '(ranges, s) ← readLoop (fun _ s => readIPRange s) n s;
    Ok (mkIPSet ranges, s).

Definition readPrefixes (s : list byte) : result (list Prefix * list byte) :=
  '(n, s) ← ReadUvarint endErr s;
  readLoop (fun _ s => readPrefix s) n s.

(** The entries of [network_interface_address], before they are put in a map. *)
Definition readInterfaceEntry (s : list byte) : result (Z * list Prefix * list byte) :=
  '(key, s) ← readByte endErr s;
  '(value, s) ← readPrefixes s;
  Ok (key, value, s).

(** [rule.F, err = readX(reader)], and the slice it leaves. *)
Definition setting {A B} (m : result (A * list byte)) (set : A -> B) : result (B * list byte) :=
  '(a, s) ← m; Ok (set a, s).

(** The [switch] on the type of an item, but for the last one. *)
Definition readItem (recover : bool) (itemType lastItemType : Z) (rule : DefaultHeadlessRule) (s : list byte)
    : result (DefaultHeadlessRule * list byte) :=
  if itemType =? ruleItemQueryType then
    setting (readRuleItemUint16 s) (fun l => rule {{ h_QueryType := Some l }})
  else if itemType =? ruleItemNetwork then
    setting (readRuleItemString s) (fun l => rule {{ h_Network := Some l }})
  else if itemType =? ruleItemDomain then
    setting (ReadMatcher endErr s) (fun m =>
      let rule := rule {{ h_DomainMatcher := Some m }} in
      if recover
      then rule {{ h_Domain := (Matcher_Dump m).1; h_DomainSuffix := (Matcher_Dump m).2 }}
      else rule)
  else if itemType =? ruleItemDomainKeyword then
    setting (readRuleItemString s) (fun l => rule {{ h_DomainKeyword := Some l }})
  else if itemType =? ruleItemDomainRegex then
    setting (readRuleItemString s) (fun l => rule {{ h_DomainRegex := Some l }})
  else if itemType =? ruleItemSourceIPCIDR then
    setting (readIPSet s) (fun set =>
      let rule := rule {{ h_SourceIPSet := Some set }} in
      if recover then rule {{ h_SourceIPCIDR := Some (map Prefix_String (IPSet_Prefixes set)) }} else rule)
  else if itemType =? ruleItemIPCIDR then
    setting (readIPSet s) (fun set =>
      let rule := rule {{ h_IPSet := Some set }} in
      if recover then rule {{ h_IPCIDR := Some (map Prefix_String (IPSet_Prefixes set)) }} else rule)
  else if itemType =? ruleItemSourcePort then
    setting (readRuleItemUint16 s) (fun l => rule {{ h_SourcePort := Some l }})
  else if itemType =? ruleItemSourcePortRange then
    setting (readRuleItemString s) (fun l => rule {{ h_SourcePortRange := Some l }})
  else if itemType =? ruleItemPort then
    setting (readRuleItemUint16 s) (fun l => rule {{ h_Port := Some l }})
  else if itemType =? ruleItemPortRange then
    setting (readRuleItemString s) (fun l => rule {{ h_PortRange := Some l }})
  else if itemType =? ruleItemProcessName then
    setting (readRuleItemString s) (fun l => rule {{ h_ProcessName := Some l }})
  else if itemType =? ruleItemProcessPath then
    setting (readRuleItemString s) (fun l => rule {{ h_ProcessPath := Some l }})
  else if itemType =? ruleItemProcessPathRegex then
    setting (readRuleItemString s) (fun l => rule {{ h_ProcessPathRegex := Some l }})
  else if itemType =? ruleItemPackageName then
    setting (readRuleItemString s) (fun l => rule {{ h_PackageName := Some l }})
  else if itemType =? ruleItemPackageNameRegex then
    setting (readRuleItemString s) (fun l => rule {{ h_PackageNameRegex := Some l }})
  else if itemType =? ruleItemWIFISSID then
    setting (readRuleItemString s) (fun l => rule {{ h_WIFISSID := Some l }})
  else if itemType =? ruleItemWIFIBSSID then
    setting (readRuleItemString s) (fun l => rule {{ h_WIFIBSSID := Some l }})
  else if itemType =? ruleItemAdGuardDomain then
    setting (ReadAdGuardMatcher endErr s) (fun m =>
      let rule := rule {{ h_AdGuardDomainMatcher := Some m }} in
      if recover then rule {{ h_AdGuardDomain := AdGuardMatcher_Dump m }} else rule)
  else if itemType =? ruleItemNetworkType then
    setting (readRuleItemUint8 s) (fun l => rule {{ h_NetworkType := Some l }})
  else if itemType =? ruleItemNetworkIsExpensive then Ok (rule {{ h_NetworkIsExpensive := true }}, s)
  else if itemType =? ruleItemNetworkIsConstrained then Ok (rule {{ h_NetworkIsConstrained := true }}, s)
  else if itemType =? ruleItemNetworkInterfaceAddress then
    '(n, s) ← ReadUvarint endErr s;
    setting (readLoop (fun _ s => readInterfaceEntry s) n s) (fun l =>
      rule {{ h_NetworkInterfaceAddress := Some (foldl (fun m e => TypedMap_Put m e.1 e.2) [] l) }})
  else if itemType =? ruleItemDefaultInterfaceAddress then
    setting (readPrefixes s) (fun l => rule {{ h_DefaultInterfaceAddress := if nonempty l then Some l else None }})
  else Err (E_New ("unknown rule item type: " +:+ F_ToString itemType +:+ ", last type: " +:+ F_ToString lastItemType)).

(** The loop of [readDefaultRule]; each turn uses a byte of the data. *)
Fixpoint readItems (fuel : nat) (recover : bool) (lastItemType : Z) (rule : DefaultHeadlessRule) (s : list byte)
    : result (DefaultHeadlessRule * list byte) :=
  match fuel with
  | O => Panic outOfFuel
  | S fuel' =>
      '(itemType, s) ← readByte endErr s;
      if itemType =? ruleItemFinal then
        '(inv, s) ← readBool endErr s; Ok (rule {{ h_Invert := inv }}, s)
      else
        '(rule, s) ← readItem recover itemType lastItemType rule s;
        readItems fuel' recover itemType rule s
  end.

Definition readDefaultRule (recover : bool) (s : list byte) : result (DefaultHeadlessRule * list byte) :=
  readItems (S (length s)) recover 0 headlessRuleZero s.

(** [readRule] with [readLogicalRule]; a nested rule uses a byte of the data. *)
Fixpoint readRule (fuel : nat) (recover : bool) (s : list byte) : result (HeadlessRule * list byte) :=
  match fuel with
  | O => Panic outOfFuel
  | S fuel' =>
      '(ruleType, s) ← readByte endErr s;
      if ruleType =? 0 then
        '(rule, s) ← readDefaultRule recover s;
        Ok (mkHeadlessRule RuleTypeDefault rule "" [] false, s)
      else if ruleType =? 1 then
        '(mode, s) ← readByte endErr s;
        mode ← (if mode =? 0 then Ok LogicalTypeAnd
                else if mode =? 1 then Ok LogicalTypeOr
                else Err (E_New ("unknown logical mode: " +:+ F_ToString mode)));
        '(n, s) ← ReadUvarint endErr s;
        _ ← makeSlice sizeofHeadlessRule n;
        '(rules, s) ← readLoop (fun i s =>
          cause ("read logical rule [" +:+ F_ToString i +:+ "]") (readRule fuel' recover s)) n s;
        '(inv, s) ← readBool endErr s;
        Ok (mkHeadlessRule RuleTypeLogical headlessRuleZero mode rules inv, s)
      else Err (E_New ("unknown rule type: " +:+ F_ToString ruleType))
  end.

Definition readBody (recover : bool) (s : list byte) : result (list HeadlessRule) :=
  '(n, s) ← ReadUvarint endErr s;
  _ ← makeSlice sizeofHeadlessRule n;
  '(rules, _) ← readLoop (fun i s =>
    cause ("read rule[" +:+ F_ToString i +:+ "]") (readRule (S (length s)) recover s)) n s;
  Ok rules.

End reading.

(** [Read]: the version of the file and its rules. *)
Definition Read (file : list byte) (recover : bool) : result (Z * list HeadlessRule) :=
  '(magicBytes, s) ← ReadFull IO_EOF 3 file;
  if negb (bool_decide (magicBytes = MagicBytes)) then Err (E_New "invalid sing-box rule-set file")
  else
    '(version, s) ← readByte IO_EOF s;
    if RuleSetVersionCurrent <? version then Err (E_New ("unsupported version: " +:+ F_ToString version))
    else
      match zlib_NewReader s with
      | inr err => Err err
      | inl (data, endErr) => rules ← readBody endErr recover data; Ok (version, rules)
      end.

End srs.
