(* ===== verification/SrsTotal.v ===== *)
(** The reader of the binary format always comes to an end. *)
From S2P Require Import Prelude Netip Metadata RuleItem RuleAction Options RuleBuild Bytes Srs.

(** [rd] comes to an end on data of less than [N] bytes and does not lengthen
    it; when [strict] it uses at least a byte. *)
Definition reads (N : nat) (strict : bool) {A} (rd : list byte -> result (A * list byte)) : Prop :=
  forall s, (length s < N)%nat ->
    rd s <> Panic outOfFuel /\
    forall a s', rd s = Ok (a, s') -> (length s' + (if strict then 1 else 0) <= length s)%nat.

Section combinators.
Context {A B : Type} (N : nat).

Lemma reads_ret (a : A) : reads N false (fun s => Ok (a, s)).
Proof. intros s _. split; [done|]. intros ? ? Heq. simplify_eq. lia. Qed.

Lemma reads_err strict e : reads N strict (fun _ => (Err e : result (A * list byte))).
Proof. by intros s _. Qed.

Lemma reads_weaken strict (rd : list byte -> result (A * list byte)) : reads N strict rd -> reads N false rd.
Proof. intros Hr s Hs. destruct (Hr s Hs) as [? Hl]. split; [done|]. intros a s' Ho. apply Hl in Ho. destruct strict; lia. Qed.

Lemma reads_bind s1 s2 (rd : list byte -> result (A * list byte)) (k : A -> list byte -> result (B * list byte)) :
  reads N s1 rd -> (forall a, reads N s2 (k a)) ->
  reads N (s1 || s2) (fun s => '(a, s) ← rd s; k a s).
Proof.
  intros Hr Hk s Hs. destruct (Hr s Hs) as [Hf Hl].
  destruct (rd s) as [[a s1']|e|p] eqn:Hrd; cbn.
  - specialize (Hl _ _ eq_refl). destruct (Hk a s1') as [Hkf Hkl]; [destruct s1; lia|]. split; [done|].
    intros b s2' Ho. apply Hkl in Ho. destruct s1, s2; cbn; lia.
  - done.
  - split; [congruence|done].
Qed.

Lemma reads_if strict (c : bool) (r1 r2 : list byte -> result (A * list byte)) :
  reads N strict r1 -> reads N strict r2 -> reads N strict (fun s => if c then r1 s else r2 s).
Proof. by destruct c. Qed.

Lemma reads_cause strict m (rd : list byte -> result (A * list byte)) :
  reads N strict rd -> reads N strict (fun s => cause m (rd s)).
Proof.
  intros Hr s Hs. destruct (Hr s Hs) as [Hf Hl]. destruct (rd s) as [[a s']|e|p]; cbn; [split; [done|]|done|].
  - intros ? ? Heq. by eapply Hl.
  - split; [congruence|done].
Qed.

Lemma reads_readMany (rd : Z -> list byte -> result (A * list byte)) : (forall i, reads N true (rd i)) ->
  forall fuel i n s, (length s < N)%nat -> (length s < fuel)%nat ->
  readMany rd fuel i n s <> Panic outOfFuel /\
  forall l s', readMany rd fuel i n s = Ok (l, s') -> (length s' <= length s)%nat.
Proof.
  intros Hr. induction fuel as [|fuel IH]; intros i n s Hs Hf; [lia|]. cbn [readMany].
  destruct (n <=? i). { split; [done|]. intros ? ? Heq. simplify_eq. lia. }
  destruct (Hr i s Hs) as [Hnf Hl]. destruct (rd i s) as [[a s1]|e|p] eqn:Hrd; cbn.
  - specialize (Hl _ _ eq_refl). destruct (IH (i + 1) n s1) as [IHf IHl]; [lia..|].
    destruct (readMany rd fuel (i + 1) n s1) as [[l s2]|e|p]; cbn.
    + specialize (IHl _ _ eq_refl). split; [done|]. intros ? ? Heq. simplify_eq. lia.
    + done.
    + split; [congruence|done].
  - done.
  - split; [congruence|done].
Qed.

Lemma reads_readLoop (rd : Z -> list byte -> result (A * list byte)) n :
  (forall i, reads N true (rd i)) -> reads N false (readLoop rd n).
Proof.
  intros Hr s Hs. destruct (reads_readMany rd Hr (S (length s)) 0 n s Hs ltac:(lia)) as [Hf Hl].
  split; [exact Hf|]. intros l s' Ho. apply Hl in Ho. lia.
Qed.

End combinators.

Lemma bind_no_fuel {A B} (m : result A) (k : A -> result B) :
  m <> Panic outOfFuel -> (forall a, k a <> Panic outOfFuel) -> (a ← m; k a) <> Panic outOfFuel.
Proof. destruct m; cbn; [auto|done|congruence]. Qed.

Lemma reads_ReadUvarint N e : reads N true (ReadUvarint e).
Proof.
  intros s _. split; [|intros a s' Ho; apply ReadUvarint_shorter in Ho; lia].
  cut (forall left s i x shift, uvarintLoop e left i x shift s <> Panic outOfFuel); [intros Hl; apply Hl|].
  clear. induction left as [|left IH]; intros s i x shift; cbn [uvarintLoop]; [done|].
  destruct s as [|b s]; [done|]. destruct (byteVal b <? 128); [by destruct (_ && _)|apply IH].
Qed.

Lemma reads_readByte N e : reads N true (readByte e).
Proof. intros [|b s] _; cbn; [done|]. split; [done|]. intros ? ? Heq. simplify_eq. lia. Qed.

Lemma reads_ReadFull N e n : reads N false (ReadFull e n).
Proof.
  intros s _. split; [unfold ReadFull; by case_match|]. intros a s' Ho. apply ReadFull_shorter in Ho. lia.
Qed.

Lemma reads_readBool N e : reads N true (readBool e).
Proof. apply (reads_bind N true false); [apply reads_readByte|]. intros b. apply reads_ret. Qed.

Section total.
Context `{SrsLibs}.
Variable endErr : GoError.

(** The readers of matchers come to an end and only consume data. *)
Hypothesis ReadMatcher_reads : forall N e, reads N false (ReadMatcher e).
Hypothesis ReadAdGuardMatcher_reads : forall N e, reads N false (ReadAdGuardMatcher e).

Lemma reads_make N strict {A} size n (rd : list byte -> result (A * list byte)) :
  reads N strict rd -> reads N strict (fun s => _ ← makeSlice size n; rd s).
Proof. intros Hr s Hs. unfold makeSlice. case_match; [by apply Hr|done]. Qed.

Lemma reads_setting N strict {A B} (rd : list byte -> result (A * list byte)) (f : A -> B) :
  reads N strict rd -> reads N strict (fun s => setting (rd s) f).
Proof.
  intros Hr. unfold setting. rewrite <- (orb_false_r strict). apply reads_bind; [done|]. intros a. apply reads_ret.
Qed.

Lemma reads_readBytes N : reads N true (readBytes endErr).
Proof.
  apply (reads_bind N true false); [apply reads_ReadUvarint|]. intros n. apply reads_make, reads_ReadFull.
Qed.

Lemma reads_readRuleItemString N : reads N true (readRuleItemString endErr).
Proof.
  apply (reads_bind N true false); [apply reads_ReadUvarint|]. intros n. apply reads_make, reads_readLoop.
  intros i. apply (reads_bind N true false); [apply reads_readBytes|]. intros b. apply reads_ret.
Qed.

Lemma reads_readRuleItemUint8 N : reads N true (readRuleItemUint8 endErr).
Proof. apply (reads_bind N true false); [apply reads_readBytes|]. intros b. apply reads_ret. Qed.

Lemma reads_readRuleItemUint16 N : reads N true (readRuleItemUint16 endErr).
Proof.
  apply (reads_bind N true false); [apply reads_ReadUvarint|]. intros n. apply reads_make.
  apply (reads_bind N false false); [apply reads_ReadFull|]. intros b. apply reads_ret.
Qed.

Lemma reads_readPrefix N : reads N true (readPrefix endErr).
Proof.
  apply (reads_bind N true true); [apply reads_readBytes|]. intros a.
  apply (reads_bind N true false); [apply reads_readByte|]. intros b. apply reads_ret.
Qed.

Lemma reads_readIPSet N : reads N true (readIPSet endErr).
Proof.
  apply (reads_bind N true false); [apply reads_readByte|]. intros v. apply reads_if; [apply reads_err|].
  apply (reads_bind N false false); [apply reads_ReadFull|]. intros l. apply reads_make.
  apply (reads_bind N false false); [|intros ranges; apply reads_ret]. apply reads_readLoop. intros i.
  apply (reads_bind N true true); [apply reads_readBytes|]. intros f.
  apply (reads_bind N true false); [apply reads_readBytes|]. intros t. apply reads_ret.
Qed.

Lemma reads_readPrefixes N : reads N true (readPrefixes endErr).
Proof.
  apply (reads_bind N true false); [apply reads_ReadUvarint|]. intros n. apply reads_readLoop. intros i.
  apply reads_readPrefix.
Qed.

Lemma reads_readItem N recover itemType last rule : reads N false (readItem endErr recover itemType last rule).
Proof.
  unfold readItem.
  repeat (apply reads_if; [first
    [ apply reads_setting; first
        [ apply ReadMatcher_reads | apply ReadAdGuardMatcher_reads
        | eapply reads_weaken; first
            [ apply reads_readRuleItemUint16 | apply reads_readRuleItemString | apply reads_readIPSet
            | apply reads_readRuleItemUint8 | apply reads_readPrefixes ] ]
    | apply reads_ret
    | apply (reads_weaken _ true), (reads_bind N true false); [apply reads_ReadUvarint|]; intros n;
      apply reads_setting, reads_readLoop; intros i;
      apply (reads_bind N true true); [apply reads_readByte|]; intros k;
      apply (reads_bind N true false); [apply reads_readPrefixes|]; intros v; apply reads_ret ]|]).
  apply reads_err.
Qed.

Lemma reads_readItems recover : forall fuel last rule, reads fuel true (readItems endErr fuel recover last rule).
Proof.
  induction fuel as [|fuel IH]; intros last rule s Hs; [lia|]. cbn [readItems].
  destruct (readByte endErr s) as [[t s1]|e|p] eqn:Hb; cbn [mbind].
  2: done. 2: { by destruct s. }
  apply readByte_shorter in Hb. cbn. destruct (t =? ruleItemFinal).
  - destruct (reads_bind (S fuel) true false (readBool endErr) (fun inv s => Ok (rule {{ h_Invert := inv }}, s))
      (reads_readBool _ _) (fun a => reads_ret _ _) s1 ltac:(lia)) as [Hf Hl].
    split; [exact Hf|]. intros a s' Ho. apply Hl in Ho. cbn in Ho. lia.
  - destruct (reads_bind fuel false true (readItem endErr recover t last rule)
      (fun rule s => readItems endErr fuel recover t rule s)
      (reads_readItem _ _ _ _ _) (fun a => IH t a) s1 ltac:(lia)) as [Hf Hl].
    split; [exact Hf|]. intros a s' Ho. apply Hl in Ho. cbn in Ho. lia.
Qed.

Lemma reads_readDefaultRule N recover : reads N true (readDefaultRule endErr recover).
Proof. intros s _. apply reads_readItems. lia. Qed.

Lemma reads_readRule recover : forall fuel, reads fuel true (readRule endErr fuel recover).
Proof.
  induction fuel as [|fuel IH]; intros s Hs; [lia|]. cbn [readRule].
  destruct (readByte endErr s) as [[t s1]|e|p] eqn:Hb; cbn [mbind].
  2: done. 2: { by destruct s. }
  apply readByte_shorter in Hb.
  assert (Hk : reads fuel false (fun s =>
    if t =? 0 then
      '(rule, s) ← readDefaultRule endErr recover s;
      Ok (mkHeadlessRule RuleTypeDefault rule "" [] false, s)
    else if t =? 1 then
      '(mode, s) ← readByte endErr s;
      mode ← (if mode =? 0 then Ok LogicalTypeAnd
              else if mode =? 1 then Ok LogicalTypeOr
              else Err (E_New ("unknown logical mode: " +:+ F_ToString mode)));
      '(n, s) ← ReadUvarint endErr s;
      _ ← makeSlice sizeofHeadlessRule n;
      '(rules, s) ← readLoop (fun i s =>
        cause ("read logical rule [" +:+ F_ToString i +:+ "]") (readRule endErr fuel recover s)) n s;
      '(inv, s) ← readBool endErr s;
      Ok (mkHeadlessRule RuleTypeLogical headlessRuleZero mode rules inv, s)
    else Err (E_New ("unknown rule type: " +:+ F_ToString t)))).
  { apply reads_if; [|apply reads_if; [|apply reads_err]].
    - apply (reads_weaken _ true), (reads_bind fuel true false); [apply reads_readDefaultRule|]. intros r. apply reads_ret.
    - apply (reads_weaken _ true), (reads_bind fuel true false); [apply reads_readByte|]. intros m.
      assert (Hrest : forall mode, reads fuel false (fun s =>
        '(n, s) ← ReadUvarint endErr s;
        _ ← makeSlice sizeofHeadlessRule n;
        '(rules, s) ← readLoop (fun i s =>
          cause ("read logical rule [" +:+ F_ToString i +:+ "]") (readRule endErr fuel recover s)) n s;
        '(inv, s) ← readBool endErr s;
        Ok (mkHeadlessRule RuleTypeLogical headlessRuleZero mode rules inv, s))).
      { intros mode. apply (reads_weaken _ true), (reads_bind fuel true false); [apply reads_ReadUvarint|]. intros n.
        apply reads_make, (reads_bind fuel false false).
        - apply reads_readLoop. intros i. apply reads_cause, IH.
        - intros rules. apply (reads_weaken _ true), (reads_bind fuel true false); [apply reads_readBool|].
          intros inv. apply reads_ret. }
      intros s' Hs'. destruct (m =? 0); [by apply Hrest|]. destruct (m =? 1); [by apply Hrest|done]. }
  destruct (Hk s1 ltac:(lia)) as [Hf Hl]. split; [exact Hf|]. intros a s' Ho. apply Hl in Ho. lia.
Qed.

Lemma readBody_terminates recover s : readBody endErr recover s <> Panic outOfFuel.
Proof.
  unfold readBody. apply bind_no_fuel; [by apply (reads_ReadUvarint (S (length s))); lia|]. intros [n s1].
  apply bind_no_fuel; [unfold makeSlice; by case_match|]. intros _.
  apply bind_no_fuel; [|by intros [rules s2]].
  apply (reads_readLoop (S (length s1))); [|lia]. intros i. apply reads_cause. intros s' _. apply reads_readRule. lia.
Qed.

End total.

(** reading a rule-set file always comes to an end: on every input, of any
    contents, the loops and the recursion of the reader stop within the number
    of bytes of the (decompressed) data, provided the readers of the domain
    matchers do. *)
Theorem srs_read_terminates `{SrsLibs} file recover :
  (forall N e, reads N false (ReadMatcher e)) -> (forall N e, reads N false (ReadAdGuardMatcher e)) ->
  Read file recover <> Panic outOfFuel.
Proof.
  intros Hm Ha. unfold Read. destruct (reads_ReadFull (S (length file)) IO_EOF 3 file ltac:(lia)) as [Hf _].
  apply bind_no_fuel; [done|]. intros [magic s]. destruct (negb _); [done|].
  apply bind_no_fuel; [by destruct s|]. intros [v s1]. destruct (_ <? v); [done|].
  destruct (zlib_NewReader s1) as [[data endErr]|e]; [|done].
  apply bind_no_fuel; [by apply readBody_terminates|done].
Qed.
