(* ===== verification/SrsRoundTrip.v ===== *)
(** What is written in the binary format is read back. *)
From S2P Require Import Prelude Netip Metadata RuleItem RuleAction Options RuleBuild Bytes Srs.
From coqutil Require Import Byte.

(** Addresses without a zone, prefixes and ranges as the packages make them. *)
Definition wf_plain (a : Addr) : Prop := wf_addr a /\ Netip.hasZone a = false.

Definition wf_prefix (p : Prefix) : Prop :=
  wf_plain (pfx_addr p) /\
  (pfx_bits p = -1 \/ (Netip.IsValid (pfx_addr p) = true /\ 0 <= pfx_bits p <= Netip.BitLen (pfx_addr p))).

Definition wf_range (r : IPRange) : Prop := wf_plain (range_from r) /\ wf_plain (range_to r).

(** What the format relies on: the packages read what they write, addresses
    are restored from their bytes, sets built from text hold plain addresses,
    and a map keeps its entries in order. *)
Class SrsLaws `{SrsLibs} : Prop := {
  uvarint_roundtrip : forall e n rest, 0 <= n < 2 ^ 64 -> ReadUvarint e (WriteUvarint n ++ rest) = Ok (n, rest);
  matcher_roundtrip : forall e m rest, ReadMatcher e (Matcher_Write m ++ rest) = Ok (m, rest);
  adguard_roundtrip : forall e m rest, ReadAdGuardMatcher e (AdGuardMatcher_Write m ++ rest) = Ok (m, rest);
  addr_roundtrip : forall a, wf_plain a -> AddrFromIP (AsSlice a) = a;
  cidr_sets_plain : forall value set, cidrSet value = Ok set -> Forall wf_range (rr set);
  put_fresh : forall m k v, k ∉ m.*1 -> TypedMap_Put m k v = m ++ [(k, v)];
  zlib_roundtrip : forall b, zlib_NewReader (zlib_compress b) = inl (b, IO_EOF);
  maxAlloc_bound : maxAlloc < 2 ^ 64;
  rule_size : 48 <= sizeofHeadlessRule
}.

Lemma Forall_elem {A} (P : A -> Prop) l x : Forall P l -> x ∈ l -> P x.
Proof. intros Hf Hx. apply list_elem_of_In in Hx. by eapply Forall_forall in Hf. Qed.

Section roundtrip.
Context `{SrsLaws}.
Variable endErr : GoError.

(** Data for which every slice the reader makes is granted. *)
Definition small (n : nat) : Prop := Z.of_nat n * sizeofHeadlessRule <= maxAlloc.

Lemma small_le m n : small n -> (m <= n)%nat -> small m.
Proof. unfold small. pose proof rule_size. nia. Qed.

Lemma makeSlice_small size n : 0 <= size <= sizeofHeadlessRule -> small n -> makeSlice size (Z.of_nat n) = Ok tt.
Proof. unfold small, makeSlice. intros Hs Hn. rewrite (proj2 (Z.leb_le _ _)); [done|nia]. Qed.

Lemma small_range n : small n -> 0 <= Z.of_nat n < 2 ^ 64.
Proof. unfold small. pose proof rule_size. pose proof maxAlloc_bound. nia. Qed.

Lemma uvarint_nonempty n : 0 <= n < 2 ^ 64 -> WriteUvarint n <> [].
Proof. intros Hn Hw. pose proof (uvarint_roundtrip IO_EOF n [] Hn) as Hr. rewrite Hw in Hr. done. Qed.

Lemma uvarintLen_read {A} (l : list A) rest :
  small (length l) -> ReadUvarint endErr (writeUvarintLen l ++ rest) = Ok (Z.of_nat (length l), rest).
Proof. intros Hl. apply uvarint_roundtrip. by apply small_range. Qed.

Lemma uvarintLen_nonempty {A} (l : list A) : small (length l) -> (0 < length (writeUvarintLen l))%nat.
Proof.
  intros Hl. unfold writeUvarintLen. pose proof (uvarint_nonempty _ (small_range _ Hl)).
  destruct (WriteUvarint _); [done|cbn; lia].
Qed.

Lemma readBytes_written l rest : small (length l) -> readBytes endErr (writeUvarintLen l ++ l ++ rest) = Ok (l, rest).
Proof.
  intros Hl. unfold readBytes. rewrite uvarintLen_read by done. cbn [mbind result_bind].
  pose proof rule_size. cbn. rewrite makeSlice_small by (done || lia). cbn. apply ReadFull_app.
Qed.

(** Elements written one after the other are read back. *)
Lemma readLoop_written {A B} (enc : A -> list byte) (f : A -> B) rd l rest :
  (forall a, a ∈ l -> forall i rest, rd i (enc a ++ rest) = Ok (f a, rest)) ->
  (forall a, a ∈ l -> (0 < length (enc a))%nat) ->
  readLoop rd (Z.of_nat (length l)) (concat (map enc l) ++ rest) = Ok (map f l, rest).
Proof.
  intros Hrd Hne. unfold readLoop.
  assert (Hfuel : (length l < S (length (concat (map enc l) ++ rest)))%nat).
  { rewrite length_app. cut (length l <= length (concat (map enc l)))%nat; [lia|]. clear Hrd.
    induction l as [|a l IH]; cbn; [lia|]. rewrite length_app.
    pose proof (Hne a ltac:(set_solver)). pose proof (IH ltac:(set_solver)). lia. }
  revert Hfuel. generalize (S (length (concat (map enc l) ++ rest))) as fuel.
  change (Z.of_nat (length l)) with (0 + Z.of_nat (length l)). generalize 0 as i.
  clear Hne. induction l as [|a l IH]; intros i fuel Hfuel.
  - destruct fuel; cbn [readMany length Z.of_nat]; by rewrite Z.add_0_r, Z.leb_refl.
  - destruct fuel as [|fuel]; [cbn in Hfuel; lia|]. cbn [readMany map concat length].
    rewrite (proj2 (Z.leb_gt _ _)) by lia. rewrite <- app_assoc, Hrd by set_solver. cbn.
    replace (i + Z.of_nat (S (length l))) with (i + 1 + Z.of_nat (length l)) by lia.
    rewrite IH; [done|set_solver|cbn in Hfuel; lia].
Qed.

Lemma in_concat_length {A} (enc : A -> list byte) a l : a ∈ l -> (length (enc a) <= length (concat (map enc l)))%nat.
Proof.
  induction l as [|b l IH]; [set_solver|]. intros [->|Ha]%elem_of_cons; cbn; rewrite length_app; [lia|].
  apply IH in Ha. lia.
Qed.

Lemma concat_length {A} (enc : A -> list byte) l :
  (forall a, a ∈ l -> (0 < length (enc a))%nat) -> (length l <= length (concat (map enc l)))%nat.
Proof.
  induction l as [|a l IH]; intros Hne; cbn; [lia|]. rewrite length_app.
  pose proof (Hne a ltac:(set_solver)). pose proof (IH ltac:(set_solver)). lia.
Qed.

(** ** Items *)

Lemma writeString_length s : (length (stringBytes s) <= length (writeString s))%nat.
Proof. unfold writeString. rewrite length_app. lia. Qed.

Lemma strings_read l rest :
  small (length (concat (map writeString l))) ->
  readRuleItemString endErr (writeUvarintLen l ++ concat (map writeString l) ++ rest) = Ok (l, rest).
Proof.
  intros Hs. pose proof rule_size.
  assert (Hel : forall a, a ∈ l -> small (length (stringBytes a))).
  { intros a Ha. eapply small_le; [exact Hs|]. pose proof (in_concat_length writeString a l Ha).
    pose proof (writeString_length a). lia. }
  assert (Hne : forall a, a ∈ l -> (0 < length (writeString a))%nat).
  { intros a Ha. unfold writeString. rewrite length_app. pose proof (uvarintLen_nonempty _ (Hel a Ha)). lia. }
  assert (Hl : small (length l)) by (eapply small_le; [exact Hs|by apply concat_length]).
  unfold readRuleItemString. rewrite uvarintLen_read by done. cbn. rewrite makeSlice_small by (done || lia). cbn.
  rewrite (readLoop_written writeString (fun s => s)); [by rewrite map_id| |done].
  intros a Ha i r. unfold writeString. rewrite <- app_assoc, readBytes_written by auto. cbn.
  unfold stringBytes. by rewrite String.string_of_list_byte_of_string.
Qed.

Lemma uint8s_read l rest :
  Forall (fun z => 0 <= z < 256) l -> small (length l) ->
  readRuleItemUint8 endErr (writeUvarintLen l ++ map byteOf l ++ rest) = Ok (l, rest).
Proof.
  intros Hl Hs. unfold readRuleItemUint8.
  replace (writeUvarintLen l) with (writeUvarintLen (map byteOf l)) by (unfold writeUvarintLen; by rewrite length_map).
  rewrite readBytes_written by (by rewrite length_map). cbn. f_equal. f_equal.
  rewrite map_map. induction Hl as [|z l Hz _ IH]; cbn; [done|]. rewrite byteVal_byteOf, IH by (done || (eapply small_le; [exact Hs|cbn; lia])). done.
Qed.

Lemma uint16s_be l : Forall (fun z => 0 <= z < 65536) l -> uint16s (concat (map (be 2) l)) = l.
Proof.
  induction 1 as [|z l Hz _ IH]; [done|]. cbn [map concat].
  pose proof (be_length 2 z) as Hlen. destruct (be 2 z) as [|a [|b [|? ?]]] eqn:E; try done.
  cbn. rewrite IH, <- E, beVal_be; [done|]. cbn. lia.
Qed.

Lemma uint16s_read l rest :
  Forall (fun z => 0 <= z < 65536) l -> small (length l) ->
  readRuleItemUint16 endErr (writeUvarintLen l ++ concat (map (be 2) l) ++ rest) = Ok (l, rest).
Proof.
  intros Hl Hs. pose proof rule_size. unfold readRuleItemUint16. rewrite uvarintLen_read by done. cbn.
  rewrite makeSlice_small by (done || lia). cbn.
  assert (Hlen : length (concat (map (be 2) l)) = (2 * length l)%nat).
  { clear. induction l as [|z l IH]; cbn [map concat]; [done|]. rewrite length_app, be_length, IH. cbn. lia. }
  replace (2 * Z.of_nat (length l)) with (Z.of_nat (length (concat (map (be 2) l)))) by lia.
  rewrite ReadFull_app. cbn. by rewrite uint16s_be.
Qed.

Lemma AsSlice_length a : (length (AsSlice a) <= 16)%nat.
Proof. destruct a; cbn [AsSlice]; rewrite ?be_length; cbn; lia. Qed.

Lemma prefix_read p rest :
  wf_prefix p -> small (length (writePrefix p)) -> readPrefix endErr (writePrefix p ++ rest) = Ok (p, rest).
Proof.
  intros [Ha Hb] Hs. unfold readPrefix, writePrefix. rewrite <- !app_assoc.
  rewrite readBytes_written.
  2: { eapply small_le; [exact Hs|]. unfold writePrefix. rewrite !length_app. lia. }
  cbn. rewrite addr_roundtrip by done. f_equal. f_equal.
  destruct p as [a bits]. cbn in *. destruct Ha as [_ Hz].
  assert (Hwz : Netip.withoutZone a = a) by (destruct a as [| |ip z]; cbn in *; [done..|by destruct z]).
  unfold NetipPrefix.PrefixFrom. rewrite Hwz. f_equal. destruct Hb as [->|[Hv [Hb1 Hb2]]].
  - rewrite byte.unsigned_of_Z. change (byte.wrap (-1)) with 255. rewrite (proj2 (Z.leb_gt 255 _)); [by rewrite andb_false_r|].
    destruct a; cbn; lia.
  - assert (Netip.BitLen a <= 128) by (destruct a; cbn; lia).
    rewrite byteVal_byteOf by lia. rewrite Hv, !(proj2 (Z.leb_le _ _)) by done. done.
Qed.

Lemma writePrefix_nonempty p : (0 < length (writePrefix p))%nat.
Proof. unfold writePrefix. rewrite !length_app. cbn. lia. Qed.

Lemma prefixes_read l rest :
  Forall wf_prefix l -> small (length (concat (map writePrefix l))) ->
  readPrefixes endErr (writeUvarintLen l ++ concat (map writePrefix l) ++ rest) = Ok (l, rest).
Proof.
  intros Hwf Hs.
  assert (Hl : small (length l)).
  { eapply small_le; [exact Hs|]. apply concat_length. intros a _. apply writePrefix_nonempty. }
  unfold readPrefixes. rewrite uvarintLen_read by done. cbn.
  rewrite (readLoop_written writePrefix (fun p => p)); [by rewrite map_id| |intros; apply writePrefix_nonempty].
  intros p Hp i r. apply prefix_read; [by apply (Forall_elem _ _ _ Hwf)|].
  eapply small_le; [exact Hs|]. by apply in_concat_length.
Qed.

Lemma range_read r rest :
  wf_range r -> small (length (writeIPRange r)) -> readIPRange endErr (writeIPRange r ++ rest) = Ok (r, rest).
Proof.
  intros [Hf Ht] Hs. unfold readIPRange, writeIPRange. rewrite <- !app_assoc.
  assert (Hle : forall l : list byte, (length l <= length (writeIPRange r))%nat -> small (length l)) by eauto using small_le.
  rewrite readBytes_written by (apply Hle; unfold writeIPRange; rewrite !length_app; lia). cbn.
  rewrite readBytes_written by (apply Hle; unfold writeIPRange; rewrite !length_app; lia). cbn.
  rewrite !addr_roundtrip by done. by destruct r.
Qed.

Lemma ipset_read set rest :
  Forall wf_range (rr set) -> small (length (concat (map writeIPRange (rr set)))) ->
  readIPSet endErr (writeIPSet set ++ rest) = Ok (set, rest).
Proof.
  intros Hwf Hs. pose proof rule_size.
  assert (Hel : forall r, r ∈ rr set -> small (length (writeIPRange r))).
  { intros r Hr. eapply small_le; [exact Hs|]. by apply in_concat_length. }
  assert (Hne : forall r, r ∈ rr set -> (0 < length (writeIPRange r))%nat).
  { intros r Hr. specialize (Hel r Hr). unfold writeIPRange in *. rewrite length_app.
    assert (small (length (AsSlice (range_from r)))).
    { eapply small_le; [exact Hel|]. rewrite !length_app. lia. }
    pose proof (uvarintLen_nonempty (AsSlice (range_from r)) ltac:(done)). lia. }
  assert (Hl : small (length (rr set))) by (eapply small_le; [exact Hs|by apply concat_length]).
  unfold readIPSet, writeIPSet. cbn. rewrite byteVal_byteOf by lia. cbn.
  rewrite <- app_assoc. change 8 with (Z.of_nat 8) at 1. rewrite <- (be_length 8 (Z.of_nat (length (rr set)))) at 1.
  rewrite ReadFull_app. cbn. rewrite beVal_be by (by apply small_range). rewrite makeSlice_small by (done || lia). cbn.
  rewrite (readLoop_written writeIPRange (fun r => r)); [rewrite map_id; by destruct set| |done].
  intros r Hr i rs. apply range_read; [|auto]. by apply (Forall_elem _ _ _ Hwf).
Qed.

Lemma entries_read l rest :
  Forall (fun e => 0 <= e.1 < 256 /\ Forall wf_prefix e.2) l -> small (length (concat (map writeInterfaceEntry l))) ->
  readLoop (fun _ s => readInterfaceEntry endErr s) (Z.of_nat (length l)) (concat (map writeInterfaceEntry l) ++ rest)
  = Ok (l, rest).
Proof.
  intros Hwf Hs. rewrite (readLoop_written writeInterfaceEntry (fun e => e)); [by rewrite map_id| |].
  2: { intros e _. cbn. lia. }
  intros e He i r. pose proof (in_concat_length writeInterfaceEntry e l He) as Hle.
  destruct (Forall_elem _ _ _ Hwf He) as [Hk Hv]. destruct e as [k v]. cbn in *.
  unfold readInterfaceEntry. cbn. rewrite byteVal_byteOf by done. rewrite <- app_assoc, prefixes_read; [done..|].
  eapply small_le; [exact Hs|]. rewrite length_app in Hle. lia.
Qed.

Lemma put_all l : NoDup l.*1 -> foldl (fun m e => TypedMap_Put m e.1 e.2) [] l = l.
Proof.
  intros Hnd. cut (forall m, NoDup (m.*1 ++ l.*1) -> foldl (fun m e => TypedMap_Put m e.1 e.2) m l = m ++ l).
  { intros Hc. by apply (Hc []). }
  clear Hnd. induction l as [|[k v] l IH]; intros m Hnd; cbn; [by rewrite app_nil_r|].
  cbn in Hnd. apply list.NoDup_app in Hnd as Hnd'. destruct Hnd' as (_ & Hdis & _).
  rewrite put_fresh by (intros Hk; apply (Hdis k Hk); set_solver).
  rewrite IH; [by rewrite <- app_assoc|]. rewrite fmap_app. cbn. by rewrite <- app_assoc.
Qed.

End roundtrip.
