(* ===== verification/SrsRule.v ===== *)
(** Rules written in the binary format are read back in their compiled form. *)
From S2P Require Import Prelude Netip Metadata RuleItem RuleAction Options RuleBuild RuleTree Bytes Srs SrsTotal SrsRoundTrip.

Section rule.
Context `{SrsLaws}.

(** Values in the range of their Go types, and the keys of a map. *)
Definition wf_default (r : DefaultHeadlessRule) : Prop :=
  Forall (fun z => 0 <= z < 65536) (elems (h_QueryType r)) /\
  Forall (fun z => 0 <= z < 65536) (elems (h_SourcePort r)) /\
  Forall (fun z => 0 <= z < 65536) (elems (h_Port r)) /\
  Forall (fun z => 0 <= z < 256) (elems (h_NetworkType r)) /\
  NoDup (elems (h_NetworkInterfaceAddress r)).*1 /\
  Forall (fun e => 0 <= e.1 < 256 /\ Forall wf_prefix e.2) (elems (h_NetworkInterfaceAddress r)) /\
  Forall wf_prefix (elems (h_DefaultInterfaceAddress r)).

(** An optional list as it is stored: empty lists are dropped. *)
Definition stored {A} (s : slice A) : slice A := if given s then Some (elems s) else None.

(** The set stored for a list of prefixes. *)
Definition storedSet (s : slice string) : option IPSet :=
  if given s then match cidrSet (elems s) with Ok set => Some set | _ => None end else None.

(** The compiled form of a rule: lists of domains and prefixes become matchers
    and sets. *)
Definition compiled (version : Z) (r : DefaultHeadlessRule) : DefaultHeadlessRule :=
  {| h_QueryType := stored (h_QueryType r);
     h_Network := stored (h_Network r);
     h_Domain := None;
     h_DomainSuffix := None;
     h_DomainKeyword := stored (h_DomainKeyword r);
     h_DomainRegex := stored (h_DomainRegex r);
     h_SourceIPCIDR := None;
     h_IPCIDR := None;
     h_SourcePort := stored (h_SourcePort r);
     h_SourcePortRange := stored (h_SourcePortRange r);
     h_Port := stored (h_Port r);
     h_PortRange := stored (h_PortRange r);
     h_ProcessName := stored (h_ProcessName r);
     h_ProcessPath := stored (h_ProcessPath r);
     h_ProcessPathRegex := stored (h_ProcessPathRegex r);
     h_PackageName := stored (h_PackageName r);
     h_PackageNameRegex := stored (h_PackageNameRegex r);
     h_NetworkType := stored (h_NetworkType r);
     h_NetworkIsExpensive := h_NetworkIsExpensive r;
     h_NetworkIsConstrained := h_NetworkIsConstrained r;
     h_WIFISSID := stored (h_WIFISSID r);
     h_WIFIBSSID := stored (h_WIFIBSSID r);
     h_NetworkInterfaceAddress := stored (h_NetworkInterfaceAddress r);
     h_DefaultInterfaceAddress := stored (h_DefaultInterfaceAddress r);
     h_Invert := h_Invert r;
     h_DomainMatcher :=
       if given (h_Domain r) || given (h_DomainSuffix r)
       then Some (NewMatcher (elems (h_Domain r)) (elems (h_DomainSuffix r)) (version =? RuleSetVersion1)) else None;
     h_SourceIPSet := storedSet (h_SourceIPCIDR r);
     h_IPSet := storedSet (h_IPCIDR r);
     h_AdGuardDomain := None;
     h_AdGuardDomainMatcher :=
       if given (h_AdGuardDomain r) then Some (NewAdGuardMatcher (elems (h_AdGuardDomain r))) else None |}.

Variable endErr : GoError.

(** Reading the items left in [s] into [rule] gives [out]. *)
Definition decodes (rule : DefaultHeadlessRule) (s : list byte) (out : result (DefaultHeadlessRule * list byte)) : Prop :=
  forall fuel last, (length s < fuel)%nat -> readItems endErr fuel false last rule s = out.

Lemma decodes_item t payload rest rule rule' out :
  0 <= t < 255 -> (forall last, readItem endErr false t last rule (payload ++ rest) = Ok (rule', rest)) ->
  decodes rule' rest out -> decodes rule (byteOf t :: payload ++ rest) out.
Proof.
  intros Ht Hi Hd fuel last Hf. destruct fuel as [|fuel]; [lia|]. cbn [readItems readByte].
  unfold mbind, result_bind at 1. rewrite byteVal_byteOf by lia.
  change ruleItemFinal with 255. rewrite (proj2 (Z.eqb_neq t 255)) by lia.
  rewrite Hi. cbn. apply Hd. cbn in Hf. rewrite length_app in Hf. lia.
Qed.

Lemma decodes_final rule inv rest :
  decodes rule ([byteOf ruleItemFinal; boolByte inv] ++ rest) (Ok (rule {{ h_Invert := inv }}, rest)).
Proof.
  intros fuel last Hf. destruct fuel as [|fuel]; [cbn in Hf; lia|]. cbn [readItems readByte app].
  unfold mbind, result_bind at 1. rewrite byteVal_byteOf by done. cbn. by destruct inv.
Qed.

(** An optional item: [upd x] is the rule with the field set to [x]. *)
Lemma decodes_given {A} (x : slice A) (enc : list A -> list byte) t upd cur rule b rest out :
  0 <= t < 255 -> upd cur = rule ->
  (given x = true -> forall last, readItem endErr false t last rule (enc (elems x) ++ rest) = Ok (upd (Some (elems x)), rest)) ->
  whenGiven x (fun l => Ok (byteOf t :: enc l)) = Ok b ->
  decodes (upd (if given x then Some (elems x) else cur)) rest out -> decodes rule (b ++ rest) out.
Proof.
  intros Ht Hu Hr Hw Hd. unfold whenGiven in Hw. destruct (given x); simplify_eq.
  - rewrite <- app_comm_cons. apply decodes_item with (upd (Some (elems x))); auto.
  - done.
Qed.

Lemma decodes_strings (x : slice string) t upd cur rule b rest out :
  0 <= t < 255 -> upd cur = rule ->
  (forall last s, readItem endErr false t last rule s = setting (readRuleItemString endErr s) (fun l => upd (Some l))) ->
  whenGiven x (fun l => Ok (writeRuleItemString t l)) = Ok b -> small (length b) ->
  decodes (upd (if given x then Some (elems x) else cur)) rest out -> decodes rule (b ++ rest) out.
Proof.
  intros Ht Hu Hr Hw Hs. eapply decodes_given; [done|done| |exact Hw].
  intros Hg last. rewrite Hr, <- app_assoc. unfold setting. rewrite strings_read; [done|].
  unfold whenGiven in Hw. rewrite Hg in Hw. simplify_eq. eapply small_le; [exact Hs|].
  unfold writeRuleItemString. cbn. rewrite length_app. lia.
Qed.

Lemma decodes_uint16s (x : slice Z) t upd cur rule b rest out :
  0 <= t < 255 -> upd cur = rule -> Forall (fun z => 0 <= z < 65536) (elems x) ->
  (forall last s, readItem endErr false t last rule s = setting (readRuleItemUint16 endErr s) (fun l => upd (Some l))) ->
  whenGiven x (fun l => Ok (writeRuleItemUint16 t l)) = Ok b -> small (length b) ->
  decodes (upd (if given x then Some (elems x) else cur)) rest out -> decodes rule (b ++ rest) out.
Proof.
  intros Ht Hu Hx Hr Hw Hs. eapply decodes_given; [done|done| |exact Hw].
  intros Hg last. rewrite Hr, <- app_assoc. unfold setting. rewrite uint16s_read; [done|done|].
  unfold whenGiven in Hw. rewrite Hg in Hw. simplify_eq. eapply small_le; [exact Hs|].
  unfold writeRuleItemUint16. cbn. rewrite length_app.
  pose proof (concat_length (be 2) (elems x) ltac:(intros; rewrite be_length; lia)). lia.
Qed.

Lemma decodes_cidr (x : slice string) t message upd cur rule b rest out :
  0 <= t < 255 -> upd cur = rule ->
  (forall last s, readItem endErr false t last rule s = setting (readIPSet endErr s) (fun set => upd (Some set))) ->
  whenGiven x (fun l => cause message (writeRuleItemCIDR t l)) = Ok b -> small (length b) ->
  decodes (upd (if given x then match cidrSet (elems x) with Ok set => Some set | _ => None end else cur)) rest out ->
  decodes rule (b ++ rest) out.
Proof.
  intros Ht Hu Hr Hw Hs Hd. unfold whenGiven in Hw. destruct (given x); [|by simplify_eq].
  unfold writeRuleItemCIDR in Hw. destruct (cidrSet (elems x)) as [set|e|p] eqn:Hset; cbn in Hw; simplify_eq.
  rewrite <- app_comm_cons. apply decodes_item with (upd (Some set)); [done| |done].
  intros last. rewrite Hr. unfold setting. rewrite ipset_read; [done|by eapply cidr_sets_plain|].
  eapply small_le; [exact Hs|]. cbn. rewrite length_app. lia.
Qed.

(** A flag that is only written when set. *)
Lemma decodes_flag (flag : bool) version message gv t upd rule b rest out :
  0 <= t < 255 -> upd false = rule ->
  (forall last s, readItem endErr false t last rule s = Ok (upd true, s)) ->
  (if flag then since version gv message [byteOf t] else Ok []) = Ok b ->
  decodes (upd flag) rest out -> decodes rule (b ++ rest) out.
Proof.
  intros Ht Hu Hr Hw Hd. destruct flag; [|by simplify_eq/=].
  unfold since in Hw. destruct (gv <? version); simplify_eq.
  apply (decodes_item t [] rest) with (upd true); auto.
Qed.

(** An item that needs a version is written as if it did not. *)
Lemma since_ok {A} (x : slice A) version gv message (enc : list A -> list byte) b :
  whenGiven x (fun l => since version gv message (enc l)) = Ok b -> whenGiven x (fun l => Ok (enc l)) = Ok b.
Proof. unfold whenGiven, since. by repeat case_match. Qed.

Lemma decodes_uint8s (x : slice Z) t upd cur rule b rest out :
  0 <= t < 255 -> upd cur = rule -> Forall (fun z => 0 <= z < 256) (elems x) ->
  (forall last s, readItem endErr false t last rule s = setting (readRuleItemUint8 endErr s) (fun l => upd (Some l))) ->
  whenGiven x (fun l => Ok (writeRuleItemUint8 t l)) = Ok b -> small (length b) ->
  decodes (upd (if given x then Some (elems x) else cur)) rest out -> decodes rule (b ++ rest) out.
Proof.
  intros Ht Hu Hx Hr Hw Hs. eapply decodes_given; [done|done| |exact Hw].
  intros Hg last. rewrite Hr, <- app_assoc. unfold setting. rewrite uint8s_read; [done|done|].
  unfold whenGiven in Hw. rewrite Hg in Hw. simplify_eq. eapply small_le; [exact Hs|].
  unfold writeRuleItemUint8. cbn. rewrite length_app, length_map. lia.
Qed.

Lemma decodes_prefixes (x : slice Prefix) t upd cur rule b rest out :
  0 <= t < 255 -> upd cur = rule -> Forall wf_prefix (elems x) ->
  (forall last s, readItem endErr false t last rule s
     = setting (readPrefixes endErr s) (fun l => upd (if nonempty l then Some l else None))) ->
  whenGiven x (fun l => Ok (byteOf t :: writeUvarintLen l ++ concat (map writePrefix l))) = Ok b -> small (length b) ->
  decodes (upd (if given x then Some (elems x) else cur)) rest out -> decodes rule (b ++ rest) out.
Proof.
  intros Ht Hu Hx Hr Hw Hs. eapply decodes_given; [done|done| |exact Hw].
  intros Hg last. rewrite Hr, <- app_assoc. unfold setting. rewrite prefixes_read; [|done|].
  - cbn. unfold given in Hg. by rewrite Hg.
  - unfold whenGiven in Hw. rewrite Hg in Hw. simplify_eq. eapply small_le; [exact Hs|].
    cbn. rewrite length_app. lia.
Qed.

Lemma decodes_entries (x : slice (Z * list Prefix)) t upd cur rule b rest out :
  0 <= t < 255 -> upd cur = rule -> NoDup (elems x).*1 ->
  Forall (fun e => 0 <= e.1 < 256 /\ Forall wf_prefix e.2) (elems x) ->
  (forall last s, readItem endErr false t last rule s
     = '(n, s) ← ReadUvarint endErr s;
       setting (readLoop (fun _ s => readInterfaceEntry endErr s) n s)
         (fun l => upd (Some (foldl (fun m e => TypedMap_Put m e.1 e.2) [] l)))) ->
  whenGiven x (fun l => Ok (byteOf t :: writeUvarintLen l ++ concat (map writeInterfaceEntry l))) = Ok b ->
  small (length b) ->
  decodes (upd (if given x then Some (elems x) else cur)) rest out -> decodes rule (b ++ rest) out.
Proof.
  intros Ht Hu Hnd Hx Hr Hw Hs. eapply decodes_given; [done|done| |exact Hw].
  intros Hg last. unfold whenGiven in Hw. rewrite Hg in Hw. simplify_eq.
  rewrite Hr, <- app_assoc, uvarintLen_read.
  - cbn. unfold setting. rewrite entries_read; [cbn; by rewrite put_all|done|].
    eapply small_le; [exact Hs|]. cbn. rewrite length_app. lia.
  - eapply small_le; [exact Hs|]. cbn. rewrite length_app.
    pose proof (concat_length writeInterfaceEntry (elems x) ltac:(intros; cbn; lia)). lia.
Qed.

(** The two matchers. *)
Lemma decodes_matcher (c : bool) t payload upd cur rule b rest out (m : DomainMatcher) :
  0 <= t < 255 -> upd cur = rule -> payload = Matcher_Write m ->
  (forall last s, readItem endErr false t last rule s = setting (ReadMatcher endErr s) (fun m => upd (Some m))) ->
  (if c then Ok (byteOf t :: payload) else Ok []) = Ok b ->
  decodes (upd (if c then Some m else cur)) rest out -> decodes rule (b ++ rest) out.
Proof.
  intros Ht Hu -> Hr Hw Hd. destruct c; simplify_eq/=; [|done].
  apply decodes_item with (upd (Some m)); [done| |done]. intros last. rewrite Hr. unfold setting.
  by rewrite matcher_roundtrip.
Qed.

Lemma decodes_adguard (x : slice string) t upd cur rule b rest out :
  0 <= t < 255 -> upd cur = rule ->
  (forall last s, readItem endErr false t last rule s = setting (ReadAdGuardMatcher endErr s) (fun m => upd (Some m))) ->
  whenGiven x (fun l => Ok (byteOf t :: AdGuardMatcher_Write (NewAdGuardMatcher l))) = Ok b ->
  decodes (upd (if given x then Some (NewAdGuardMatcher (elems x)) else cur)) rest out -> decodes rule (b ++ rest) out.
Proof.
  intros Ht Hu Hr Hw Hd. unfold whenGiven in Hw. destruct (given x); [|by simplify_eq].
  simplify_eq/=. apply decodes_item with (upd (Some (NewAdGuardMatcher (elems x)))); [done| |done].
  intros last. rewrite Hr. unfold setting. by rewrite adguard_roundtrip.
Qed.

(** ** Whole rules *)

Lemma concatR_cons m l bs : concatR (m :: l) = Ok bs -> exists b bs', m = Ok b /\ concatR l = Ok bs' /\ bs = b ++ bs'.
Proof. cbn. intros Hc. destruct m as [b|?|?]; cbn in Hc; try done. destruct (concatR l) as [bs'|?|?]; cbn in Hc; simplify_eq. eauto. Qed.

(** The next item of the list in [Hc], with the bound on its length. *)
Ltac next_item :=
  lazymatch goal with
  | Hc : concatR (_ :: _) = Ok _, Hs : small (length _) |- _ =>
      let b := fresh "b" in let bs := fresh "bs" in let Hb := fresh "Hb" in let Hsb := fresh "Hsb" in
      apply concatR_cons in Hc as (b & bs & Hb & Hc & ->);
      rewrite length_app in Hs;
      assert (Hsb : small (length b)) by (eapply small_le; [exact Hs|lia]);
      eapply small_le in Hs; [|apply (Nat.le_add_l (length bs) (length b))];
      rewrite <- app_assoc
  end.

(** The rule read so far as a record of its fields. *)
Ltac norm_rule :=
  cbn beta;
  lazymatch goal with
  | |- decodes ?R _ _ => let R' := eval cbn in R in change R with R'
  end.

(** Reads the next item, of type [t], with a lemma on its kind of item: the
    option [x] is read into the field given by [set] and [get]. *)
Ltac read_field lemma x t set get :=
  next_item;
  lazymatch goal with
  | Hb : _ = Ok ?b, Hs : small (length ?b) |- decodes ?R (?b ++ _) _ =>
      try apply since_ok in Hb;
      eapply (lemma x t) with (upd := set R) (cur := get R);
      [done|reflexivity|first [assumption|intros; reflexivity|exact Hb] ..|];
      clear Hb Hs
  end; norm_rule.

(** Reads the next item as a flag. *)
Ltac read_flag x ty set :=
  next_item;
  lazymatch goal with
  | Hb : _ = Ok ?b, Hs : small (length ?b) |- decodes ?R (?b ++ _) _ =>
      eapply (decodes_flag x) with (t := ty) (upd := set R);
      [done|reflexivity|intros; reflexivity|exact Hb|]; clear Hb Hs
  end; norm_rule.

(** Reads the next item as the domain matcher. *)
Ltac read_matcher :=
  next_item;
  lazymatch goal with
  | Hb : (if ?c then Ok (_ :: Matcher_Write ?dm) else _) = Ok ?b, Hs : small (length ?b) |- decodes ?R (?b ++ _) _ =>
      eapply (decodes_matcher c ruleItemDomain) with (m := dm) (upd := fun x => R {{ h_DomainMatcher := x }}) (cur := h_DomainMatcher R);
      [done|reflexivity|reflexivity|intros; reflexivity|exact Hb|]; clear Hb Hs
  end; norm_rule.

Lemma items_read r v items rest :
  wf_default r -> concatR (defaultRuleItems r v) = Ok items -> small (length items) ->
  decodes headlessRuleZero (items ++ [byteOf ruleItemFinal; boolByte (h_Invert r)] ++ rest) (Ok (compiled v r, rest)).
Proof.
  intros (Hq & Hsp & Hp & Hnt & Hnd & Hnia & Hdia) Hc Hs. unfold defaultRuleItems in Hc.
  read_field decodes_uint16s (h_QueryType r) ruleItemQueryType (fun R x => R {{ h_QueryType := x }}) h_QueryType.
  read_field decodes_strings (h_Network r) ruleItemNetwork (fun R x => R {{ h_Network := x }}) h_Network.
  read_matcher.
  read_field decodes_strings (h_DomainKeyword r) ruleItemDomainKeyword (fun R x => R {{ h_DomainKeyword := x }}) h_DomainKeyword.
  read_field decodes_strings (h_DomainRegex r) ruleItemDomainRegex (fun R x => R {{ h_DomainRegex := x }}) h_DomainRegex.
  read_field decodes_cidr (h_SourceIPCIDR r) ruleItemSourceIPCIDR (fun R x => R {{ h_SourceIPSet := x }}) h_SourceIPSet.
  read_field decodes_cidr (h_IPCIDR r) ruleItemIPCIDR (fun R x => R {{ h_IPSet := x }}) h_IPSet.
  read_field decodes_uint16s (h_SourcePort r) ruleItemSourcePort (fun R x => R {{ h_SourcePort := x }}) h_SourcePort.
  read_field decodes_strings (h_SourcePortRange r) ruleItemSourcePortRange (fun R x => R {{ h_SourcePortRange := x }}) h_SourcePortRange.
  read_field decodes_uint16s (h_Port r) ruleItemPort (fun R x => R {{ h_Port := x }}) h_Port.
  read_field decodes_strings (h_PortRange r) ruleItemPortRange (fun R x => R {{ h_PortRange := x }}) h_PortRange.
  read_field decodes_strings (h_ProcessName r) ruleItemProcessName (fun R x => R {{ h_ProcessName := x }}) h_ProcessName.
  read_field decodes_strings (h_ProcessPath r) ruleItemProcessPath (fun R x => R {{ h_ProcessPath := x }}) h_ProcessPath.
  read_field decodes_strings (h_ProcessPathRegex r) ruleItemProcessPathRegex (fun R x => R {{ h_ProcessPathRegex := x }}) h_ProcessPathRegex.
  read_field decodes_strings (h_PackageName r) ruleItemPackageName (fun R x => R {{ h_PackageName := x }}) h_PackageName.
  read_field decodes_strings (h_PackageNameRegex r) ruleItemPackageNameRegex (fun R x => R {{ h_PackageNameRegex := x }}) h_PackageNameRegex.
  read_field decodes_uint8s (h_NetworkType r) ruleItemNetworkType (fun R x => R {{ h_NetworkType := x }}) h_NetworkType.
  read_flag (h_NetworkIsExpensive r) ruleItemNetworkIsExpensive (fun R x => R {{ h_NetworkIsExpensive := x }}).
  read_flag (h_NetworkIsConstrained r) ruleItemNetworkIsConstrained (fun R x => R {{ h_NetworkIsConstrained := x }}).
  read_field decodes_entries (h_NetworkInterfaceAddress r) ruleItemNetworkInterfaceAddress (fun R x => R {{ h_NetworkInterfaceAddress := x }}) h_NetworkInterfaceAddress.
  read_field decodes_prefixes (h_DefaultInterfaceAddress r) ruleItemDefaultInterfaceAddress (fun R x => R {{ h_DefaultInterfaceAddress := x }}) h_DefaultInterfaceAddress.
  read_field decodes_strings (h_WIFISSID r) ruleItemWIFISSID (fun R x => R {{ h_WIFISSID := x }}) h_WIFISSID.
  read_field decodes_strings (h_WIFIBSSID r) ruleItemWIFIBSSID (fun R x => R {{ h_WIFIBSSID := x }}) h_WIFIBSSID.
  read_field decodes_adguard (h_AdGuardDomain r) ruleItemAdGuardDomain (fun R x => R {{ h_AdGuardDomainMatcher := x }}) h_AdGuardDomainMatcher.
  injection Hc as <-. apply decodes_final.
Qed.

End rule.
