(* ===== verification/SrsFile.v ===== *)
(** Rule-set files: whole files are read back, and the compiled rules match as
    the rules they were made from. *)
From S2P Require Import Prelude Netip Metadata RuleItem RuleAction Options RuleBuild Bytes Srs SrsTotal SrsRoundTrip SrsRule.

(** Induction over a rule and the rules below it. *)
Lemma HeadlessRule_ind_nested `{Libs} (P : HeadlessRule -> Prop) :
  (forall t o mode rules inv, Forall P rules -> P (mkHeadlessRule t o mode rules inv)) -> forall r, P r.
Proof.
  intros Hmk. fix IH 1. intros [t o mode rules inv]. apply Hmk.
  induction rules as [|r rules IHl]; constructor; auto.
Qed.

Section file.
Context `{SrsLaws}.

Definition everyP {A} (P : A -> Prop) (l : list A) : Prop := foldr (fun a Q => P a /\ Q) True l.

Lemma everyP_Forall {A} (P : A -> Prop) l : everyP P l <-> Forall P l.
Proof.
  induction l as [|a l IH]; cbn; [by split|]. rewrite IH. split; [intros [? ?]; by constructor|].
  intros Hf. by inversion Hf.
Qed.

(** Rules whose values are in the range of their Go types. *)
Fixpoint wf_rule (r : HeadlessRule) : Prop :=
  match r with
  | mkHeadlessRule t o mode rules inv =>
      if String.eqb t RuleTypeDefault then wf_default o else everyP wf_rule rules
  end.

(** The compiled form of a rule. *)
Fixpoint compiledRule (version : Z) (r : HeadlessRule) : HeadlessRule :=
  match r with
  | mkHeadlessRule t o mode rules inv =>
      if String.eqb t RuleTypeDefault then mkHeadlessRule RuleTypeDefault (compiled version o) "" [] false
      else mkHeadlessRule RuleTypeLogical headlessRuleZero mode (map (compiledRule version) rules) inv
  end.

(** What the writer makes of a list, element by element. *)
Definition written {A} (m : result (list A)) : list A := match m with Ok b => b | _ => [] end.

Lemma concatR_map {A} (f : A -> result (list byte)) l bs :
  concatR (map f l) = Ok bs -> bs = concat (map (fun a => written (f a)) l) /\ Forall (fun a => exists b, f a = Ok b) l.
Proof.
  revert bs. induction l as [|a l IH]; intros bs; cbn [map]; [cbn; intros; simplify_eq; by constructor|].
  intros (b & bs' & Ha & Hl & ->)%concatR_cons. apply IH in Hl as [-> Hf]. rewrite Ha. cbn.
  split; [done|]. constructor; eauto.
Qed.

Lemma writeRule_nonempty r v b : writeRule r v = Ok b -> (0 < length b)%nat.
Proof.
  destruct r as [t o mode rules inv]. cbn [writeRule]. unfold writeDefaultRule, writeLogicalRule.
  destruct (String.eqb t RuleTypeDefault); [|destruct (String.eqb t RuleTypeLogical)]; intros Hw; [| |done];
    repeat inv_ok; simplify_eq; cbn; lia.
Qed.

Lemma rules_length rules v bs : concatR (map (fun r => writeRule r v) rules) = Ok bs -> (length rules <= length bs)%nat.
Proof.
  intros [-> Hall]%concatR_map. apply concat_length. intros r Hin.
  destruct (Forall_elem _ _ _ Hall Hin) as [b Hb]. rewrite Hb. by eapply writeRule_nonempty.
Qed.

Section reading.
Variable endErr : GoError.

(** Several rules written one after the other. *)
Lemma rules_read (wrap : Z -> result (HeadlessRule * list byte) -> result (HeadlessRule * list byte)) fuel v rules bs rest :
  (forall i x, wrap i (Ok x) = Ok x) ->
  Forall (fun r => forall b rest, writeRule r v = Ok b -> small (length b) ->
    (length b < fuel (b ++ rest))%nat -> readRule endErr (fuel (b ++ rest)) false (b ++ rest) = Ok (compiledRule v r, rest)) rules ->
  concatR (map (fun r => writeRule r v) rules) = Ok bs -> small (length bs) ->
  (forall b rest, (length b <= length bs)%nat -> (length b < fuel (b ++ rest))%nat) ->
  readLoop (fun i s => wrap i (readRule endErr (fuel s) false s)) (Z.of_nat (length rules)) (bs ++ rest)
  = Ok (map (compiledRule v) rules, rest).
Proof.
  intros Hwrap Hr (-> & Hok)%concatR_map Hs Hfuel.
  assert (Hel : forall r, r ∈ rules -> exists b, writeRule r v = Ok b /\ written (writeRule r v) = b /\
    (length b <= length (concat (map (fun a => written (writeRule a v)) rules)))%nat).
  { intros r Hin. pose proof (Forall_elem _ _ _ Hok Hin) as [b Hb]. exists b.
    pose proof (in_concat_length (fun a => written (writeRule a v)) r rules Hin) as Hlen. cbn in Hlen.
    rewrite Hb in *. done. }
  apply (readLoop_written (fun r => written (writeRule r v))).
  - intros r Hin i rest'. destruct (Hel r Hin) as (b & Hb & -> & Hle).
    rewrite (Forall_elem _ _ _ Hr Hin); [apply Hwrap|done|by eapply small_le|by apply Hfuel].
  - intros r Hin. destruct (Hel r Hin) as (b & Hb & -> & _). by eapply writeRule_nonempty.
Qed.

(** The steps of reading a logical rule. *)
Lemma readRule_logical fuel k mode inv s s' rules n rest :
  (k = 0 /\ mode = LogicalTypeAnd \/ k = 1 /\ mode = LogicalTypeOr) ->
  ReadUvarint endErr s = Ok (Z.of_nat n, s') -> small n ->
  readLoop (fun i s => cause ("read logical rule [" +:+ F_ToString i +:+ "]") (readRule endErr fuel false s)) (Z.of_nat n) s'
  = Ok (rules, boolByte inv :: rest) ->
  readRule endErr (S fuel) false (byteOf 1 :: byteOf k :: s) = Ok (mkHeadlessRule RuleTypeLogical headlessRuleZero mode rules inv, rest).
Proof.
  intros Hk Hn Hs Hl. cbn [readRule readByte].
  assert (Hmake : makeSlice sizeofHeadlessRule (Z.of_nat n) = Ok tt).
  { pose proof rule_size. apply makeSlice_small; [lia|done]. }
  destruct Hk as [[-> ->]|[-> ->]]; unfold mbind, result_bind;
    repeat (rewrite byteVal_byteOf by done; cbn [Z.eqb Pos.eqb readByte]); rewrite Hn, Hmake, Hl; by destruct inv.
Qed.

Lemma rule_read r v : wf_rule r -> forall b rest fuel,
  writeRule r v = Ok b -> small (length b) -> (length b < fuel)%nat ->
  readRule endErr fuel false (b ++ rest) = Ok (compiledRule v r, rest).
Proof.
  induction r as [t o mode rules inv IH] using HeadlessRule_ind_nested.
  intros Hwf b rest [|fuel] Hw Hs Hf; [lia|]. cbn [writeRule wf_rule compiledRule] in *.
  destruct (String.eqb t RuleTypeDefault).
  - unfold writeDefaultRule in Hw. inv_ok. simplify_eq. cbn [readRule readByte app].
    unfold mbind, result_bind at 1. rewrite byteVal_byteOf by done. cbn [Z.eqb].
    rewrite <- app_assoc. unfold readDefaultRule. rewrite (items_read endErr o v); [done|done|done| |lia].
    eapply small_le; [exact Hs|]. cbn. rewrite length_app. lia.
  - destruct (String.eqb t RuleTypeLogical); [|done]. apply everyP_Forall in Hwf.
    assert (Hmode : exists k, (k = 0 /\ mode = LogicalTypeAnd \/ k = 1 /\ mode = LogicalTypeOr) /\
      exists subs, concatR (map (fun r => writeRule r v) rules) = Ok subs /\
        b = byteOf 1 :: byteOf k :: writeUvarintLen rules ++ subs ++ [boolByte inv]).
    { unfold writeLogicalRule in Hw. destruct (String.eqb_spec mode LogicalTypeAnd); [|destruct (String.eqb_spec mode LogicalTypeOr); [|done]];
        inv_ok; simplify_eq; eauto 10. }
    destruct Hmode as (k & Hk & subs & Hsubs & ->).
    assert (Hss : small (length subs)) by (eapply small_le; [exact Hs|cbn; rewrite !length_app; lia]).
    pose proof (rules_length _ _ _ Hsubs) as Hlen.
    cbn [app]. rewrite <- !app_assoc.
    eapply readRule_logical; [done| |by eapply small_le|].
    + apply uvarintLen_read. by eapply small_le.
    + apply (rules_read (fun i => cause ("read logical rule [" +:+ F_ToString i +:+ "]")) (fun _ => fuel)); try done.
      * apply Forall_forall. intros r Hin b' rest' Hb' Hs' Hf'. apply list_elem_of_In in Hin.
        by apply (Forall_elem _ _ _ IH Hin); [apply (Forall_elem _ _ _ Hwf Hin)|..].
      * intros b' rest' Hb'. cbn in Hf. rewrite !length_app in Hf. lia.
Qed.

(** Files. *)
Lemma body_read rules v body :
  Forall wf_rule rules -> writeBody rules v = Ok body -> small (length body) ->
  readBody endErr false body = Ok (map (compiledRule v) rules).
Proof.
  intros Hwf Hw Hs. unfold writeBody in Hw. destruct (concatR _) as [bs|?|?] eqn:Hbs; cbn in Hw; simplify_eq.
  pose proof (rules_length _ _ _ Hbs) as Hlen. rewrite length_app in Hs.
  assert (Hsl : small (length rules)) by (eapply small_le; [exact Hs|lia]).
  unfold readBody. rewrite uvarintLen_read by done. cbn [mbind result_bind].
  pose proof rule_size. unfold mbind, result_bind. rewrite makeSlice_small; [|lia|done].
  rewrite <- (app_nil_r bs).
  rewrite (rules_read (fun i => cause ("read rule[" +:+ F_ToString i +:+ "]")) (fun s => S (length s)) v rules bs []); try done.
  - apply Forall_forall. intros r Hin b rest Hb Hsb Hf. apply list_elem_of_In in Hin.
    by apply rule_read; [apply (Forall_elem _ _ _ Hwf Hin)|..].
  - eapply small_le; [exact Hs|lia].
  - intros b rest Hb. rewrite length_app. lia.
Qed.

End reading.

Lemma read_back rules version file :
  Write rules version = Ok file -> 0 <= version <= RuleSetVersionCurrent ->
  Forall wf_rule rules -> (forall body, writeBody rules version = Ok body -> small (length body)) ->
  Read file false = Ok (version, map (compiledRule version) rules).
Proof.
  intros Hw Hv Hwf Hs. unfold Write in Hw. destruct (writeBody rules version) as [body|?|?] eqn:Hb; [|done..].
  assert (Hf : file = MagicBytes ++ [byteOf version] ++ zlib_compress body) by (symmetry; by injection Hw).
  rewrite Hf. unfold Read. rewrite (ReadFull_app IO_EOF MagicBytes : forall rest, ReadFull IO_EOF 3 _ = _). cbn [mbind result_bind]. rewrite bool_decide_true by done. cbn [negb readByte app].
  unfold mbind, result_bind. unfold RuleSetVersionCurrent, RuleSetVersion5 in *. rewrite byteVal_byteOf by lia.
  rewrite (proj2 (Z.ltb_ge _ _)) by lia. rewrite zlib_roundtrip, (body_read _ rules version); auto.
Qed.

(** C7: a rule-set written to a file is read back from it: the reader finds the
    version it was written for and every rule in its compiled form, at any
    nesting of logical rules.  The compiled form keeps each option of the
    rule, with the lists of domains and prefixes turned into the matcher and
    the sets built from them. *)
Theorem srs_round_trip rules version file :
  Write rules version = Ok file -> 0 <= version <= RuleSetVersionCurrent ->
  Forall wf_rule rules -> (forall body, writeBody rules version = Ok body -> small (length body)) ->
  Read file false = Ok (version, map (compiledRule version) rules).
Proof. apply read_back. Qed.

End file.
