(* ===== verification/RuleSetMeta.v ===== *)
(** What a rule-set says about its rules ([route/rule/rule_set.go]) and the
    version it is compiled for ([cmd/sing-box/cmd_rule_set_compile.go]). *)
From S2P Require Import Prelude Netip Metadata RuleItem RuleAction Options RuleAbstract RuleBuild Bytes Srs.

Section meta.
Context `{Libs}.

(** [HasHeadlessRule]: the condition of one rule, and the loop over a list. *)
Fixpoint hasHeadlessRule (cond : DefaultHeadlessRule -> bool) (rule : HeadlessRule) : bool :=
  match rule with
  | mkHeadlessRule t o _ rules _ =>
      if String.eqb t RuleTypeDefault then cond o
      else if String.eqb t RuleTypeLogical then anyb rules (hasHeadlessRule cond) else false
  end.

Definition HasHeadlessRule (rules : list HeadlessRule) (cond : DefaultHeadlessRule -> bool) : bool :=
  anyb rules (hasHeadlessRule cond).

Definition isProcessHeadlessRule (rule : DefaultHeadlessRule) : bool :=
  given (h_ProcessName rule) || given (h_ProcessPath rule) || given (h_ProcessPathRegex rule)
  || given (h_PackageName rule) || given (h_PackageNameRegex rule).

Definition isWIFIHeadlessRule (rule : DefaultHeadlessRule) : bool :=
  given (h_WIFISSID rule) || given (h_WIFIBSSID rule).

Definition isIPCIDRHeadlessRule (rule : DefaultHeadlessRule) : bool :=
  given (h_IPCIDR rule) || negb (isNil (h_IPSet rule)).

Definition isDNSQueryTypeHeadlessRule (rule : DefaultHeadlessRule) : bool := given (h_QueryType rule).

Definition isNonIPCIDRHeadlessRule (rule : DefaultHeadlessRule) : bool :=
  negb (DefaultHeadlessRule_isIPOnly rule).

Definition buildRuleSetMetadata (headlessRules : list HeadlessRule) : RuleSetMetadata :=
  {| ContainsProcessRule := HasHeadlessRule headlessRules isProcessHeadlessRule;
     ContainsWIFIRule := HasHeadlessRule headlessRules isWIFIHeadlessRule;
     ContainsIPCIDRRule := HasHeadlessRule headlessRules isIPCIDRHeadlessRule;
     ContainsDNSQueryTypeRule := HasHeadlessRule headlessRules isDNSQueryTypeHeadlessRule;
     ContainsNonIPCIDRRule := HasHeadlessRule headlessRules isNonIPCIDRHeadlessRule |}.

(** The conditions [downgradeRuleSetVersion] looks for. *)
Definition needsVersion5 (rule : DefaultHeadlessRule) : bool := given (h_PackageNameRegex rule).
Definition needsVersion4 (rule : DefaultHeadlessRule) : bool :=
  given (h_NetworkInterfaceAddress rule) || given (h_DefaultInterfaceAddress rule).
Definition needsVersion3 (rule : DefaultHeadlessRule) : bool :=
  given (h_NetworkType rule) || h_NetworkIsExpensive rule || h_NetworkIsConstrained rule.

Definition downgradeRuleSetVersion (version : Z) (rules : list HeadlessRule) : Z :=
  let version := if (version =? RuleSetVersion5) && negb (HasHeadlessRule rules needsVersion5)
                 then RuleSetVersion4 else version in
  let version := if (version =? RuleSetVersion4) && negb (HasHeadlessRule rules needsVersion4)
                 then RuleSetVersion3 else version in
  if (version =? RuleSetVersion3) && negb (HasHeadlessRule rules needsVersion3)
  then RuleSetVersion2 else version.

(** [extractIPSetFromRule] *)
Fixpoint extractIPSetFromRule (rule : Rule) : list IPSet :=
  match rule with
  | DefaultRule _ r =>
      flat_map (fun rawItem => match rawItem with ItemIPCIDR item => [ipSet item] | _ => [] end)
        (destinationIPCIDRItems r)
  | LogicalRule rules _ _ _ => flat_map extractIPSetFromRule rules
  end.

End meta.
