(* ===== verification/SrsCompile.v ===== *)
(** Compiling a rule-set keeps its meaning: the rules read from a binary file
    match as the rules of its source, the file has the lowest version that can
    hold them, and its metadata is that of the source. *)
From S2P Require Import Prelude MatchState Netip Metadata RuleItem RuleAction Options RuleAbstract RuleBuild.
From S2P Require Import RuleSpec RuleOptionsSpec Bytes Srs SrsTotal SrsRoundTrip SrsRule SrsFile RuleSetMeta.

(** * Items and rules that match alike *)

Section same.
Context `{Libs}.

(** Items are equivalent when they match the same connections; they may be
    described differently. *)
#[global] Instance RuleItem_equiv : Equiv RuleItem := fun i j => forall svc md, RuleItem_Match svc i md = RuleItem_Match svc j md.

#[global] Instance RuleItem_equivalence : Equivalence (≡@{RuleItem}).
Proof.
  split; [done|by intros i j Hij svc md|]. intros i j k Hij Hjk svc md. by rewrite (Hij svc md).
Qed.

(** Rules are equivalent when they yield the same states. *)
#[global] Instance Rule_equiv : Equiv Rule := fun r r' => forall svc sets md base,
  rule_matchStatesWithBase svc sets r md base = rule_matchStatesWithBase svc sets r' md base.

#[global] Instance Rule_equivalence : Equivalence (≡@{Rule}).
Proof.
  split; [done|by intros r s Hrs svc sets md base|]. intros r s t Hrs Hst svc sets md base. by rewrite Hrs.
Qed.

Record sameConditions (r r' : abstractDefaultRule) : Prop := {
  same_items : items r ≡ items r';
  same_sourceAddress : sourceAddressItems r ≡ sourceAddressItems r';
  same_sourcePort : sourcePortItems r ≡ sourcePortItems r';
  same_destinationAddress : destinationAddressItems r ≡ destinationAddressItems r';
  same_destinationIPCIDR : destinationIPCIDRItems r ≡ destinationIPCIDRItems r';
  same_destinationPort : destinationPortItems r ≡ destinationPortItems r';
  same_all : nonempty (allItems r) = nonempty (allItems r');
  same_ruleSet : ruleSetItem r = ruleSetItem r';
  same_invert : invert r = invert r' }.

#[global] Instance nonempty_proper : Proper ((≡) ==> (=)) (@nonempty RuleItem).
Proof. by intros l l' [|]. Qed.

#[global] Instance matchAnyItem_proper svc : Proper ((≡) ==> (=) ==> (=)) (matchAnyItem svc).
Proof.
  intros l l' Hl md _ <-. unfold matchAnyItem, anyb. induction Hl as [|i j l l' Hij _ IH]; [done|]. cbn. by rewrite (Hij svc md), IH.
Qed.

#[global] Instance matchItems_proper svc : Proper ((≡) ==> (=) ==> (=)) (matchItems svc).
Proof.
  intros l l' Hl md _ <-. induction Hl as [|i j l l' Hij _ IH] in md |- *; [done|]. cbn [matchItems].
  by rewrite (Hij svc _), IH.
Qed.

#[global] Instance matchGroup_proper svc : Proper ((=) ==> (≡) ==> (=) ==> (=) ==> (=)) (matchGroup svc).
Proof. intros c _ <- l l' Hl bit _ <- [s md] _ <-. unfold matchGroup. by rewrite Hl. Qed.

#[global] Instance matchCIDRGroup_proper svc : Proper ((=) ==> (≡) ==> (=) ==> (=) ==> (=)) (matchCIDRGroup svc).
Proof. intros c _ <- l l' Hl bit _ <- [s md] _ <-. unfold matchCIDRGroup. by rewrite Hl. Qed.

Lemma default_same svc sets r r' md base :
  sameConditions r r' -> default_matchStatesWithBase svc sets r md base = default_matchStatesWithBase svc sets r' md base.
Proof.
  intros [Hi Hsa Hsp Hda Hdi Hdp Ha Hr Hv].
  assert (Hg : forall st, matchGroups svc r st = matchGroups svc r' st).
  { intros st. unfold matchGroups, destinationIPCIDRMatchesSource, destinationIPCIDRMatchesDestination.
    by rewrite Hsa, Hsp, Hda, Hdi, Hdp. }
  assert (Hs : forall md set, filterStates set (stateAllowed r md) = filterStates set (stateAllowed r' md)).
  { intros md' set. apply filterStates_ext. intros state. unfold stateAllowed, requiresSourceAddressMatch,
      requiresDestinationAddressMatch, destinationIPCIDRMatchesSource, destinationIPCIDRMatchesDestination.
    by rewrite Hsa, Hsp, Hda, !Hdi, Hdp. }
  unfold default_matchStatesWithBase, invertedFailure. rewrite Ha, Hv, Hr, Hg.
  destruct (matchGroups svc r' _) as [b m]. rewrite Hi. destruct (matchItems svc (items r') m) as [matched m'].
  destruct (ruleSetItem r'); by rewrite Hs, Hdi.
Qed.

Lemma DefaultRule_same m r r' : sameConditions r r' -> DefaultRule m r ≡ DefaultRule m r'.
Proof. intros Hr svc sets md base. cbn. by rewrite (default_same svc sets r r'). Qed.

#[global] Instance LogicalRule_proper : Proper ((≡) ==> (=) ==> (=) ==> (=) ==> (≡)) LogicalRule.
Proof.
  intros l l' Hl mode _ <- inv _ <- a _ <- svc sets md base. cbn. unfold logical_matchStatesWithBase.
  assert (Hand : forall b eb st, logicalAnd (map (rule_matchStatesWithBase svc sets) l) inv md b eb st
                            = logicalAnd (map (rule_matchStatesWithBase svc sets) l') inv md b eb st).
  { induction Hl as [|r r' l l' Hr _ IH]; intros b eb st; cbn; [done|]. by rewrite (Hr svc sets), IH. }
  assert (Hor : forall eb, logicalOr (map (rule_matchStatesWithBase svc sets) l) md eb
                      = logicalOr (map (rule_matchStatesWithBase svc sets) l') md eb).
  { intros eb. unfold logicalOr. generalize 0. clear Hand.
    induction Hl as [|r r' l l' Hr _ IH]; intros z; cbn; [done|]. by rewrite (Hr svc sets), IH. }
  by rewrite Hand, Hor.
Qed.

(** * Steps of constructors that build equivalent rules *)

Definition sameSteps (steps steps' : list step) : Prop :=
  (forall g, flat_map (stepItems g) steps ≡ flat_map (stepItems g) steps') /\
  length (flat_map stepAllItems steps) = length (flat_map stepAllItems steps') /\
  (forall o, foldl stepRuleSet o steps = foldl stepRuleSet o steps') /\
  Forall stepOk steps'.

Lemma sameSteps_app s1 s1' s2 s2' : sameSteps s1 s1' -> sameSteps s2 s2' -> sameSteps (s1 ++ s2) (s1' ++ s2').
Proof.
  intros (Hi & Ha & Hr & Hok) (Hi2 & Ha2 & Hr2 & Hok2). split_and!.
  - intros g. rewrite !flat_map_app. by rewrite (Hi g), (Hi2 g).
  - rewrite !flat_map_app, !length_app. lia.
  - intros o. by rewrite !foldl_app, Hr, Hr2.
  - by apply Forall_app.
Qed.

Lemma sameSteps_cons s s' l l' : sameSteps [s] [s'] -> sameSteps l l' -> sameSteps (s :: l) (s' :: l').
Proof. apply sameSteps_app. Qed.

Lemma sameSteps_cons2 s1 s2 s1' s2' l l' :
  sameSteps [s1; s2] [s1'; s2'] -> sameSteps l l' -> sameSteps (s1 :: s2 :: l) (s1' :: s2' :: l').
Proof. apply sameSteps_app. Qed.

Lemma sameSteps_refl l : Forall stepOk l -> sameSteps l l.
Proof. by repeat split. Qed.

Lemma built_same steps steps' r : sameSteps steps steps' -> sameConditions (built steps r) (built steps' r).
Proof.
  intros (Hi & Ha & Hr & _). unfold built. split; cbn; try (by rewrite Hi); [|apply Hr|done].
  destruct (flat_map stepAllItems steps), (flat_map stepAllItems steps'); try done; by destruct (allItems r).
Qed.

End same.

(** * Compiled rules *)

Section compile.
Context `{SrsLaws}.

(** Options as they are decoded from the source of a rule-set: matchers and
    sets are only filled by the reader of binary files. *)
Definition fromSource (o : DefaultHeadlessRule) : Prop :=
  h_DomainMatcher o = None /\ h_SourceIPSet o = None /\ h_IPSet o = None /\ h_AdGuardDomainMatcher o = None.

Lemma given_stored {A} (x : slice A) : given (stored x) = given x.
Proof. by destruct x as [[|]|]. Qed.

Lemma stored_given {A} (x : slice A) : given x = true -> stored x = x.
Proof. by destruct x as [[|]|]. Qed.

(** A condition that is stored as it is. *)
Lemma stored_step c c' item item' g :
  stepOk (On c item g) -> c' = c -> (c = true -> item' = item) -> sameSteps [On c item g] [On c' item' g].
Proof.
  intros Hok -> Hi. destruct c; [rewrite Hi by done; by apply sameSteps_refl; constructor|].
  unfold sameSteps. cbn. split_and!; try done. by constructor.
Qed.

(** A condition stored in another form. *)
Lemma alternative_step {A} c item0 item (x : option A) item' g :
  stepOk (On c item g) ->
  (forall i, c = true -> item = Ok i -> exists a, x = Some a /\ i ≡ item' a) -> (c = false -> x = None) ->
  sameSteps [On c item g; OnSome (negb c) (@None A) item' g] [On false item0 g; OnSome true x item' g].
Proof.
  intros Hok Hon Hoff. destruct c; cbn in *.
  - destruct (Hok eq_refl) as [i ->]. destruct (Hon i eq_refl eq_refl) as (a & -> & Hi).
    unfold sameSteps. cbn. split; [|split; [done|split; [done|constructor; [done|constructor; [by eexists|constructor]]]]].
    intros g'. destruct (sameGroup g' g); cbn; [by repeat constructor|done].
  - rewrite Hoff by done. unfold sameSteps. cbn. split_and!; try done. by repeat constructor.
Qed.

Lemma cidr_item_set isSource message x i :
  cause message (ipCIDRItem isSource x) = Ok i ->
  exists set, cidrSet (elems x) = Ok set /\ i ≡ ItemIPCIDR (NewRawIPCIDRItem isSource set).
Proof.
  unfold ipCIDRItem, NewIPCIDRItem, cidrSet. intros Hc. apply cause_Ok in Hc.
  destruct (mapR_from _ _ _) as [b|?|?]; [|done..]. cbn in Hc |- *.
  destruct (IPSetBuilder_IPSet b) as [set|?|?]; simplify_eq/=. by exists set.
Qed.

Lemma cidr_step isSource message x g :
  stepOk (On (given x) (cause message (ipCIDRItem isSource x)) g) ->
  sameSteps [On (given x) (cause message (ipCIDRItem isSource x)) g;
             OnSome (negb (given x)) None (fun set => ItemIPCIDR (NewRawIPCIDRItem isSource set)) g]
    [On false (cause message (ipCIDRItem isSource None)) g;
     OnSome true (storedSet x) (fun set => ItemIPCIDR (NewRawIPCIDRItem isSource set)) g].
Proof.
  intros Hok. apply alternative_step; [done| |by unfold storedSet; intros ->].
  intros i Hc (set & Hset & Hi)%cidr_item_set. exists set. unfold storedSet. by rewrite Hc, Hset.
Qed.

Ltac stored_condition :=
  apply sameSteps_cons;
  [apply stored_step; [assumption|rewrite ?given_stored; reflexivity|intros Hc; try apply andb_prop in Hc as [_ Hc]; rewrite ?stored_given by exact Hc; reflexivity]|].

Lemma steps_compiled nm v o :
  RuleSetVersion2 <= v -> fromSource o ->
  Forall stepOk (headlessRuleSteps nm o) -> sameSteps (headlessRuleSteps nm o) (headlessRuleSteps nm (compiled v o)).
Proof.
  intros Hv (Hdm & Hss & His & Hag) Hok. unfold headlessRuleSteps in *. rewrite Hdm, Hss, His, Hag in *.
  rewrite !Forall_cons_iff in Hok. destruct_and!.
  cbv [compiled]. cbn [h_QueryType h_Network h_Domain h_DomainSuffix h_DomainKeyword h_DomainRegex h_SourceIPCIDR h_IPCIDR
    h_SourcePort h_SourcePortRange h_Port h_PortRange h_ProcessName h_ProcessPath h_ProcessPathRegex h_PackageName
    h_PackageNameRegex h_NetworkType h_NetworkIsExpensive h_NetworkIsConstrained h_WIFISSID h_WIFIBSSID
    h_NetworkInterfaceAddress h_DefaultInterfaceAddress h_Invert h_DomainMatcher h_SourceIPSet h_IPSet h_AdGuardDomain
    h_AdGuardDomainMatcher].
  do 2 stored_condition. apply sameSteps_cons2; [apply alternative_step; [assumption| |by intros ->]|].
  { intros i -> (i' & Hi & [= <-])%bind_Ok. unfold NewDomainItem in Hi. do 2 (case_bool_decide; [done|]). injection Hi as <-. eexists. split; [done|].
    intros svc md. unfold RuleSetVersion2, RuleSetVersion1 in *. cbn. by rewrite (proj2 (Z.eqb_neq v 1)) by lia. }
  do 2 stored_condition. do 2 (apply sameSteps_cons2; [by apply cidr_step|]).
  do 16 stored_condition. apply alternative_step; [assumption| |by intros ->].
  intros i -> Hi. simplify_eq. by eexists.
Qed.

(** * Validity *)

(** A list that is given, or not there. *)
Definition normal {A} (s : slice A) : Prop := s <> Some [].

(** Options without empty lists, which would count as conditions but store
    nothing. *)
Definition normalOptions (o : DefaultHeadlessRule) : Prop :=
  normal (h_QueryType o) /\ normal (h_Network o) /\ normal (h_Domain o) /\ normal (h_DomainSuffix o) /\
  normal (h_DomainKeyword o) /\ normal (h_DomainRegex o) /\ normal (h_SourceIPCIDR o) /\ normal (h_IPCIDR o) /\
  normal (h_SourcePort o) /\ normal (h_SourcePortRange o) /\ normal (h_Port o) /\ normal (h_PortRange o) /\
  normal (h_ProcessName o) /\ normal (h_ProcessPath o) /\ normal (h_ProcessPathRegex o) /\
  normal (h_PackageName o) /\ normal (h_PackageNameRegex o) /\ normal (h_NetworkType o) /\
  normal (h_WIFISSID o) /\ normal (h_WIFIBSSID o) /\ normal (h_NetworkInterfaceAddress o) /\
  normal (h_DefaultInterfaceAddress o) /\ normal (h_AdGuardDomain o).

Lemma given_normal {A} (x : slice A) : normal x -> given x = negb (isNil x).
Proof. by destruct x as [[|]|]. Qed.

Lemma isNil_stored {A} (x : slice A) : normal x -> isNil (stored x) = isNil x.
Proof. by destruct x as [[|]|]. Qed.

Lemma concatR_elem l bs m : concatR l = Ok bs -> m ∈ l -> exists b, m = Ok b.
Proof.
  revert bs. induction l as [|m' l IH]; intros bs Hc Hin; [set_solver|].
  apply concatR_cons in Hc as (b & bs' & Hm & Hl & _). apply elem_of_cons in Hin as [->|Hin]; eauto.
Qed.

Lemma isNil_storedSet x t message bs l :
  normal x -> concatR l = Ok bs -> whenGiven x (fun v => cause message (writeRuleItemCIDR t v)) ∈ l ->
  isNil (storedSet x) = isNil x.
Proof.
  intros Hn Hc Hin. destruct (concatR_elem _ _ _ Hc Hin) as [b Hb]. unfold whenGiven, storedSet in *.
  rewrite given_normal in * by done. destruct x as [x|]; [|done]. cbn [isNil negb elems] in *. apply cause_Ok in Hb.
  unfold writeRuleItemCIDR in Hb. by destruct (cidrSet _).
Qed.

Lemma valid_compiled v o bs :
  concatR (defaultRuleItems o v) = Ok bs -> fromSource o -> normalOptions o ->
  DefaultHeadlessRule_IsValid (compiled v o) = DefaultHeadlessRule_IsValid o /\
  DefaultHeadlessRule_isIPOnly (compiled v o) = DefaultHeadlessRule_isIPOnly o.
Proof.
  intros Hc (Hdm & Hss & His & Hag) Hn. unfold normalOptions in Hn. destruct_and!.
  assert (Hsi : isNil (storedSet (h_SourceIPCIDR o)) = isNil (h_SourceIPCIDR o)).
  { eapply isNil_storedSet; [done|exact Hc|]. by apply (list_elem_of_lookup_2 _ 5). }
  assert (Hi : isNil (storedSet (h_IPCIDR o)) = isNil (h_IPCIDR o)).
  { eapply isNil_storedSet; [done|exact Hc|]. by apply (list_elem_of_lookup_2 _ 6). }
  assert (Hip : DefaultHeadlessRule_isIPOnly (compiled v o) = DefaultHeadlessRule_isIPOnly o).
  { unfold DefaultHeadlessRule_isIPOnly. rewrite Hdm, Hss, Hag. unfold compiled. cbn [h_QueryType h_Network h_Domain
      h_DomainSuffix h_DomainKeyword h_DomainRegex h_SourceIPCIDR h_SourcePort h_SourcePortRange h_Port h_PortRange
      h_ProcessName h_ProcessPath h_ProcessPathRegex h_PackageName h_PackageNameRegex h_NetworkType h_NetworkIsExpensive
      h_NetworkIsConstrained h_WIFISSID h_WIFIBSSID h_NetworkInterfaceAddress h_DefaultInterfaceAddress h_DomainMatcher
      h_SourceIPSet h_AdGuardDomain h_AdGuardDomainMatcher].
    rewrite !isNil_stored, Hsi, !given_normal by done.
    destruct (h_Domain o), (h_DomainSuffix o), (h_AdGuardDomain o), (h_SourceIPCIDR o); cbn [isNil orb negb];
      rewrite ?andb_false_r, ?andb_true_r; try done. }
  split; [|done]. unfold DefaultHeadlessRule_IsValid. rewrite Hip, His. unfold compiled. cbn [h_IPCIDR h_IPSet].
  rewrite Hi. cbn [isNil]. by rewrite !andb_true_r.
Qed.

(** * Whole rule-sets *)

(** Rules of the source of a rule-set. *)
Fixpoint sourceRule (r : HeadlessRule) : Prop :=
  match r with
  | mkHeadlessRule t o mode rules inv =>
      if String.eqb t RuleTypeDefault then fromSource o /\ normalOptions o else everyP sourceRule rules
  end.

Definition writes (v : Z) (r : HeadlessRule) : Prop := exists b, writeRule r v = Ok b.

Lemma writes_inv v t o mode rules inv :
  writes v (mkHeadlessRule t o mode rules inv) ->
  (t = RuleTypeDefault /\ exists bs, concatR (defaultRuleItems o v) = Ok bs) \/
  (t = RuleTypeLogical /\ Forall (writes v) rules).
Proof.
  intros [b Hb]. cbn [writeRule] in Hb. destruct (String.eqb_spec t RuleTypeDefault) as [->|_].
  - left. split; [done|]. unfold writeDefaultRule in Hb. destruct (concatR _); [by eexists|done..].
  - destruct (String.eqb_spec t RuleTypeLogical) as [->|_]; [|done]. right. split; [done|]. unfold writeLogicalRule in Hb.
    destruct (concatR (map _ rules)) as [subs|?|?] eqn:Hs; [by apply concatR_map in Hs as [_ Hs]|..];
      by destruct (String.eqb mode LogicalTypeAnd), (String.eqb mode LogicalTypeOr).
Qed.

Lemma allValid_map f rules :
  Forall (fun r => HeadlessRule_IsValid (f r) = HeadlessRule_IsValid r) rules ->
  allValid HeadlessRule_IsValid (map f rules) = allValid HeadlessRule_IsValid rules.
Proof. intros Hf. induction Hf as [|r rules Hr _ IH]; [done|]. cbn. by rewrite Hr, IH. Qed.

Lemma mapR_from_map {A B} `{Equiv B} (f : nat -> A -> result B) (g : A -> A) l : forall i l',
  Forall (fun a => forall i b, f i a = Ok b -> exists b', f i (g a) = Ok b' /\ b ≡ b') l ->
  mapR_from f i l = Ok l' -> exists l'', mapR_from f i (map g l) = Ok l'' /\ l' ≡ l''.
Proof.
  induction l as [|a l IH]; intros i l' Hf Hm; cbn [mapR_from map] in *.
  - simplify_eq. exists []. split; [done|constructor].
  - apply Forall_cons_iff in Hf as [Ha Hf]. apply bind_Ok in Hm as (b & Hb & (bs & Hbs & [= <-])%bind_Ok).
    destruct (Ha _ _ Hb) as (b' & -> & Hb'). destruct (IH _ _ Hf Hbs) as (bs' & -> & Hbs').
    eexists. split; [done|by constructor].
Qed.

Lemma valid_compiledRule v r :
  writes v r -> sourceRule r -> HeadlessRule_IsValid (compiledRule v r) = HeadlessRule_IsValid r.
Proof.
  induction r as [t o mode rules inv IH] using HeadlessRule_ind_nested.
  intros [[-> [bs Hw]]|[-> Hw]]%writes_inv Hs; cbn in Hs |- *.
  - destruct Hs as [Hs Hn]. by destruct (valid_compiled v o bs Hw Hs Hn) as [-> _].
  - apply everyP_Forall in Hs. rewrite allValid_map; [by destruct rules|].
    rewrite Forall_forall in *. auto.
Qed.

(** The rule built from the compiled options matches as the rule built from
    the source. *)
Lemma rule_compiled v nm r : RuleSetVersion2 <= v -> forall rule,
  writes v r -> sourceRule r -> NewHeadlessRule nm r = Ok rule ->
  exists rule', NewHeadlessRule nm (compiledRule v r) = Ok rule' /\ rule ≡ rule'.
Proof.
  intros Hv. induction r as [t o mode rules inv IH] using HeadlessRule_ind_nested.
  intros rule [[-> [bs Hw]]|[-> Hw]]%writes_inv Hs Hn;
    cbn [sourceRule NewHeadlessRule compiledRule String.eqb Ascii.eqb Bool.eqb orb RuleTypeDefault RuleTypeLogical] in Hs, Hn |- *.
  - destruct Hs as [Hs Hno]. destruct (valid_compiled v o bs Hw Hs Hno) as [-> _].
    destruct (negb _); [done|]. unfold NewDefaultHeadlessRule in *.
    apply bind_Ok in Hn as (r & [Hok ->]%runSteps_Ok & [= <-]).
    pose proof (steps_compiled nm v o Hv Hs Hok) as Hss.
    destruct (runSteps_stepOk (headlessRuleSteps nm (compiled v o)) (abstractDefaultRuleZero {{ invert := h_Invert o }})) as [r' Hr'].
    { apply Hss. }
    change (h_Invert (compiled v o)) with (h_Invert o). rewrite Hr'. apply runSteps_Ok in Hr' as [_ ->].
    eexists. split; [done|]. apply DefaultRule_same. by apply built_same.
  - apply everyP_Forall in Hs. unfold LogicalHeadlessRule_IsValid in *.
    rewrite allValid_map by (rewrite Forall_forall in *; auto using valid_compiledRule).
    replace (nonempty (map (compiledRule v) rules)) with (nonempty rules) by (by destruct rules).
    destruct (if negb (nonempty rules) then _ else _) as [valid|?|?]; cbn in Hn |- *; [|done..].
    destruct (negb valid); [done|]. destruct (logicalMode mode) as [m|?|?]; cbn in Hn |- *; [|done..].
    apply bind_Ok in Hn as (subs & Hsubs & [= <-]).
    edestruct (mapR_from_map (fun i sub => cause (subRule i) (NewHeadlessRule nm sub)) (compiledRule v)) as (subs' & Hsubs' & Heq); [|exact Hsubs|].
    { rewrite Forall_forall in *. intros r Hin i b Hb. apply cause_Ok in Hb.
      destruct (IH r Hin b) as (b' & -> & Hb'); auto. by exists b'. }
    rewrite Hsubs'. eexists. split; [done|]. by rewrite Heq.
Qed.

Lemma Write_writes rules v file : Write rules v = Ok file -> Forall (writes v) rules.
Proof.
  unfold Write, writeBody. destruct (concatR _) as [bs|?|?] eqn:Hc; [|done..]. intros _.
  by apply concatR_map in Hc as [_ Hc].
Qed.

(** C6: compiling a rule-set to version 2 or later keeps its meaning: each rule
    read back from the file can be built whenever the rule of the source can, and
    on every connection it yields the same match states, alone or included in any
    rule.  The rules are as decoded from a source, with values in the range of
    their Go types and no empty lists, and the file is within the size the reader
    can allocate.  (Before version 2 domain suffixes are stored in a form with
    another meaning; an empty list counts as a condition and is not stored.) *)
Theorem compiled_rules_match rules version file :
  Write rules version = Ok file -> RuleSetVersion2 <= version <= RuleSetVersionCurrent ->
  Forall wf_rule rules -> Forall sourceRule rules ->
  (forall body, writeBody rules version = Ok body -> small (length body)) ->
  exists rules', Read file false = Ok (version, rules') /\
    Forall2 (fun r r' => forall networkManager rule, NewHeadlessRule networkManager r = Ok rule ->
      exists rule', NewHeadlessRule networkManager r' = Ok rule' /\
        forall svc sets md base, rule_matchStatesWithBase svc sets rule md base
                            = rule_matchStatesWithBase svc sets rule' md base) rules rules'.
Proof.
  intros Hw Hv Hwf Hs Hsm. exists (map (compiledRule version) rules). split.
  - apply read_back; auto. unfold RuleSetVersion2 in *. lia.
  - apply Write_writes in Hw. apply Forall2_fmap_r, Forall_Forall2_diag.
    rewrite Forall_forall in *. intros r Hin nm rule. apply rule_compiled; auto. apply Hv.
Qed.

(** ** Metadata *)

Lemma hasHeadlessRule_compiled v cond r :
  (forall o bs, concatR (defaultRuleItems o v) = Ok bs -> fromSource o -> normalOptions o -> cond (compiled v o) = cond o) ->
  writes v r -> sourceRule r -> hasHeadlessRule cond (compiledRule v r) = hasHeadlessRule cond r.
Proof.
  intros Hcond. induction r as [t o mode rules inv IH] using HeadlessRule_ind_nested.
  intros [[-> [bs Hw]]|[-> Hw]]%writes_inv Hs; cbn in Hs |- *.
  - destruct Hs as [Hs Hn]. by eapply Hcond.
  - apply everyP_Forall in Hs. rewrite anyb_map. apply anyb_ext_Forall. rewrite Forall_forall in *. auto.
Qed.

Lemma isIPCIDR_compiled v o bs :
  concatR (defaultRuleItems o v) = Ok bs -> fromSource o -> normalOptions o ->
  isIPCIDRHeadlessRule (compiled v o) = isIPCIDRHeadlessRule o.
Proof.
  intros Hc (_ & _ & His & _) Hn. unfold isIPCIDRHeadlessRule. rewrite His. unfold normalOptions in Hn. destruct_and!.
  change (h_IPSet (compiled v o)) with (storedSet (h_IPCIDR o)). change (h_IPCIDR (compiled v o)) with (@None (list string)).
  rewrite (isNil_storedSet _ ruleItemIPCIDR "ipcidr" bs (defaultRuleItems o v)); [|done..|by apply (list_elem_of_lookup_2 _ 6)].
  rewrite (given_normal (h_IPCIDR o)) by done. by rewrite orb_false_r.
Qed.

(** the metadata a rule-set reports, which decides whether process lookups,
    WIFI state and response addresses are needed for its rules, is the same
    for the binary file as for its source. *)
Theorem compiled_metadata rules version file :
  Write rules version = Ok file -> Forall sourceRule rules ->
  buildRuleSetMetadata (map (compiledRule version) rules) = buildRuleSetMetadata rules.
Proof.
  intros Hw Hs. apply Write_writes in Hw. rewrite Forall_forall in *.
  assert (Hhas : forall cond, (forall o bs, concatR (defaultRuleItems o version) = Ok bs -> fromSource o -> normalOptions o ->
      cond (compiled version o) = cond o) ->
    HasHeadlessRule (map (compiledRule version) rules) cond = HasHeadlessRule rules cond).
  { intros cond Hcond. unfold HasHeadlessRule. rewrite anyb_map. apply anyb_ext_Forall, Forall_forall.
    intros r Hin. apply hasHeadlessRule_compiled; auto. }
  unfold buildRuleSetMetadata. rewrite (Hhas isProcessHeadlessRule), (Hhas isWIFIHeadlessRule),
    (Hhas isIPCIDRHeadlessRule), (Hhas isDNSQueryTypeHeadlessRule), (Hhas isNonIPCIDRHeadlessRule); [done|..]; intros o bs Hc Hso Hno.
  - unfold isNonIPCIDRHeadlessRule. by destruct (valid_compiled _ _ _ Hc Hso Hno) as [_ ->].
  - apply given_stored.
  - by eapply isIPCIDR_compiled.
  - unfold isWIFIHeadlessRule, compiled. cbn [h_WIFISSID h_WIFIBSSID]. by rewrite !given_stored.
  - unfold isProcessHeadlessRule, compiled.
    cbn [h_ProcessName h_ProcessPath h_ProcessPathRegex h_PackageName h_PackageNameRegex]. by rewrite !given_stored.
Qed.

(** ** Versions *)

(** The conditions a version has to support. *)
Definition supports (v : Z) (cond : (DefaultHeadlessRule -> bool) -> bool) : Prop :=
  (cond needsVersion5 = true -> RuleSetVersion5 <= v) /\
  (cond needsVersion4 = true -> RuleSetVersion4 <= v) /\
  (cond needsVersion3 = true -> RuleSetVersion3 <= v).

Lemma since_version {A} (x : slice A) k v message (enc : list A -> list byte) b :
  whenGiven x (fun l => since k v message (enc l)) = Ok b -> given x = true -> k <= v.
Proof. unfold whenGiven, since. intros Hw Hg. rewrite Hg in Hw. destruct (Z.ltb_spec v k); [done|lia]. Qed.

Lemma flag_version (flag : bool) k v message c b :
  (if flag then since k v message c else Ok []) = Ok b -> flag = true -> k <= v.
Proof. unfold since. intros Hw ->. destruct (Z.ltb_spec v k); [done|lia]. Qed.

Lemma items_supported o v bs : concatR (defaultRuleItems o v) = Ok bs -> supports v (fun c => c o).
Proof.
  intros Hc. assert (Hat : forall n m, defaultRuleItems o v !! n = Some m -> exists b, m = Ok b).
  { intros n m Hn. eapply concatR_elem; [done|]. by eapply list_elem_of_lookup_2. }
  unfold supports, needsVersion5, needsVersion4, needsVersion3. split_and!.
  - destruct (Hat 15%nat _ eq_refl) as [b Hb]. by eapply since_version.
  - destruct (Hat 19%nat _ eq_refl) as [b Hb], (Hat 20%nat _ eq_refl) as [b' Hb'].
    intros [Hg|Hg]%orb_prop; [exact (since_version _ _ _ _ _ _ Hb Hg)|exact (since_version _ _ _ _ _ _ Hb' Hg)].
  - destruct (Hat 16%nat _ eq_refl) as [b Hb], (Hat 17%nat _ eq_refl) as [b' Hb'], (Hat 18%nat _ eq_refl) as [b2 Hb2].
    intros [[Hg|Hg]%orb_prop|Hg]%orb_prop; [exact (since_version _ _ _ _ _ _ Hb Hg)| |].
    + exact (flag_version _ _ _ _ _ _ Hb' Hg).
    + exact (flag_version _ _ _ _ _ _ Hb2 Hg).
Qed.

Lemma since_same {A} (x : slice A) k v v' message (enc : list A -> list byte) :
  (given x = true -> k <= v /\ k <= v') ->
  whenGiven x (fun l => since k v message (enc l)) = whenGiven x (fun l => since k v' message (enc l)).
Proof.
  unfold whenGiven, since. destruct (given x); [|done]. intros Hk. destruct (Hk eq_refl).
  by rewrite !(proj2 (Z.ltb_ge _ _)) by lia.
Qed.

Lemma flag_same (flag : bool) k v v' message c :
  (flag = true -> k <= v /\ k <= v') -> (if flag then since k v message c else Ok []) = if flag then since k v' message c else Ok [].
Proof. unfold since. destruct flag; [|done]. intros Hk. destruct (Hk eq_refl). by rewrite !(proj2 (Z.ltb_ge _ _)) by lia. Qed.

Lemma items_version o v v' :
  RuleSetVersion2 <= v -> RuleSetVersion2 <= v' -> supports v (fun c => c o) -> supports v' (fun c => c o) ->
  defaultRuleItems o v = defaultRuleItems o v'.
Proof.
  unfold supports, needsVersion5, needsVersion4, needsVersion3. intros Hv Hv' (H5 & H4 & H3) (H5' & H4' & H3').
  unfold defaultRuleItems, RuleSetVersion1, RuleSetVersion2 in *.
  rewrite (proj2 (Z.eqb_neq v 1)), (proj2 (Z.eqb_neq v' 1)), (proj2 (Z.ltb_ge v 2)), (proj2 (Z.ltb_ge v' 2)) by lia.
  rewrite (since_same (h_PackageNameRegex o) _ v v') by auto.
  rewrite (since_same (h_NetworkType o) _ v v') by (intros Hg; rewrite Hg in *; auto).
  rewrite (flag_same (h_NetworkIsExpensive o) _ v v') by (intros Hg; rewrite Hg, orb_true_r in *; auto).
  rewrite (flag_same (h_NetworkIsConstrained o) _ v v') by (intros Hg; rewrite Hg, orb_true_r in *; auto).
  rewrite (since_same (h_NetworkInterfaceAddress o) _ v v') by (intros Hg; rewrite Hg in *; auto).
  rewrite (since_same (h_DefaultInterfaceAddress o) _ v v') by (intros Hg; rewrite Hg, orb_true_r in *; auto).
  done.
Qed.

Lemma hasHeadlessRule_logical cond o mode rules inv :
  hasHeadlessRule cond (mkHeadlessRule RuleTypeLogical o mode rules inv) = anyb rules (hasHeadlessRule cond).
Proof. done. Qed.

Lemma rule_supported r v : writes v r -> supports v (fun c => hasHeadlessRule c r).
Proof.
  induction r as [t o mode rules inv IH] using HeadlessRule_ind_nested.
  intros [[-> [bs Hw]]|[-> Hw]]%writes_inv; [by eapply items_supported|].
  unfold supports. rewrite !hasHeadlessRule_logical. rewrite Forall_forall in *.
  split_and!; intros (r & Hin%list_elem_of_In & Hr)%anyb_true; by apply (IH r Hin (Hw r Hin)).
Qed.

Lemma writeRule_logical o mode rules inv v :
  writeRule (mkHeadlessRule RuleTypeLogical o mode rules inv) v
  = writeLogicalRule mode rules inv (map (fun r => writeRule r v) rules).
Proof. done. Qed.

Lemma rule_version r v v' :
  RuleSetVersion2 <= v -> RuleSetVersion2 <= v' -> writes v r -> supports v' (fun c => hasHeadlessRule c r) ->
  writeRule r v' = writeRule r v.
Proof.
  intros Hv Hv'. induction r as [t o mode rules inv IH] using HeadlessRule_ind_nested.
  intros Hw Hs. pose proof (rule_supported _ _ Hw) as Hsv.
  apply writes_inv in Hw as [[-> [bs Hw]]|[-> Hw]].
  - change (writeDefaultRule o v' = writeDefaultRule o v). unfold writeDefaultRule. by rewrite (items_version o v v').
  - rewrite !writeRule_logical. f_equal. apply map_ext_in. intros r Hin. rewrite Forall_forall in *. apply IH; auto.
    unfold supports in *. rewrite !hasHeadlessRule_logical in Hs. destruct Hs as (H5 & H4 & H3).
    split_and!; intros Hr; [apply H5|apply H4|apply H3]; apply anyb_true; exists r; by rewrite list_elem_of_In.
Qed.

Lemma rules_version rules v v' :
  RuleSetVersion2 <= v -> RuleSetVersion2 <= v' -> Forall (writes v) rules -> supports v' (HasHeadlessRule rules) ->
  writeBody rules v' = writeBody rules v.
Proof.
  intros Hv Hv' Hw (H5 & H4 & H3). unfold writeBody. do 2 f_equal.
  apply map_ext_in. intros r Hin. rewrite Forall_forall in Hw. apply rule_version; auto.
  split_and!; intros Hr; [apply H5|apply H4|apply H3]; apply anyb_true; exists r; by rewrite list_elem_of_In.
Qed.

Lemma rules_supported rules v : Forall (writes v) rules -> supports v (HasHeadlessRule rules).
Proof.
  intros Hw. rewrite Forall_forall in Hw.
  split_and!; intros (r & Hin%list_elem_of_In & Hr)%anyb_true; by apply (rule_supported r v (Hw r Hin)).
Qed.

(** The version [downgradeRuleSetVersion] picks is supported, and no lower one
    is. *)
Lemma downgrade_supports rules v :
  RuleSetVersion2 <= v <= RuleSetVersionCurrent -> supports v (HasHeadlessRule rules) ->
  let v' := downgradeRuleSetVersion v rules in
  RuleSetVersion2 <= v' <= v /\ supports v' (HasHeadlessRule rules) /\
  forall k, RuleSetVersion2 <= k < v' -> ~ supports k (HasHeadlessRule rules).
Proof.
  unfold supports, downgradeRuleSetVersion, RuleSetVersionCurrent, RuleSetVersion2, RuleSetVersion3, RuleSetVersion4,
    RuleSetVersion5.
  intros Hv Hs. assert (Hcases : v = 2 \/ v = 3 \/ v = 4 \/ v = 5) by lia.
  destruct (HasHeadlessRule rules needsVersion5), (HasHeadlessRule rules needsVersion4),
    (HasHeadlessRule rules needsVersion3), Hcases as [->|[->|[->| ->]]]; cbn in *;
    destruct Hs as (H5 & H4 & H3); try specialize (H5 eq_refl); try specialize (H4 eq_refl); try specialize (H3 eq_refl);
    first [lia|split; [lia|split; [split_and!; intros; (lia || discriminate)|]]]; intros k Hk (H5' & H4' & H3');
    try specialize (H5' eq_refl); try specialize (H4' eq_refl); try specialize (H3' eq_refl); lia.
Qed.

(** [rule-set compile] lowers the version of a file without changing what is
    stored: the file has the same contents as at the version asked for, and
    the version is the lowest one (from 2 on) that can hold the rules, so old
    releases can read as many files as possible. *)
Theorem downgrade_minimal rules version file :
  Write rules version = Ok file -> RuleSetVersion2 <= version <= RuleSetVersionCurrent ->
  let version' := downgradeRuleSetVersion version rules in
  RuleSetVersion2 <= version' <= version /\
  writeBody rules version' = writeBody rules version /\
  forall lower f, RuleSetVersion2 <= lower < version' -> Write rules lower <> Ok f.
Proof.
  intros Hw Hv. apply Write_writes in Hw. cbv zeta.
  destruct (downgrade_supports rules version Hv (rules_supported _ _ Hw)) as (Hle & Hs & Hmin).
  split; [done|]. split; [apply rules_version; auto; lia|].
  intros lower f Hl Hwl%Write_writes. by apply (Hmin lower Hl), rules_supported.
Qed.

End compile.
