(* ===== verification/SrsDemo.v ===== *)
(** A concrete instance of the packages behind the binary format, with the
    variable-length integers of [encoding/binary], and the theorems on
    rule-set files at a concrete rule-set. *)
From S2P Require Import Prelude MatchState Netip Metadata RuleItem RuleAction Options Demo RuleAbstract RuleBuild.
From S2P Require Import Bytes Streams Srs SrsTotal SrsRoundTrip SrsRule SrsFile RuleSetMeta SrsCompile.

(** * The instance *)

Definition demoAddrFromIP (b : list byte) : Addr :=
  if (length b =? 4)%nat then Addr4 (beVal b) else if (length b =? 16)%nat then Addr6 (beVal b) "" else AddrZero.

(** Matchers that know whether they hold anything at all. *)
#[local] Instance srsDemoLibs : Libs := {|
  IsIP := demoSocksaddrIsIP;
  IsIPv4 s := Netip.Is4 (sa_Addr s);
  IsIPv6 s := Netip.Is6 (sa_Addr s);
  IsDomain s := negb (String.eqb (sa_Fqdn s) "");
  Socksaddr_IsValid s := demoSocksaddrIsIP s || negb (String.eqb (sa_Fqdn s) "");
  AddrFromIP := demoAddrFromIP;
  IsPublicAddr a := match a with Addr4 x => 167772160 <=? x | _ => false end;
  DomainMatcher := bool;
  NewMatcher domains suffixes _ := nonempty domains || nonempty suffixes;
  DomainMatcher_Match m _ := m;
  AdGuardMatcher := bool;
  NewAdGuardMatcher := nonempty;
  AdGuardMatcher_Match m _ := m;
  F_ToString := @F_ToString demoLibs;
  IPSetBuilder_IPSet := @IPSetBuilder_IPSet demoLibs;
  IPSet_Contains := @IPSet_Contains demoLibs;
  Regexp := string;
  Regexp_Compile s := Ok s;
  Regexp_MatchString re s := stringContains s re;
  ParsePrefix := @ParsePrefix demoLibs;
  ParseAddr := @ParseAddr demoLibs;
  Prefix_String := @Prefix_String demoLibs;
  ParseMAC := @ParseMAC demoLibs;
  HardwareAddr_String := @HardwareAddr_String demoLibs;
  ToLowerUnicode s := s;
  EqualFoldUnicode := String.eqb;
  TrimSpaceUnicode s := s;
  CanonicalName := @CanonicalName demoLibs;
  TypeToString := @TypeToString demoLibs;
  IsDuplicate := @IsDuplicate demoLibs;
  RR_String := @RR_String demoLibs;
  RcodeToString := @RcodeToString demoLibs
|}.

Definition demoWriteMatcher (m : bool) : list byte := [boolByte m].
Definition demoReadMatcher (e : GoError) (s : list byte) : result (bool * list byte) := readBool e s.

Definition demoPut (m : list (Z * list Prefix)) (k : Z) (v : list Prefix) : list (Z * list Prefix) :=
  if anyb m (fun e => e.1 =? k) then map (fun e => if e.1 =? k then (k, v) else e) m else m ++ [(k, v)].

#[local] Instance srsDemo : @SrsLibs srsDemoLibs := {|
  WriteUvarint := putUvarint 9;
  Matcher_Write := demoWriteMatcher;
  ReadMatcher := demoReadMatcher;
  Matcher_Dump _ := (None, None);
  AdGuardMatcher_Write := demoWriteMatcher;
  ReadAdGuardMatcher := demoReadMatcher;
  AdGuardMatcher_Dump _ := None;
  IPSet_Prefixes _ := [];
  TypedMap_Put := demoPut;
  zlib_compress b := b;
  zlib_NewReader b := inl (b, IO_EOF);
  maxAlloc := 2 ^ 48;
  sizeofHeadlessRule := 1024
|}.

Lemma demo_reads N e : reads N false (demoReadMatcher e).
Proof.
  intros [|b s] _; [done|]. split; [done|]. intros a s' Hr. cbn in Hr. simplify_eq. cbn. lia.
Qed.

Lemma demo_cidr value set : cidrSet value = Ok set -> Forall wf_range (rr set).
Proof.
  unfold cidrSet. intros (ops & Hops%mapR_from_Forall2 & [= <-])%bind_Ok. cbn [rr].
  induction Hops as [|s op value ops [j Hop] _ IH]; [constructor|]. cbn [map]. constructor; [|done].
  unfold parseCIDR in Hop. cbn in Hop. repeat case_match; simplify_eq; by repeat split.
Qed.

#[local] Instance srsDemoLaws : SrsLaws.
Proof.
  split.
  - intros e n rest Hn. cbn [WriteUvarint srsDemo]. unfold ReadUvarint, MaxVarintLen64.
    change 0 with (7 * Z.of_nat 0) at 2. rewrite (uvarintLoop_put e rest 9 0 0 n) by (done || lia).
    by rewrite Z.mul_1_r.
  - by intros e [] rest.
  - by intros e [] rest.
  - intros [|ip|ip [|]] [Hw Hz]; cbn [AddrFromIP srsDemoLibs]; unfold demoAddrFromIP, AsSlice; try done.
    + rewrite be_length. cbn. by rewrite beVal_be.
    + rewrite be_length. cbn. by rewrite beVal_be.
  - apply demo_cidr.
  - intros m k v Hk. cbn. unfold demoPut. destruct (anyb m _) eqn:Ha; [|done].
    apply anyb_true in Ha as ([k' v'] & Hin & Heq%Z.eqb_eq). cbn in Heq. subst. exfalso. apply Hk.
    apply (list_elem_of_fmap_2 fst) in Hin. done.
  - done.
  - done.
  - done.
Qed.

(** * A rule-set *)

(** Domains, addresses and ports, with a nested rule. *)
Definition demoOptions : DefaultHeadlessRule :=
  headlessRuleZero {{ h_DomainSuffix := Some ["example.org"]; h_IPCIDR := Some ["10.0.0.0/8"]; h_Port := Some [443] }}.

Definition demoHeadless : list HeadlessRule :=
  [ mkHeadlessRule RuleTypeDefault demoOptions "" [] false;
    mkHeadlessRule RuleTypeLogical headlessRuleZero LogicalTypeOr
      [ mkHeadlessRule RuleTypeDefault (headlessRuleZero {{ h_Network := Some ["udp"]; h_Invert := true }}) "" [] false;
        mkHeadlessRule RuleTypeDefault (headlessRuleZero {{ h_NetworkIsExpensive := true }}) "" [] false ] true ].

Definition demoFile : list byte := match Write demoHeadless RuleSetVersion5 with Ok f => f | _ => [] end.

Lemma demo_written : Write demoHeadless RuleSetVersion5 = Ok demoFile.
Proof. vm_compute. reflexivity. Defined.

Lemma demo_small body : writeBody demoHeadless RuleSetVersion5 = Ok body -> small (length body).
Proof. intros Hb. vm_compute in Hb. injection Hb as <-. by vm_compute. Qed.

Lemma demo_wf : Forall wf_rule demoHeadless.
Proof. repeat constructor; cbn; (lia || done). Qed.

Lemma demo_source : Forall sourceRule demoHeadless.
Proof. repeat constructor; done. Qed.

Lemma srs_read_terminates_witness : Read demoFile true <> Panic outOfFuel.
Proof. apply (srs_read_terminates demoFile true); apply demo_reads. Defined.

Lemma srs_round_trip_witness :
  Read demoFile false = Ok (RuleSetVersion5, map (compiledRule RuleSetVersion5) demoHeadless).
Proof.
  apply (srs_round_trip demoHeadless RuleSetVersion5 demoFile);
    [exact demo_written|by vm_compute|exact demo_wf|exact demo_small].
Defined.

Lemma compiled_rules_match_witness :
  exists rules', Read demoFile false = Ok (RuleSetVersion5, rules') /\ length rules' = 2%nat.
Proof.
  destruct (compiled_rules_match demoHeadless RuleSetVersion5 demoFile) as (rules' & Hr & Hm);
    [exact demo_written|by vm_compute|exact demo_wf|exact demo_source|exact demo_small|].
  exists rules'. split; [exact Hr|]. symmetry. exact (Forall2_length Hm).
Defined.

Lemma compiled_metadata_witness :
  buildRuleSetMetadata (map (compiledRule RuleSetVersion5) demoHeadless) = mkRuleSetMetadata false false true false true.
Proof.
  rewrite (compiled_metadata demoHeadless RuleSetVersion5 demoFile demo_written demo_source). reflexivity.
Defined.

Lemma downgrade_minimal_witness :
  downgradeRuleSetVersion RuleSetVersion5 demoHeadless = RuleSetVersion3 /\
  forall f, Write demoHeadless RuleSetVersion2 <> Ok f.
Proof.
  destruct (downgrade_minimal demoHeadless RuleSetVersion5 demoFile demo_written ltac:(by vm_compute)) as (_ & _ & Hm).
  split; [reflexivity|]. intros f. apply Hm. by vm_compute.
Defined.

(** A length in the file that no slice can have makes the reader panic: the
    run-time refuses the allocation before any of the data is read. *)
Lemma read_huge_length : Read (MagicBytes ++ [byteOf 5] ++ putUvarint 9 (2 ^ 62)) false = Panic "makeslice: len out of range".
Proof. vm_compute. reflexivity. Qed.
