(* ===== verification/Geosite.v ===== *)
(** [common/geosite]: files of domain lists by code. *)
From stdpp Require Import sorting.
From S2P Require Import Prelude Netip Metadata RuleItem RuleAction Options Bytes Streams Srs SrsRoundTrip SrsDemo.

Definition RuleTypeDomain : Z := 0.
Definition RuleTypeDomainSuffix : Z := 1.
Definition RuleTypeDomainKeyword : Z := 2.
Definition RuleTypeDomainRegex : Z := 3.

Record Item := mkItem { item_Type : Z; item_Value : string }.

Section geosite.
Context `{SrsLibs}.

(** * Writing *)

Definition geosite_writeString (value : string) : bytes := WriteUvarint (len (stringBytes value)) ++ stringBytes value.

Definition writeItem (item : Item) : bytes := byteOf (item_Type item) :: geosite_writeString (item_Value item).

(** [sort.Strings] *)
Definition stringLe (a b : string) : Prop := String.compare a b <> Gt.

#[global] Instance stringLe_dec : RelDecision stringLe.
Proof. intros a b. unfold stringLe. apply _. Defined.

Definition sortedKeys (domains : gmap string (list Item)) : list string := merge_sort stringLe (map fst (map_to_list domains)).

(** The content, with the index of each code in it. *)
Definition writeContent (domains : gmap string (list Item)) (keys : list string) : gmap string Z * bytes :=
  fold_left (fun '(index, content) code =>
    (<[code := len content]> index, content ++ concat (map writeItem (default [] (domains !! code))))) keys (∅, []).

Definition writeEntry (domains : gmap string (list Item)) (index : gmap string Z) (code : string) : bytes :=
  geosite_writeString code ++ WriteUvarint (default 0 (index !! code)) ++ WriteUvarint (len (default [] (domains !! code))).

Definition geosite_Write (domains : gmap string (list Item)) : bytes :=
  let keys := sortedKeys domains in
  let (index, content) := writeContent domains keys in
  byteOf 0 :: WriteUvarint (len keys) ++ concat (map (writeEntry domains index) keys) ++ content.

(** * Reading *)

(** The reader of a file with the given content. *)
Record GeositeReader := mkGeositeReader {
  gr_reader : bytes;
  metadataIndex : Z;
  domainIndex : gmap string Z;
  domainLength : gmap string Z }.

Definition geosite_readString (s : bytes) : result (string * bytes) :=
  '(length, s) ← ReadUvarint IO_EOF s;
  _ ← makeSlice 1 length;
  if length <=? len s then Ok (String.string_of_list_byte (take (Z.to_nat length) s), drop (Z.to_nat length) s) else Err IO_EOF.

Definition readEntry (s : bytes) : result (string * (Z * Z) * bytes) :=
  '(code, s) ← geosite_readString s;
  '(codeIndex, s) ← ReadUvarint IO_EOF s;
  '(codeLength, s) ← ReadUvarint IO_EOF s;
  Ok ((code, (toInt codeIndex, toInt codeLength)), s).

(** [readMetadata], with what it sets in the reader. *)
Definition readMetadata (content : bytes) : result GeositeReader :=
  '(version, s) ← readByte IO_EOF content;
  if negb (version =? 0) then Err (E_New "unknown version")
  else
    '(entryLength, s) ← ReadUvarint IO_EOF s;
    _ ← makeSlice 16 entryLength;
    '(entries, s) ← readLoop (fun _ s => readEntry s) (toInt entryLength) s;
    let domainIndex := fold_left (fun m '(code, (i, _)) => <[code := i]> m) entries ∅ in
    let domainLength := fold_left (fun m '(code, (_, l)) => <[code := l]> m) entries ∅ in
    Ok (mkGeositeReader content (len content - len s) domainIndex domainLength).

(** [NewReader], with the codes in any order. *)
Definition NewReader (content : bytes) : result (GeositeReader * list string) :=
  reader ← readMetadata content;
  Ok (reader, map fst (map_to_list (domainIndex reader))).

Definition geosite_readItem (s : bytes) : result (Item * bytes) :=
  '(typeByte, s) ← readByte IO_EOF s;
  '(value, s) ← geosite_readString s;
  Ok (mkItem typeByte value, s).

Definition GeositeReader_Read (r : GeositeReader) (code : string) : result (list Item) :=
  match domainIndex r !! code with
  | None => Err (E_New ("code " +:+ code +:+ " not exists!"))
  | Some index =>
      let offset := toInt ((metadataIndex r + index) mod 2 ^ 64) in
      if offset <? 0 then Err (E_Lib "seek: invalid argument")
      else
        let n := default 0 (domainLength r !! code) in
        if n <? 0 then Panic "makeslice: len out of range"
        else
          _ ← makeSlice 24 n;
          '(itemList, _) ← readLoop (fun _ s => geosite_readItem s) n (drop (Z.to_nat offset) (gr_reader r));
          Ok itemList
  end.

(** * Rules *)

(** Appending to a field, which is nil as long as it is empty. *)
Definition appendField (field : slice string) (values : list string) : slice string :=
  if nonempty values then Some (elems field ++ values) else field.

Definition compileItem (codeRule : RawDefaultRule) (item : Item) : RawDefaultRule :=
  if item_Type item =? RuleTypeDomain then codeRule {{ r_Domain := appendField (r_Domain codeRule) [item_Value item] }}
  else if item_Type item =? RuleTypeDomainSuffix then codeRule {{ r_DomainSuffix := appendField (r_DomainSuffix codeRule) [item_Value item] }}
  else if item_Type item =? RuleTypeDomainKeyword then codeRule {{ r_DomainKeyword := appendField (r_DomainKeyword codeRule) [item_Value item] }}
  else if item_Type item =? RuleTypeDomainRegex then codeRule {{ r_DomainRegex := appendField (r_DomainRegex codeRule) [item_Value item] }}
  else codeRule.

Definition geosite_Compile (code : list Item) : RawDefaultRule := fold_left compileItem code rawDefaultRuleZero.

Definition geosite_Merge (rules : list RawDefaultRule) : RawDefaultRule :=
  fold_left (fun rule subRule =>
    rule {{
      r_Domain := appendField (r_Domain rule) (elems (r_Domain subRule));
      r_DomainSuffix := appendField (r_DomainSuffix rule) (elems (r_DomainSuffix subRule));
      r_DomainKeyword := appendField (r_DomainKeyword rule) (elems (r_DomainKeyword subRule));
      r_DomainRegex := appendField (r_DomainRegex rule) (elems (r_DomainRegex subRule)) }}) rules rawDefaultRuleZero.
End geosite.

(** * The round trip *)

Section roundtrip.
Context `{SrsLaws}.

Definition validItem (item : Item) : Prop := 0 <= item_Type item < 256.

Lemma geosite_string_read value rest : small (length (stringBytes value)) ->
  geosite_readString (geosite_writeString value ++ rest) = Ok (value, rest).
Proof.
  intros Hs. unfold geosite_readString, geosite_writeString. rewrite <- app_assoc. unfold len.
  rewrite uvarint_roundtrip by (by apply small_range). cbn [mbind result_bind].
  pose proof rule_size. rewrite makeSlice_small by (done || lia). cbn [mbind result_bind].
  rewrite (proj2 (Z.leb_le _ _)) by (unfold len; rewrite length_app; lia).
  rewrite Nat2Z.id, take_app_length, drop_app_length. unfold stringBytes. by rewrite String.string_of_list_byte_of_string.
Qed.

Lemma item_read item rest : validItem item -> small (length (stringBytes (item_Value item))) -> geosite_readItem (writeItem item ++ rest) = Ok (item, rest).
Proof.
  intros Hv Hs. unfold geosite_readItem, writeItem. cbn. rewrite byteVal_byteOf by done. rewrite geosite_string_read by done. cbn. by destruct item.
Qed.

Lemma toInt_small n : small n -> toInt (Z.of_nat n) = Z.of_nat n.
Proof. intros Hn. unfold toInt. unfold small in Hn. pose proof rule_size. pose proof maxAlloc_bound. rewrite (proj2 (Z.ltb_lt _ _)); [done|nia]. Qed.

(** Where the content of each code lies. *)
Lemma writeContent_spec domains keys : NoDup keys ->
  (writeContent domains keys).2 = concat (map (fun code => concat (map writeItem (default [] (domains !! code)))) keys) /\
  forall code, code ∈ keys -> exists before after,
    (writeContent domains keys).2 = before ++ concat (map writeItem (default [] (domains !! code))) ++ after /\
    (writeContent domains keys).1 !! code = Some (len before).
Proof.
  unfold writeContent. intros Hn. induction keys as [|code keys IH] using rev_ind; [split; [done|]; set_solver|].
  rewrite fold_left_app, map_app, concat_app. cbn [fold_left map concat]. rewrite app_nil_r.
  apply list.NoDup_app in Hn as (Hn & Hd & _). destruct (IH Hn) as [IHc IHi]. destruct (fold_left _ keys (∅, [])) as [index content]. cbn [fst snd] in *.
  split; [by rewrite IHc|]. intros c [Hc|Hc%list_elem_of_singleton]%elem_of_app.
  - destruct (IHi c Hc) as (before & after & Hb & Hi). exists before, (after ++ concat (map writeItem (default [] (domains !! code)))).
    rewrite Hb, <- !app_assoc. split; [done|]. rewrite lookup_insert_ne; [done|]. intros ->. apply (Hd c Hc). set_solver.
  - subst c. exists content, []. rewrite app_nil_r. split; [done|]. apply lookup_insert_eq.
Qed.

Lemma fold_table {V} (f : string -> V) (keys : list string) : forall (m : gmap string V) code,
  fold_left (fun m code => <[code := f code]> m) keys m !! code = if decide (code ∈ keys) then Some (f code) else m !! code.
Proof.
  induction keys as [|k keys IH]; intros m code; cbn [fold_left]; [by rewrite decide_False by set_solver|]. rewrite IH.
  destruct (decide (code ∈ keys)); [by rewrite decide_True by set_solver|]. destruct (decide (code = k)) as [->|Hne].
  - by rewrite lookup_insert_eq, decide_True by set_solver.
  - by rewrite lookup_insert_ne, decide_False by set_solver.
Qed.

Lemma fold_entries {A V} (g : string -> V) (add : gmap string V -> A -> gmap string V) (e : string -> A) (keys : list string) :
  (forall k m, add m (e k) = <[k := g k]> m) -> forall m,
  fold_left add (map e keys) m = fold_left (fun m code => <[code := g code]> m) keys m.
Proof. intros Ha. induction keys as [|k keys IH]; intros m; [done|]. cbn. by rewrite Ha. Qed.

Section file.
Variable domains : gmap string (list Item).
Hypothesis fits : small (length (geosite_Write domains)).
Hypothesis valid_items : forall code items, domains !! code = Some items -> Forall validItem items.

Abbreviation keys := (sortedKeys domains).
Abbreviation content := ((writeContent domains keys).2).
Abbreviation indexOfCode code := (default 0 ((writeContent domains keys).1 !! code)).
Abbreviation itemsOf code := (default [] (domains !! code)).

Definition metadata : bytes :=
  byteOf 0 :: WriteUvarint (len keys) ++ concat (map (writeEntry domains (writeContent domains keys).1) keys).

Lemma geosite_Write_parts : geosite_Write domains = metadata ++ content.
Proof. unfold geosite_Write, metadata. destruct (writeContent domains keys) as [index c]. cbn [fst snd app]. by rewrite <- app_assoc. Qed.

Lemma keys_spec : NoDup keys /\ forall code, code ∈ keys <-> is_Some (domains !! code).
Proof.
  assert (keys ≡ₚ map fst (map_to_list domains)) as Hp by apply merge_sort_Permutation. split.
  - rewrite Hp. apply NoDup_fst_map_to_list.
  - intros code. rewrite Hp. split.
    + intros ([c items] & -> & Hc)%list_elem_of_fmap. apply elem_of_map_to_list in Hc. cbn. by eexists.
    + intros [items Hi]. apply list_elem_of_fmap. exists (code, items). split; [done|]. by apply elem_of_map_to_list.
Qed.

Lemma small_part n : (n <= length (geosite_Write domains))%nat -> small n.
Proof. intros Hn. by eapply small_le. Qed.

Lemma entry_length code : code ∈ keys ->
  (0 < length (writeEntry domains (writeContent domains keys).1 code))%nat /\
  (length (writeEntry domains (writeContent domains keys).1 code) <= length (geosite_Write domains))%nat /\ small (length (stringBytes code)).
Proof.
  intros Hc. assert (length (writeEntry domains (writeContent domains keys).1 code) <= length (geosite_Write domains))%nat as Hl.
  { rewrite geosite_Write_parts. unfold metadata. pose proof (in_concat_length (writeEntry domains (writeContent domains keys).1) code keys Hc).
    rewrite length_app. cbn [length]. rewrite length_app. lia. }
  assert (small (length (stringBytes code))) as Hs.
  { apply small_part. etransitivity; [|exact Hl]. unfold writeEntry, geosite_writeString. rewrite !length_app. lia. }
  split_and!; [|done..]. unfold writeEntry, geosite_writeString, len. rewrite !length_app. pose proof (uvarint_nonempty _ (small_range _ Hs)) as Hne.
  destruct (WriteUvarint (Z.of_nat (length (stringBytes code)))); [done|cbn; lia].
Qed.

Lemma writeItem_nonempty item : (0 < length (writeItem item))%nat.
Proof. cbn. lia. Qed.

(** The content of a code: where it is, and that all numbers about it are small. *)
Lemma code_content code : code ∈ keys -> exists before after,
  content = before ++ concat (map writeItem (itemsOf code)) ++ after /\ indexOfCode code = len before /\
  small (length before) /\ small (length (itemsOf code)) /\
  forall item, item ∈ itemsOf code -> validItem item /\ small (length (stringBytes (item_Value item))).
Proof.
  intros Hc. destruct keys_spec as [Hn Hk]. destruct (writeContent_spec domains keys Hn) as [_ Hi]. destruct (Hi code Hc) as (before & after & Hb & Hx).
  assert (length before + length (concat (map writeItem (itemsOf code))) <= length (geosite_Write domains))%nat as Hl.
  { rewrite geosite_Write_parts, length_app, Hb, !length_app. lia. }
  exists before, after. rewrite Hx. split_and!; [done..| | |].
  - apply small_part. lia.
  - apply small_part. pose proof (concat_length writeItem (itemsOf code) (fun item _ => writeItem_nonempty item)). lia.
  - intros item Hit. split.
    + apply Hk in Hc as [items Hd]. rewrite Hd in Hit. eapply Forall_elem; [|exact Hit]. by eapply valid_items.
    + apply small_part. pose proof (in_concat_length writeItem item _ Hit) as Hin.
      assert (length (stringBytes (item_Value item)) <= length (writeItem item))%nat by (cbn; unfold geosite_writeString; rewrite length_app; lia). lia.
Qed.

Lemma entry_read code rest : code ∈ keys ->
  readEntry (writeEntry domains (writeContent domains keys).1 code ++ rest) = Ok ((code, (indexOfCode code, len (itemsOf code))), rest).
Proof.
  intros Hc. destruct (entry_length code Hc) as (_ & _ & Hs). destruct (code_content code Hc) as (before & after & _ & Hi & Hb & Hit & _).
  unfold readEntry, writeEntry. rewrite <- !app_assoc, geosite_string_read by done. cbn [mbind result_bind]. rewrite Hi. unfold len.
  rewrite uvarint_roundtrip by (by apply small_range). cbn [mbind result_bind].
  rewrite uvarint_roundtrip by (by apply small_range). cbn [mbind result_bind]. by rewrite !toInt_small.
Qed.

Lemma metadata_read : readMetadata (geosite_Write domains) =
  Ok (mkGeositeReader (geosite_Write domains) (len metadata)
    (fold_left (fun m code => <[code := indexOfCode code]> m) keys ∅) (fold_left (fun m code => <[code := len (itemsOf code)]> m) keys ∅)).
Proof.
  assert (small (length keys)) as Hk.
  { apply small_part. rewrite geosite_Write_parts. unfold metadata. rewrite length_app. cbn [length]. rewrite length_app.
    pose proof (concat_length (writeEntry domains (writeContent domains keys).1) keys (fun code Hc => proj1 (entry_length code Hc))). lia. }
  pose proof rule_size. unfold readMetadata. rewrite geosite_Write_parts at 1. unfold metadata at 1. cbn [app readByte mbind result_bind].
  rewrite byteVal_byteOf by lia. change (negb (0 =? 0)) with false. cbn match. rewrite <- app_assoc. change (len keys) with (Z.of_nat (length keys)).
  rewrite uvarint_roundtrip by (by apply small_range). cbn [mbind result_bind]. rewrite makeSlice_small by (done || lia). cbn [mbind result_bind].
  rewrite toInt_small by done.
  rewrite (readLoop_written (writeEntry domains (writeContent domains keys).1) (fun code => (code, (indexOfCode code, len (itemsOf code))))).
  - cbn [mbind result_bind]. do 2 f_equal.
    + rewrite geosite_Write_parts. unfold len. rewrite length_app. lia.
    + by apply (fold_entries (fun code => indexOfCode code) (fun m '(code, (i, _)) => <[code := i]> m)).
    + by apply (fold_entries (fun code => len (itemsOf code)) (fun m '(code, (_, l)) => <[code := l]> m)).
  - intros code Hc i rest. by apply entry_read.
  - intros code Hc. apply entry_length, Hc.
Qed.

Lemma read_code code : code ∈ keys -> forall r, readMetadata (geosite_Write domains) = Ok r -> GeositeReader_Read r code = Ok (itemsOf code).
Proof.
  intros Hc r Hr. rewrite metadata_read in Hr. injection Hr as <-. unfold GeositeReader_Read. cbn [domainIndex domainLength metadataIndex gr_reader].
  rewrite !fold_table, !decide_True by done. cbn [from_option id]. destruct (code_content code Hc) as (before & after & Hcon & -> & Hb & Hit & Hi).
  assert (len metadata + len before = Z.of_nat (length metadata + length before)) as -> by (unfold len; lia).
  assert (small (length metadata + length before)) as Hoff.
  { apply small_part. rewrite geosite_Write_parts, Hcon, !length_app. lia. }
  rewrite Z.mod_small by (by apply small_range). rewrite toInt_small by done. rewrite !(proj2 (Z.ltb_ge _ _)) by (unfold len; lia). rewrite Nat2Z.id.
  pose proof rule_size. change (len (itemsOf code)) with (Z.of_nat (length (itemsOf code))). rewrite makeSlice_small by (done || lia). cbn [mbind result_bind].
  rewrite geosite_Write_parts, Hcon, app_assoc, drop_app_length' by (by rewrite length_app).
  rewrite (readLoop_written writeItem (fun item => item)); [cbn; by rewrite map_id| |intros; apply writeItem_nonempty].
  intros item Hitem i rest. by apply item_read; apply Hi.
Qed.
End file.

(** A file of domain lists is read back: the reader knows exactly the codes that were
    written, and reads the items of each in order. *)
Theorem geosite_round_trip domains :
  small (length (geosite_Write domains)) -> (forall code items, domains !! code = Some items -> Forall validItem items) ->
  exists r codes, NewReader (geosite_Write domains) = Ok (r, codes) /\ (forall code, code ∈ codes <-> is_Some (domains !! code)) /\
    forall code, GeositeReader_Read r code =
      match domains !! code with Some items => Ok items | None => Err (E_New ("code " +:+ code +:+ " not exists!")) end.
Proof.
  intros Hs Hv. pose proof (metadata_read domains Hs Hv) as Hm. destruct (keys_spec domains) as [_ Hk].
  unfold NewReader. rewrite Hm. cbn [mbind result_bind]. eexists _, _. split; [done|]. split.
  - intros code. cbn [domainIndex]. rewrite <- Hk. split.
    + intros ([c i] & -> & Hc)%list_elem_of_fmap. apply elem_of_map_to_list in Hc. rewrite fold_table in Hc. cbn. by case_decide.
    + intros Hc. apply list_elem_of_fmap. eexists (code, _). split; [done|]. apply elem_of_map_to_list. by rewrite fold_table, decide_True.
  - intros code. destruct (domains !! code) as [items|] eqn:Hd.
    + assert (code ∈ sortedKeys domains) as Hc by (apply Hk; by eexists).
      rewrite (read_code domains Hs Hv code Hc _ Hm). by rewrite Hd.
    + unfold GeositeReader_Read. cbn [domainIndex]. rewrite fold_table, decide_False; [done|]. rewrite Hk, Hd. by intros [].
Qed.
End roundtrip.

(** * Compiled rules *)

Definition valuesOfType (type : Z) (code : list Item) : list string := map item_Value (filter (fun item => item_Type item = type) code).

Definition field (values : list string) : slice string := if nonempty values then Some values else None.

Lemma appendField_field l k : appendField (field l) k = field (l ++ k).
Proof. unfold appendField, field. destruct l, k; cbn; by rewrite ?app_nil_r. Qed.

Lemma elems_field l : elems (field l) = l.
Proof. by destruct l. Qed.

(** A rule with only these lists of domains. *)
Definition domainRule (values : Z -> list string) : RawDefaultRule :=
  rawDefaultRuleZero {{
    r_Domain := field (values RuleTypeDomain);
    r_DomainSuffix := field (values RuleTypeDomainSuffix);
    r_DomainKeyword := field (values RuleTypeDomainKeyword);
    r_DomainRegex := field (values RuleTypeDomainRegex) }}.

Lemma valuesOfType_app type l k : valuesOfType type (l ++ k) = valuesOfType type l ++ valuesOfType type k.
Proof. unfold valuesOfType. by rewrite list.filter_app, map_app. Qed.

Local Ltac one_field := cbn -[appendField field valuesOfType]; unfold constant; by rewrite appendField_field, !app_nil_r.

Lemma Compile_values code : geosite_Compile code = domainRule (fun type => valuesOfType type code).
Proof.
  unfold geosite_Compile. induction code as [|item code IH] using rev_ind; [done|]. rewrite fold_left_app. cbn [fold_left]. rewrite IH.
  assert (forall type, valuesOfType type (code ++ [item]) = valuesOfType type code ++ (if item_Type item =? type then [item_Value item] else [])) as Hv.
  { intros type. rewrite valuesOfType_app. f_equal. unfold valuesOfType. cbn. destruct (Z.eqb_spec (item_Type item) type).
    - by rewrite decide_True. - by rewrite decide_False. }
  unfold compileItem, domainRule. rewrite !Hv.
  destruct (Z.eqb_spec (item_Type item) RuleTypeDomain) as [E|H0]; [rewrite ?E; one_field|].
  destruct (Z.eqb_spec (item_Type item) RuleTypeDomainSuffix) as [E|H1]; [rewrite ?E; one_field|].
  destruct (Z.eqb_spec (item_Type item) RuleTypeDomainKeyword) as [E|H2]; [rewrite ?E; one_field|].
  destruct (Z.eqb_spec (item_Type item) RuleTypeDomainRegex) as [E|H3]; [rewrite ?E; one_field|]. by rewrite !app_nil_r.
Qed.

(** Compiling lists and merging the rules is compiling the lists together. *)
Theorem geosite_merge_compile codes : geosite_Merge (map geosite_Compile codes) = geosite_Compile (concat codes).
Proof.
  rewrite Compile_values. unfold geosite_Merge.
  assert (forall done, fold_left (fun rule subRule => rule {{
      r_Domain := appendField (r_Domain rule) (elems (r_Domain subRule));
      r_DomainSuffix := appendField (r_DomainSuffix rule) (elems (r_DomainSuffix subRule));
      r_DomainKeyword := appendField (r_DomainKeyword rule) (elems (r_DomainKeyword subRule));
      r_DomainRegex := appendField (r_DomainRegex rule) (elems (r_DomainRegex subRule)) }}) (map geosite_Compile codes)
    (domainRule (fun type => valuesOfType type done)) = domainRule (fun type => valuesOfType type (done ++ concat codes))) as Hm; [|by apply (Hm [])].
  induction codes as [|code codes IH]; intros done; cbn [map concat fold_left]; [by rewrite app_nil_r|].
  rewrite app_assoc, <- IH. f_equal. rewrite Compile_values. unfold domainRule. cbn -[appendField field valuesOfType elems]. unfold constant.
  by rewrite !elems_field, !appendField_field, !valuesOfType_app.
Qed.

(** * A file *)

Definition demoDomains : gmap string (list Item) :=
  <["cn" := [mkItem RuleTypeDomain "a.cn"; mkItem RuleTypeDomainSuffix "cn"]]> {["ads" := [mkItem RuleTypeDomainKeyword "ads"]]}.

Lemma demoDomains_valid code items : demoDomains !! code = Some items -> Forall validItem items.
Proof.
  unfold demoDomains. intros [[_ <-]|[_ [_ <-]%lookup_singleton_Some]]%lookup_insert_Some; repeat constructor; done.
Qed.

Lemma geosite_round_trip_witness : exists r codes,
  NewReader (H0 := srsDemo) (geosite_Write (H0 := srsDemo) demoDomains) = Ok (r, codes) /\
  GeositeReader_Read (H0 := srsDemo) r "ads" = Ok [mkItem RuleTypeDomainKeyword "ads"].
Proof.
  destruct (geosite_round_trip (H1 := srsDemoLaws) demoDomains) as (r & codes & Hr & _ & Hc);
    [vm_compute; discriminate|exact demoDomains_valid|]. exists r, codes. split; [exact Hr|exact (Hc "ads")].
Defined.

(** The number of codes is passed to [make] unchecked. *)
Lemma geosite_huge_count : NewReader (H0 := srsDemo) (byteOf 0 :: putUvarint 9 (2 ^ 60)) = Panic "makeslice: len out of range".
Proof. vm_compute. reflexivity. Qed.
