(* ===== verification/Adguard.v ===== *)
(** [common/convertor/adguard]: AdGuard DNS filters as rules of a rule-set, and back. *)
From Stdlib Require Import Ascii.
From S2P Require Import Prelude MatchState Netip Metadata RuleItem RuleAction Text Options Demo RuleAbstract RuleBuild RuleSpec RuleTree StateMatcher RuleMatch.

(** Functions of the [sing] package. *)
Class AdguardLibs := {
  IsDomainName : string -> bool;
  ParseAddrOrZero : string -> Addr;
  SubstringBefore : string -> string -> string;
  SubstringAfter : string -> string -> string }.

Record agdguardRuleLine := mkRuleLine {
  ruleLine : string;
  isRawDomain : bool;
  isExclude : bool;
  isSuffix : bool;
  hasStart : bool;
  hasEnd : bool;
  isRegexp : bool;
  isImportant : bool }.

(** * Strings *)

Definition takeString (n : nat) (s : string) : string := String.substring 0 n s.

Definition TrimSuffix (s suffix : string) : string :=
  if hasSuffix s suffix then takeString (String.length s - String.length suffix) s else s.

(** [s[1:len(s)-1]] *)
Definition inner (s : string) : result string :=
  if (1 <=? String.length s - 1)%nat then Ok (String.substring 1 (String.length s - 2) s) else Panic "slice bounds out of range".

(** [strings.ReplaceAll(s, "*", "x")] *)
Definition replaceStar : string -> string := mapString (fun c => if Ascii.eqb c "*" then "x"%char else c).

(** [strconv.ParseUint(s, 10, 8)] *)
Definition ParseUint8 (s : string) : result Z :=
  v ← ParseUint16 s;
  if v <? 256 then Ok v else Err (E_Lib "value out of range").

(** [Addr.IsUnspecified] *)
Definition IsUnspecified (ip : Addr) : bool := bool_decide (ip = Addr4 0) || bool_decide (ip = Addr6 0 "").

Definition succeeds {A} (r : result A) : bool := match r with Ok _ => true | _ => false end.

(** * From text *)

Section convert.
Context `{Libs} `{AdguardLibs}.

Definition parseAdGuardHostLine (ruleLine : string) : result string :=
  match cut " " ruleLine with
  | None => Err OS_ErrInvalid
  | Some (before, after) =>
      address ← ParseAddr before;
      if negb (IsUnspecified address) then Ok ""
      else if negb (IsDomainName after) then Err (E_New ("invalid domain name: " +:+ after))
      else Ok after
  end.

Definition ignoreIPCIDRRegexp (ruleLine : string) : bool :=
  let ruleLine :=
    if hasPrefix ruleLine "(http?:\/\/)" then dropString 12 ruleLine
    else if hasPrefix ruleLine "(https?:\/\/)" then dropString 13 ruleLine
    else if hasPrefix ruleLine "^" then dropString 1 ruleLine
    else ruleLine in
  succeeds (ParseUint8 (SubstringBefore ruleLine "\.")) || succeeds (ParseUint8 (SubstringBefore ruleLine ".")).

Definition parseADGuardIPCIDRLine (ruleLine : string) : result Prefix :=
  let isPrefix := hasSuffix ruleLine "." in
  let ruleLine := if isPrefix then takeString (String.length ruleLine - 1) ruleLine else ruleLine in
  let ruleStringParts := split "." ruleLine in
  if (4 <? length ruleStringParts)%nat || (length ruleStringParts <? 4)%nat && negb isPrefix then Err OS_ErrInvalid
  else
    ruleParts ← mapR ParseUint8 ruleStringParts;
    let bitLen := Z.of_nat (length ruleParts * 8) in
    match ruleParts ++ replicate (4 - length ruleParts) 0 with
    | [a; b; c; d] => Ok (mkPrefix (Addr4 (((a * 256 + b) * 256 + c) * 256 + d)) bitLen)
    | _ => Panic "cannot convert slice to array"
    end.

(** The loop over the modifiers: whether the rule is important, or [None] for a
    modifier that is not supported. *)
Fixpoint readModifiers (params : list string) (isImportant : bool) : option bool :=
  match params with
  | [] => Some isImportant
  | param :: params' =>
      match split "=" param with
      | ["important"] | ["important"; _] => readModifiers params' true
      | ["dnsrewrite"; value] => if IsUnspecified (ParseAddrOrZero value) then readModifiers params' isImportant else None
      | _ => None
      end
  end.

(** Characters of rules that cannot be converted. *)
Definition unsupported (ruleLine : string) : bool :=
  anyb ["/"; "?"; "&"; "["; "]"; "("; ")"; "!"; "#"; "~"] (stringContains ruleLine).

(** The prefixes and the suffix of a rule whose modifiers were read. Whether a line is
    an address only matters for the log. *)
Definition parsePattern (ruleLine : string) (isImportant : bool) : result (option agdguardRuleLine) :=
  let isExclude := hasPrefix ruleLine "@@" in
  let ruleLine := if isExclude then dropString 2 ruleLine else ruleLine in
  let ruleLine := TrimSuffix ruleLine "|" in
  let isSuffix := hasPrefix ruleLine "||" in
  let hasStart := negb isSuffix && hasPrefix ruleLine "|" in
  let ruleLine := if isSuffix then dropString 2 ruleLine else if hasStart then dropString 1 ruleLine else ruleLine in
  let hasEnd := hasSuffix ruleLine "^" in
  let ruleLine := if hasEnd then takeString (String.length ruleLine - 1) ruleLine else ruleLine in
  if hasPrefix ruleLine "/" && hasSuffix ruleLine "/" then
    ruleLine ← inner ruleLine;
    Ok (if ignoreIPCIDRRegexp ruleLine then None
        else Some (mkRuleLine ruleLine false isExclude isSuffix hasStart hasEnd true isImportant))
  else
    let isSuffix := isSuffix || stringContains ruleLine "://" in
    let ruleLine := if stringContains ruleLine "://" then SubstringAfter ruleLine "://" else ruleLine in
    if unsupported ruleLine || String.eqb ruleLine "" then Ok None
    else
      let domainCheck := if hasPrefix ruleLine "." || hasPrefix ruleLine "-" then "r" +:+ ruleLine else ruleLine in
      if negb (IsDomainName (replaceStar domainCheck)) then
        match parseADGuardIPCIDRLine ruleLine with
        | Panic p => Panic p
        | _ => Ok None
        end
      else Ok (Some (mkRuleLine ruleLine false isExclude isSuffix hasStart hasEnd false isImportant)).

(** One line; [None] when nothing comes of it. *)
Definition parseLine (line : string) : result (option agdguardRuleLine) :=
  if String.eqb line "" then Ok None
  else if hasPrefix line "!" || hasPrefix line "#" then Ok None
  else if IsDomainName line then Ok (Some (mkRuleLine line true false false false false false false))
  else
    match parseAdGuardHostLine line with
    | Ok hostLine => Ok (if String.eqb hostLine "" then None else Some (mkRuleLine hostLine true false false true true false false))
    | _ =>
        let ruleLine := TrimSuffix line "|" in
        if negb (hasPrefix ruleLine "/") && stringContains ruleLine "$" then
          match readModifiers (split "," (SubstringAfter ruleLine "$")) false with
          | Some isImportant => parsePattern (SubstringBefore ruleLine "$") isImportant
          | None => Ok None
          end
        else parsePattern ruleLine false
    end.

Definition parseLines (lines : list string) : result (list agdguardRuleLine) :=
  parsed ← mapR parseLine lines; Ok (omap (M := list) id parsed).

Definition mapDomain (it : agdguardRuleLine) : string :=
  (if isSuffix it then "||" else if hasStart it then "|" else "") +:+ ruleLine it +:+ (if hasEnd it then "^" else "").

(** The lines with the given flags, as they are matched. *)
Definition selected (important regexp exclude : bool) (ruleLines : list agdguardRuleLine) : list string :=
  map mapDomain (filter (fun it => isImportant it = important /\ isRegexp it = regexp /\ isExclude it = exclude) ruleLines).

Definition defaultRule (o : DefaultHeadlessRule) : HeadlessRule := mkHeadlessRule RuleTypeDefault o "" [] false.
Definition logicalRule (mode : string) (rules : list HeadlessRule) : HeadlessRule := mkHeadlessRule RuleTypeLogical headlessRuleZero mode rules false.

Definition listsRule (domain regex : list string) (inv : bool) : HeadlessRule :=
  defaultRule (headlessRuleZero {{ h_AdGuardDomain := Some domain; h_DomainRegex := Some regex; h_Invert := inv }}).

(** The rule with another one around it, when there are lines for it. *)
Definition wrapRule (mode : string) (domain regex : list string) (inv : bool) (currentRule : HeadlessRule) : HeadlessRule :=
  if nonempty domain || nonempty regex then logicalRule mode [listsRule domain regex inv; currentRule] else currentRule.

Definition buildRule (ruleLines : list agdguardRuleLine) : HeadlessRule :=
  let lines important exclude := (selected important false exclude ruleLines, selected important true exclude ruleLines) in
  let currentRule := listsRule (lines false false).1 (lines false false).2 false in
  let currentRule := wrapRule LogicalTypeAnd (lines false true).1 (lines false true).2 true currentRule in
  let currentRule := wrapRule LogicalTypeOr (lines true false).1 (lines true false).2 false currentRule in
  wrapRule LogicalTypeAnd (lines true true).1 (lines true true).2 true currentRule.

(** [ToOptions], on the lines of the scanner. *)
Definition ToOptions (lines : list string) : result (list HeadlessRule) :=
  ruleLines ← parseLines lines;
  if negb (nonempty ruleLines) then Err (E_New "AdGuard rule-set is empty or all rules are unsupported")
  else if allb ruleLines isRawDomain then Ok [defaultRule (headlessRuleZero {{ h_Domain := Some (map ruleLine ruleLines) }})]
  else Ok [buildRule ruleLines].

(** * Back to text *)

Definition ErrInvalid : GoError := E_New "invalid binary AdGuard rule-set".

Record Lists := mkLists {
  importantDomain : list string;
  importantDomainRegex : list string;
  importantExcludeDomain : list string;
  importantExcludeDomainRegex : list string;
  domain : list string;
  domainRegex : list string;
  excludeDomain : list string;
  excludeDomainRegex : list string }.

Definition listsZero : Lists := mkLists [] [] [] [] [] [] [] [].

(** A round of the loop [parse]: the next rule, or the lists when it ends. A rule of
    another type is looked at again. *)
Definition parseRound (rule : HeadlessRule) (l : Lists) : result (HeadlessRule * Lists + Lists) :=
  match rule with
  | mkHeadlessRule t o mode rules _ =>
      if String.eqb t RuleTypeLogical then
        match rules with
        | [mkHeadlessRule t0 first _ _ _; next] =>
            if negb (String.eqb t0 RuleTypeDefault) then Err ErrInvalid else
            let domains := elems (h_AdGuardDomain first) in
            let regexes := elems (h_DomainRegex first) in
            if String.eqb mode LogicalTypeAnd && h_Invert first then
              if negb (nonempty (importantExcludeDomain l)) && negb (nonempty (importantExcludeDomainRegex l)) then
                if negb (nonempty domains) && negb (nonempty regexes) then Err ErrInvalid
                else Ok (inl (next, l {{ importantExcludeDomain := domains; importantExcludeDomainRegex := regexes }}))
              else if negb (nonempty domains) && negb (nonempty regexes) then Err ErrInvalid
              else Ok (inl (next, l {{ excludeDomain := domains; excludeDomainRegex := regexes }}))
            else if String.eqb mode LogicalTypeOr && negb (h_Invert first) then
              if negb (nonempty domains) && negb (nonempty regexes) then Err ErrInvalid
              else Ok (inl (next, l {{ importantDomain := domains; importantDomainRegex := regexes }}))
            else Err ErrInvalid
        | _ => Err ErrInvalid
        end
      else if String.eqb t RuleTypeDefault then
        let domains := elems (h_AdGuardDomain o) in
        let regexes := elems (h_DomainRegex o) in
        if negb (nonempty domains) && negb (nonempty regexes) then Err ErrInvalid
        else Ok (inr (l {{ domain := domains; domainRegex := regexes }}))
      else Ok (inl (rule, l))
  end.

(** The loop; [None] when it is not left within [fuel] rounds. *)
Fixpoint parseLoop (fuel : nat) (rule : HeadlessRule) (l : Lists) : option (result Lists) :=
  match fuel with
  | O => None
  | S fuel =>
      match parseRound rule l with
      | Ok (inl (rule, l)) => parseLoop fuel rule l
      | Ok (inr l) => Some (Ok l)
      | Err e => Some (Err e)
      | Panic p => Some (Panic p)
      end
  end.

Definition printLists (l : Lists) : list string :=
  map (fun it => it +:+ "$important") (importantDomain l) ++
  map (fun it => "/" +:+ it +:+ "/$important") (importantDomainRegex l) ++
  map (fun it => "@@" +:+ it +:+ "$important") (importantExcludeDomain l) ++
  map (fun it => "@@/" +:+ it +:+ "/$important") (importantExcludeDomainRegex l) ++
  domain l ++
  map (fun it => "/" +:+ it +:+ "/") (domainRegex l) ++
  map (fun it => "@@" +:+ it) (excludeDomain l) ++
  map (fun it => "@@/" +:+ it +:+ "/") (excludeDomainRegex l).

(** [FromOptions], as lines without their line ends. *)
Definition FromOptions (fuel : nat) (rules : list HeadlessRule) : option (result (list string)) :=
  match rules with
  | [rule] => r ← parseLoop fuel rule listsZero; Some (l ← r; Ok (printLists l))
  | _ => Some (Err ErrInvalid)
  end.
End convert.

(** * The meaning of a filter *)

Section meaning.
Context `{Libs}.
Variable svc : Services.

(** A line of the lists applies to the name of the connection. *)
Definition hits (domain regex : list string) (md : InboundContext) : bool :=
  negb (String.eqb (domainHost md) "") &&
  let host := ToLower (domainHost md) in
  (nonempty domain && AdGuardMatcher_Match (NewAdGuardMatcher domain) host ||
   anyb regex (fun expression => match Regexp_Compile expression with Ok m => Regexp_MatchString m host | _ => false end)).

Definition isHeadless (r : Rule) (means : InboundContext -> bool) : Prop :=
  noRuleSet r = true /\ forall md, ruleHolds svc r md = means md.

Lemma compileAll_matches expressions ms host : compileAll expressions = Ok ms ->
  anyb ms (fun m => Regexp_MatchString m host) =
  anyb expressions (fun e => match Regexp_Compile e with Ok m => Regexp_MatchString m host | _ => false end).
Proof.
  unfold compileAll, anyb. intros Hc%mapR_from_Forall2. induction Hc as [|e m expressions ms [j He%cause_Ok] _ IH]; [done|]. cbn. by rewrite He, IH.
Qed.

Lemma regexItem_built regex i : domainRegexItem regex = Ok i ->
  exists ms description, compileAll (elems regex) = Ok ms /\ i = ItemDomainRegex (mkDomainRegexItem ms description).
Proof.
  unfold domainRegexItem, NewDomainRegexItem. intros Hi. destruct (compileAll (elems regex)) as [ms|?|?]; [|done..]. cbn in Hi. injection Hi as <-. by eexists _, _.
Qed.

(** A rule with conditions on the destination only. *)
Definition destinationRule (l : list RuleItem) (inv : bool) : abstractDefaultRule :=
  abstractDefaultRuleZero {{ destinationAddressItems := l; allItems := map PlainItem l; invert := inv }}.

Lemma groupHolds_results l md : l <> [] -> groupHolds (results svc md l) = anyb l (fun i => RuleItem_Match svc i md).
Proof. intros Hl. unfold groupHolds, results. rewrite anyb_map. by destruct l. Qed.

Lemma destinationRule_holds l inv : l <> [] ->
  isHeadless (DefaultRule false (destinationRule l inv)) (fun md => xorb inv (anyb l (fun i => RuleItem_Match svc i md))).
Proof.
  intros Hl. split; [done|]. intros md. cbn [ruleHolds]. change (allItems (destinationRule l inv)) with (map PlainItem l).
  replace (nonempty (map PlainItem l)) with true by (by destruct l). cbn [negb orb]. f_equal. rewrite <- groupHolds_results by done.
  unfold clausesHold, clausesOf, cidrResults. cbn -[groupHolds results]. unfold constant. cbn -[groupHolds].
  destruct (ic_IPCIDRMatchSource md), (ic_IgnoreDestinationIPCIDRMatch md); cbn -[groupHolds results]; rewrite ?app_nil_r;
    change (groupHolds []) with true; by rewrite ?andb_true_r.
Qed.

(** A rule made of two lists, of which one has lines. *)
Lemma listsRule_holds nm domain regex inv r : nonempty domain || nonempty regex = true ->
  NewHeadlessRule nm (listsRule domain regex inv) = Ok r -> isHeadless r (fun md => xorb inv (hits domain regex md)).
Proof.
  intros Hne Hr. unfold listsRule, defaultRule in Hr. cbn [NewHeadlessRule] in Hr.
  change (String.eqb RuleTypeDefault "" || String.eqb RuleTypeDefault RuleTypeDefault) with true in Hr. cbn match in Hr.
  unfold NewDefaultHeadlessRule in Hr. destruct (negb _) in Hr; [done|]. apply bind_Ok in Hr as (a & Ha & [= <-]).
  unfold headlessRuleSteps in Ha. cbn -[NewAdGuardDomainItem domainRegexItem] in Ha. unfold constant in Ha.
  cbn -[NewAdGuardDomainItem domainRegexItem] in Ha. rewrite !andb_false_r in Ha. cbn -[NewAdGuardDomainItem domainRegexItem] in Ha.
  apply bind_Ok in Ha as (a0 & Ha0 & Ha).
  assert (exists l, a0 = destinationRule l inv /\ nonempty l = nonempty regex /\
    forall md, anyb l (fun i => RuleItem_Match svc i md) = hits [] regex md) as (l & -> & Hne' & Hl).
  { unfold given in Ha0. cbn [elems] in Ha0. destruct regex as [|e regex]; cbn [nonempty] in Ha0.
    - exists []. injection Ha0 as <-. split_and!; [done..|]. intros md. unfold hits. cbn. by rewrite andb_false_r.
    - apply bind_Ok in Ha0 as (i & Hi%cause_Ok & [= <-]). exists [i]. split_and!; [done..|]. intros md.
      apply regexItem_built in Hi as (ms & d & Hms & ->). unfold hits, anyb at 1. cbn [existsb RuleItem_Match nonempty andb orb]. rewrite orb_false_r.
      unfold DomainRegexItem_Match. cbn [dr_matchers]. destruct (String.eqb _ ""); [done|]. cbn [negb andb]. by apply compileAll_matches. }
  set (l' := l ++ if given (Some domain) then [ItemAdGuardDomain (NewAdGuardDomainItem domain)] else []).
  assert (a = destinationRule l' inv) as ->.
  { unfold l'. destruct (given (Some domain)); cbn in Ha; unfold constant in Ha; injection Ha as <-; unfold destinationRule; cbn; unfold constant;
      [by rewrite map_app|by rewrite app_nil_r]. }
  destruct (destinationRule_holds l' inv) as [Hn Hh].
  { unfold l', given. cbn [elems]. destruct domain; [|by destruct l]. cbn in Hne. rewrite app_nil_r. intros ->. cbn in Hne'. congruence. }
  split; [done|]. intros md. rewrite Hh. f_equal. unfold l', anyb. rewrite existsb_app. fold (anyb l (fun i => RuleItem_Match svc i md)). rewrite Hl.
  unfold hits, given. change (elems (Some domain)) with domain. cbn [nonempty andb orb]. destruct domain as [|d domain]; cbn [nonempty existsb andb orb]; [by rewrite orb_false_r|].
  cbn [RuleItem_Match]. unfold AdGuardDomainItem_Match, NewAdGuardDomainItem. cbn [ag_matcher]. 
  destruct (String.eqb (domainHost md) ""); cbn [negb andb orb]; [reflexivity|]. rewrite orb_false_r. apply orb_comm.
Qed.

Lemma hits_reset domain regex md : hits domain regex (ResetRuleCache md) = hits domain regex md.
Proof. reflexivity. Qed.

(** A list around a rule. *)
Lemma wrapRule_holds nm mode domain regex inv rule r means :
  (mode = LogicalTypeAnd \/ mode = LogicalTypeOr) -> (forall r, NewHeadlessRule nm rule = Ok r -> isHeadless r means) ->
  (forall md, means (ResetRuleCache md) = means md) ->
  NewHeadlessRule nm (wrapRule mode domain regex inv rule) = Ok r ->
  isHeadless r (fun md => if nonempty domain || nonempty regex
    then (if String.eqb mode LogicalTypeAnd then andb else orb) (xorb inv (hits domain regex md)) (means md) else means md).
Proof.
  intros Hmode Hrule Hreset. unfold wrapRule. destruct (nonempty domain || nonempty regex) eqn:Hne; [|by apply Hrule].
  cbn [logicalRule NewHeadlessRule]. change (String.eqb RuleTypeLogical "" || String.eqb RuleTypeLogical RuleTypeDefault) with false.
  change (String.eqb RuleTypeLogical RuleTypeLogical) with true. cbn match. intros (valid & _ & Hr)%bind_Ok. destruct (negb valid); [done|].
  apply bind_Ok in Hr as (mode' & Hm & Hr). assert (mode' = mode) as -> by (destruct Hmode as [-> | ->]; by injection Hm as <-).
  apply bind_Ok in Hr as (subs & Hs & [= <-]). cbn [mapR_from] in Hs.
  apply bind_Ok in Hs as (r1 & H1%cause_Ok & Hs). apply bind_Ok in Hs as (rs & Hs & [= <-]).
  apply bind_Ok in Hs as (r2 & H2%cause_Ok & [= <-]). destruct (listsRule_holds nm domain regex inv r1 Hne H1) as [N1 M1]. destruct (Hrule r2 H2) as [N2 M2].
  split; [unfold isHeadless; cbn; unfold allb; cbn; by rewrite N1, N2|]. intros md. cbn [ruleHolds]. rewrite xorb_false_l.
  unfold allb, anyb. cbn [map forallb existsb id]. rewrite M1, M2, Hreset, hits_reset.
  destruct (String.eqb mode LogicalTypeAnd); unfold id; [by rewrite andb_true_r|by rewrite orb_false_r].
Qed.

(** A name is blocked by an important rule, unless an important exception applies, and
    otherwise by another rule, unless an exception applies. *)
Definition blocked (lines : list agdguardRuleLine) (md : InboundContext) : bool :=
  let applies important exclude := hits (selected important false exclude lines) (selected important true exclude lines) md in
  negb (applies true true) && (applies true false || negb (applies false true) && applies false false).

Lemma hits_nil md : hits [] [] md = false.
Proof. unfold hits. cbn. apply andb_false_r. Qed.

Lemma isHeadless_ext r means means' : isHeadless r means -> (forall md, means md = means' md) -> isHeadless r means'.
Proof. intros [Hn Hm] He. split; [done|]. intros md. by rewrite Hm. Qed.

(** What a rule that is built means, whatever it is reset to. *)
Definition builds nm (rule : HeadlessRule) (means : InboundContext -> bool) : Prop :=
  (forall r, NewHeadlessRule nm rule = Ok r -> isHeadless r means) /\ forall md, means (ResetRuleCache md) = means md.

Lemma builds_except nm domain regex rule means : builds nm rule means ->
  builds nm (wrapRule LogicalTypeAnd domain regex true rule) (fun md => negb (hits domain regex md) && means md).
Proof.
  intros [Hr Hm]. split; [|intros md; by rewrite Hm, hits_reset]. intros r Hb. eapply isHeadless_ext; [eapply wrapRule_holds; [by left|exact Hr|exact Hm|exact Hb]|].
  intros md. cbn beta. change (String.eqb LogicalTypeAnd LogicalTypeAnd) with true. rewrite xorb_true_l.
  destruct domain, regex; try done. by rewrite hits_nil.
Qed.

Lemma builds_also nm domain regex rule means : builds nm rule means ->
  builds nm (wrapRule LogicalTypeOr domain regex false rule) (fun md => hits domain regex md || means md).
Proof.
  intros [Hr Hm]. split; [|intros md; by rewrite Hm, hits_reset]. intros r Hb. eapply isHeadless_ext; [eapply wrapRule_holds; [by right|exact Hr|exact Hm|exact Hb]|].
  intros md. cbn beta. change (String.eqb LogicalTypeOr LogicalTypeAnd) with false. rewrite xorb_false_l.
  destruct domain, regex; try done. by rewrite hits_nil.
Qed.

Lemma buildRule_holds nm lines : selected false false false lines <> [] \/ selected false true false lines <> [] ->
  builds nm (buildRule lines) (blocked lines).
Proof.
  intros Hplain. unfold buildRule, blocked. cbn [fst snd]. apply builds_except, builds_also, builds_except. split.
  - intros r Hr. eapply isHeadless_ext; [eapply listsRule_holds; [|exact Hr]|intros md; apply xorb_false_l].
    destruct Hplain; [by destruct (selected false false false lines)|]. apply orb_true_iff. right. by destruct (selected false true false lines).
  - intros md. apply hits_reset.
Qed.

(** C39: The rule that a filter is converted to blocks what the filter says: important rules
    come before exceptions, and important exceptions before all.  The filter has at
    least one plain rule (neither important nor an exception) and is not a mere list of
    domains, which is converted to a list of exact names. *)
Theorem adguard_rule_meaning `{AdguardLibs} nm text lines rule r store md :
  parseLines text = Ok lines -> allb lines isRawDomain = false ->
  selected false false false lines <> [] \/ selected false true false lines <> [] ->
  ToOptions text = Ok [rule] -> NewHeadlessRule nm rule = Ok r -> ic_IgnoreDestinationIPCIDRMatch md = false ->
  (Rule_Match svc (RuleSetItem_matchStatesWithBase svc store) r md).1 = blocked lines md.
Proof.
  intros Hp Hraw Hplain Ho Hr Hi. unfold ToOptions in Ho. rewrite Hp in Ho. cbn [mbind result_bind] in Ho.
  destruct (negb (nonempty lines)); [done|]. rewrite Hraw in Ho. injection Ho as <-. destruct (buildRule_holds nm lines Hplain) as [Hb _].
  destruct (Hb r Hr) as [Hn Hm]. rewrite <- Hm. apply rule_matches; [apply RuleSetMatcher_store|done..].
Qed.
End meaning.

(** * Printing *)

Lemma ipcidr_line_no_panic ruleLine p : parseADGuardIPCIDRLine ruleLine <> Panic p.
Proof.
  unfold parseADGuardIPCIDRLine. cbv zeta. destruct (_ || _) eqn:Hn; [done|].
  set (parts := split _ _) in *. apply orb_false_iff in Hn as [Hn%Nat.ltb_ge _].
  destruct (mapR ParseUint8 parts) as [l|?|q] eqn:Hl; cbn [mbind result_bind].
  - apply mapR_Forall2, Forall2_length in Hl. assert (length l <= 4)%nat by lia. clear -H. do 5 (destruct l as [|? l]; [done|]). cbn in H. lia.
  - done.
  - exfalso. revert Hl. apply mapR_no_panic. intros x q'. unfold ParseUint8, ParseUint16. destruct (String.eqb x ""); [done|].
    destruct (parseDigits x 0) as [v|]; [|done]. cbn. by destruct (v <? 256).
Qed.

Lemma nonempty_either {A} (l k : list A) : l <> [] \/ k <> [] -> nonempty l || nonempty k = true.
Proof. intros [Hl|Hk]; [by destruct l|]. destruct l; [by destruct k|done]. Qed.

(** The lists that [buildRule] is made of. *)
Definition listsOf (lines : list agdguardRuleLine) : Lists :=
  mkLists (selected true false false lines) (selected true true false lines) (selected true false true lines) (selected true true true lines)
    (selected false false false lines) (selected false true false lines) (selected false false true lines) (selected false true true lines).

Lemma wrapRule_none `{Libs} mode inv d e : nonempty d || nonempty e = false ->
  (forall rule, wrapRule mode d e inv rule = rule) /\ d = [] /\ e = [].
Proof. intros Hne. unfold wrapRule. rewrite Hne. by destruct d, e. Qed.

Ltac read_none mode inv H :=
  apply (wrapRule_none mode inv) in H as (Hw & H1 & H2); rewrite Hw, ?H1, ?H2 in *; clear Hw H1 H2.

Section printing.
Context `{Libs}.

(** The loop reads a list that was put around a rule, in the round that comes to it. *)
Lemma parseLoop_except fuel d e rule l : importantExcludeDomain l = [] -> importantExcludeDomainRegex l = [] ->
  nonempty d || nonempty e = true ->
  parseLoop (S fuel) (wrapRule LogicalTypeAnd d e true rule) l =
  parseLoop fuel rule (l {{ importantExcludeDomain := d; importantExcludeDomainRegex := e }}).
Proof. intros H1 H2 Hne. unfold wrapRule. rewrite Hne. cbn. rewrite H1, H2. cbn. by destruct d, e. Qed.

Lemma parseLoop_exclude fuel d e rule l : nonempty (importantExcludeDomain l) || nonempty (importantExcludeDomainRegex l) = true ->
  nonempty d || nonempty e = true ->
  parseLoop (S fuel) (wrapRule LogicalTypeAnd d e true rule) l = parseLoop fuel rule (l {{ excludeDomain := d; excludeDomainRegex := e }}).
Proof. intros Hl Hne. unfold wrapRule. rewrite Hne. cbn. rewrite <- negb_orb, Hl. cbn. by destruct d, e. Qed.

Lemma parseLoop_important fuel d e rule l : nonempty d || nonempty e = true ->
  parseLoop (S fuel) (wrapRule LogicalTypeOr d e false rule) l = parseLoop fuel rule (l {{ importantDomain := d; importantDomainRegex := e }}).
Proof. intros Hne. unfold wrapRule. rewrite Hne. cbn. by destruct d, e. Qed.

Lemma parseLoop_lists fuel d e l : nonempty d || nonempty e = true ->
  parseLoop (S fuel) (listsRule d e false) l = Some (Ok (l {{ domain := d; domainRegex := e }})).
Proof. intros Hne. cbn. by destruct d, e. Qed.

(** The lists of a rule are printed back, when there is a plain rule and there are no
    exceptions without an important one. *)
Theorem adguard_lists_printed fuel lines : (4 <= fuel)%nat ->
  selected false false false lines <> [] \/ selected false true false lines <> [] ->
  (selected false false true lines = [] /\ selected false true true lines = []) \/
  (selected true false true lines <> [] \/ selected true true true lines <> []) ->
  FromOptions fuel [buildRule lines] = Some (Ok (printLists (listsOf lines))).
Proof.
  intros Hf Hplain Hexcept. apply nonempty_either in Hplain. destruct fuel as [|[|[|[|fuel]]]]; try lia.
  unfold FromOptions, buildRule. cbn [fst snd]. unfold listsOf.
  destruct (nonempty (selected true false true lines) || nonempty (selected true true true lines)) eqn:Hi;
    [rewrite parseLoop_except by done|read_none LogicalTypeAnd true Hi].
  all: destruct (nonempty (selected true false false lines) || nonempty (selected true true false lines)) eqn:Hm;
    [rewrite parseLoop_important by done|read_none LogicalTypeOr false Hm].
  all: destruct (nonempty (selected false false true lines) || nonempty (selected false true true lines)) eqn:Hx;
    [try rewrite parseLoop_exclude by done|read_none LogicalTypeAnd true Hx].
  all: try by rewrite parseLoop_lists.
  all: destruct Hexcept as [[Hx1 Hx2]|Hexcept]; [by rewrite Hx1, Hx2 in Hx|by destruct Hexcept].
Qed.
End printing.

(** * A filter *)

(** The text before the first [sub], and after it; the whole text without one. *)
Fixpoint substringBefore (s sub : string) : string :=
  if hasPrefix s sub then "" else match s with EmptyString => "" | String c s' => String c (substringBefore s' sub) end.
Definition substringAfter (s sub : string) : string :=
  if stringContains s sub then dropString (String.length (substringBefore s sub) + String.length sub) s else s.

Definition demoDomainChar (c : ascii) : bool := (97 <=? nat_of_ascii c)%nat && (nat_of_ascii c <=? 122)%nat || Ascii.eqb c "." || Ascii.eqb c "-".

Definition demoAdguard : AdguardLibs := {|
  IsDomainName s := negb (String.eqb s "") && allb (String.list_ascii_of_string s) demoDomainChar;
  ParseAddrOrZero s := if String.eqb s "0.0.0.0" then Addr4 0 else AddrZero;
  SubstringBefore := substringBefore;
  SubstringAfter := substringAfter |}.

Definition demoFilter : list string :=
  ["! a comment"; "ads.example"; "tracker.example"; "@@tracker.example"; "@@ads.example"; "ads.example$important,dnsrewrite=0.0.0.0"; "||ads.example/path"].

Definition demoLines : list agdguardRuleLine :=
  match @parseLines demoLibs demoAdguard demoFilter with Ok l => l | _ => [] end.
Definition demoRule : HeadlessRule := @buildRule demoLibs demoLines.

(** The rule of the filter, as it is built from its options. *)
Definition demoFilterRule : Rule :=
  match @NewHeadlessRule demoLibs false demoRule with Ok r => r | _ => @DefaultRule demoLibs false abstractDefaultRuleZero end.

Definition demoName (name : string) : InboundContext := inboundContextZero {{ ic_Domain := name; ic_Destination := mkSocksaddr AddrZero 443 name }}.

Definition demoBlocked (name : string) : bool :=
  (@Rule_Match demoLibs demoServices (@RuleSetItem_matchStatesWithBase demoLibs demoServices (∅ : gmap string RuleSet)) demoFilterRule (demoName name)).1.

(** The important rule wins over the exception, and the exception over the other rule. *)
Lemma adguard_rule_meaning_witness : demoBlocked "ads.example" = true /\ demoBlocked "tracker.example" = false.
Proof.
  split.
  - refine (eq_trans (@adguard_rule_meaning demoLibs demoServices demoAdguard false demoFilter demoLines demoRule demoFilterRule _ _ _ _ _ _ _ _) _);
      (reflexivity || (left; discriminate)).
  - refine (eq_trans (@adguard_rule_meaning demoLibs demoServices demoAdguard false demoFilter demoLines demoRule demoFilterRule _ _ _ _ _ _ _ _) _);
      (reflexivity || (left; discriminate)).
Defined.

(** * Defects *)

(** The pattern of a single slash is sliced out of its bounds. *)
Lemma lone_slash_panics : @parseLine demoLibs demoAdguard "/" = Panic "slice bounds out of range" /\
  @ToOptions demoLibs demoAdguard ["ads.example"; "||/^"] = Panic "slice bounds out of range".
Proof. by repeat split. Qed.

(** An exception that stands next to an important rule comes back as an important
    exception, which then wins over that rule. *)
Lemma exception_becomes_important :
  @ToOptions demoLibs demoAdguard demoFilter = Ok [demoRule] /\
  @FromOptions demoLibs 4 [demoRule] = Some (Ok ["ads.example$important"; "@@tracker.example$important"; "@@ads.example$important"; "ads.example"; "tracker.example"]).
Proof. by repeat split. Qed.

(** Without plain rules the innermost rule has empty lists. A file does not store them,
    and the rule that is read back is refused. *)
Lemma only_important_is_empty :
  @ToOptions demoLibs demoAdguard ["||ads.example^$important"] =
    Ok [@logicalRule demoLibs LogicalTypeOr [listsRule ["||ads.example^"] [] false; listsRule [] [] false]] /\
  @NewHeadlessRule demoLibs false (@logicalRule demoLibs LogicalTypeOr
    [listsRule ["||ads.example^"] [] false; defaultRule headlessRuleZero]) = Err (E_New "missing conditions").
Proof. by split. Qed.

(** A rule of another type, as one whose type is left empty, is never left. *)
Lemma untyped_rule_hangs fuel : @FromOptions demoLibs fuel [@mkHeadlessRule demoLibs "" headlessRuleZero "" [] false] = None.
Proof. unfold FromOptions. generalize listsZero. induction fuel as [|fuel IH]; intros l; [done|apply IH]. Qed.
