(* ===== verification/FakeIP.v ===== *)
(** [dns/transport/fakeip]: domains are answered with addresses of a private
    range, which the router later translates back.  The store of addresses, the
    storage behind it, and what it promises: a first-in first-out cache of the
    domains that were asked for last. *)
From S2P Require Import Prelude Netip Metadata.

(** * Storage *)

(** [adapter.FakeIPMetadata] *)
Record FakeIPMetadata := mkFakeIPMetadata {
  Inet4Range : Prefix;
  Inet6Range : Prefix;
  Inet4Current : Addr;
  Inet6Current : Addr }.

(** [adapter.FakeIPStorage]; a call returns its error and the storage it
    leaves. *)
Class FakeIPStorage (D : Type) := {
  FakeIPMetadata_ : D -> option FakeIPMetadata * D;
  FakeIPSaveMetadata : D -> FakeIPMetadata -> option GoError * D;
  FakeIPSaveMetadataAsync : D -> FakeIPMetadata -> D;
  FakeIPStore : D -> Addr -> string -> option GoError * D;
  FakeIPLoad : D -> Addr -> option string;
  FakeIPLoadDomain : D -> string -> bool -> option Addr;
  FakeIPReset : D -> option GoError * D
}.

(** What the store relies on: an address is loaded with the domain it was
    stored with last, a domain with its address until the address is given to
    another one, each family on its own; metadata is kept apart. *)
Class FakeIPStorageLaws D `{FakeIPStorage D} : Prop := {
  load_store : forall s a d a', FakeIPLoad (FakeIPStore s a d).2 a' = if bool_decide (a' = a) then Some d else FakeIPLoad s a';
  loadDomain_store : forall s a d d' isIPv6, FakeIPLoadDomain (FakeIPStore s a d).2 d' isIPv6
    = if Bool.eqb isIPv6 (negb (Netip.Is4 a)) then
        if bool_decide (d' = d) then Some a
        else if bool_decide (FakeIPLoad s a = Some d') then None
        else FakeIPLoadDomain s d' isIPv6
      else FakeIPLoadDomain s d' isIPv6;
  load_async : forall s m a, FakeIPLoad (FakeIPSaveMetadataAsync s m) a = FakeIPLoad s a;
  loadDomain_async : forall s m d v6, FakeIPLoadDomain (FakeIPSaveMetadataAsync s m) d v6 = FakeIPLoadDomain s d v6;
  load_reset : forall s a, FakeIPLoad (FakeIPReset s).2 a = None;
  loadDomain_reset : forall s d v6, FakeIPLoadDomain (FakeIPReset s).2 d v6 = None
}.

(** [MemoryStorage] *)
Record MemoryStorage := mkMemoryStorage {
  addressCache : gmap Addr string;
  domainCache4 : gmap string Addr;
  domainCache6 : gmap string Addr }.

Definition NewMemoryStorage : MemoryStorage := mkMemoryStorage ∅ ∅ ∅.

Definition Memory_FakeIPStore (s : MemoryStorage) (address : Addr) (domain : string) : option GoError * MemoryStorage :=
  let s :=
    match addressCache s !! address with
    | Some oldDomain =>
        if Netip.Is4 address then s {{ domainCache4 := delete oldDomain (domainCache4 s) }}
        else s {{ domainCache6 := delete oldDomain (domainCache6 s) }}
    | None => s
    end in
  let s := s {{ addressCache := <[address := domain]> (addressCache s) }} in
  (None,
   if Netip.Is4 address then s {{ domainCache4 := <[domain := address]> (domainCache4 s) }}
   else s {{ domainCache6 := <[domain := address]> (domainCache6 s) }}).

Definition Memory_FakeIPLoad (s : MemoryStorage) (address : Addr) : option string := addressCache s !! address.

Definition Memory_FakeIPLoadDomain (s : MemoryStorage) (domain : string) (isIPv6 : bool) : option Addr :=
  if negb isIPv6 then domainCache4 s !! domain else domainCache6 s !! domain.

Definition Memory_FakeIPReset (s : MemoryStorage) : option GoError * MemoryStorage := (None, mkMemoryStorage ∅ ∅ ∅).

#[global] Instance MemoryStorage_storage : FakeIPStorage MemoryStorage := {|
  FakeIPMetadata_ s := (None, s);
  FakeIPSaveMetadata s _ := (None, s);
  FakeIPSaveMetadataAsync s _ := s;
  FakeIPStore := Memory_FakeIPStore;
  FakeIPLoad := Memory_FakeIPLoad;
  FakeIPLoadDomain := Memory_FakeIPLoadDomain;
  FakeIPReset := Memory_FakeIPReset
|}.

#[global] Instance MemoryStorage_laws : FakeIPStorageLaws MemoryStorage.
Proof.
  split; cbn [FakeIPStore FakeIPLoad FakeIPLoadDomain FakeIPReset FakeIPSaveMetadataAsync MemoryStorage_storage];
    unfold Memory_FakeIPStore, Memory_FakeIPLoad, Memory_FakeIPLoadDomain; intros; try done.
  - destruct s as [c c4 c6]. cbn [addressCache]. destruct (c !! a), (Netip.Is4 a); simpl; unfold constant; case_bool_decide; subst;
      by rewrite ?lookup_insert_eq, ?lookup_insert_ne by congruence.
  - destruct s as [c c4 c6]. cbn [addressCache]. destruct (c !! a) as [old|], (Netip.Is4 a), isIPv6; simpl; unfold constant; try done;
      repeat case_bool_decide; subst; simplify_eq;
      by rewrite ?lookup_insert_eq, ?lookup_insert_ne, ?lookup_delete_eq, ?lookup_delete_ne by congruence.
  - by destruct v6.
Qed.

(** * The store *)

(** [addr.As16()] as a 128-bit integer *)
Definition As16 (a : Addr) : Z :=
  match a with AddrZero => 0 | Addr4 ip => Z.lor (Z.shiftl 0xffff 32) ip | Addr6 ip _ => ip end.

(** [raw] is a 128-bit integer, of which [raw[i/8] |= 1 << (7 - i%8)] sets bit
    [i], counted from the highest. *)
Fixpoint setBits (n : nat) (i raw : Z) : Z :=
  match n with O => raw | S n' => setBits n' (i + 1) (Z.lor raw (Z.shiftl 1 (127 - i))) end.

Definition broadcastAddress (prefix : Prefix) : Addr :=
  let addr := pfx_addr prefix in
  let bits := if Netip.Is4 addr then pfx_bits prefix + 96 else pfx_bits prefix in
  let raw := setBits (Z.to_nat (128 - bits)) bits (As16 addr) in
  if Netip.Is4 addr then Addr4 (Z.land raw (Z.ones 32)) else Addr6 raw "".

Section store.
Context {D : Type} `{FakeIPStorage D}.

Record Store := mkStore {
  inet4Range : Prefix;
  inet6Range : Prefix;
  inet4Last : Addr;
  inet6Last : Addr;
  storage : option D;
  inet4Current : Addr;
  inet6Current : Addr }.

Definition NewStore (inet4Range inet6Range : Prefix) : Store :=
  mkStore inet4Range inet6Range
    (if NetipPrefix.IsValid inet4Range then broadcastAddress inet4Range else AddrZero)
    (if NetipPrefix.IsValid inet6Range then broadcastAddress inet6Range else AddrZero)
    None AddrZero AddrZero.

(** [Start], with the storage it finds. *)
Definition Store_Start (st : Store) (found : D) : Store :=
  let '(metadata, found) := FakeIPMetadata_ found in
  let fresh :=
    let st := if NetipPrefix.IsValid (inet4Range st)
              then st {{ inet4Current := Netip.Next (pfx_addr (inet4Range st)) }} else st in
    let st := if NetipPrefix.IsValid (inet6Range st)
              then st {{ inet6Current := Netip.Next (pfx_addr (inet6Range st)) }} else st in
    st {{ storage := Some (FakeIPReset found).2 }} in
  match metadata with
  | Some m =>
      if bool_decide (Inet4Range m = inet4Range st) && bool_decide (Inet6Range m = inet6Range st)
      then st {{ inet4Current := Inet4Current m; inet6Current := Inet6Current m; storage := Some found }}
      else fresh
  | None => fresh
  end.

Definition Store_Contains (st : Store) (address : Addr) : bool :=
  NetipPrefix.Contains (inet4Range st) address || NetipPrefix.Contains (inet6Range st) address.

Definition metadataOf (st : Store) : FakeIPMetadata :=
  mkFakeIPMetadata (inet4Range st) (inet6Range st) (inet4Current st) (inet6Current st).

Definition Store_Close (st : Store) : option GoError * Store :=
  match storage st with
  | None => (None, st)
  | Some s => let '(err, s) := FakeIPSaveMetadata s (metadataOf st) in (err, st {{ storage := Some s }})
  end.

(** The address after [current], back at the start when the range is used up. *)
Definition nextAddress (range : Prefix) (last current : Addr) : Addr :=
  let next := Netip.Next current in
  if bool_decide (next = last) || negb (NetipPrefix.Contains range next)
  then Netip.Next (Netip.Next (pfx_addr range)) else next.

(** [Create]; the second look-up is the one under the lock, where nothing can
    come in between. *)
Definition Store_Create (st : Store) (domain : string) (isIPv6 : bool) : result (Addr * Store) :=
  match storage st with
  | None => Panic "nil pointer dereference"
  | Some s =>
      match FakeIPLoadDomain s domain isIPv6 with
      | Some address => Ok (address, st)
      | None =>
          '(address, st) ←
            (if negb isIPv6 then
               if negb (Netip.IsValid (inet4Current st)) then Err (E_New "missing IPv4 fakeip address range")
               else let a := nextAddress (inet4Range st) (inet4Last st) (inet4Current st) in
                    Ok (a, st {{ inet4Current := a }})
             else
               if negb (Netip.IsValid (inet6Current st)) then Err (E_New "missing IPv6 fakeip address range")
               else let a := nextAddress (inet6Range st) (inet6Last st) (inet6Current st) in
                    Ok (a, st {{ inet6Current := a }}));
          let s := (FakeIPStore s address domain).2 in
          let s := FakeIPSaveMetadataAsync s (metadataOf st) in
          Ok (address, st {{ storage := Some s }})
      end
  end.

Definition Store_Lookup (st : Store) (address : Addr) : option string :=
  match storage st with Some s => FakeIPLoad s address | None => None end.

Definition Store_Reset (st : Store) : Store :=
  match storage st with Some s => st {{ storage := Some (FakeIPReset s).2 }} | None => st end.

End store.

(** * The cache it promises to be *)

(** The usable addresses of a range [base/bits] of a family: from the second
    after [base] up to the broadcast address. *)
Section ring.
Variable isIPv6 : bool.
Variables base bits : Z.

Definition len : Z := if isIPv6 then 128 else 32.
Definition mkAddr (x : Z) : Addr := if isIPv6 then Addr6 x "" else Addr4 x.
Definition range : Prefix := mkPrefix (mkAddr base) bits.
Definition lastValue : Z := Z.lor base (Z.ones (len - bits)).
Definition capacity : Z := lastValue - (base + 2).

(** A range with at least one usable address. *)
Definition usable : Prop := 0 <= base < 2 ^ len /\ 0 <= bits <= len /\ 0 < capacity.

(** The address of the [n]-th allocation, and the one allocated last. *)
Definition addrOf (n : Z) : Addr := mkAddr (base + 2 + n mod capacity).
Definition currentOf (n : Z) : Addr := if n =? 0 then mkAddr (base + 1) else addrOf (n - 1).

Lemma setBits_spec n : forall i raw, 0 <= i -> i + Z.of_nat n = 128 -> 0 <= raw -> setBits n i raw = Z.lor raw (Z.ones (Z.of_nat n)).
Proof.
  induction n as [|n IH]; intros i raw Hi Hn Hr; [cbn; by rewrite Z.lor_0_r|]. cbn [setBits].
  assert (0 <= Z.lor raw (Z.shiftl 1 (127 - i))) by (apply Z.lor_nonneg; split; [done|apply Z.shiftl_nonneg; lia]).
  rewrite IH by lia.
  rewrite <- Z.lor_assoc. f_equal. apply Z.bits_inj'. intros k Hk.
  rewrite Z.lor_spec, Z.shiftl_spec, !Z.testbit_ones_nonneg by lia.
  destruct (Z.eq_dec k (127 - i)) as [->|Hne].
  - rewrite Z.sub_diag. cbn. symmetry. apply Z.ltb_lt. lia.
  - replace (Z.testbit 1 (k - (127 - i))) with false.
    + cbn. destruct (Z.ltb_spec k (Z.of_nat n)), (Z.ltb_spec k (Z.of_nat (Datatypes.S n))); try done; lia.
    + symmetry. destruct (Z.lt_ge_cases k (127 - i)); [by apply Z.testbit_neg_r; lia|].
      apply (Z.bits_above_log2 1); cbn; lia.
Qed.

Lemma broadcast_spec : usable -> broadcastAddress range = mkAddr lastValue.
Proof.
  intros (Hb & Hbits & _). unfold broadcastAddress, range, mkAddr, lastValue, len in *. destruct isIPv6; cbn [pfx_addr pfx_bits Netip.Is4].
  - rewrite setBits_spec by (cbn; lia). by rewrite Z2Nat.id by lia.
  - assert (0 <= As16 (Addr4 base)) by (apply Z.lor_nonneg; split; [by vm_compute|lia]).
    rewrite setBits_spec by lia.
    rewrite Z2Nat.id by lia. f_equal. cbn [As16]. apply Z.bits_inj'. intros k Hk.
    rewrite Z.land_spec, !Z.lor_spec, Z.shiftl_spec, !Z.testbit_ones_nonneg by lia.
    destruct (Z.ltb_spec k 32) as [Hlt|Hge].
    + rewrite (Z.testbit_neg_r _ (k - 32)) by lia. cbn. rewrite andb_true_r. do 2 f_equal. lia.
    + rewrite andb_false_r. symmetry. apply orb_false_iff. split; [|apply Z.ltb_ge; lia].
      rewrite <- (Z.mod_small base (2 ^ 32)) by done. by apply Z.mod_pow2_bits_high; lia.
Qed.

(** The last address ends the block of the prefix. *)
Lemma lastValue_block : usable ->
  lastValue = base / 2 ^ (len - bits) * 2 ^ (len - bits) + (2 ^ (len - bits) - 1) /\ base <= lastValue < 2 ^ len.
Proof.
  intros (Hb & Hbits & _). unfold lastValue. set (k := len - bits) in *. assert (Hk : 0 <= k) by lia.
  pose proof (Z.pow_pos_nonneg 2 k ltac:(lia) Hk) as Hp.
  assert (Hlow : Z.land (Z.lor base (Z.ones k)) (Z.ones k) = Z.ones k).
  { apply Z.bits_inj'. intros n Hn. rewrite Z.land_spec, Z.lor_spec.
    by destruct (Z.testbit base n), (Z.testbit (Z.ones k) n). }
  assert (Hhigh : Z.lor base (Z.ones k) / 2 ^ k = base / 2 ^ k).
  { rewrite <- !Z.shiftr_div_pow2, Z.shiftr_lor, (Z.shiftr_div_pow2 (Z.ones k)), Z.ones_equiv by lia.
    by rewrite Z.div_small, Z.lor_0_r by lia. }
  rewrite Z.land_ones, Z.ones_equiv in Hlow by lia.
  pose proof (Z.div_mod (Z.lor base (Z.ones k)) (2 ^ k) ltac:(lia)) as Hdm. rewrite Z.ones_equiv in *.
  pose proof (Z.div_mod base (2 ^ k) ltac:(lia)). pose proof (Z.mod_pos_bound base (2 ^ k) ltac:(lia)).
  assert (Hq : base / 2 ^ k < 2 ^ bits).
  { apply Z.div_lt_upper_bound; [lia|]. rewrite <- Z.pow_add_r by lia. replace (k + bits) with len by lia. lia. }
  assert (Hpow : 2 ^ len = 2 ^ bits * 2 ^ k) by (rewrite <- Z.pow_add_r by lia; f_equal; lia).
  split; [nia|]. nia.
Qed.

Lemma Contains_spec x : usable -> 0 <= x < 2 ^ len ->
  NetipPrefix.Contains range (mkAddr x) = (x / 2 ^ (len - bits) =? base / 2 ^ (len - bits)).
Proof.
  intros (Hb & Hbits & _) Hx. unfold NetipPrefix.Contains, NetipPrefix.IsValid, NetipPrefix.same_high, range, mkAddr, len in *.
  cbn [pfx_addr pfx_bits]. rewrite (proj2 (Z.leb_le _ _)) by lia.
  destruct isIPv6; cbn [Netip.BitLen Netip.hasZone NetipPrefix.addr_bits negb orb Z.eqb Pos.eqb];
    by rewrite !Z.shiftr_div_pow2 by lia.
Qed.

Lemma Contains_block x : usable -> base <= x <= lastValue -> NetipPrefix.Contains range (mkAddr x) = true.
Proof.
  intros Hu Hx. destruct (lastValue_block Hu) as [Hl Hr]. pose proof Hu as (Hb & Hbits & _).
  rewrite Contains_spec by (done || lia). apply Z.eqb_eq.
  pose proof (Z.pow_pos_nonneg 2 (len - bits) ltac:(lia) ltac:(lia)).
  pose proof (Z.div_mod base (2 ^ (len - bits)) ltac:(lia)). pose proof (Z.mod_pos_bound base (2 ^ (len - bits)) ltac:(lia)).
  symmetry. apply (Z.div_unique_pos _ _ _ (x - base / 2 ^ (len - bits) * 2 ^ (len - bits))); lia.
Qed.

Lemma Next_spec x : 0 <= x -> x + 1 < 2 ^ len -> Netip.Next (mkAddr x) = mkAddr (x + 1).
Proof.
  unfold mkAddr, len. intros Hx Hl. destruct isIPv6; cbn [Netip.Next]; unfold u32; rewrite wrap_small by lia;
    by rewrite (proj2 (Z.eqb_neq _ 0)) by lia.
Qed.

Lemma mkAddr_inj x y : mkAddr x = mkAddr y -> x = y.
Proof. unfold mkAddr. destruct isIPv6; congruence. Qed.

(** The allocator walks through the usable addresses and starts again. *)
Lemma nextAddress_spec n : usable -> 0 <= n -> nextAddress range (mkAddr lastValue) (currentOf n) = addrOf n.
Proof.
  intros Hu Hn. destruct (lastValue_block Hu) as [_ Hl]. pose proof Hu as (Hb & _ & Hc).
  pose proof (Z.mod_pos_bound n capacity Hc) as Hm. pose proof (Z.mod_pos_bound (n - 1) capacity Hc) as Hm1.
  unfold capacity in Hc. unfold nextAddress, currentOf, addrOf.
  destruct (Z.eqb_spec n 0) as [->|Hne].
  - rewrite Next_spec by lia. rewrite bool_decide_false by (intros ?%mkAddr_inj; lia).
    rewrite Contains_block by (done || lia). cbn. rewrite Z.mod_0_l by (unfold capacity; lia). f_equal. lia.
  - rewrite Next_spec by (unfold capacity in *; lia). rewrite Contains_block by (done || unfold capacity in *; lia).
    cbn [negb]. rewrite orb_false_r. case_bool_decide as Hlast.
    + apply mkAddr_inj in Hlast. change (pfx_addr range) with (mkAddr base). rewrite !Next_spec by lia. f_equal.
      replace (n mod capacity) with 0; [lia|]. symmetry. apply Z.mod_divide; [unfold capacity; lia|].
      exists ((n - 1) / capacity + 1). pose proof (Z.div_mod (n - 1) capacity ltac:(unfold capacity; lia)).
      unfold capacity in *. lia.
    + f_equal. replace (n mod capacity) with ((n - 1) mod capacity + 1); [lia|].
      assert ((n - 1) mod capacity + 1 <> capacity) by (intros Heq; apply Hlast; f_equal; unfold capacity in *; lia).
      apply (Z.mod_unique_pos _ _ ((n - 1) / capacity)); [lia|].
      pose proof (Z.div_mod (n - 1) capacity ltac:(unfold capacity; lia)). lia.
Qed.

(** Allocations less than a round apart have different addresses. *)
Lemma addrOf_inj m n : usable -> 0 <= m <= n -> n < m + capacity -> addrOf m = addrOf n -> m = n.
Proof.
  intros (_ & _ & Hc) Hm Hn Heq%mkAddr_inj.
  pose proof (Z.div_mod m capacity ltac:(lia)). pose proof (Z.div_mod n capacity ltac:(lia)).
  assert (m / capacity = n / capacity) by nia. nia.
Qed.

Lemma addrOf_round n : usable -> addrOf (n + capacity) = addrOf n.
Proof.
  intros (_ & _ & Hc). unfold addrOf. replace (n + capacity) with (n + 1 * capacity) by lia.
  by rewrite Z.mod_add by lia.
Qed.

End ring.

(** The abstract cache: the domains allocated last, the newest first, with the
    number of their allocation. *)
Record fifo := mkFifo { recent : list (string * Z); count : Z }.

Definition fifoZero : fifo := mkFifo [] 0.

Definition fifoFind (d : string) (c : fifo) : option Z :=
  snd <$> (snd <$> list_find (fun e => e.1 = d) (recent c)).

(** A domain that is not there takes the place of the oldest one. *)
Definition fifoCreate (size : nat) (d : string) (c : fifo) : Z * fifo :=
  match fifoFind d c with
  | Some n => (n, c)
  | None => (count c, mkFifo (take size ((d, count c) :: recent c)) (count c + 1))
  end.
