(* ===== verification/FakeIPSpec.v ===== *)
(** The store of fake addresses refines a first-in first-out cache. *)
From S2P Require Import Prelude Netip Metadata FakeIP.

(** * The cache *)

Definition fifoOk (size : Z) (c : fifo) : Prop :=
  0 <= count c /\ Z.of_nat (length (recent c)) <= size /\ NoDup (recent c).*1 /\
  forall j e, recent c !! j = Some e -> e.2 = count c - 1 - Z.of_nat j /\ 0 <= e.2.

Lemma fifoFind_None d c : fifoFind d c = None -> d ∉ (recent c).*1.
Proof.
  unfold fifoFind. destruct (list_find _ _) as [[j e]|] eqn:Hf; [done|]. intros _ Hin.
  apply list_elem_of_fmap in Hin as (e & -> & Hin). apply list_find_None in Hf.
  eapply Forall_forall in Hf; [by apply Hf|]. by apply list_elem_of_In.
Qed.

Lemma fifoFind_Some d n c : NoDup (recent c).*1 -> fifoFind d c = Some n <-> (d, n) ∈ recent c.
Proof.
  intros Hnd. unfold fifoFind. destruct (list_find _ _) as [[j [d' n']]|] eqn:Hf; cbn.
  - apply list_find_Some in Hf as (Hj & Hd & _). cbn in Hd. subst d'. split.
    + intros [= <-]. by eapply list_elem_of_lookup_2.
    + intros [k Hk]%list_elem_of_lookup_1. assert (j = k) as ->; [|congruence].
      eapply (NoDup_lookup _ j k d); [done|by rewrite list_lookup_fmap, Hj|by rewrite list_lookup_fmap, Hk].
  - split; [done|]. intros Hin. apply list_find_None in Hf. rewrite Forall_forall in Hf.
    destruct (Hf (d, n)); [by apply list_elem_of_In|done].
Qed.

(** What is left of the cache when a domain comes in. *)
Lemma elem_of_pushed {A} (size : nat) (e x : A) l :
  x ∈ take (S size) (e :: l) <-> x = e \/ exists j, l !! j = Some x /\ (j < size)%nat.
Proof.
  cbn [take]. by rewrite elem_of_cons, elem_of_take.
Qed.

Lemma fifoOk_push size d c :
  fifoOk (Z.of_nat (S size)) c -> d ∉ (recent c).*1 ->
  fifoOk (Z.of_nat (S size)) (mkFifo (take (S size) ((d, count c) :: recent c)) (count c + 1)).
Proof.
  intros (Hc & Hl & Hnd & Hj) Hd. unfold fifoOk. cbn [recent count]. split; [lia|]. split; [|split].
  - rewrite length_take. lia.
  - rewrite fmap_take. cbn [fmap list_fmap take]. apply list.NoDup_cons. split.
    + intros (i & Hin & _)%elem_of_take. apply Hd. by eapply list_elem_of_lookup_2.
    + eapply sublist_NoDup; [done|apply sublist_take].
  - intros [|j] e He; cbn in He; simplify_eq/=; [lia|].
    apply lookup_take_Some in He as [He _]. destruct (Hj _ _ He). lia.
Qed.

(** * A family of addresses *)

Section family.
Context {D : Type} `{FakeIPStorageLaws D}.

Section one.
Variable isIPv6 : bool.
Variables base bits : Z.
Abbreviation addr n := (addrOf isIPv6 base bits n).
Abbreviation size := (Z.to_nat (capacity isIPv6 base bits)).

(** The storage holds the entries of the cache. *)
Definition holds (c : fifo) (s : D) : Prop :=
  fifoOk (capacity isIPv6 base bits) c /\
  (forall d a, FakeIPLoadDomain s d isIPv6 = Some a <-> exists n, (d, n) ∈ recent c /\ a = addr n) /\
  (forall d a, Netip.Is4 a = negb isIPv6 -> FakeIPLoad s a = Some d <-> exists n, (d, n) ∈ recent c /\ a = addr n).

Lemma addr_family n : Netip.Is4 (addr n) = negb isIPv6.
Proof. unfold addrOf, mkAddr. by destruct isIPv6. Qed.

(** The entry whose address is given out next, if any, is the oldest one of a
    full cache. *)
Lemma reused c d n :
  usable isIPv6 base bits -> fifoOk (capacity isIPv6 base bits) c -> (d, n) ∈ recent c ->
  addr (count c) = addr n <-> exists j, recent c !! j = Some (d, n) /\ S j = size.
Proof.
  intros Hu (Hc & Hl & Hnd & Hj) [j Hin]%list_elem_of_lookup_1. destruct (Hj _ _ Hin) as [Hn Hn0]. cbn in Hn, Hn0.
  apply lookup_lt_Some in Hin as Hlt. pose proof Hu as (_ & _ & Hcap). split.
  - intros Heq. exists j. split; [done|]. destruct (Z.eq_dec (count c) (n + capacity isIPv6 base bits)); [lia|].
    exfalso. enough (n = count c) by lia. eapply addrOf_inj; [done|lia|lia|done].
  - intros (k & Hk & Hsz). assert (k = j) as ->.
    { eapply (NoDup_lookup _ k j d); [done|by rewrite list_lookup_fmap, Hk|by rewrite list_lookup_fmap, Hin]. }
    replace (count c) with (n + capacity isIPv6 base bits) by lia. by apply addrOf_round.
Qed.

(** Giving the next address to a new domain. *)
Lemma holds_push c d s :
  usable isIPv6 base bits -> holds c s -> fifoFind d c = None ->
  holds (mkFifo (take size ((d, count c) :: recent c)) (count c + 1)) (FakeIPStore s (addr (count c)) d).2.
Proof.
  intros Hu (Hok & Hd & Ha) Hnone%fifoFind_None. pose proof Hu as (_ & _ & Hcap). pose proof (proj1 (proj2 (proj2 Hok))) as Hnd.
  destruct size as [|k] eqn:Hsz; [lia|].
  assert (Hkept : forall d' n, (d', n) ∈ recent c -> addr (count c) <> addr n -> exists j, recent c !! j = Some (d', n) /\ (j < k)%nat).
  { intros d' n Hin Hne. apply list_elem_of_lookup_1 in Hin as Hj. destruct Hj as [j Hj]. exists j. split; [done|].
    pose proof (lookup_lt_Some _ _ _ Hj). pose proof (proj1 (proj2 Hok)) as Hlen.
    destruct (decide (j = k)) as [->|]; [|lia]. exfalso. apply Hne. apply (reused c d' n Hu); [done..|]. exists k. by rewrite Hsz. }
  assert (Hcase : forall d' a, (exists n, (d', n) ∈ take (S k) ((d, count c) :: recent c) /\ a = addr n) <->
    (d' = d /\ a = addr (count c)) \/ (exists n, (d', n) ∈ recent c /\ a = addr n /\ addr (count c) <> addr n)).
  { intros d' a. setoid_rewrite elem_of_pushed. split.
    - intros (n & [[= -> ->]|(j & Hj & Hlt)] & ->); [by left|]. right. exists n.
      apply list_elem_of_lookup_2 in Hj as Hin. split; [done|]. split; [done|].
      intros (j' & Hj' & Heq)%(reused c d' n Hu); [|done..]. rewrite Hsz in Heq. injection Heq as ->.
      assert (j = k); [|lia].
      eapply (NoDup_lookup _ j k d'); [done|by rewrite list_lookup_fmap, Hj|by rewrite list_lookup_fmap, Hj'].
    - intros [[-> ->]|(n & Hin & -> & Hne)]; [exists (count c); split; [by left|done]|].
      exists n. split; [|done]. right. by apply Hkept. }
  unfold holds. cbn [recent count]. split; [|split].
  - replace (capacity isIPv6 base bits) with (Z.of_nat (S k)) in * by lia. by apply fifoOk_push.
  - intros d' a. rewrite Hcase, loadDomain_store, addr_family, negb_involutive, eqb_reflx.
    case_bool_decide as Hdd; [subst d'|].
    + split; [intros [= <-]; by left|]. intros [[_ ->]|(n & Hin & _)]; [done|]. exfalso. apply Hnone.
      apply list_elem_of_fmap. by exists (d, n).
    + case_bool_decide as Hl.
      * apply Ha in Hl as (n & Hin & Heq); [|apply addr_family]. split; [done|].
        intros [[? _]|(n' & Hin' & _ & Hne)]; [done|]. exfalso.
        assert (n' = n) as ->; [|done].
        apply (fifoFind_Some d' n' c) in Hin'; [|done]. apply (fifoFind_Some d' n c) in Hin; [congruence|done].
      * rewrite Hd. split.
        -- intros (n & Hin & ->). right. exists n. split_and!; [done..|]. intros Heq. apply Hl.
           apply Ha; [apply addr_family|]. by exists n.
        -- intros [[? _]|(n & Hin & -> & _)]; [done|]. by exists n.
  - intros d' a Hf. rewrite Hcase, load_store. case_bool_decide as Haa; [subst a|].
    + split; [intros [= <-]; by left|]. intros [[-> _]|(n & _ & Heq & Hne)]; [done|congruence].
    + rewrite Ha by done. split.
      * intros (n & Hin & ->). right. exists n. split_and!; [done..|congruence].
      * intros [[_ ->]|(n & Hin & -> & _)]; [done|]. by exists n.
Qed.

(** The storage of the other family is left alone. *)
Lemma holds_other c s a d : Netip.Is4 a = isIPv6 -> holds c s -> holds c (FakeIPStore s a d).2.
Proof.
  intros Hf (Hok & Hd & Ha). split; [done|]. split.
  - intros d' a'. rewrite loadDomain_store, Hf, eqb_negb2. apply Hd.
  - intros d' a' Hf'. rewrite load_store, bool_decide_false; [by apply Ha|]. intros ->. rewrite Hf in Hf'. by apply (no_fixpoint_negb isIPv6).
Qed.

Lemma holds_async c s m : holds c s -> holds c (FakeIPSaveMetadataAsync s m).
Proof.
  intros (Hok & Hd & Ha). split; [done|]. split; intros; rewrite ?loadDomain_async, ?load_async; auto.
Qed.

Lemma holds_reset n s : 0 < capacity isIPv6 base bits -> 0 <= n -> holds (mkFifo [] n) (FakeIPReset s).2.
Proof.
  intros Hcap Hn. split; [|split].
  - unfold fifoOk. cbn. split_and!; [done|lia|constructor|done].
  - intros d a. rewrite loadDomain_reset. split; [done|]. intros (m & Hin & _). cbn in Hin. set_solver.
  - intros d a _. rewrite load_reset. split; [done|]. intros (m & Hin & _). cbn in Hin. set_solver.
Qed.

End one.
(** * Both families *)

(** The ranges that are configured, for IPv4 and IPv6. *)
Variable ranges : bool -> option (Z * Z).

Definition rangeOf (isIPv6 : bool) : Prefix :=
  match ranges isIPv6 with Some (base, bits) => range isIPv6 base bits | None => prefixZero end.

Definition usableRange (isIPv6 : bool) : Prop :=
  match ranges isIPv6 with Some (base, bits) => usable isIPv6 base bits | None => True end.

(** The specification: a cache for each range, as large as the range. *)
Definition caches : Type := bool -> fifo.

Definition missingRange (isIPv6 : bool) : GoError :=
  E_New (if isIPv6 then "missing IPv6 fakeip address range" else "missing IPv4 fakeip address range").

Definition specCreate (cs : caches) (domain : string) (isIPv6 : bool) : result Addr * caches :=
  match ranges isIPv6 with
  | None => (Err (missingRange isIPv6), cs)
  | Some (base, bits) =>
      let '(n, c) := fifoCreate (Z.to_nat (capacity isIPv6 base bits)) domain (cs isIPv6) in
      (Ok (addrOf isIPv6 base bits n), fun v6 => if Bool.eqb v6 isIPv6 then c else cs v6)
  end.

(** The entry of an address. *)
Definition cached (cs : caches) (a : Addr) (d : string) : Prop :=
  exists isIPv6 base bits n,
    ranges isIPv6 = Some (base, bits) /\ (d, n) ∈ recent (cs isIPv6) /\ a = addrOf isIPv6 base bits n.

(** A store and its caches, family by family. *)
Definition familyOk (isIPv6 : bool) (c : fifo) (last current : Addr) (s : D) : Prop :=
  match ranges isIPv6 with
  | None => current = AddrZero /\ (forall d, FakeIPLoadDomain s d isIPv6 = None) /\
            (forall a, Netip.Is4 a = negb isIPv6 -> FakeIPLoad s a = None)
  | Some (base, bits) =>
      last = mkAddr isIPv6 (lastValue isIPv6 base bits) /\ current = currentOf isIPv6 base bits (count c) /\
      holds isIPv6 base bits c s
  end.

Definition implements (st : Store) (cs : caches) : Prop :=
  inet4Range st = rangeOf false /\ inet6Range st = rangeOf true /\
  exists s, storage st = Some s /\
    familyOk false (cs false) (inet4Last st) (inet4Current st) s /\
    familyOk true (cs true) (inet6Last st) (inet6Current st) s.

Lemma familyOk_other isIPv6 c last current s a d :
  Netip.Is4 a = isIPv6 -> familyOk isIPv6 c last current s -> familyOk isIPv6 c last current (FakeIPStore s a d).2.
Proof.
  intros Hf. unfold familyOk. destruct (ranges isIPv6) as [[base bits]|].
  - intros (Hl & Hc & Hh). split_and!; [done..|]. by apply holds_other.
  - intros (Hc & Hd & Ha). split_and!; [done| |].
    + intros d'. rewrite loadDomain_store, Hf, eqb_negb2. apply Hd.
    + intros a' Hf'. rewrite load_store, bool_decide_false; [by apply Ha|]. intros ->. rewrite Hf in Hf'.
      by apply (no_fixpoint_negb isIPv6).
Qed.

Lemma familyOk_async isIPv6 c last current s m :
  familyOk isIPv6 c last current s -> familyOk isIPv6 c last current (FakeIPSaveMetadataAsync s m).
Proof.
  unfold familyOk. destruct (ranges isIPv6) as [[base bits]|].
  - intros (Hl & Hc & Hh). split_and!; [done..|]. by apply holds_async.
  - intros (Hc & Hd & Ha). split_and!; [done|..]; intros; rewrite ?loadDomain_async, ?load_async; auto.
Qed.

(** A new domain in one family. *)
Lemma familyOk_push isIPv6 base bits c last current s d :
  ranges isIPv6 = Some (base, bits) -> usable isIPv6 base bits ->
  familyOk isIPv6 c last current s -> fifoFind d c = None ->
  let a := nextAddress (rangeOf isIPv6) last current in
  a = addrOf isIPv6 base bits (count c) /\
  familyOk isIPv6 (mkFifo (take (Z.to_nat (capacity isIPv6 base bits)) ((d, count c) :: recent c)) (count c + 1)) last a
    (FakeIPStore s a d).2.
Proof.
  unfold familyOk, rangeOf. intros -> Hu (-> & -> & Hh) Hf. pose proof (proj1 (proj1 Hh)) as Hc. cbv zeta.
  rewrite nextAddress_spec by done. split; [done|]. split_and!; [done| |by apply holds_push].
  unfold currentOf. cbn [count]. rewrite (proj2 (Z.eqb_neq _ 0)) by lia. f_equal. lia.
Qed.

Lemma currentOf_valid isIPv6 base bits n : Netip.IsValid (currentOf isIPv6 base bits n) = true.
Proof. unfold currentOf, addrOf, mkAddr. by destruct (n =? 0), isIPv6. Qed.

Lemma familyOk_find isIPv6 base bits c last current s d :
  ranges isIPv6 = Some (base, bits) -> familyOk isIPv6 c last current s ->
  FakeIPLoadDomain s d isIPv6 = addrOf isIPv6 base bits <$> fifoFind d c /\ Netip.IsValid current = true.
Proof.
  unfold familyOk. intros -> (_ & -> & (_ & _ & Hnd & _) & Hd & _). split; [|apply currentOf_valid].
  destruct (fifoFind d c) as [n|] eqn:Hf; cbn.
  - apply Hd. exists n. split; [|done]. by apply fifoFind_Some.
  - destruct (FakeIPLoadDomain s d isIPv6) as [a|] eqn:Hl; [|done].
    apply Hd in Hl as (n & Hin & _). apply fifoFind_Some in Hin; [congruence|done].
Qed.

Lemma create_refines st cs d isIPv6 :
  (forall v6, usableRange v6) -> implements st cs ->
  match specCreate cs d isIPv6 with
  | (Ok a, cs') => exists st', Store_Create st d isIPv6 = Ok (a, st') /\ implements st' cs'
  | (Err e, cs') => Store_Create st d isIPv6 = Err e /\ cs' = cs
  | _ => False
  end.
Proof.
  intros Hu (H4 & H6 & s & Hs & Hf4 & Hf6). unfold specCreate, Store_Create. rewrite Hs.
  destruct (ranges isIPv6) as [[base bits]|] eqn:Hr.
  - pose proof (Hu isIPv6) as Hur. unfold usableRange in Hur. rewrite Hr in Hur. unfold fifoCreate.
    destruct isIPv6; [pose proof (familyOk_find true base bits _ _ _ _ d Hr Hf6) as [-> Hv]
                     |pose proof (familyOk_find false base bits _ _ _ _ d Hr Hf4) as [-> Hv]];
      (destruct (fifoFind d (cs _)) as [n|] eqn:Hf; cbn [fmap option_fmap option_map];
       [exists st; split; [done|]; split_and!; [done..|]; by exists s|]); cbn [negb]; rewrite Hv; cbn [negb];
      unfold mbind, result_bind.
    + rewrite H6. destruct (familyOk_push true base bits (cs true) _ _ s d Hr Hur Hf6 Hf) as [Ha Hp]. cbv zeta in Ha, Hp.
      rewrite Ha in *. eexists. split; [done|]. split_and!; [done..|]. eexists. split; [done|].
      split; apply familyOk_async; [|exact Hp]. apply familyOk_other; [apply (addr_family true)|exact Hf4].
    + rewrite H4. destruct (familyOk_push false base bits (cs false) _ _ s d Hr Hur Hf4 Hf) as [Ha Hp]. cbv zeta in Ha, Hp.
      rewrite Ha in *. eexists. split; [done|]. split_and!; [done..|]. eexists. split; [done|].
      split; apply familyOk_async; [exact Hp|]. apply familyOk_other; [apply (addr_family false)|exact Hf6].
  - destruct isIPv6; [unfold familyOk in Hf6; rewrite Hr in Hf6; destruct Hf6 as (-> & -> & _)
                     |unfold familyOk in Hf4; rewrite Hr in Hf4; destruct Hf4 as (-> & -> & _)]; done.
Qed.

(** Requests one after the other. *)
Fixpoint Store_run (st : Store) (requests : list (string * bool)) : list (result Addr) * Store :=
  match requests with
  | [] => ([], st)
  | (d, isIPv6) :: requests' =>
      match Store_Create st d isIPv6 with
      | Ok (a, st) => let '(out, st) := Store_run st requests' in (Ok a :: out, st)
      | Err e => let '(out, st) := Store_run st requests' in (Err e :: out, st)
      | Panic p => ([Panic p], st)
      end
  end.

Fixpoint specRun (cs : caches) (requests : list (string * bool)) : list (result Addr) * caches :=
  match requests with
  | [] => ([], cs)
  | (d, isIPv6) :: requests' =>
      let '(a, cs) := specCreate cs d isIPv6 in
      let '(out, cs) := specRun cs requests' in (a :: out, cs)
  end.

Lemma run_refines requests : forall st cs,
  (forall v6, usableRange v6) -> implements st cs ->
  (Store_run st requests).1 = (specRun cs requests).1 /\ implements (Store_run st requests).2 (specRun cs requests).2.
Proof.
  induction requests as [|[d v6] requests IH]; intros st cs Hu Hi; [done|]. cbn [Store_run specRun].
  pose proof (create_refines st cs d v6 Hu Hi) as Hc.
  destruct (specCreate cs d v6) as [[a|e|p] cs']; [|destruct Hc as [-> ->]|done].
  - destruct Hc as (st' & -> & Hi'). destruct (IH st' cs' Hu Hi') as [Ho Hs].
    destruct (Store_run st' requests), (specRun cs' requests); cbn in *. by subst.
  - destruct (IH st cs Hu Hi) as [Ho Hs]. destruct (Store_run st requests), (specRun cs requests); cbn in *. by subst.
Qed.

Lemma start_implements found :
  (forall v6, usableRange v6) -> (FakeIPMetadata_ found).1 = None ->
  implements (Store_Start (NewStore (rangeOf false) (rangeOf true)) found) (fun _ => fifoZero).
Proof.
  intros Hu Hm. unfold Store_Start. destruct (FakeIPMetadata_ found) as [m s]. cbn in Hm. subst m.
  assert (Hfam : forall v6 last current,
    (NetipPrefix.IsValid (rangeOf v6) = true -> last = broadcastAddress (rangeOf v6) /\ current = Netip.Next (pfx_addr (rangeOf v6))) ->
    (NetipPrefix.IsValid (rangeOf v6) = false -> current = AddrZero) -> familyOk v6 fifoZero last current (FakeIPReset s).2).
  { intros v6 last current Hv Hi. pose proof (Hu v6) as Hur. unfold usableRange, rangeOf, familyOk in *.
    destruct (ranges v6) as [[base bits]|].
    - pose proof Hur as (Hb & Hbits & Hcap). destruct (lastValue_block _ _ _ Hur) as [_ Hl].
      destruct Hv as [-> ->]. { unfold NetipPrefix.IsValid, range. apply Z.leb_le. cbn. lia. }
      split_and!; [by apply broadcast_spec| |by apply holds_reset].
      change (pfx_addr (range v6 base bits)) with (mkAddr v6 base). unfold capacity in Hcap. by rewrite Next_spec by lia.
    - split_and!; [by apply Hi|intros; apply loadDomain_reset|intros; apply load_reset]. }
  unfold NewStore. destruct (NetipPrefix.IsValid (rangeOf false)) eqn:H4, (NetipPrefix.IsValid (rangeOf true)) eqn:H6;
    cbn; rewrite ?H4; cbn; rewrite ?H6; cbn; (split; [done|split; [done|]]); eexists; (split; [done|]); split; apply Hfam; cbn; intros; first [congruence|by split].
Qed.

Lemma implements_cached st cs a d : implements st cs ->
  Store_Lookup st a = Some d <-> cached cs a d.
Proof.
  intros (_ & _ & s & Hs & Hf4 & Hf6). unfold Store_Lookup. rewrite Hs.
  assert (Hfam : exists last current, familyOk (negb (Netip.Is4 a)) (cs (negb (Netip.Is4 a))) last current s).
  { destruct (Netip.Is4 a); eauto. }
  destruct Hfam as (last & current & Hf). unfold familyOk in Hf.
  destruct (ranges (negb (Netip.Is4 a))) as [[base bits]|] eqn:Hr.
  - destruct Hf as (_ & _ & _ & _ & Ha). rewrite Ha by (by rewrite negb_involutive). unfold cached. split.
    + intros (n & Hin & Heq). eauto 10.
    + intros (v6 & b & bs & n & Hr' & Hin & ->). rewrite addr_family, negb_involutive in *.
      rewrite Hr in Hr'. simplify_eq. eauto.
  - destruct Hf as (_ & _ & Ha). rewrite Ha by (by rewrite negb_involutive). split; [done|].
    intros (v6 & b & bs & n & Hr' & Hin & ->). rewrite addr_family, negb_involutive in Hr. congruence.
Qed.

(** C11: the store of fake addresses is a first-in first-out cache: whatever
    domains are asked for, each answer is that of a cache which holds as many
    domains as its range has usable addresses, numbers its entries and gives
    the [n]-th one the [n]-th usable address, round and round; a family
    without a range is refused.  Afterwards an address leads back to a domain
    exactly when the cache still holds it. *)
Theorem fakeip_is_fifo found requests a d :
  (forall isIPv6, usableRange isIPv6) -> (FakeIPMetadata_ found).1 = None ->
  let '(answers, st) := Store_run (Store_Start (NewStore (rangeOf false) (rangeOf true)) found) requests in
  let '(expected, cs) := specRun (fun _ => fifoZero) requests in
  answers = expected /\ (Store_Lookup st a = Some d <-> cached cs a d).
Proof.
  intros Hu Hm. pose proof (run_refines requests _ _ Hu (start_implements found Hu Hm)) as [Ho Hi].
  destruct (Store_run _ requests) as [answers st], (specRun _ requests) as [expected cs]. cbn in Ho, Hi.
  split; [done|]. by apply implements_cached.
Qed.

End family.

(** * A range of five usable addresses *)

(** 198.18.0.0/29, and no IPv6. *)
Definition demoRanges (isIPv6 : bool) : option (Z * Z) := if isIPv6 then None else Some (3323068416, 29).

Definition demoRequests : list (string * bool) :=
  map (fun d => (d, false)) ["a"; "b"; "a"; "c"; "d"; "e"; "f"; "a"] ++ [("a", true)].

Lemma demoRanges_usable isIPv6 : usableRange demoRanges isIPv6.
Proof. destruct isIPv6; [done|]. by vm_compute. Qed.

Lemma fakeip_is_fifo_witness :
  let '(answers, st) := Store_run (Store_Start (NewStore (rangeOf demoRanges false) (rangeOf demoRanges true))
                                     NewMemoryStorage) demoRequests in
  answers = map (fun x => Ok (Addr4 (3323068416 + x))) [2; 3; 2; 4; 5; 6; 2; 3]
            ++ [Err (E_New "missing IPv6 fakeip address range")]
  /\ (Store_Lookup st (Addr4 (3323068416 + 3)) = Some "a" <->
      cached demoRanges (specRun demoRanges (fun _ => fifoZero) demoRequests).2 (Addr4 (3323068416 + 3)) "a").
Proof.
  pose proof (fakeip_is_fifo demoRanges NewMemoryStorage demoRequests (Addr4 (3323068416 + 3)) "a"
    demoRanges_usable eq_refl) as Hw.
  destruct (Store_run _ demoRequests) as [answers st].
  destruct (specRun demoRanges (fun _ => fifoZero) demoRequests) as [expected cs] eqn:Hs. destruct Hw as [-> Hl].
  split; [|exact Hl]. pose proof (f_equal fst Hs) as He. vm_compute in He. symmetry. exact He.
Defined.
