(* ===== verification/OutboundManager.v ===== *)
(** [adapter/outbound/manager.go]: the outbounds of a configuration, the order
    in which they are started, and how they come and go while the program
    runs. *)
From S2P Require Import Prelude Metadata.

(** [adapter.StartStage] *)
Inductive StartStage := StartStateInitialize | StartStateStart | StartStatePostStart | StartStateStarted.

Definition stageNumber (s : StartStage) : Z :=
  match s with StartStateInitialize => 0 | StartStateStart => 1 | StartStatePostStart => 2 | StartStateStarted => 3 end.

Definition ListStartStages : list StartStage :=
  [StartStateInitialize; StartStateStart; StartStatePostStart; StartStateStarted].

Definition StartStage_String (s : StartStage) : string :=
  match s with
  | StartStateInitialize => "initialize"
  | StartStateStart => "start"
  | StartStatePostStart => "post-start"
  | StartStateStarted => "finish-start"
  end.

(** An [adapter.Outbound] object; [out_id] is its identity, [out_Start] and
    [out_Close] what its methods return. *)
Record OutboundObject := mkOutboundObject {
  out_id : nat;
  out_Type : string;
  out_Tag : string;
  out_Dependencies : list string;
  out_Start : StartStage -> option GoError;
  out_Close : option GoError }.

Definition outboundName (o : OutboundObject) : string := "outbound/" +:+ out_Type o +:+ "[" +:+ out_Tag o +:+ "]".

(** * Starting in the order of dependencies *)

(** The outbounds started so far: their tags, whether this pass started any,
    and the order of the calls. *)
Record Pass := mkPass {
  started : gset string;
  canContinue : bool;
  startLog : list OutboundObject }.

(** [common.Find] *)
Definition findTag (p : string -> bool) (l : list string) : string :=
  match list_find (fun x => Is_true (p x)) l with Some (_, x) => x | None => "" end.

(** The loop [startOne]: an error ends it. *)
Fixpoint startPass (outbounds : list OutboundObject) (p : Pass) : option GoError * Pass :=
  match outbounds with
  | [] => (None, p)
  | o :: outbounds' =>
      if bool_decide (out_Tag o ∈ started p) then startPass outbounds' p
      else if allb (out_Dependencies o) (fun dependency => bool_decide (dependency ∈ started p)) then
        let p := mkPass ({[out_Tag o]} ∪ started p) true (startLog p ++ [o]) in
        match out_Start o StartStateStart with
        | Some err => (Some (E_Cause err ("start " +:+ outboundName o)), p)
        | None => startPass outbounds' p
        end
      else startPass outbounds' p
  end.

Section lint.
Variable outboundByTag : gmap string OutboundObject.
Variable isStarted : gset string.

(** [lintOutbound] follows the dependencies that were not started; the tree
    never holds a tag twice. *)
Fixpoint lintOutbound (fuel : nat) (oTree : list string) (oCurrent : OutboundObject) : result unit :=
  match fuel with
  | O => Panic "out of fuel"
  | S fuel' =>
      let problemOutboundTag := findTag (fun it => negb (bool_decide (it ∈ isStarted))) (out_Dependencies oCurrent) in
      if bool_decide (problemOutboundTag ∈ oTree)
      then Err (E_New ("circular outbound dependency: " +:+ join " -> " oTree +:+ " -> " +:+ problemOutboundTag))
      else
        match outboundByTag !! problemOutboundTag with
        | None => Err (E_New ("dependency[" +:+ problemOutboundTag +:+ "] not found for outbound[" +:+ out_Tag oCurrent +:+ "]"))
        | Some problemOutbound => lintOutbound fuel' (oTree ++ [problemOutboundTag]) problemOutbound
        end
  end.

End lint.

(** The outer loop of [startOutbounds]: every pass but the last starts an
    outbound. *)
Fixpoint startLoop (outboundByTag : gmap string OutboundObject) (outbounds : list OutboundObject) (fuel : nat) (p : Pass)
    : result unit * list OutboundObject :=
  match fuel with
  | O => (Panic "out of fuel", startLog p)
  | S fuel' =>
      let '(err, p) := startPass outbounds (mkPass (started p) false (startLog p)) in
      match err with
      | Some err => (Err err, startLog p)
      | None =>
          if bool_decide (size (started p) = length outbounds) then (Ok tt, startLog p)
          else if canContinue p then startLoop outboundByTag outbounds fuel' p
          else
            (match list_find (fun it => out_Tag it ∉ started p) outbounds with
             | None => Panic "nil pointer dereference"
             | Some (_, currentOutbound) =>
                 lintOutbound outboundByTag (started p) (S (S (size outboundByTag))) [out_Tag currentOutbound] currentOutbound
             end, startLog p)
      end
  end.

Definition startOutbounds (outboundByTag : gmap string OutboundObject) (outbounds : list OutboundObject)
    : result unit * list OutboundObject :=
  startLoop outboundByTag outbounds (S (length outbounds)) (mkPass ∅ false []).

(** * The manager *)

Record Manager := mkManager {
  defaultTag : string;
  m_started : bool;
  m_stage : StartStage;
  outbounds : list OutboundObject;
  outboundByTag : gmap string OutboundObject;
  dependByTag : gmap string (list string);
  defaultOutbound : option OutboundObject }.

Definition NewManager (defaultTag : string) : Manager :=
  mkManager defaultTag false StartStateInitialize [] ∅ ∅ None.

(** The stages after the first start of all outbounds, in order, up to an
    error. *)
Fixpoint legacyStartAll (stage : StartStage) (l : list OutboundObject) : result unit :=
  match l with
  | [] => Ok tt
  | o :: l' =>
      match out_Start o stage with
      | Some err => Err (E_Cause err (StartStage_String stage +:+ " " +:+ outboundName o))
      | None => legacyStartAll stage l'
      end
  end.

(** [Start], with [Endpoints] and [Get] of the endpoint manager and the outbound
    the fallback makes. *)
Definition Manager_Start (endpoints : list OutboundObject) (endpoint : string -> option OutboundObject)
    (defaultOutboundFallback : result OutboundObject) (stage : StartStage) (m : Manager) : result unit * Manager :=
  if m_started m && (stageNumber stage <=? stageNumber (m_stage m)) then (Panic "already started", m)
  else
    let m := m {{ m_started := true; m_stage := stage }} in
    match stage with
    | StartStateStart =>
        let withDefault :=
          if negb (String.eqb (defaultTag m) "") && isNil (defaultOutbound m) then
            match endpoint (defaultTag m) with
            | None => Err (E_New ("default outbound not found: " +:+ defaultTag m))
            | Some defaultEndpoint => Ok (m {{ defaultOutbound := Some defaultEndpoint }})
            end
          else Ok m in
        match withDefault with
        | Ok m =>
            let withFallback :=
              match defaultOutbound m with
              | Some _ => Ok m
              | None =>
                  directOutbound ← cause "create direct outbound for fallback" defaultOutboundFallback;
                  Ok (m {{ outbounds := outbounds m ++ [directOutbound];
                           outboundByTag := <[out_Tag directOutbound := directOutbound]> (outboundByTag m);
                           defaultOutbound := Some directOutbound }})
              end in
            match withFallback with
            | Ok m => ((startOutbounds (outboundByTag m) (outbounds m ++ endpoints)).1, m)
            | Err err => (Err err, m)
            | Panic s => (Panic s, m)
            end
        | Err err => (Err err, m)
        | Panic s => (Panic s, m)
        end
    | _ => (legacyStartAll stage (outbounds m), m)
    end.

(** [Close], which drops the errors of the outbounds. *)
Definition Manager_Close (m : Manager) : Manager :=
  if negb (m_started m) then m else m {{ m_started := false; outbounds := [] }}.

(** [append(l[:index], l[index+1:]...)] for the object itself. *)
Definition indexOf (o : OutboundObject) (l : list OutboundObject) : option nat :=
  fst <$> list_find (fun it => out_id it = out_id o) l.

Definition removeIndex {A} (index : nat) (l : list A) : list A := take index l ++ drop (S index) l.

Definition Manager_Outbound (endpoint : string -> option OutboundObject) (m : Manager) (tag : string) : option OutboundObject :=
  match outboundByTag m !! tag with Some o => Some o | None => endpoint tag end.

(** One dependency of a removed outbound. *)
Definition forgetDependency (tag : string) (deps : gmap string (list string)) (dependency : string) : gmap string (list string) :=
  let l := default [] (deps !! dependency) in
  if (length l =? 1)%nat then delete dependency deps
  else <[dependency := base.filter (fun it => it <> tag) l]> deps.

(** The default once [removed] is gone: the first outbound takes its place. *)
Definition defaultAfter (removed : OutboundObject) (rest : list OutboundObject) (current : option OutboundObject)
    : option OutboundObject :=
  match current with
  | Some d => if (out_id d =? out_id removed)%nat then head rest else current
  | None => None
  end.

Definition Manager_Remove (m : Manager) (tag : string) : result unit * Manager :=
  match outboundByTag m !! tag with
  | None => (Err OS_ErrInvalid, m)
  | Some outbound =>
      let m := m {{ outboundByTag := delete tag (outboundByTag m) }} in
      match indexOf outbound (outbounds m) with
      | None => (Panic "invalid inbound index", m)
      | Some index =>
          let m := m {{ outbounds := removeIndex index (outbounds m) }} in
          let m := m {{ defaultOutbound := defaultAfter outbound (outbounds m) (defaultOutbound m) }} in
          let dependBy := default [] (dependByTag m !! tag) in
          if nonempty dependBy
          then (Err (E_New ("outbound[" +:+ tag +:+ "] is depended by " +:+ join ", " dependBy)), m)
          else
            let m := m {{ dependByTag := foldl (forgetDependency tag) (dependByTag m) (out_Dependencies outbound) }} in
            (if m_started m then match out_Close outbound with Some err => Err err | None => Ok tt end else Ok tt, m)
      end
  end.

(** The stages a new outbound goes through when the manager runs. *)
Fixpoint startStages (stages : list StartStage) (o : OutboundObject) : result unit :=
  match stages with
  | [] => Ok tt
  | stage :: stages' => _ ← legacyStartAll stage [o]; startStages stages' o
  end.

(** The outbound a new one with the same tag replaces is closed and dropped from
    the list. *)
Definition detachExisting (m : Manager) (tag : string) : result Manager :=
  match outboundByTag m !! tag with
  | None => Ok m
  | Some existsOutbound =>
      _ ← (if m_started m then
             match out_Close existsOutbound with
             | Some err => Err (E_Cause err ("close " +:+ outboundName existsOutbound))
             | None => Ok tt
             end
           else Ok tt);
      match indexOf existsOutbound (outbounds m) with
      | None => Panic "invalid inbound index"
      | Some existsIndex => Ok (m {{ outbounds := removeIndex existsIndex (outbounds m) }})
      end
  end.

Definition attach (m : Manager) (tag : string) (outbound : OutboundObject) : Manager :=
  m {{ outbounds := outbounds m ++ [outbound];
       outboundByTag := <[tag := outbound]> (outboundByTag m);
       dependByTag := foldl (fun deps dependency => <[dependency := default [] (deps !! dependency) ++ [tag]]> deps)
                        (dependByTag m) (out_Dependencies outbound);
       defaultOutbound :=
         if String.eqb tag (defaultTag m) || (String.eqb (defaultTag m) "" && isNil (defaultOutbound m))
         then Some outbound else defaultOutbound m }}.

(** [Create], with what the registry makes. *)
Definition Manager_Create (created : result OutboundObject) (m : Manager) (tag : string) : result unit * Manager :=
  if String.eqb tag "" then (Err OS_ErrInvalid, m)
  else
    match (outbound ← created;
           _ ← (if m_started m then startStages ListStartStages outbound else Ok tt);
           m' ← detachExisting m tag;
           Ok (attach m' tag outbound)) with
    | Ok m' => (Ok tt, m')
    | Err err => (Err err, m)
    | Panic s => (Panic s, m)
    end.

(** * [checkOutbounds] of [option/options.go] *)

(** The tag of an entry, or its index. *)
Definition effectiveTags `{Libs} (tags : list string) : list string :=
  imap (fun i tag => if String.eqb tag "" then F_ToString (Z.of_nat i) else tag) tags.

Fixpoint checkSeen (seen : gset string) (tags : list string) : result (gset string) :=
  match tags with
  | [] => Ok seen
  | tag :: tags' =>
      if bool_decide (tag ∈ seen) then Err (E_New ("duplicate outbound/endpoint tag: " +:+ tag))
      else checkSeen ({[tag]} ∪ seen) tags'
  end.

Definition checkOutbounds `{Libs} (outbounds endpoints : list string) : result unit :=
  seen ← checkSeen ∅ (effectiveTags outbounds);
  _ ← checkSeen seen (effectiveTags endpoints);
  Ok tt.

(** An outbound that starts and closes without errors. *)
Definition demoObject (id : nat) (tag : string) (deps : list string) : OutboundObject :=
  mkOutboundObject id "direct" tag deps (fun _ => None) None.
