(* ===== verification/OutboundSpec.v ===== *)
(** The outbound manager starts outbounds after their dependencies and keeps
    its tables consistent. *)
From S2P Require Import Prelude Metadata Demo OutboundManager.

(** * Order *)

(** Every dependency comes earlier in the list. *)
Definition depsBefore (l : list OutboundObject) : Prop :=
  forall i o d, l !! i = Some o -> d ∈ out_Dependencies o -> d ∈ out_Tag <$> take i l.

Lemma depsBefore_snoc l o :
  depsBefore l -> (forall d, d ∈ out_Dependencies o -> d ∈ out_Tag <$> l) -> depsBefore (l ++ [o]).
Proof.
  intros Hl Ho i o' d Hi Hd. destruct (decide (i < length l)%nat) as [Hlt|Hge].
  - rewrite lookup_app_l in Hi by done. rewrite take_app_le by lia. eauto.
  - rewrite lookup_app_r in Hi by lia. destruct (i - length l)%nat as [|k] eqn:Hk; cbn in Hi; [|done]. simplify_eq.
    rewrite take_app_ge by lia. rewrite fmap_app. apply elem_of_app. left. auto.
Qed.

Section order.
Variable all : list OutboundObject.

Definition passInv (p : Pass) : Prop :=
  NoDup (out_Tag <$> startLog p) /\ started p = list_to_set (out_Tag <$> startLog p) /\
  depsBefore (startLog p) /\ startLog p ⊆ all.

(** What a pass over [l] does. *)
Lemma startPass_spec l : forall p err p',
  l ⊆ all -> passInv p -> startPass l p = (err, p') ->
  passInv p' /\
  (exists ext, startLog p' = startLog p ++ ext /\ canContinue p' = canContinue p || nonempty ext) /\
  match err with
  | Some _ => exists o, o ∈ l /\ out_Start o StartStateStart <> None
  | None => startLog p' = startLog p ->
            forall o, o ∈ l -> out_Tag o ∉ started p -> exists d, d ∈ out_Dependencies o /\ d ∉ started p
  end.
Proof.
  induction l as [|o l IH]; intros p err p' Hl Hp Hs; cbn [startPass] in Hs.
  { simplify_eq. split; [done|]. split; [exists []; by rewrite app_nil_r, orb_false_r|]. intros _ o Ho. set_solver. }
  assert (Hl' : l ⊆ all) by set_solver. case_bool_decide as Ht.
  { destruct (IH _ _ _ Hl' Hp Hs) as (Hi & He & Herr). split; [done|]. split; [done|].
    destruct err; [destruct Herr as (o' & ? & ?); exists o'; set_solver|].
    intros Hsame o' [->|Ho']%elem_of_cons Hn; [done|eauto]. }
  destruct (allb (out_Dependencies o) _) eqn:Hd.
  - set (p1 := mkPass ({[out_Tag o]} ∪ started p) true (startLog p ++ [o])) in Hs.
    assert (Hp1 : passInv p1).
    { destruct Hp as (Hnd & Hst & Hdb & Hsub). unfold passInv, p1. cbn. rewrite fmap_app. split_and!.
      - apply list.NoDup_app. split; [done|]. split; [|apply NoDup_singleton]. rewrite Hst in Ht. set_solver.
      - rewrite list_to_set_app_L, Hst. cbn. set_solver.
      - apply depsBefore_snoc; [done|]. intros d Hin. apply allb_true with (x := d) in Hd; [|done].
        apply bool_decide_eq_true in Hd. rewrite Hst in Hd. set_solver.
      - set_solver. }
    destruct (out_Start o StartStateStart) as [e|] eqn:Hstart.
    + simplify_eq. split; [done|]. split; [exists [o]; by rewrite orb_true_r|]. exists o. set_solver.
    + destruct (IH _ _ _ Hl' Hp1 Hs) as (Hi & (ext & He & Hc) & Herr). split; [done|]. cbn in He, Hc.
      split; [exists (o :: ext); rewrite He, <- app_assoc; by rewrite Hc, orb_true_r|].
      destruct err; [destruct Herr as (o' & ? & ?); exists o'; set_solver|].
      intros Hsame. rewrite He, <- app_assoc in Hsame. apply (f_equal length) in Hsame. rewrite !length_app in Hsame.
      cbn in Hsame. lia.
  - destruct (IH _ _ _ Hl' Hp Hs) as (Hi & He & Herr). split; [done|]. split; [done|].
    destruct err; [destruct Herr as (o' & ? & ?); exists o'; set_solver|].
    intros Hsame o' [->|Ho']%elem_of_cons Hn; [|eauto].
    apply allb_false in Hd as (d & Hin & Hd). exists d. by rewrite bool_decide_eq_false in Hd.
Qed.

(** * Diagnosis *)

(** Following the dependencies ends: tags are not visited twice. *)
Lemma lintOutbound_ends byTag st fuel : forall t0 rest o,
  NoDup (t0 :: rest) -> list_to_set rest ⊆ dom byTag -> (fuel + length rest = S (S (size byTag)))%nat ->
  exists e, lintOutbound byTag st fuel (t0 :: rest) o = Err e.
Proof.
  induction fuel as [|fuel IH]; intros t0 rest o Hnd Hsub Hf.
  - exfalso. apply list.NoDup_cons in Hnd as [_ Hnd]. apply subseteq_size in Hsub.
    rewrite size_list_to_set, size_dom in Hsub by done. lia.
  - cbn [lintOutbound]. case_bool_decide as Hin; [by eexists|].
    destruct (byTag !! _) as [o'|] eqn:Hl; [|by eexists].
    apply (IH t0 (rest ++ [_]) o'); [|apply elem_of_dom_2 in Hl; set_solver|rewrite length_app; cbn; lia].
    apply (list.NoDup_app (t0 :: rest)). split; [done|]. split; [set_solver|apply NoDup_singleton].
Qed.

(** * The loop *)

(** All outbounds were started, each one once. *)
Lemma log_complete p :
  NoDup (out_Tag <$> all) -> passInv p -> size (started p) = length all -> startLog p ≡ₚ all.
Proof.
  intros Hnd (Hn & Hst & _ & Hsub) Hsz. rewrite Hst, size_list_to_set, length_fmap in Hsz by done.
  apply submseteq_length_Permutation; [|lia]. apply NoDup_submseteq; [by apply NoDup_fmap_1 in Hn|done].
Qed.

Lemma started_bound p : NoDup (out_Tag <$> all) -> passInv p -> (length (startLog p) <= length all)%nat.
Proof.
  intros Hnd (Hn & Hst & _ & Hsub). apply submseteq_length, NoDup_submseteq; [by apply NoDup_fmap_1 in Hn|done].
Qed.

(** A set of outbounds that can be started in some order. *)
Definition startable : Prop := exists order, order ≡ₚ all /\ depsBefore order.

Lemma stuck_not_startable (st : gset string) :
  (forall o, o ∈ all -> out_Tag o ∉ st -> exists d, d ∈ out_Dependencies o /\ d ∉ st) ->
  (exists o, o ∈ all /\ out_Tag o ∉ st) -> ~ startable.
Proof.
  intros Hstuck (o & Ho & Hn) (order & Hperm & Hdb).
  assert (Hall : forall i o, order !! i = Some o -> out_Tag o ∈ st); [|apply Hn; rewrite <- Hperm in Ho;
    apply list_elem_of_lookup_1 in Ho as [i Hi]; eauto].
  clear o Ho Hn. intros i. induction (lt_wf i) as [i _ IH]. intros o Hi.
  destruct (decide (out_Tag o ∈ st)) as [|Hn]; [done|]. exfalso.
  destruct (Hstuck o) as (d & Hd & Hds); [rewrite <- Hperm; by eapply list_elem_of_lookup_2|done|]. apply Hds.
  specialize (Hdb i o d Hi Hd). apply list_elem_of_fmap in Hdb as (o' & -> & Hin).
  apply elem_of_take in Hin as (j & Hj & Hlt). eauto.
Qed.

Lemma startLoop_log byTag fuel : forall p,
  NoDup (out_Tag <$> all) -> passInv p -> (length all < fuel + length (startLog p))%nat ->
  let '(r, log) := startLoop byTag all fuel p in
  (exists p', passInv p' /\ log = startLog p') /\
  match r with
  | Ok _ => log ≡ₚ all
  | Err _ => (exists o, o ∈ all /\ out_Start o StartStateStart <> None) \/ ~ startable
  | Panic _ => False
  end.
Proof.
  induction fuel as [|fuel IH]; intros p Hnd Hp Hf.
  { pose proof (started_bound p Hnd Hp). lia. }
  cbn [startLoop]. set (p0 := mkPass (started p) false (startLog p)).
  assert (Hp0 : passInv p0) by done. destruct (startPass all p0) as [err p'] eqn:Hpass.
  destruct (startPass_spec all p0 err p' ltac:(done) Hp0 Hpass) as (Hp' & (ext & Hext & Hc) & Herr).
  destruct err as [e|]; [split; [by exists p'|by left]|].
  case_bool_decide as Hsz; [split; [by exists p'|by apply log_complete]|].
  destruct (canContinue p') eqn:Hcc.
  - apply IH; [done..|]. rewrite Hext. cbn. rewrite length_app. destruct ext; [done|]. cbn in *. lia.
  - cbn in Hc. destruct ext; [|done]. rewrite app_nil_r in Hext. specialize (Herr Hext).
    assert (Hst : started p' = started p).
    { destruct Hp' as (_ & -> & _), Hp as (_ & -> & _). by rewrite Hext. }
    split; [by exists p'|].
    destruct (list_find _ all) as [[i o]|] eqn:Hfind.
    + apply list_find_Some in Hfind as (Ho & Hns & _).
      destruct (lintOutbound_ends byTag (started p') (S (S (size byTag))) (out_Tag o) [] o) as [e ->];
        [apply NoDup_singleton|set_solver|cbn; lia|]. right. apply (stuck_not_startable (started p)); [done|].
      exists o. split; [by eapply list_elem_of_lookup_2|by rewrite <- Hst].
    + exfalso. apply Hsz. destruct Hp' as (Hn & Hst' & Hdb & Hsub). rewrite Hst'. apply list_find_None in Hfind.
      rewrite <- (length_fmap out_Tag all), <- (size_list_to_set (C := gset string) (out_Tag <$> all)) by done.
      f_equal. apply set_eq. intros t. rewrite !elem_of_list_to_set. split; [set_solver|].
      intros (o & -> & Ho)%list_elem_of_fmap. rewrite Forall_forall in Hfind. apply list_elem_of_In in Ho.
      specialize (Hfind o Ho). cbn in Hfind. apply dec_stable in Hfind. rewrite Hst' in Hfind.
      by apply elem_of_list_to_set in Hfind.
Qed.

(** C12: outbounds are started in the order of their dependencies, whatever
    happens: each call to [Start] comes after those of all its dependencies
    and no outbound is started twice; when the manager reports success, every
    outbound has been started. *)
Theorem start_order byTag :
  NoDup (out_Tag <$> all) ->
  let '(r, log) := startOutbounds byTag all in
  depsBefore log /\ NoDup (out_Tag <$> log) /\ log ⊆ all /\ (r = Ok tt -> log ≡ₚ all).
Proof.
  intros Hnd. pose proof (startLoop_log byTag (S (length all)) (mkPass ∅ false []) Hnd) as Hs.
  unfold startOutbounds. destruct (startLoop _ _ _ _) as [r log]. destruct Hs as [(p & (Hn & _ & Hdb & Hsub) & ->) Hr].
  - unfold passInv. cbn. split_and!; [constructor|done|done|set_solver].
  - cbn. lia.
  - split_and!; [done..|]. by intros ->.
Qed.

End order.

(** ** Tags *)

Lemma checkSeen_spec tags : forall seen seen', checkSeen seen tags = Ok seen' ->
  NoDup tags /\ (forall t, t ∈ tags -> t ∉ seen) /\ seen' = list_to_set tags ∪ seen.
Proof.
  induction tags as [|t tags IH]; intros seen seen' Hc; cbn in Hc.
  - simplify_eq. split_and!; [constructor|set_solver|set_solver].
  - case_bool_decide as Ht; [done|]. apply IH in Hc as (Hnd & Hseen & ->). split_and!.
    + apply list.NoDup_cons. split; [|done]. intros Hin. specialize (Hseen t Hin). set_solver.
    + set_solver.
    + cbn. set_solver.
Qed.

Lemma checkOutbounds_NoDup `{Libs} obs eps :
  checkOutbounds obs eps = Ok tt -> NoDup (effectiveTags obs ++ effectiveTags eps).
Proof.
  unfold checkOutbounds. intros (seen & (Hn1 & _ & ->)%checkSeen_spec & (seen' & (Hn2 & Hs & _)%checkSeen_spec & _)%bind_Ok)%bind_Ok.
  apply list.NoDup_app. split; [done|]. split; [|done]. intros t Ht Ht'. apply (Hs t Ht'). set_solver.
Qed.

(** The loop over outbounds with distinct tags does not panic, and succeeds exactly
    when an order exists. *)
Lemma startOutbounds_complete byTag all : NoDup (out_Tag <$> all) ->
  (forall s, (startOutbounds byTag all).1 <> Panic s) /\
  ((forall o, o ∈ all -> out_Start o StartStateStart = None) ->
   (startOutbounds byTag all).1 = Ok tt <-> startable all).
Proof.
  intros Hnd. pose proof (startLoop_log all byTag (S (length all)) (mkPass ∅ false []) Hnd) as Hs.
  unfold startOutbounds. destruct (startLoop _ _ _ _) as [r log]. cbn. destruct Hs as [(p & (_ & _ & Hdb & _) & ->) Hr].
  - unfold passInv. cbn. split_and!; [constructor|done|done|set_solver].
  - cbn. lia.
  - split; [by intros s ->|]. intros Hok. destruct r as [[]|e|s].
    + split; [|done]. intros _. by exists (startLog p).
    + split; [done|]. intros Hst. exfalso. destruct Hr as [(o & Ho & Hne)|Hn]; [|done]. by apply Hne, Hok.
    + done.
Qed.

(** C13: For a configuration whose tags passed [checkOutbounds], and a fallback outbound
    (which is made when there is no default one) whose tag is not among them,
    [Manager.Start] ends without a panic.  When a default outbound was found or
    made and no outbound or endpoint fails to start, it succeeds exactly when
    all of them, the fallback included, can be put in an order in which every
    dependency exists and comes first; otherwise a missing or circular
    dependency is reported. *)
Theorem start_complete `{Libs} obs eps endpoints endpoint fallback m :
  checkOutbounds obs eps = Ok tt ->
  out_Tag <$> outbounds m = effectiveTags obs -> out_Tag <$> endpoints = effectiveTags eps ->
  m_started m = false \/ m_stage m = StartStateInitialize ->
  match fallback with Ok d => out_Tag d ∉ effectiveTags obs ++ effectiveTags eps | Err _ => True | Panic _ => False end ->
  let '(r, m') := Manager_Start endpoints endpoint fallback StartStateStart m in
  (forall s, r <> Panic s) /\
  (is_Some (defaultOutbound m') -> (forall o, o ∈ outbounds m' ++ endpoints -> out_Start o StartStateStart = None) ->
   r = Ok tt <-> startable (outbounds m' ++ endpoints)).
Proof.
  intros Hcheck Hobs Heps Hstage Hfb. pose proof (checkOutbounds_NoDup obs eps Hcheck) as Hnd. rewrite <- Hobs, <- Heps in Hnd, Hfb.
  rewrite <- fmap_app in Hnd. destruct m as [tag st sg l byTag dep def]. cbn [outbounds m_started m_stage] in *.
  unfold Manager_Start. cbn [m_started m_stage].
  replace (st && _) with false by (destruct Hstage as [-> | ->]; [done|by destruct st]).
  assert (forall byTag' def', let m' := mkManager tag true StartStateStart l byTag' dep def' in
    (forall s, (startOutbounds byTag' (l ++ endpoints)).1 <> Panic s) /\
    (is_Some (defaultOutbound m') -> (forall o, o ∈ outbounds m' ++ endpoints -> out_Start o StartStateStart = None) ->
     (startOutbounds byTag' (l ++ endpoints)).1 = Ok tt <-> startable (outbounds m' ++ endpoints))) as Hstart.
  { intros byTag' def'. cbn. destruct (startOutbounds_complete byTag' (l ++ endpoints) Hnd) as [H1 H2]. by split. }
  cbn -[startOutbounds]. unfold constant. cbn -[startOutbounds].
  destruct (negb (String.eqb tag "") && isNil def) eqn:Hd.
  - destruct (endpoint tag); cbn -[startOutbounds]; unfold constant; cbn -[startOutbounds]; [apply Hstart|].
    apply andb_true_iff in Hd as [_ Hd]. split; [done|]. destruct def; [done|]. by intros [? ?].
  - destruct def as [o|]; cbn -[startOutbounds]; [apply (Hstart byTag (Some o))|].
    destruct fallback as [d|e|p]; cbn -[startOutbounds]; unfold constant; cbn -[startOutbounds]; [| |done].
    + destruct (startOutbounds_complete (<[out_Tag d := d]> byTag) ((l ++ [d]) ++ endpoints)) as [H1 H2]; [|by split].
      rewrite <- fmap_app in Hfb. apply (NoDup_Permutation_proper _ (out_Tag <$> d :: l ++ endpoints)); [|by apply list.NoDup_cons].
      apply fmap_Permutation. rewrite <- app_assoc. symmetry. apply Permutation_middle.
    + split; [done|]. by intros [? ?].
Qed.

(** * Two outbounds *)

(** The first needs the second. *)
Definition demoOutbounds : list OutboundObject := [demoObject 1 "b" ["a"]; demoObject 0 "a" []].

Lemma start_order_witness :
  let '(r, log) := startOutbounds ∅ demoOutbounds in
  r = Ok tt /\ depsBefore log /\ log = [demoObject 0 "a" []; demoObject 1 "b" ["a"]].
Proof.
  assert (Hnd : NoDup (out_Tag <$> demoOutbounds)) by (repeat constructor; set_solver).
  pose proof (start_order demoOutbounds ∅ Hnd) as Hs. split; [reflexivity|]. split; [exact (proj1 Hs)|reflexivity].
Defined.

Definition demoManager : Manager := (NewManager "") {{ outbounds := demoOutbounds }}.

Lemma start_complete_witness :
  (Manager_Start [] (fun _ => None) (Ok (demoObject 2 "direct" [])) StartStateStart demoManager).1 = Ok tt /\
  startable (demoOutbounds ++ [demoObject 2 "direct" []]).
Proof.
  split; [reflexivity|].
  destruct (@start_complete demoLibs ["b"; "a"] [] [] (fun _ => None) (Ok (demoObject 2 "direct" [])) demoManager) as [_ Hs].
  - reflexivity.
  - reflexivity.
  - reflexivity.
  - by left.
  - vm_compute. set_solver.
  - apply Hs; [by eexists| |reflexivity]. intros o Ho. cbn in Ho. set_solver.
Defined.

(** An endpoint with the tag of the fallback outbound: both count as started by one tag,
    so the number of started ones never agrees, and no other is found. *)
Lemma direct_endpoint_panics :
  @checkOutbounds demoLibs [] ["direct"] = Ok tt /\
  (Manager_Start [demoObject 1 "direct" []] (fun _ => None) (Ok (demoObject 2 "direct" [])) StartStateStart (NewManager "")).1
    = Panic "nil pointer dereference".
Proof. split; reflexivity. Qed.
