(* ===== verification/OutboundTable.v ===== *)
(** The tables of the outbound manager stay consistent while outbounds come and
    go. *)
From S2P Require Import Prelude Metadata OutboundManager.

(** The list and the map hold the same outbounds, each under its tag; and with
    no tag configured, the default is missing only while there is none. *)
Record consistent (m : Manager) : Prop := {
  table_map : forall t o, outboundByTag m !! t = Some o <-> o ∈ outbounds m /\ out_Tag o = t;
  table_ids : NoDup (out_id <$> outbounds m);
  table_default : defaultTag m = "" -> defaultOutbound m = None -> outbounds m = [] }.

Lemma indexOf_Some o l : o ∈ l -> exists i, indexOf o l = Some i.
Proof.
  intros Ho. unfold indexOf. destruct (list_find _ l) as [[i o']|] eqn:Hf; [by eexists|].
  apply list_find_None in Hf. rewrite Forall_forall in Hf. apply list_elem_of_In in Ho. by destruct (Hf o Ho).
Qed.

Lemma removeIndex_spec o l i : NoDup (out_id <$> l) -> o ∈ l -> indexOf o l = Some i ->
  (forall x, x ∈ removeIndex i l <-> x ∈ l /\ x <> o) /\ NoDup (out_id <$> removeIndex i l).
Proof.
  intros Hnd Ho Hi. unfold indexOf in Hi. destruct (list_find _ l) as [[k o']|] eqn:Hf; simplify_eq/=.
  apply list_find_Some in Hf as (Hk & Hid & _).
  assert (o' = o) as ->.
  { apply list_elem_of_lookup_1 in Ho as [j Hj]. assert (i = j) as ->; [|congruence].
    eapply (NoDup_lookup _ i j (out_id o)); [done|by rewrite list_lookup_fmap, Hk; cbn; rewrite Hid|by rewrite list_lookup_fmap, Hj]. }
  pose proof (take_drop_middle l i o Hk) as Hl. unfold removeIndex.
  rewrite <- Hl, fmap_app, fmap_cons in Hnd.
  apply list.NoDup_app in Hnd as (Hn1 & Hdis & Hn2). apply list.NoDup_cons in Hn2 as [Hno Hn2].
  split.
  - intros x. assert (Hel : x ∈ l <-> x ∈ take i l \/ x = o \/ x ∈ drop (S i) l).
    { rewrite <- Hl at 1. by rewrite elem_of_app, elem_of_cons. }
    rewrite Hel, elem_of_app. split; [|naive_solver]. intros Hx. split; [naive_solver|]. intros ->. destruct Hx as [Hx|Hx].
    + apply (Hdis (out_id o)); [by apply list_elem_of_fmap_2|set_solver].
    + by apply Hno, list_elem_of_fmap_2.
  - rewrite fmap_app. apply list.NoDup_app. split_and!; [done| |done]. intros x Hx Hx'. apply (Hdis x Hx). set_solver.
Qed.

(** * What the operations leave *)

Lemma consistent_remove_object m o t :
  consistent m -> outboundByTag m !! t = Some o ->
  exists i, indexOf o (outbounds m) = Some i /\
    (forall x, x ∈ removeIndex i (outbounds m) <-> x ∈ outbounds m /\ x <> o) /\
    NoDup (out_id <$> removeIndex i (outbounds m)).
Proof.
  intros [Hmap Hids _] Ho%Hmap. destruct Ho as [Ho _]. destruct (indexOf_Some o _ Ho) as [i Hi]. exists i.
  split; [done|]. by apply removeIndex_spec.
Qed.

Lemma remove_consistent m tag :
  consistent m -> consistent (Manager_Remove m tag).2 /\ (forall s, (Manager_Remove m tag).1 <> Panic s) /\
  outboundByTag (Manager_Remove m tag).2 !! tag = None.
Proof.
  intros Hc. unfold Manager_Remove. destruct (outboundByTag m !! tag) as [o|] eqn:Ho; [|done].
  destruct (consistent_remove_object m o tag Hc Ho) as (i & Hi & Hrest & Hnd). destruct Hc as [Hmap Hids Hdef].
  pose proof (proj1 (Hmap _ _) Ho) as [_ Htag].
  destruct m as [dt ms mg obs bt deps def]. cbn in *. rewrite Hi.
  assert (Hc' : forall deps' def', (dt = "" -> def' = None -> removeIndex i obs = []) ->
    consistent (mkManager dt ms mg (removeIndex i obs) (delete tag bt) deps' def')).
  { intros deps' def' Hd. split; cbn; [|done|done]. intros t x. rewrite Hrest, lookup_delete_Some, Hmap.
    split; [intros (Hne & Hx & Ht); split; [split; [done|]|done]; congruence|]. intros [[Hx Hne] Ht].
    split; [|done]. intros <-. apply Hne. assert (bt !! out_Tag x = Some x) by (by apply Hmap). congruence. }
  assert (Hdef' : dt = "" -> defaultAfter o (removeIndex i obs) def = None -> removeIndex i obs = []).
  { intros Hdt. unfold defaultAfter. destruct def as [d|].
    - destruct (_ =? _)%nat; [|done]. by destruct (removeIndex i obs).
    - intros _. specialize (Hdef Hdt eq_refl). subst obs. destruct i; done. }
  destruct (nonempty _); cbn; split_and!; try apply Hc'; try done; try apply lookup_delete_eq;
    intros s; destruct ms; try done; by destruct (out_Close o).
Qed.

Lemma startStages_no_panic stages o s : startStages stages o <> Panic s.
Proof.
  induction stages as [|stage stages IH]; [done|]. cbn. by destruct (out_Start o stage).
Qed.

(** Without an outbound under [tag], and with one under it replaced. *)
Lemma detach_spec m tag :
  consistent m -> (forall s, detachExisting m tag <> Panic s) /\
  forall m', detachExisting m tag = Ok m' ->
    defaultTag m' = defaultTag m /\ defaultOutbound m' = defaultOutbound m /\ outboundByTag m' = outboundByTag m /\
    (forall x, x ∈ outbounds m' <-> x ∈ outbounds m /\ out_Tag x <> tag) /\ NoDup (out_id <$> outbounds m').
Proof.
  intros Hc. pose proof Hc as [Hmap Hids _]. unfold detachExisting. destruct (outboundByTag m !! tag) as [o|] eqn:Ho.
  - destruct (consistent_remove_object m o tag Hc Ho) as (i & -> & Hrest & Hnd).
    split; [by destruct (m_started m), (out_Close o)|]. intros m' Hm.
    assert (m' = m {{ outbounds := removeIndex i (outbounds m) }}) as ->.
    { destruct (m_started m), (out_Close o); try done; by injection Hm as <-. }
    split_and!; try done. intros x. cbn. unfold constant. rewrite Hrest. split; intros [Hx Hne]; (split; [done|]).
    + intros Ht. apply Hne. assert (outboundByTag m !! tag = Some x) by (by apply Hmap). congruence.
    + intros ->. apply Hmap in Ho as [_ Ht]. done.
  - split; [done|]. intros m' [= <-]. split_and!; try done. intros x. split; [|naive_solver]. intros Hx. split; [done|].
    intros Ht. assert (outboundByTag m !! tag = Some x) by (by apply Hmap). congruence.
Qed.

Lemma create_consistent m tag o :
  consistent m -> out_Tag o = tag -> (forall x, x ∈ outbounds m -> out_id x <> out_id o) ->
  consistent (Manager_Create (Ok o) m tag).2 /\ (forall s, (Manager_Create (Ok o) m tag).1 <> Panic s) /\
  ((Manager_Create (Ok o) m tag).1 = Ok tt -> outboundByTag (Manager_Create (Ok o) m tag).2 !! tag = Some o).
Proof.
  intros Hc Htag Hfresh. unfold Manager_Create. destruct (String.eqb tag ""); [done|].
  cbn [mbind result_bind]. destruct (if m_started m then _ else _) as [[]|e|s] eqn:Hs; cbn; [|done|].
  2:{ destruct (m_started m); [|done]. by apply startStages_no_panic in Hs. }
  destruct (detach_spec m tag Hc) as [Hnp Hd]. destruct (detachExisting m tag) as [m'|e|s]; cbn; [|done|by destruct (Hnp s)].
  destruct (Hd m' eq_refl) as (Hdt & Hdo & Hbt & Hin & Hnd). destruct Hc as [Hmap Hids Hdef].
  split; [|split; [done|intros _; apply lookup_insert_eq]]. unfold attach. destruct m' as [dt ms mg obs bt deps def]. cbn in *.
  unfold constant. subst. split; cbn.
  - intros t x. rewrite elem_of_app, list_elem_of_singleton, Hin. destruct (decide (t = out_Tag o)) as [->|Hne].
    + rewrite lookup_insert_eq. split; [intros [= ->]; auto|]. intros [[[_ ?]| ->] ?]; [done|done].
    + rewrite lookup_insert_ne, Hmap by done. split; [intros [Hx <-]; auto|]. intros [[[Hx _]| ->] <-]; done.
  - rewrite fmap_app. apply list.NoDup_app. split_and!; [done| |apply NoDup_singleton].
    intros x (y & -> & Hy)%list_elem_of_fmap Heq. apply Hin in Hy as [Hy _]. apply (Hfresh y Hy).
    cbn in Heq. set_solver.
  - intros Hdt Hnone. rewrite Hdt in Hnone. cbn in Hnone. destruct (defaultOutbound m); cbn in Hnone; by destruct (out_Tag o =? "")%string.
Qed.

Lemma start_consistent eps ep fallback stage m : consistent m -> consistent (Manager_Start eps ep fallback stage m).2.
Proof.
  intros Hc. unfold Manager_Start. destruct (_ && _); [done|].
  assert (Hm : forall def, (def = None -> defaultOutbound m = None) ->
    consistent (m {{ m_started := true; m_stage := stage; defaultOutbound := def }})).
  { intros def Hd. destruct Hc as [Hmap Hids Hdef], m as [dt ms mg obs bt deps d]. split; cbn in *; auto. }
  assert (Hm0 : consistent (m {{ m_started := true; m_stage := stage }})).
  { destruct Hc as [Hmap Hids Hdef], m as [dt ms mg obs bt deps d]. by split. }
  destruct stage; try exact Hm0.
  destruct m as [dt ms mg obs bt deps def]. cbn in *. unfold constant in *.
  destruct (negb (String.eqb dt "") && isNil def) eqn:Hdt.
  - apply andb_prop in Hdt as [_ Hnil]. destruct def; [done|]. destruct (ep dt) as [e|]; cbn; [by apply Hm|by apply Hm].
  - destruct def as [d|]; cbn; [by apply Hm|]. rewrite andb_true_r in Hdt. apply negb_false_iff, String.eqb_eq in Hdt. subst dt.
    destruct fallback as [o|err|s]; cbn; [|by apply Hm..]. unfold constant.
    destruct Hc as [Hmap Hids Hdef]. cbn in *. specialize (Hdef eq_refl eq_refl). subst obs. split; cbn; [|apply NoDup_singleton|done].
    intros t x. rewrite list_elem_of_singleton. destruct (decide (t = out_Tag o)) as [->|Hne].
    + rewrite lookup_insert_eq. split; [intros [= ->]; auto|]. by intros [-> _].
    + rewrite lookup_insert_ne by done. split; [intros Hx%Hmap; set_solver|]. intros [-> <-]. done.
Qed.

(** * Histories *)

(** The states a manager goes through until it is closed; the registry makes
    new objects with the tag it is asked for. *)
Inductive reachable (tag0 : string) : Manager -> Prop :=
| reach_new : reachable tag0 (NewManager tag0)
| reach_start m endpoints endpoint fallback stage :
    reachable tag0 m -> reachable tag0 (Manager_Start endpoints endpoint fallback stage m).2
| reach_create m tag o :
    reachable tag0 m -> out_Tag o = tag -> (forall x, x ∈ outbounds m -> out_id x <> out_id o) ->
    reachable tag0 (Manager_Create (Ok o) m tag).2
| reach_remove m tag : reachable tag0 m -> reachable tag0 (Manager_Remove m tag).2.

Lemma reachable_consistent tag0 m : reachable tag0 m -> consistent m.
Proof.
  induction 1 as [|m eps ep fb stage _ IH|m tag o _ IH Ht Hf|m tag _ IH].
  - split; cbn; [|constructor|done]. intros t o. set_solver.
  - by apply start_consistent.
  - by apply create_consistent.
  - by apply remove_consistent.
Qed.

(** in every state the manager reaches until it is closed, the list of
    outbounds and the map by tag agree, creating and removing never hit the
    internal panic, a created outbound is found under its tag, and a tag that
    was removed is gone. *)
Theorem manager_tables tag0 m :
  reachable tag0 m ->
  (forall t o, outboundByTag m !! t = Some o <-> o ∈ outbounds m /\ out_Tag o = t) /\
  (forall tag s, (Manager_Remove m tag).1 <> Panic s /\ outboundByTag (Manager_Remove m tag).2 !! tag = None) /\
  (forall tag o, out_Tag o = tag -> (forall x, x ∈ outbounds m -> out_id x <> out_id o) ->
     (forall s, (Manager_Create (Ok o) m tag).1 <> Panic s) /\
     ((Manager_Create (Ok o) m tag).1 = Ok tt -> outboundByTag (Manager_Create (Ok o) m tag).2 !! tag = Some o)).
Proof.
  intros Hr%reachable_consistent. split; [apply Hr|]. split.
  - intros tag s. destruct (remove_consistent m tag Hr) as (_ & Hp & Hl). auto.
  - intros tag o Ht Hf. destruct (create_consistent m tag o Hr Ht Hf) as (_ & Hp & Hl). auto.
Qed.

(** * A history *)

Definition demoHistory : Manager :=
  (Manager_Create (Ok (demoObject 1 "b" ["a"])) (Manager_Create (Ok (demoObject 0 "a" [])) (NewManager "") "a").2 "b").2.

Lemma manager_tables_witness :
  outboundByTag demoHistory !! "b" = Some (demoObject 1 "b" ["a"]) /\
  outboundByTag (Manager_Remove demoHistory "b").2 !! "b" = None.
Proof.
  destruct (manager_tables "" demoHistory) as (Hm & Hr & _).
  - apply (reach_create "" (Manager_Create (Ok (demoObject 0 "a" [])) (NewManager "") "a").2 "b" (demoObject 1 "b" ["a"])).
    + apply (reach_create "" (NewManager "") "a" (demoObject 0 "a" [])); [apply reach_new|reflexivity|].
      intros x Hx. apply elem_of_nil in Hx. destruct Hx.
    + reflexivity.
    + intros x Hx. apply list_elem_of_singleton in Hx. subst x. discriminate.
  - split; [|exact (proj2 (Hr "b" ""))]. apply Hm. split; [|reflexivity]. apply (list_elem_of_lookup_2 _ 1). reflexivity.
Defined.

(** Replacing the default outbound leaves the old object, which was closed, as
    the default. *)
Lemma replaced_default_is_stale :
  let m := (Manager_Create (Ok (demoObject 2 "a" [])) demoHistory "a").2 in
  defaultOutbound m = Some (demoObject 0 "a" []) /\ (forall x, x ∈ outbounds m -> out_id x <> 0%nat).
Proof.
  split; [reflexivity|]. intros x Hx. cbn in Hx. set_solver.
Qed.

(** Removing an outbound others depend on is refused, after it was removed. *)
Lemma refused_removal_removes :
  (exists e, (Manager_Remove demoHistory "a").1 = Err e) /\ outboundByTag (Manager_Remove demoHistory "a").2 !! "a" = None.
Proof. split; [by eexists|]. reflexivity. Qed.
