(* ===== verification/TransportManager.v ===== *)
(** [dns/transport_manager.go]: the DNS servers of a configuration, with the default
    and the fake-IP server.  Its objects have the methods of outbounds. *)
From S2P Require Import Prelude Metadata OutboundManager OutboundSpec OutboundTable.

Definition DNSTypeFakeIP : string := "fakeip".

Definition transportName (o : OutboundObject) : string := "dns/" +:+ out_Type o +:+ "[" +:+ out_Tag o +:+ "]".

Record TransportManager := mkTransportManager {
  tm_defaultTag : string;
  tm_started : bool;
  tm_stage : StartStage;
  transports : list OutboundObject;
  transportByTag : gmap string OutboundObject;
  tm_dependByTag : gmap string (list string);
  defaultTransport : option OutboundObject;
  fakeIPTransport : option OutboundObject }.

Definition NewTransportManager (defaultTag : string) : TransportManager :=
  mkTransportManager defaultTag false StartStateInitialize [] ∅ ∅ None None.

Definition transportLegacyStart (stage : StartStage) (o : OutboundObject) : result unit :=
  match out_Start o stage with
  | Some err => Err (E_Cause err (StartStage_String stage +:+ " " +:+ transportName o))
  | None => Ok tt
  end.

(** The loop [startOne] of [startTransports]. *)
Fixpoint transportPass (transports : list OutboundObject) (p : Pass) : option GoError * Pass :=
  match transports with
  | [] => (None, p)
  | transportToStart :: transports' =>
      if bool_decide (out_Tag transportToStart ∈ started p) then transportPass transports' p
      else if allb (out_Dependencies transportToStart) (fun dependency => bool_decide (dependency ∈ started p)) then
        let p := mkPass ({[out_Tag transportToStart]} ∪ started p) true (startLog p ++ [transportToStart]) in
        match out_Start transportToStart StartStateStart with
        | Some err => (Some (E_Cause err ("start " +:+ transportName transportToStart)), p)
        | None => transportPass transports' p
        end
      else transportPass transports' p
  end.

Fixpoint lintTransport (transportByTag : gmap string OutboundObject) (isStarted : gset string) (fuel : nat) (oTree : list string)
    (oCurrent : OutboundObject) : result unit :=
  match fuel with
  | O => Panic "out of fuel"
  | S fuel' =>
      let problemTransportTag := findTag (fun it => negb (bool_decide (it ∈ isStarted))) (out_Dependencies oCurrent) in
      if bool_decide (problemTransportTag ∈ oTree)
      then Err (E_New ("circular server dependency: " +:+ join " -> " oTree +:+ " -> " +:+ problemTransportTag))
      else
        match transportByTag !! problemTransportTag with
        | None => Err (E_New ("dependency[" +:+ problemTransportTag +:+ "] not found for server[" +:+ out_Tag oCurrent +:+ "]"))
        | Some problemTransport => lintTransport transportByTag isStarted fuel' (oTree ++ [problemTransportTag]) problemTransport
        end
  end.

(** The outer loop. *)
Fixpoint transportLoop (transportByTag : gmap string OutboundObject) (transports : list OutboundObject) (fuel : nat) (p : Pass)
    : result unit * list OutboundObject :=
  match fuel with
  | O => (Panic "out of fuel", startLog p)
  | S fuel' =>
      let '(err, p) := transportPass transports (mkPass (started p) false (startLog p)) in
      match err with
      | Some err => (Err err, startLog p)
      | None =>
          if bool_decide (size (started p) = length transports) then (Ok tt, startLog p)
          else if canContinue p then transportLoop transportByTag transports fuel' p
          else
            (match list_find (fun it => out_Tag it ∉ started p) transports with
             | None => Panic "nil pointer dereference"
             | Some (_, currentTransport) =>
                 lintTransport transportByTag (started p) (S (S (size transportByTag))) [out_Tag currentTransport] currentTransport
             end, startLog p)
      end
  end.

Definition startTransports (transportByTag : gmap string OutboundObject) (transports : list OutboundObject)
    : result unit * list OutboundObject :=
  transportLoop transportByTag transports (S (length transports)) (mkPass ∅ false []).

(** [Start], with the transport the fallback makes. *)
Definition TransportManager_Start (defaultTransportFallback : result OutboundObject) (stage : StartStage) (m : TransportManager) : result unit * TransportManager :=
  if tm_started m && (stageNumber stage <=? stageNumber (tm_stage m)) then (Panic "already started", m)
  else
    let m := m {{ tm_started := true; tm_stage := stage }} in
    match stage with
    | StartStateStart =>
        if negb (String.eqb (tm_defaultTag m) "") && isNil (defaultTransport m)
        then (Err (E_New ("default DNS server not found: " +:+ tm_defaultTag m)), m)
        else
          match defaultTransport m with
          | Some _ => ((startTransports (transportByTag m) (transports m)).1, m)
          | None =>
              match cause "default DNS server fallback" defaultTransportFallback with
              | Ok t =>
                  let m := m {{ transports := transports m ++ [t]; transportByTag := <[out_Tag t := t]> (transportByTag m);
                                defaultTransport := Some t }} in
                  ((startTransports (transportByTag m) (transports m)).1, m)
              | Err err => (Err err, m)
              | Panic s => (Panic s, m)
              end
          end
    | _ => (_ ← mapR (transportLegacyStart stage) (transports m); Ok tt, m)
    end.

(** [Close], which drops the errors of the transports. *)
Definition TransportManager_Close (m : TransportManager) : TransportManager :=
  if negb (tm_started m) then m else m {{ tm_started := false; transports := [] }}.

(** The default once [removed] is gone. *)
Definition nextDefault (removed : OutboundObject) (rest : list OutboundObject) (current : option OutboundObject)
    : result (option OutboundObject) :=
  match current with
  | Some d =>
      if (out_id d =? out_id removed)%nat then
        match rest with
        | nextTransport :: _ =>
            if negb (String.eqb (out_Type nextTransport) DNSTypeFakeIP) then Err (E_New "default server cannot be fakeip")
            else Ok (Some nextTransport)
        | [] => Ok None
        end
      else Ok current
  | None => Ok None
  end.

Definition TransportManager_Remove (m : TransportManager) (tag : string) : result unit * TransportManager :=
  match transportByTag m !! tag with
  | None => (Err OS_ErrInvalid, m)
  | Some transport =>
      let m := m {{ transportByTag := delete tag (transportByTag m) }} in
      match indexOf transport (transports m) with
      | None => (Panic "invalid inbound index", m)
      | Some index =>
          let m := m {{ transports := removeIndex index (transports m) }} in
          match nextDefault transport (transports m) (defaultTransport m) with
          | Err err => (Err err, m)
          | Panic s => (Panic s, m)
          | Ok next =>
              let m := m {{ defaultTransport := next }} in
              let dependBy := default [] (tm_dependByTag m !! tag) in
              if nonempty dependBy
              then (Err (E_New ("server[" +:+ tag +:+ "] is depended by " +:+ join ", " dependBy)), m)
              else (Ok tt, m {{ tm_dependByTag := foldl (forgetDependency tag) (tm_dependByTag m) (out_Dependencies transport) }})
          end
      end
  end.

(** The transport a new one with the same tag replaces. *)
Definition detachTransport (m : TransportManager) (tag : string) : result TransportManager :=
  match transportByTag m !! tag with
  | None => Ok m
  | Some existsTransport =>
      _ ← (if tm_started m then
             match out_Close existsTransport with
             | Some err => Err (E_Cause err ("close " +:+ transportName existsTransport))
             | None => Ok tt
             end
           else Ok tt);
      match indexOf existsTransport (transports m) with
      | None => Panic "invalid inbound index"
      | Some existsIndex => Ok (m {{ transports := removeIndex existsIndex (transports m) }})
      end
  end.

(** The checks at the end of [Create], after the transport was added. *)
Definition electTransport (m : TransportManager) (tag : string) (transport : OutboundObject) : result unit * TransportManager :=
  let isFakeIP := String.eqb (out_Type transport) DNSTypeFakeIP in
  let isDefault := String.eqb tag (tm_defaultTag m) || (String.eqb (tm_defaultTag m) "" && isNil (defaultTransport m)) in
  if isDefault && isFakeIP then (Err (E_New "default server cannot be fakeip"), m)
  else
    let m := if isDefault then m {{ defaultTransport := Some transport }} else m in
    if isFakeIP then
      if isNil (fakeIPTransport m) then (Ok tt, m {{ fakeIPTransport := Some transport }})
      else (Err (E_New "multiple fakeip server are not supported"), m)
    else (Ok tt, m).

Definition addTransport (m : TransportManager) (tag : string) (transport : OutboundObject) : TransportManager :=
  m {{ transports := transports m ++ [transport];
       transportByTag := <[tag := transport]> (transportByTag m);
       tm_dependByTag := foldl (fun deps dependency => <[dependency := default [] (deps !! dependency) ++ [tag]]> deps)
                           (tm_dependByTag m) (out_Dependencies transport) }}.

(** [Create], with what the registry makes. *)
Definition TransportManager_Create (created : result OutboundObject) (m : TransportManager) (tag : string) : result unit * TransportManager :=
  if String.eqb tag "" then (Err OS_ErrInvalid, m)
  else
    match (transport ← created;
           _ ← (if tm_started m then _ ← mapR (fun stage => transportLegacyStart stage transport) ListStartStages; Ok tt else Ok tt);
           m ← detachTransport m tag;
           Ok (addTransport m tag transport, transport)) with
    | Ok (m, transport) => electTransport m tag transport
    | Err err => (Err err, m)
    | Panic s => (Panic s, m)
    end.

(** * Starting *)

(** The same outcome, up to the error. *)
Definition alike (r r' : result unit) : Prop :=
  match r, r' with
  | Ok _, Ok _ | Err _, Err _ => True
  | Panic s, Panic s' => s = s'
  | _, _ => False
  end.

Lemma transportPass_alike l : forall p, (transportPass l p).2 = (startPass l p).2 /\
  isNil (transportPass l p).1 = isNil (startPass l p).1.
Proof.
  induction l as [|o l IH]; intros p; cbn; [done|]. case_bool_decide; [done|]. destruct (allb _ _); [|done].
  by destruct (out_Start o StartStateStart).
Qed.

Lemma lintTransport_alike byTag st fuel : forall tree o, alike (lintTransport byTag st fuel tree o) (lintOutbound byTag st fuel tree o).
Proof.
  induction fuel as [|fuel IH]; intros tree o; cbn; [done|]. case_bool_decide; [done|]. by destruct (byTag !! _).
Qed.

Lemma transportLoop_alike byTag l fuel : forall p, (transportLoop byTag l fuel p).2 = (startLoop byTag l fuel p).2 /\
  alike (transportLoop byTag l fuel p).1 (startLoop byTag l fuel p).1.
Proof.
  induction fuel as [|fuel IH]; intros p; [done|]. cbn [transportLoop startLoop]. destruct (transportPass_alike l (mkPass (started p) false (startLog p))) as [Hp He].
  destruct (transportPass _ _) as [[e|] p1], (startPass _ _) as [[e'|] p2]; cbn [fst snd isNil] in Hp, He; try done; subst p2; [done|].
  case_bool_decide; [done|]. destruct (canContinue p1); [apply IH|]. cbn [fst snd]. split; [done|].
  destruct (list_find _ l) as [[i o]|]; [apply lintTransport_alike|done].
Qed.

(** Servers with different tags are started once and after their dependencies; the start
    never panics, and when no server fails it succeeds exactly if there is an order. *)
Theorem transports_start byTag all : NoDup (out_Tag <$> all) ->
  let '(r, log) := startTransports byTag all in
  depsBefore log /\ NoDup (out_Tag <$> log) /\ log ⊆ all /\ (r = Ok tt -> log ≡ₚ all) /\ (forall s, r <> Panic s) /\
  ((forall o, o ∈ all -> out_Start o StartStateStart = None) -> r = Ok tt <-> startable all).
Proof.
  intros Hnd. unfold startTransports. destruct (transportLoop_alike byTag all (S (length all)) (mkPass ∅ false [])) as [Hlog Hr].
  pose proof (startLoop_log all byTag (S (length all)) (mkPass ∅ false []) Hnd) as Hs.
  destruct (transportLoop _ _ _ _) as [r log], (startLoop _ _ _ _) as [r' log']. cbn [fst snd] in *. subst log'.
  destruct Hs as [(p & (Hn & _ & Hdb & Hsub) & ->) Hs]; [unfold passInv; cbn; split_and!; [constructor|done|done|set_solver]|cbn; lia|].
  destruct r as [[]|e|s], r' as [[]|e'|s']; cbn in *; try done; (split_and!; [done..|]); intros Hok; (split; [|try done]).
  - intros _. by exists (startLog p).
  - done.
  - intros Hst. exfalso. destruct Hs as [(o & Ho & Hne)|Hns]; [|done]. by apply Hne, Hok.
Qed.

(** The first server needs the second. *)
Lemma transports_start_witness : startable demoOutbounds.
Proof.
  assert (NoDup (out_Tag <$> demoOutbounds)) as Hnd by (repeat constructor; set_solver).
  pose proof (transports_start ∅ demoOutbounds Hnd) as (_ & _ & _ & _ & _ & Hs).
  apply Hs; [|reflexivity]. intros o Ho. apply elem_of_cons in Ho as [->|Ho]; [reflexivity|].
  apply list_elem_of_singleton in Ho. subst o. reflexivity.
Defined.

(** * The tables *)

Record tables (m : TransportManager) : Prop := {
  tt_map : forall t o, transportByTag m !! t = Some o <-> o ∈ transports m /\ out_Tag o = t;
  tt_ids : NoDup (out_id <$> transports m) }.

Lemma tables_like m m' : tables m -> transports m' = transports m -> transportByTag m' = transportByTag m -> tables m'.
Proof. intros [Hm Hi] Ht Hb. split; by rewrite ?Ht, ?Hb. Qed.

Lemma tables_index m t o : tables m -> transportByTag m !! t = Some o ->
  exists i, indexOf o (transports m) = Some i /\
    (forall x, x ∈ removeIndex i (transports m) <-> x ∈ transports m /\ x <> o) /\ NoDup (out_id <$> removeIndex i (transports m)).
Proof.
  intros [Hmap Hids] [Ho _]%Hmap. destruct (indexOf_Some o _ Ho) as [i Hi]. exists i. split; [done|]. by apply removeIndex_spec.
Qed.

Lemma remove_tables m tag : tables m -> tables (TransportManager_Remove m tag).2 /\
  (forall s, (TransportManager_Remove m tag).1 <> Panic s) /\ transportByTag (TransportManager_Remove m tag).2 !! tag = None.
Proof.
  intros Ht. unfold TransportManager_Remove. destruct (transportByTag m !! tag) as [o|] eqn:Ho; [|done].
  destruct (tables_index m tag o Ht Ho) as (i & Hi & Hrest & Hnd). destruct Ht as [Hmap Hids].
  pose proof (proj1 (Hmap _ _) Ho) as [_ Htag].
  assert (Hmap' : forall t x, delete tag (transportByTag m) !! t = Some x <-> x ∈ removeIndex i (transports m) /\ out_Tag x = t).
  { intros t x. rewrite Hrest, lookup_delete_Some, Hmap.
    split; [intros (Hne & Hx & Ht); split; [split; [done|]|done]; congruence|]. intros [[Hx Hne] Ht].
    split; [|done]. intros <-. apply Hne. assert (transportByTag m !! out_Tag x = Some x) by (by apply Hmap). congruence. }
  destruct m as [dt ms mg ts bt deps def fake]. cbn in *. rewrite Hi. cbn. unfold constant.
  destruct (nextDefault o (removeIndex i ts) def) as [next|err|s] eqn:Hnext; cbn.
  - destruct (nonempty _); cbn; (split_and!; [by split|done|apply lookup_delete_eq]).
  - split_and!; [by split|done|apply lookup_delete_eq].
  - exfalso. unfold nextDefault in Hnext. destruct def; [|done]. destruct (_ =? _)%nat; [|done]. destruct (removeIndex i ts); [done|]. by destruct (negb _).
Qed.

Lemma startStages_transport stages o s : mapR (fun stage => transportLegacyStart stage o) stages <> Panic s.
Proof.
  induction stages as [|stage stages IH]; [done|]. cbn. destruct (transportLegacyStart stage o) as [[]|e|q] eqn:Hl; cbn; [|done|].
  - by destruct (mapR _ stages).
  - unfold transportLegacyStart in Hl. by destruct (out_Start o stage).
Qed.

Lemma electTransport_tables m tag o : transports (electTransport m tag o).2 = transports m /\
  transportByTag (electTransport m tag o).2 = transportByTag m /\ forall s, (electTransport m tag o).1 <> Panic s.
Proof.
  destruct m as [dt ms mg ts bt deps def fake]. unfold electTransport. cbn. destruct (_ && String.eqb (out_Type o) DNSTypeFakeIP); [done|].
  destruct (_ || _); cbn; (destruct (String.eqb (out_Type o) DNSTypeFakeIP); [|done]); by destruct fake.
Qed.

Lemma create_tables m tag o : tables m -> out_Tag o = tag -> (forall x, x ∈ transports m -> out_id x <> out_id o) ->
  tables (TransportManager_Create (Ok o) m tag).2 /\ (forall s, (TransportManager_Create (Ok o) m tag).1 <> Panic s) /\
  ((TransportManager_Create (Ok o) m tag).1 = Ok tt -> transportByTag (TransportManager_Create (Ok o) m tag).2 !! tag = Some o).
Proof.
  intros Ht Htag Hfresh. unfold TransportManager_Create. destruct (String.eqb tag ""); [done|]. cbn [mbind result_bind].
  destruct (if tm_started m then _ else _) as [[]|e|s] eqn:Hs; cbn [mbind result_bind]; [|done|].
  2:{ destruct (tm_started m); [|done]. destruct (mapR _ _) eqn:Hm; try done. by apply startStages_transport in Hm. }
  assert ((forall s, detachTransport m tag <> Panic s) /\ forall m', detachTransport m tag = Ok m' ->
    transportByTag m' = transportByTag m /\ (forall x, x ∈ transports m' <-> x ∈ transports m /\ out_Tag x <> tag) /\ NoDup (out_id <$> transports m')) as [Hnp Hd].
  { unfold detachTransport. destruct (transportByTag m !! tag) as [e|] eqn:He.
    - destruct (tables_index m tag e Ht He) as (i & -> & Hrest & Hnd). destruct Ht as [Hmap Hids].
      split; [by destruct (tm_started m), (out_Close e)|]. intros m' Hm.
      assert (m' = m {{ transports := removeIndex i (transports m) }}) as -> by (destruct (tm_started m), (out_Close e); try done; by injection Hm as <-).
      split_and!; try done. intros x. cbn. unfold constant. rewrite Hrest. split; intros [Hx Hne]; (split; [done|]).
      + intros Hxt. apply Hne. assert (transportByTag m !! tag = Some x) by (by apply Hmap). congruence.
      + intros ->. by apply Hmap in He as [_ ?].
    - destruct Ht as [Hmap Hids]. split; [done|]. intros m' [= <-]. split_and!; try done. intros x. split; [|naive_solver]. intros Hx. split; [done|].
      intros Hxt. assert (transportByTag m !! tag = Some x) by (by apply Hmap). congruence. }
  destruct (detachTransport m tag) as [m'|e|s]; cbn [mbind result_bind]; [|done|by destruct (Hnp s)].
  destruct (Hd m' eq_refl) as (Hb & Hin & Hnd). destruct (electTransport_tables (addTransport m' tag o) tag o) as (Het & Heb & Hep).
  assert (tables (addTransport m' tag o)) as Hadd.
  { destruct Ht as [Hmap Hids], m' as [dt ms mg ts bt deps def fake]. cbn in *. unfold constant in *. subst. split; cbn.
    - intros t x. rewrite elem_of_app, list_elem_of_singleton, Hin. destruct (decide (t = out_Tag o)) as [->|Hne].
      + rewrite lookup_insert_eq. split; [intros [= ->]; auto|]. intros [[[_ ?]| ->] ?]; done.
      + rewrite lookup_insert_ne, Hmap by done. split; [intros [Hx <-]; auto|]. intros [[[Hx _]| ->] <-]; done.
    - rewrite fmap_app. apply list.NoDup_app. split_and!; [done| |apply NoDup_singleton].
      intros x (y & -> & Hy)%list_elem_of_fmap Heq. apply Hin in Hy as [Hy _]. apply (Hfresh y Hy). cbn in Heq. set_solver. }
  split_and!; [by eapply tables_like|done|]. intros _. rewrite Heb. apply lookup_insert_eq.
Qed.

(** * Histories *)

(** The states of a manager that is not started yet, or runs; the registry makes new
    objects with the tag it is asked for. *)
Inductive transportReachable (tag0 : string) : TransportManager -> Prop :=
| tr_new : transportReachable tag0 (NewTransportManager tag0)
| tr_run m stage : transportReachable tag0 m -> transportReachable tag0 (m {{ tm_started := true; tm_stage := stage }})
| tr_create m tag o : transportReachable tag0 m -> out_Tag o = tag -> (forall x, x ∈ transports m -> out_id x <> out_id o) ->
    transportReachable tag0 (TransportManager_Create (Ok o) m tag).2
| tr_remove m tag : transportReachable tag0 m -> transportReachable tag0 (TransportManager_Remove m tag).2.

(** In every state of the manager the list of servers and the map by tag agree, also
    after calls that were refused, creating and removing never hit the internal
    panic, and a removed tag is gone. *)
Theorem transport_tables tag0 m : transportReachable tag0 m ->
  (forall t o, transportByTag m !! t = Some o <-> o ∈ transports m /\ out_Tag o = t) /\
  (forall tag s, (TransportManager_Remove m tag).1 <> Panic s /\ transportByTag (TransportManager_Remove m tag).2 !! tag = None) /\
  (forall tag o, out_Tag o = tag -> (forall x, x ∈ transports m -> out_id x <> out_id o) ->
     (forall s, (TransportManager_Create (Ok o) m tag).1 <> Panic s) /\
     ((TransportManager_Create (Ok o) m tag).1 = Ok tt -> transportByTag (TransportManager_Create (Ok o) m tag).2 !! tag = Some o)).
Proof.
  intros Hr. assert (tables m) as Ht.
  { induction Hr as [|m stage _ IH|m tag o _ IH Htag Hf|m tag _ IH].
    - split; cbn; [|constructor]. intros t o. set_solver.
    - by eapply tables_like.
    - by apply create_tables.
    - by apply remove_tables. }
  split; [apply Ht|]. split.
  - intros tag s. destruct (remove_tables m tag Ht) as (_ & Hp & Hl). auto.
  - intros tag o Htag Hf. destruct (create_tables m tag o Ht Htag Hf) as (_ & Hp & Hl). auto.
Qed.

(** * The fake-IP server *)

Definition demoServer (id : nat) (type tag : string) : OutboundObject := mkOutboundObject id type tag [] (fun _ => None) None.

Definition demoServers (second : OutboundObject) : TransportManager :=
  (TransportManager_Create (Ok second) (TransportManager_Create (Ok (demoServer 0 "udp" "a")) (NewTransportManager "") "a").2 (out_Tag second)).2.

Lemma transport_tables_witness : transportByTag (TransportManager_Remove (demoServers (demoServer 1 "tls" "b")) "a").2 !! "a" = None.
Proof.
  destruct (transport_tables "" (demoServers (demoServer 1 "tls" "b"))) as (_ & Hr & _); [|exact (proj2 (Hr "a" ""))].
  apply (tr_create "" (TransportManager_Create (Ok (demoServer 0 "udp" "a")) (NewTransportManager "") "a").2 "b" (demoServer 1 "tls" "b")).
  - apply (tr_create "" (NewTransportManager "") "a" (demoServer 0 "udp" "a")); [apply tr_new|reflexivity|].
    intros x Hx. apply elem_of_nil in Hx. destruct Hx.
  - reflexivity.
  - intros x Hx. apply list_elem_of_singleton in Hx. subst x. discriminate.
Defined.

(** Removing the default server makes a fake-IP server the default, and is refused,
    half done, when the next server is not one: the removed server stays the
    default. *)
Lemma fakeip_check_inverted :
  (let r := TransportManager_Remove (demoServers (demoServer 1 DNSTypeFakeIP "f")) "a" in
   r.1 = Ok tt /\ option_map out_Type (defaultTransport r.2) = Some DNSTypeFakeIP) /\
  (let r := TransportManager_Remove (demoServers (demoServer 1 "tls" "b")) "a" in
   r.1 = Err (E_New "default server cannot be fakeip") /\
   option_map out_Tag (defaultTransport r.2) = Some "a" /\ transportByTag r.2 !! "a" = None).
Proof. by split; cbn. Qed.

(** A removed fake-IP server stays the fake-IP server, and a new one is refused. *)
Lemma fakeip_not_forgotten :
  let m := (TransportManager_Remove (demoServers (demoServer 1 DNSTypeFakeIP "f")) "f").2 in
  transportByTag m !! "f" = None /\ option_map out_Tag (fakeIPTransport m) = Some "f" /\
  (TransportManager_Create (Ok (demoServer 2 DNSTypeFakeIP "f")) m "f").1 = Err (E_New "multiple fakeip server are not supported").
Proof. by split_and!; vm_compute. Qed.
