(* ===== verification/Version.v ===== *)
(** Version numbers: [common/badversion/version.go]. *)
From Stdlib Require Import Ascii.
From S2P Require Import Prelude Netip Metadata Text Demo.

Record Version := mkVersion {
  Major : Z;
  Minor : Z;
  Patch : Z;
  Commit : string;
  PreReleaseIdentifier : string;
  PreReleaseVersion : Z
}.

#[global] Instance Version_eq_dec : EqDecision Version.
Proof. solve_decision. Defined.

Definition parsePreReleaseIdentifier (identifier : string) : Z :=
  if hasPrefix identifier "rc" then 1
  else if hasPrefix identifier "beta" then 2
  else if hasPrefix identifier "alpha" then 3
  else 0.

(** The last part of [GreaterThan], for two pre-releases of the same version. *)
Definition greaterPreRelease (v another : Version) : bool :=
  let byIdentifier :=
    parsePreReleaseIdentifier (PreReleaseIdentifier v) <? parsePreReleaseIdentifier (PreReleaseIdentifier another) in
  if String.eqb (PreReleaseIdentifier v) (PreReleaseIdentifier another) then
    if PreReleaseVersion another <? PreReleaseVersion v then true
    else if PreReleaseVersion v <? PreReleaseVersion another then false
    else byIdentifier
  else byIdentifier.

Definition GreaterThan (v another : Version) : bool :=
  if Major another <? Major v then true
  else if Major v <? Major another then false
  else if Minor another <? Minor v then true
  else if Minor v <? Minor another then false
  else if Patch another <? Patch v then true
  else if Patch v <? Patch another then false
  else
    let pre := negb (String.eqb (PreReleaseIdentifier v) "") in
    let anotherPre := negb (String.eqb (PreReleaseIdentifier another) "") in
    if negb pre && anotherPre then true
    else if pre && negb anotherPre then false
    else if pre && anotherPre then greaterPreRelease v another
    else false.

Definition GreaterThanOrEqual (v another : Version) : bool := bool_decide (v = another) || GreaterThan v another.
Definition LessThan (v another : Version) : bool := negb (GreaterThanOrEqual v another).
Definition LessThanOrEqual (v another : Version) : bool := bool_decide (v = another) || GreaterThan another v.

Section format.
Context `{Libs}.

Definition VersionString (v : Version) : string :=
  F_ToString (Major v) +:+ "." +:+ F_ToString (Minor v) +:+ "." +:+ F_ToString (Patch v).

Definition Version_String (v : Version) : string :=
  let version := F_ToString (Major v) +:+ "." +:+ F_ToString (Minor v) +:+ "." +:+ F_ToString (Patch v) in
  if negb (String.eqb (PreReleaseIdentifier v) "")
  then version +:+ "-" +:+ PreReleaseIdentifier v +:+ "." +:+ F_ToString (PreReleaseVersion v)
  else version.

Definition BadString (v : Version) : string :=
  let version := F_ToString (Major v) +:+ "." +:+ F_ToString (Minor v) in
  let version := if 0 <? Patch v then version +:+ "." +:+ F_ToString (Patch v) else version in
  if negb (String.eqb (PreReleaseIdentifier v) "") then
    let version := version +:+ "-" +:+ PreReleaseIdentifier v in
    if 0 <? PreReleaseVersion v then version +:+ F_ToString (PreReleaseVersion v) else version
  else version.
End format.

(** The identifier, the version of the pre-release and the commit that follow the
    first dash. *)
Definition parseIdentifier (identifier : string) : string * Z * string :=
  if hasChar "." identifier then
    let identifierParts := split "." identifier in
    (nth 0 identifierParts "", if (2 <=? length identifierParts)%nat then Atoi (nth 1 identifierParts "") else 0, "")
  else if hasPrefix identifier "alpha" then ("alpha", Atoi (dropString 5 identifier), "")
  else if hasPrefix identifier "beta" then ("beta", Atoi (dropString 4 identifier), "")
  else ("", 0, identifier).

Definition Parse (versionName : string) : Version :=
  let versionName := TrimPrefix versionName "v" in
  let '(versionName, (identifier, preReleaseVersion, commit)) :=
    if hasChar "-" versionName then
      let parts := split "-" versionName in (nth 0 parts "", parseIdentifier (nth 1 parts ""))
    else (versionName, ("", 0, "")) in
  let versionElements := split "." versionName in
  let element (n : nat) := if (n <? length versionElements)%nat then Atoi (nth n versionElements "") else 0 in
  mkVersion (element 0%nat) (element 1%nat) (element 2%nat) commit identifier preReleaseVersion.

(** * The order of versions *)

(** The stages of a version in their order. *)
Definition stage (identifier : string) : Z :=
  if String.eqb identifier "alpha" then 1
  else if String.eqb identifier "beta" then 2
  else if String.eqb identifier "rc" then 3
  else 4.

(** Versions with a known stage, as the releases of the program have. *)
Definition canonical (v : Version) : Prop :=
  Commit v = "" /\ PreReleaseIdentifier v ∈ ["alpha"; "beta"; "rc"; ""] /\
  (PreReleaseIdentifier v = "" -> PreReleaseVersion v = 0).

Definition key (v : Version) : list Z := [Major v; Minor v; Patch v; stage (PreReleaseIdentifier v); PreReleaseVersion v].

Inductive lexLt : list Z -> list Z -> Prop :=
| lexLt_head x y l k : x < y -> lexLt (x :: l) (y :: k)
| lexLt_tail x l k : lexLt l k -> lexLt (x :: l) (x :: k).

Lemma lexLt_cons x y l k : lexLt (x :: l) (y :: k) <-> x < y \/ x = y /\ lexLt l k.
Proof. split; [inversion 1; auto|]. intros [?|[-> ?]]; by constructor. Qed.

Lemma lexLt_nil : ~ lexLt [] [].
Proof. inversion 1. Qed.

Lemma lexLt_total l : forall k, length l = length k -> lexLt l k \/ l = k \/ lexLt k l.
Proof.
  induction l as [|x l IH]; intros [|y k] Hl; try done; [auto|]. rewrite !lexLt_cons.
  destruct (Z.lt_total x y) as [?|[->|?]]; [auto| |auto]. destruct (IH k) as [?|[->|?]]; cbn in Hl; auto.
Qed.

Lemma lexLt_irrefl l : ~ lexLt l l.
Proof. induction l as [|x l IH]; [apply lexLt_nil|]. rewrite lexLt_cons. intros [?|[_ ?]]; [lia|done]. Qed.

Lemma lexLt_asym l k : lexLt l k -> ~ lexLt k l.
Proof. induction 1; rewrite lexLt_cons; [lia|]. intros [?|[_ ?]]; [lia|done]. Qed.

Lemma canonical_cases v : canonical v ->
  PreReleaseIdentifier v = "alpha" \/ PreReleaseIdentifier v = "beta" \/ PreReleaseIdentifier v = "rc" \/
  PreReleaseIdentifier v = "" /\ PreReleaseVersion v = 0.
Proof.
  intros (_ & Hi & Hz). rewrite !elem_of_cons in Hi. destruct Hi as [?|[?|[?|[?|[]%not_elem_of_nil]]]]; auto 6.
Qed.

Lemma greater_key v w : canonical v -> canonical w -> GreaterThan v w = true <-> lexLt (key w) (key v).
Proof.
  intros Hv Hw. unfold key. rewrite !lexLt_cons. unfold GreaterThan, greaterPreRelease.
  destruct (canonical_cases v Hv) as [->|[->|[->|[-> Hv0]]]], (canonical_cases w Hw) as [->|[->|[->|[-> Hw0]]]]; cbn;
    repeat match goal with |- context [?x <? ?y] => destruct (Z.ltb_spec x y) end;
    (split; [intros; try done|]); pose proof lexLt_nil; intuition lia.
Qed.

Lemma key_inj v w : canonical v -> canonical w -> key v = key w -> v = w.
Proof.
  intros Hv Hw [= H1 H2 H3 Hs H5].
  assert (PreReleaseIdentifier v = PreReleaseIdentifier w) as Hi.
  { revert Hs. destruct (canonical_cases v Hv) as [->|[->|[->|[-> _]]]], (canonical_cases w Hw) as [->|[->|[->|[-> _]]]]; done. }
  destruct v, w, Hv as (Hcv & _), Hw as (Hcw & _); cbn in *. congruence.
Qed.

(** Versions with a known stage are ordered as their numbers are: first major,
    minor and patch, then alpha before beta before rc before the release, then
    the number of the pre-release; all four comparisons agree with it. *)
Theorem version_order v w : canonical v -> canonical w ->
  (GreaterThan v w = true <-> lexLt (key w) (key v)) /\ (LessThan v w = true <-> lexLt (key v) (key w)) /\
  (GreaterThanOrEqual v w = true <-> ~ lexLt (key v) (key w)) /\ (LessThanOrEqual v w = true <-> ~ lexLt (key w) (key v)).
Proof.
  intros Hv Hw. pose proof (greater_key v w Hv Hw) as Hvw. pose proof (greater_key w v Hw Hv) as Hwv.
  pose proof (lexLt_total (key v) (key w) eq_refl) as Ht. pose proof (key_inj v w Hv Hw) as Hinj.
  pose proof (lexLt_asym (key v) (key w)) as Has. pose proof (lexLt_irrefl (key w)) as Hirr.
  unfold LessThan, GreaterThanOrEqual, LessThanOrEqual. rewrite negb_true_iff, orb_false_iff, !orb_true_iff, bool_decide_eq_true, bool_decide_eq_false.
  rewrite <- (not_true_iff_false (GreaterThan v w)), Hvw, Hwv.
  split_and!; [done|split|split|split]; destruct Ht as [Ht|[Ht|Ht]]; try (apply Hinj in Ht as ->); naive_solver.
Qed.

Lemma version_order_witness :
  lexLt (key (Parse "1.13.0-beta.3")) (key (Parse "1.13.0")) /\ GreaterThan (Parse "1.13.0") (Parse "1.13.0-beta.3") = true.
Proof.
  assert (canonical (Parse "1.13.0-beta.3")) as H1 by (split_and!; [done|vm_compute; by do 2 constructor|done]).
  assert (canonical (Parse "1.13.0")) as H2 by (split_and!; [done|vm_compute; by repeat constructor|done]).
  split; [|reflexivity]. apply (proj1 (version_order (Parse "1.13.0") (Parse "1.13.0-beta.3") H2 H1)). reflexivity.
Defined.

(** Without a known stage the comparisons contradict each other. *)
Lemma unknown_stages_contradict :
  LessThan (Parse "1.0.0-dev.1") (Parse "1.0.0-test.1") = true /\ LessThan (Parse "1.0.0-test.1") (Parse "1.0.0-dev.1") = true.
Proof. split; reflexivity. Qed.

(** A release candidate written without a dot is taken for the release. *)
Lemma rc_without_dot : GreaterThan (Parse "1.13.0-rc1") (Parse "1.13.0-rc.2") = true.
Proof. reflexivity. Qed.

(** * Round trips *)

Section roundtrip.
Context `{FormatLaws}.

Definition int (z : Z) : Prop := 0 <= z < 2 ^ 63.

Definition wf_version (v : Version) : Prop :=
  canonical v /\ int (Major v) /\ int (Minor v) /\ int (Patch v) /\ int (PreReleaseVersion v).

Definition dotted (l : list Z) : string := join "." (map itoa l).

Definition element (l : list Z) (n : nat) : Z := nth n l 0.

Lemma dotted_plain l d : Forall int l -> isDigit d = false -> d <> "."%char -> hasChar d (dotted l) = false.
Proof.
  intros Hl Hd Hdot. apply hasChar_join; [done|]. apply Forall_map. eapply List.Forall_impl; [|exact Hl].
  intros z Hz. apply itoa_plain; [unfold int in Hz; lia|done].
Qed.

Lemma split_dotted l : l <> [] -> Forall int l -> split "." (dotted l) = map itoa l.
Proof.
  intros Hn Hl. apply split_join; [by destruct l|]. apply Forall_map. eapply List.Forall_impl; [|exact Hl].
  intros z Hz. apply itoa_plain; [unfold int in Hz; lia|done].
Qed.

Lemma element_dotted l n : Forall int l ->
  (if (n <? length (map itoa l))%nat then Atoi (nth n (map itoa l) "") else 0) = element l n.
Proof.
  intros Hl. unfold element. revert n. induction Hl as [|z l Hz _ IH]; intros [|n]; cbn; [done..| |apply IH].
  by apply Atoi_itoa.
Qed.

Lemma no_v l s : l <> [] -> Forall int l -> TrimPrefix (dotted l +:+ s) "v" = dotted l +:+ s.
Proof.
  intros Hn Hl. destruct Hl as [|z l Hz Hl]; [done|]. unfold TrimPrefix.
  destruct (utoa_nonempty z) as (c & t & Hu & Hc); [unfold int in Hz; lia|].
  assert (exists t', dotted (z :: l) +:+ s = String c t') as [t' ->].
  { unfold dotted. cbn [map]. unfold itoa at 1. rewrite (proj2 (Z.ltb_ge _ _)) by (unfold int in Hz; lia). rewrite Hu.
    destruct (map itoa l); cbn [join]; rewrite ?string_app_assoc, append_cons; by eexists. }
  assert (hasPrefix (String c t') "v" = false) as ->; [|done]. by destruct c as [[] [] [] [] [] [] [] []].
Qed.

(** The numbers before the first dash, and what follows it. *)
Lemma Parse_release l : l <> [] -> Forall int l ->
  Parse (dotted l) = mkVersion (element l 0) (element l 1) (element l 2) "" "" 0.
Proof.
  intros Hn Hl. unfold Parse. rewrite <- (string_app_nil (dotted l)), no_v, string_app_nil by done.
  rewrite dotted_plain by done. by rewrite split_dotted, !element_dotted.
Qed.

Lemma Parse_preRelease l identifier : l <> [] -> Forall int l -> hasChar "-" identifier = false ->
  Parse (dotted l +:+ "-" +:+ identifier) =
  let '(id, version, commit) := parseIdentifier identifier in
  mkVersion (element l 0) (element l 1) (element l 2) commit id version.
Proof.
  intros Hn Hl Hi. unfold Parse. rewrite no_v by done. rewrite append_cons, append_nil.
  rewrite hasChar_app. cbn [hasChar]. rewrite Ascii.eqb_refl, orb_true_l, orb_true_r.
  rewrite split_app, split_plain by (done || by apply dotted_plain). cbn [nth].
  destruct (parseIdentifier identifier) as [[id version] commit]. by rewrite split_dotted, !element_dotted.
Qed.

Lemma parseIdentifier_dot identifier z : int z -> hasChar "." identifier = false ->
  parseIdentifier (identifier +:+ "." +:+ itoa z) = (identifier, z, "").
Proof.
  intros Hz Hi. unfold parseIdentifier. rewrite append_cons, append_nil, hasChar_app. cbn [hasChar].
  rewrite Ascii.eqb_refl, orb_true_l, orb_true_r.
  rewrite split_app, split_plain by (done || (apply itoa_plain; [unfold int in Hz; lia|done])). cbn [nth length Nat.leb].
  by rewrite Atoi_itoa.
Qed.

(** The number of a pre-release without a dot; 0 is left out. *)
Definition numbered (z : Z) : string := if 0 <? z then itoa z else "".

Lemma numbered_plain z d : int z -> isDigit d = false -> hasChar d (numbered z) = false.
Proof. intros Hz Hd. unfold numbered. destruct (_ <? _); [|done]. apply itoa_plain; [unfold int in Hz; lia|done]. Qed.

Lemma Atoi_numbered z : int z -> Atoi (numbered z) = z.
Proof.
  intros Hz. unfold numbered. destruct (Z.ltb_spec 0 z); [by apply Atoi_itoa|]. unfold int in Hz. by replace z with 0 by lia.
Qed.

Lemma parseIdentifier_numbered identifier z : int z -> identifier = "alpha" \/ identifier = "beta" ->
  parseIdentifier (identifier +:+ numbered z) = (identifier, z, "").
Proof.
  intros Hz Hi. unfold parseIdentifier. rewrite hasChar_app, numbered_plain by done.
  destruct Hi as [->| ->]; cbn [hasChar orb Ascii.eqb].
  - rewrite hasPrefix_app. change 5%nat with (String.length "alpha"). by rewrite dropString_app, Atoi_numbered.
  - rewrite hasPrefix_app. change 4%nat with (String.length "beta"). by rewrite dropString_app, Atoi_numbered.
Qed.
Lemma Version_String_dotted v : Version_String v =
  if String.eqb (PreReleaseIdentifier v) "" then dotted [Major v; Minor v; Patch v]
  else dotted [Major v; Minor v; Patch v] +:+ "-" +:+ PreReleaseIdentifier v +:+ "." +:+ itoa (PreReleaseVersion v).
Proof. unfold Version_String. rewrite !F_ToString_decimal. by destruct (String.eqb _ _). Qed.

Lemma BadString_dotted v : 0 <= Patch v -> BadString v =
  dotted ([Major v; Minor v] ++ if 0 <? Patch v then [Patch v] else []) +:+
  if String.eqb (PreReleaseIdentifier v) "" then "" else "-" +:+ PreReleaseIdentifier v +:+ numbered (PreReleaseVersion v).
Proof.
  intros Hp. unfold BadString, numbered. rewrite !F_ToString_decimal.
  destruct (String.eqb _ _), (0 <? Patch v), (0 <? PreReleaseVersion v); cbn [negb];
    rewrite ?string_app_nil; cbn [app dotted map join]; rewrite ?string_app_assoc; done.
Qed.

Lemma Parse_v l s : l <> [] -> Forall int l -> Parse ("v" +:+ dotted l +:+ s) = Parse (dotted l +:+ s).
Proof.
  intros Hn Hl. unfold Parse. rewrite (no_v l s) by done.
  assert (TrimPrefix ("v" +:+ dotted l +:+ s) "v" = dotted l +:+ s) as ->; [|done].
  unfold TrimPrefix. by rewrite hasPrefix_app, dropString_app.
Qed.

Lemma parse_string v : wf_version v -> Parse (Version_String v) = v.
Proof.
  intros (Hc & H1 & H2 & H3 & Hp). rewrite Version_String_dotted.
  assert (Forall int [Major v; Minor v; Patch v]) as Hl by (repeat (apply List.Forall_cons; [done|]); apply List.Forall_nil).
  assert (forall id, id = "alpha" \/ id = "beta" \/ id = "rc" -> PreReleaseIdentifier v = id ->
    Parse (dotted [Major v; Minor v; Patch v] +:+ "-" +:+ id +:+ "." +:+ itoa (PreReleaseVersion v)) = v) as Hpre.
  { intros id Hid Hv. rewrite Parse_preRelease; [|done..|].
    - rewrite parseIdentifier_dot; [|done|by destruct Hid as [->|[->| ->]]]. destruct v, Hc as [? _]; cbn in *. congruence.
    - rewrite !hasChar_app, itoa_plain by (done || (unfold int in Hp; lia)). by destruct Hid as [->|[->| ->]]. }
  destruct (canonical_cases v Hc) as [Hi|[Hi|[Hi|[Hi Hz]]]]; rewrite Hi; [by apply Hpre; auto..|].
  cbn [String.eqb]. rewrite Parse_release by done. destruct v, Hc as [? _]; cbn in *. congruence.
Qed.

Lemma parse_bad_string v : wf_version v -> PreReleaseIdentifier v <> "rc" -> Parse (BadString v) = v.
Proof.
  intros (Hc & H1 & H2 & H3 & Hp) Hrc. rewrite BadString_dotted by (unfold int in H3; lia).
  set (l := [Major v; Minor v] ++ if 0 <? Patch v then [Patch v] else []).
  assert (Forall int l) as Hl by (unfold l; destruct (0 <? Patch v); repeat (apply List.Forall_cons; [done|]); apply List.Forall_nil).
  assert (element l 0 = Major v /\ element l 1 = Minor v /\ element l 2 = Patch v) as (He0 & He1 & He2).
  { unfold l, element, int in *. destruct (Z.ltb_spec 0 (Patch v)); cbn; split_and!; (done || lia). }
  assert (l <> []) as Hn by done.
  assert (forall id, id = "alpha" \/ id = "beta" -> PreReleaseIdentifier v = id ->
    Parse (dotted l +:+ "-" +:+ id +:+ numbered (PreReleaseVersion v)) = v) as Hpre.
  { intros id Hid Hv. rewrite Parse_preRelease, He0, He1, He2; [|done..|].
    - rewrite parseIdentifier_numbered by done. destruct v, Hc as [? _]; cbn in *. congruence.
    - rewrite hasChar_app, numbered_plain by done. by destruct Hid as [->| ->]. }
  destruct (canonical_cases v Hc) as [Hi|[Hi|[Hi|[Hi Hz]]]]; [rewrite Hi; by apply Hpre; auto..|done|].
  rewrite Hi. cbn [String.eqb]. rewrite string_app_nil, Parse_release, He0, He1, He2 by done.
  destruct v, Hc as [? _]; cbn in *. congruence.
Qed.

(** Parsing the printed form of a version gives it back, with or without the
    leading v, and so does the short form, which leaves out zeros, unless the
    version is a release candidate. *)
Theorem version_round_trip v : wf_version v ->
  Parse (Version_String v) = v /\ Parse ("v" +:+ Version_String v) = v /\
  (PreReleaseIdentifier v <> "rc" -> Parse (BadString v) = v).
Proof.
  intros Hv. split; [by apply parse_string|]. split; [|by apply parse_bad_string].
  rewrite <- (parse_string v Hv) at 2. rewrite Version_String_dotted. destruct Hv as (_ & H1 & H2 & H3 & _).
  assert (Forall int [Major v; Minor v; Patch v]) as Hl by (repeat (apply List.Forall_cons; [done|]); apply List.Forall_nil).
  destruct (String.eqb _ _); [|by apply Parse_v].
  rewrite <- (string_app_nil (dotted [Major v; Minor v; Patch v])). by apply Parse_v.
Qed.
End roundtrip.

Lemma version_round_trip_witness :
  Parse (@Version_String demoLibs (mkVersion 1 13 0 "" "beta" 7)) = mkVersion 1 13 0 "" "beta" 7 /\
  Parse (@BadString demoLibs (mkVersion 1 13 0 "" "beta" 7)) = mkVersion 1 13 0 "" "beta" 7.
Proof.
  assert (wf_version (mkVersion 1 13 0 "" "beta" 7)) as Hv.
  { unfold wf_version, canonical, int. cbn. split_and!; try lia; [done|by do 2 constructor|done]. }
  pose proof (@version_round_trip demoLibs (fun _ => eq_refl) _ Hv) as (H1 & _ & H2). split; [exact H1|apply H2; discriminate].
Defined.

(** The short form of a release candidate is read as a commit. *)
Lemma bad_string_of_rc : Parse (@BadString demoLibs (mkVersion 1 13 0 "" "rc" 1)) = mkVersion 1 13 0 "rc1" "" 0.
Proof. reflexivity. Qed.
