(* ===== verification/Awg.v ===== *)
(** The AmneziaWG endpoint: [protocol/awg/endpoint.go], [transport/awg/bind.go],
    [transport/awg/device.go], [transport/awg/tun_system.go], [option/awg.go] and the packet
    counter of [patches/amneziawg-go/obf_counter.go]. *)
From Stdlib Require Import Ascii.
From S2P Require Import Prelude Netip Metadata Text RuleItem Bytes.

(** * Options *)

Record AwgPeerOptions := mkAwgPeerOptions {
  peer_Address : string;
  peer_Port : Z;
  peer_PublicKey : string;
  peer_PresharedKey : string;
  peer_AllowedIPs : list Prefix;
  peer_PersistentKeepaliveInterval : Z
}.

(** The options of the dialer are left out. *)
Record AwgEndpointOptions := mkAwgEndpointOptions {
  awg_UseIntegratedTun : bool;
  awg_PrivateKey : string;
  awg_Address : list Prefix;
  awg_MTU : Z;
  awg_ListenPort : Z;
  awg_Jc : Z;
  awg_Jmin : Z;
  awg_Jmax : Z;
  awg_S1 : Z;
  awg_S2 : Z;
  awg_S3 : Z;
  awg_S4 : Z;
  awg_H1 : string;
  awg_H2 : string;
  awg_H3 : string;
  awg_H4 : string;
  awg_I1 : string;
  awg_I2 : string;
  awg_I3 : string;
  awg_I4 : string;
  awg_I5 : string;
  awg_Peers : list AwgPeerOptions
}.

(** Textual forms of [netip] and [sing], and [netipx.IPSet.Prefixes]. *)
Class AwgLibs := {
  M_ParseAddr : string -> Addr;
  Addr_String : Addr -> string;
  IPSet_Prefixes : IPSet -> list Prefix;
  Socksaddr_IsFqdn : Socksaddr -> bool
}.

(** * Encodings of the standard library *)

(** The value of a character of the standard base64 alphabet. *)
Definition base64Val (c : ascii) : option Z :=
  let n := Z.of_N (N_of_ascii c) in
  if (65 <=? n) && (n <=? 90) then Some (n - 65)
  else if (97 <=? n) && (n <=? 122) then Some (n - 71)
  else if (48 <=? n) && (n <=? 57) then Some (n + 4)
  else if n =? 43 then Some 62
  else if n =? 47 then Some 63
  else None.

(** The bytes of four characters; [n] of them count. *)
Definition quantum (n : nat) (a b c d : Z) : bytes := take n (be 3 (a * 2 ^ 18 + b * 2 ^ 12 + c * 2 ^ 6 + d)).

Definition CorruptInputError : GoError := E_Lib "illegal base64 data".

(** Groups of four characters, the last one padded. *)
Fixpoint decodeQuanta (s : list ascii) : result bytes :=
  match s with
  | [] => Ok []
  | a :: b :: c :: d :: s' =>
      match base64Val a, base64Val b with
      | Some a, Some b =>
          if Ascii.eqb d "=" && negb (nonempty s') then
            if Ascii.eqb c "=" then Ok (quantum 1 a b 0 0)
            else match base64Val c with Some c => Ok (quantum 2 a b c 0) | None => Err CorruptInputError end
          else
            match base64Val c, base64Val d with
            | Some c, Some d => rest ← decodeQuanta s'; Ok (quantum 3 a b c d ++ rest)
            | _, _ => Err CorruptInputError
            end
      | _, _ => Err CorruptInputError
      end
  | _ => Err CorruptInputError
  end.

(** [base64.StdEncoding.DecodeString], which ignores line ends. *)
Definition DecodeString (s : string) : result bytes :=
  decodeQuanta (filter (fun c => c <> "010"%char /\ c <> "013"%char) (String.list_ascii_of_string s)).

(** * The configuration of the device *)

(** [s += "\n" + key + "=" + value] *)
Definition line (key value : string) : string := String "010" (key +:+ "=" +:+ value).

Section awg.
Context `{Libs} `{AwgLibs}.

Definition addInt (key : string) (v : Z) (s : string) : string := if negb (v =? 0) then s +:+ line key (F_ToString v) else s.
Definition addText (key v : string) (s : string) : string := if negb (String.eqb v "") then s +:+ line key v else s.

(** [resolvePeer] is nil unless a peer has a domain. *)
Definition endpointAddr (resolvePeer : option (string -> result Addr)) (address : string) : result string :=
  if negb (Netip.IsValid (M_ParseAddr address)) then
    match resolvePeer with
    | None => Err (E_New ("peer address is a domain but no resolver provided: " +:+ address))
    | Some resolvePeer =>
        resolvedAddr ← cause ("resolve peer endpoint " +:+ address) (resolvePeer address);
        Ok (Addr_String resolvedAddr)
    end
  else Ok address.

(** The lines of a peer. *)
Definition peerConfig (resolvePeer : option (string -> result Addr)) (s : string) (peer : AwgPeerOptions) : result string :=
  publicKeyBytes ← DecodeString (peer_PublicKey peer);
  let s := s +:+ line "public_key" (EncodeToString publicKeyBytes) in
  s ← (if negb (String.eqb (peer_PresharedKey peer) "") then
         presharedKeyBytes ← DecodeString (peer_PresharedKey peer);
         Ok (s +:+ line "preshared_key" (EncodeToString presharedKeyBytes))
       else Ok s);
  s ← (if negb (String.eqb (peer_Address peer) "") && negb (peer_Port peer =? 0) then
         endpointAddr ← endpointAddr resolvePeer (peer_Address peer);
         Ok (s +:+ line "endpoint" (endpointAddr +:+ ":" +:+ F_ToString (peer_Port peer)))
       else Ok s);
  let s := addInt "persistent_keepalive_interval" (peer_PersistentKeepaliveInterval peer) s in
  Ok (foldl (fun s allowedIp => s +:+ line "allowed_ip" (Prefix_String allowedIp)) s (peer_AllowedIPs peer)).

Fixpoint peersConfig (resolvePeer : option (string -> result Addr)) (s : string) (peers : list AwgPeerOptions) : result string :=
  match peers with
  | [] => Ok s
  | peer :: peers' => s ← peerConfig resolvePeer s peer; peersConfig resolvePeer s peers'
  end.

Definition genIpcConfig (opts : AwgEndpointOptions) (resolvePeer : option (string -> result Addr)) : result string :=
  privateKeyBytes ← DecodeString (awg_PrivateKey opts);
  let s := "private_key=" +:+ EncodeToString privateKeyBytes in
  let s := addInt "listen_port" (awg_ListenPort opts) s in
  let s := addInt "jc" (awg_Jc opts) s in
  let s := addInt "jmin" (awg_Jmin opts) s in
  let s := addInt "jmax" (awg_Jmax opts) s in
  let s := addInt "s1" (awg_S1 opts) s in
  let s := addInt "s2" (awg_S2 opts) s in
  let s := addInt "s3" (awg_S3 opts) s in
  let s := addInt "s4" (awg_S4 opts) s in
  let s := addText "h1" (awg_H1 opts) s in
  let s := addText "h2" (awg_H2 opts) s in
  let s := addText "h3" (awg_H3 opts) s in
  let s := addText "h4" (awg_H4 opts) s in
  let s := addText "i1" (awg_I1 opts) s in
  let s := addText "i2" (awg_I2 opts) s in
  let s := addText "i3" (awg_I3 opts) s in
  let s := addText "i4" (awg_I4 opts) s in
  let s := addText "i5" (awg_I5 opts) s in
  peersConfig resolvePeer s (awg_Peers opts).

Record DeviceOpts := mkDeviceOpts {
  do_UseIntegratedTun : bool;
  do_Address : list Prefix;
  do_AllowedIps : list Prefix;
  do_ExcludedIps : list Prefix;
  do_MTU : Z
}.

(** The calls on the builder of the excluded addresses. *)
Definition excludedOps (peers : list AwgPeerOptions) : list IPSetOp :=
  omap (fun peer => match ParseAddr (peer_Address peer) with Ok addr => Some (AddAddr addr) | _ => None end) peers.

(** What the endpoint is made of: its tag, its addresses, and the configuration
    and the options of its device. *)
Record AwgEndpoint := mkAwgEndpoint {
  ep_Tag : string;
  ep_address : list Prefix;
  ep_ipcConfig : string;
  ep_DeviceOpts : DeviceOpts
}.

(** [newDialer] and [newDevice] are [dialer.NewWithOptions], which gets
    [remoteIsDomain], and [NewDevice]; [LookupNetIP] is the resolver of the
    system. *)
Definition NewEndpoint (newDialer : bool -> result unit) (LookupNetIP : string -> result (list Addr))
    (newDevice : string -> DeviceOpts -> result unit) (tag : string) (options : AwgEndpointOptions) : result AwgEndpoint :=
  let options := if awg_MTU options =? 0 then options {{ awg_MTU := 1408 }} else options in
  let remoteIsDomain := anyb (awg_Peers options) (fun peer => negb (Netip.IsValid (M_ParseAddr (peer_Address peer)))) in
  _ ← newDialer remoteIsDomain;
  allowedIps ← IPSetBuilder_IPSet (concat (map (fun peer => map AddPrefix (peer_AllowedIPs peer)) (awg_Peers options)));
  excludedIps ← IPSetBuilder_IPSet (excludedOps (awg_Peers options));
  let resolvePeer (domain : string) : result Addr :=
    addrs ← LookupNetIP domain;
    match addrs with addr :: _ => Ok addr | [] => Panic "index out of range [0] with length 0" end in
  ipc ← genIpcConfig options (if remoteIsDomain then Some resolvePeer else None);
  let opts := mkDeviceOpts (awg_UseIntegratedTun options) (awg_Address options) (IPSet_Prefixes allowedIps)
                (IPSet_Prefixes excludedIps) (awg_MTU options) in
  _ ← newDevice ipc opts;
  Ok (mkAwgEndpoint tag (awg_Address options) ipc opts).

(** * Connections that arrive through the tunnel *)

Definition loopback (addr : Addr) : Addr := if Netip.Is4 addr then Addr4 0x7F000001 else Addr6 1 "".

Definition setAddr (s : Socksaddr) (addr : Addr) : Socksaddr := mkSocksaddr addr (sa_Port s) (sa_Fqdn s).

(** The metadata [NewConnectionEx] hands to the router. *)
Definition NewConnectionEx (e : AwgEndpoint) (source destination : Socksaddr) : InboundContext :=
  let metadata := inboundContextZero {{ ic_Inbound := ep_Tag e; ic_InboundType := "awg"; ic_Source := source }} in
  match List.find (fun addr => NetipPrefix.Contains addr (sa_Addr destination)) (ep_address e) with
  | Some _ => metadata {{ ic_OriginDestination := destination;
                          ic_Destination := setAddr destination (loopback (sa_Addr destination)) }}
  | None => metadata {{ ic_Destination := destination }}
  end.

(** The same for packets, with the addresses between which the connection
    translates, innermost first. *)
Definition packetStep (destination : Socksaddr) (acc : InboundContext * list (Socksaddr * Socksaddr)) (addr : Prefix)
    : InboundContext * list (Socksaddr * Socksaddr) :=
  if NetipPrefix.Contains addr (sa_Addr destination) then
    let metadata := acc.1 {{ ic_OriginDestination := destination;
                             ic_Destination := setAddr (ic_Destination acc.1) (loopback (sa_Addr destination)) }} in
    (metadata, acc.2 ++ [(ic_OriginDestination metadata, ic_Destination metadata)])
  else acc.

Definition NewPacketConnectionEx (e : AwgEndpoint) (source destination : Socksaddr)
    : InboundContext * list (Socksaddr * Socksaddr) :=
  let metadata := inboundContextZero {{ ic_Inbound := ep_Tag e; ic_InboundType := "awg"; ic_Source := source;
                                        ic_Destination := destination }} in
  foldl (packetStep destination) (metadata, []) (ep_address e).

(** * Connections into the tunnel *)

(** [dial] is [Device.DialContext] or [Device.ListenPacket], [serial] is
    [N.DialSerial] or [N.ListenSerial] over the device. *)
Definition Endpoint_DialContext {C} (Lookup : string -> result (list Addr)) (dial : Socksaddr -> result C)
    (serial : Socksaddr -> list Addr -> result C) (destination : Socksaddr) : result C :=
  if Socksaddr_IsFqdn destination then
    destinationAddresses ← Lookup (sa_Fqdn destination);
    serial destination destinationAddresses
  else if negb (Netip.IsValid (sa_Addr destination)) then Err (E_New "invalid destination: ")
  else dial destination.

Definition Endpoint_ListenPacket {C} (Lookup : string -> result (list Addr)) (dial : Socksaddr -> result C)
    (serial : Socksaddr -> list Addr -> result C) (destination : Socksaddr) : result C :=
  if Socksaddr_IsFqdn destination then
    destinationAddresses ← Lookup (sa_Fqdn destination);
    serial destination destinationAddresses
  else dial destination.

(** * The sockets under the tunnel *)

(** [netip.ParseAddrPort] *)
Definition splitAddrPort (s : string) : result (string * string * bool) :=
  match cutLast ":" s with
  | None => Err (E_Lib "not an ip:port")
  | Some (ip, port) =>
      if String.eqb ip "" then Err (E_Lib "no IP")
      else if String.eqb port "" then Err (E_Lib "no port")
      else if hasPrefix ip "[" then
        if (String.length ip <? 2)%nat || negb (hasSuffix ip "]") then Err (E_Lib "missing ]")
        else Ok (String.substring 1 (String.length ip - 2) ip, port, true)
      else Ok (ip, port, false)
  end.

Record bind_endpoint := mkBindEndpoint { be_Addr : Addr; be_Port : Z }.

Definition ParseAddrPort (s : string) : result bind_endpoint :=
  '(ip, port, v6) ← splitAddrPort s;
  port16 ← ParseUint16 port;
  addr ← ParseAddr ip;
  if v6 && Netip.Is4 addr then Err (E_Lib "square brackets can only be used with IPv6 addresses")
  else if negb v6 && Netip.Is6 addr then Err (E_Lib "IPv6 addresses must be surrounded by square brackets")
  else Ok (mkBindEndpoint addr port16).

Definition ParseEndpoint (s : string) : result bind_endpoint := cause "parse addrport" (ParseAddrPort s).
End awg.

(** The sockets of the process, by number. *)
Record Sockets := mkSockets { opened : list nat; nextSocket : nat }.

Record bind_adapter := mkBindAdapter { conn4 : option nat; conn6 : option nat }.

Definition newBind : bind_adapter := mkBindAdapter None None.

Definition ErrBindAlreadyOpen : GoError := E_Lib "bind is already open".
Definition ErrUnsupported : GoError := E_Lib "unsupported operation".

(** [connect]: the dialer opens a socket, or fails with [refused]. *)
Definition connect (w : Sockets) (refused : option GoError) : option nat * option GoError * Sockets :=
  match refused with
  | Some err => (None, Some err, w)
  | None => (Some (nextSocket w), None, mkSockets (opened w ++ [nextSocket w]) (S (nextSocket w)))
  end.

Section bind.
(** [errors.Is(err, syscall.EAFNOSUPPORT)] *)
Variable isEAFNOSUPPORT : GoError -> bool.

Definition fails (err : option GoError) : option GoError :=
  match err with Some err => if isEAFNOSUPPORT err then None else Some err | None => None end.

(** [Open]; its result are the sockets that are received from and the port. *)
Definition Bind_Open (b : bind_adapter) (w : Sockets) (port : Z) (refused4 refused6 : option GoError)
    : bind_adapter * Sockets * result (list nat * Z) :=
  if negb (isNil (conn4 b)) || negb (isNil (conn6 b)) then (b, w, Err ErrBindAlreadyOpen)
  else
    let '(c4, err, w) := connect w refused4 in
    match fails err with
    | Some err => (b, w, Err (E_Cause err "create ipv4 connection"))
    | None =>
        let '(c6, err, w) := connect w refused6 in
        match fails err with
        | Some err => (b, w, Err (E_Cause err "create ipv6 connection"))
        | None => (mkBindAdapter c4 c6, w, Ok (option_list c4 ++ option_list c6, port))
        end
    end.
End bind.

Definition closeSocket (w : Sockets) (conn : option nat) : Sockets :=
  match conn with Some c => w {{ opened := filter (fun x => x <> c) (opened w) }} | None => w end.

(** [Close]; the errors of the sockets are only joined. *)
Definition Bind_Close (b : bind_adapter) (w : Sockets) : bind_adapter * Sockets :=
  (newBind, closeSocket (closeSocket w (conn4 b)) (conn6 b)).

(** An endpoint made by [ParseEndpoint], or of another kind. *)
Inductive Endpoint := BindEndpoint (e : bind_endpoint) | OtherEndpoint (DstIP : Addr).

Definition DstIP (e : Endpoint) : Addr := match e with BindEndpoint e => be_Addr e | OtherEndpoint ip => ip end.

Record Datagram := mkDatagram { dg_conn : nat; dg_data : bytes; dg_IP : bytes; dg_Port : Z }.

(** The loop of [Send]; [writes] are the errors of the calls of [WriteTo]. *)
Fixpoint sendAll (conn : nat) (e : bind_endpoint) (bufs : list bytes) (writes : list (option GoError))
    : list Datagram * option GoError :=
  match bufs with
  | [] => ([], None)
  | buf :: bufs' =>
      match mjoin (head writes) with
      | Some err => ([], Some err)
      | None =>
          let (sent, err) := sendAll conn e bufs' (tail writes) in
          (mkDatagram conn buf (AsSlice (be_Addr e)) (be_Port e) :: sent, err)
      end
  end.

Definition Bind_Send (b : bind_adapter) (bufs : list bytes) (ep : Endpoint) (writes : list (option GoError))
    : list Datagram * option GoError :=
  match (if Netip.Is6 (DstIP ep) then conn6 b else conn4 b) with
  | None => ([], Some ErrUnsupported)
  | Some conn =>
      match ep with
      | OtherEndpoint _ => ([], Some ErrUnsupported)
      | BindEndpoint e => sendAll conn e bufs writes
      end
  end.

(** * The integrated tunnel *)

Record TunOptions := mkTunOptions {
  tun_MTU : Z;
  Inet4Address : list Prefix;
  Inet6Address : list Prefix;
  Inet4RouteAddress : list Prefix;
  Inet6RouteAddress : list Prefix;
  Inet4RouteExcludeAddress : list Prefix;
  Inet6RouteExcludeAddress : list Prefix
}.

Definition inet4 (l : list Prefix) : list Prefix := List.filter (fun it => Netip.Is4 (pfx_addr it)) l.
Definition inet6 (l : list Prefix) : list Prefix := List.filter (fun it => Netip.Is6 (pfx_addr it)) l.

Definition newSystemTun (address allowedIps excludedIps : list Prefix) (mtu : Z) : TunOptions :=
  mkTunOptions mtu (inet4 address) (inet6 address) (inet4 allowedIps) (inet6 allowedIps) (inet4 excludedIps) (inet6 excludedIps).

(** * The packet counter *)

Record counterObf := mkCounterObf { counter : Z }.

Definition newCounterObf : counterObf := mkCounterObf 0.

(** [PutUint32] panics on a destination of less than four bytes. *)
Definition Obfuscate (o : counterObf) (dst : bytes) : counterObf * result bytes :=
  let o := mkCounterObf (u32 (counter o + 1)) in
  let val := u32 (counter o - 1) in
  (o, if (4 <=? length dst)%nat then Ok (be 4 val ++ drop 4 dst) else Panic "index out of range").

Definition Deobfuscate (o : counterObf) (dst src : bytes) : bool := true.
Definition ObfuscatedLen (o : counterObf) (n : Z) : Z := 4.
Definition DeobfuscatedLen (o : counterObf) (n : Z) : Z := 0.
