(* ===== verification/AwgSpec.v ===== *)
(** What the AmneziaWG endpoint configures, and what it does with sockets,
    addresses and packets. *)
From Stdlib Require Import Ascii.
From S2P Require Import Prelude Netip Metadata Text RuleItem Demo Bytes Awg.

(** * Reading a configuration back *)

Definition KeyValue : Type := string * string.

(** The settings of the interface, and the peers with theirs: a peer starts with
    its public key. *)
Record IpcConfig := mkIpcConfig { ipc_interface : list KeyValue; ipc_peers : list (string * list KeyValue) }.

Fixpoint groupPeers (l : list KeyValue) : IpcConfig :=
  match l with
  | [] => mkIpcConfig [] []
  | (k, v) :: l' =>
      let c := groupPeers l' in
      if String.eqb k "public_key" then mkIpcConfig [] ((v, ipc_interface c) :: ipc_peers c)
      else mkIpcConfig ((k, v) :: ipc_interface c) (ipc_peers c)
  end.

(** Lines of keys and values, as the device reads them. *)
Definition readIpc (s : string) : option IpcConfig := groupPeers <$> mapM (cut "=") (split "010" s).

(** The settings that are given. *)
Definition given (l : list (string * option string)) : list KeyValue :=
  omap (fun '(k, v) => match v with Some v => Some (k, v) | None => None end) l.

Definition num (z : Z) : option string := if z =? 0 then None else Some (itoa z).
Definition text (s : string) : option string := if String.eqb s "" then None else Some s.

(** * The text of settings *)

Fixpoint render (l : list KeyValue) : string :=
  match l with [] => "" | (k, v) :: l' => line k v +:+ render l' end.

Lemma render_app l k : render (l ++ k) = render l +:+ render k.
Proof. induction l as [|[k' v] l IH]; [done|]. cbn. by rewrite IH, string_app_assoc. Qed.

(** Keys and values that a line can hold. *)
Definition plainKey (k : string) : bool := negb (hasChar "=" k) && negb (hasChar "010" k).
Definition plainValue (v : string) : bool := negb (hasChar "010" v).
Definition plainSettings (l : list KeyValue) : Prop := Forall (fun kv => plainKey kv.1 = true /\ plainValue kv.2 = true) l.

Lemma split_render l : forall s, hasChar "010" s = false -> plainSettings l ->
  split "010" (s +:+ render l) = s :: map (fun kv => kv.1 +:+ "=" +:+ kv.2) l.
Proof.
  induction l as [|[k v] l IH]; intros s Hs Hl; cbn [render map]; [by rewrite string_app_nil, split_plain|].
  apply Forall_cons_iff in Hl as [[Hk Hv] Hl]. cbn in Hk, Hv. unfold line. rewrite append_cons, split_app by done. f_equal.
  apply andb_true_iff in Hk as [_ Hk%negb_true_iff]. apply negb_true_iff in Hv. apply IH; [|done].
  cbn [fst snd]. by rewrite !hasChar_app, Hk, Hv.
Qed.

Lemma mapM_cut l : plainSettings l -> mapM (cut "=") (map (fun kv => kv.1 +:+ "=" +:+ kv.2) l) = Some l.
Proof.
  induction 1 as [|[k v] l [Hk _] _ IH]; [done|]. cbn [map mapM fst snd]. cbn in Hk.
  apply andb_true_iff in Hk as [Hk%negb_true_iff _]. rewrite (append_cons "="), append_nil, cut_app by done.
  cbn. by rewrite IH.
Qed.

Lemma readIpc_render k v l : plainSettings ((k, v) :: l) ->
  readIpc ((k +:+ "=" +:+ v) +:+ render l) = Some (groupPeers ((k, v) :: l)).
Proof.
  intros Hl. unfold readIpc. pose proof Hl as [[Hk Hv] Hl']%Forall_cons_iff. cbn in Hk, Hv.
  apply andb_true_iff in Hk as [_ Hk%negb_true_iff]. apply negb_true_iff in Hv.
  rewrite split_render by (done || by rewrite !hasChar_app, Hk, Hv).
  exact (f_equal (fmap groupPeers) (mapM_cut ((k, v) :: l) Hl)).
Qed.

Lemma groupPeers_plain l k : Forall (fun kv => kv.1 <> "public_key") l ->
  groupPeers (l ++ k) = mkIpcConfig (l ++ ipc_interface (groupPeers k)) (ipc_peers (groupPeers k)).
Proof.
  induction 1 as [|[k' v] l Hk _ IH]; cbn; [by destruct (groupPeers k)|]. cbn in Hk.
  rewrite (proj2 (String.eqb_neq _ _)) by done. by rewrite IH.
Qed.

Lemma groupPeers_peers (peers : list (string * list KeyValue)) :
  Forall (fun q => Forall (fun kv => kv.1 <> "public_key") q.2) peers ->
  groupPeers (concat (map (fun q => ("public_key", q.1) :: q.2) peers)) = mkIpcConfig [] peers.
Proof.
  induction 1 as [|[v l] peers Hl _ IH]; [done|]. cbn in *. by rewrite groupPeers_plain, IH, app_nil_r.
Qed.

(** Hexadecimal digits. *)
Lemma hex_plain l : plainValue (EncodeToString l) = true.
Proof.
  assert (forall n, 0 <= n < 16 -> Ascii.eqb (hexChar n) "010" = false) as Hc.
  { intros n Hn. unfold hexChar. assert (n ∈ seqZ 0 16) as Hin by (apply elem_of_seqZ; lia).
    repeat (apply elem_of_cons in Hin as [->|Hin]; [done|]). by apply not_elem_of_nil in Hin. }
  unfold plainValue. apply negb_true_iff. induction l as [|b l IH]; [done|]. cbn [EncodeToString hasChar].
  pose proof (byteVal_range b). rewrite IH, !Hc; [done| |]; [apply Z.mod_pos_bound; lia|].
  split; [apply Z.div_pos; lia|apply Z.div_lt_upper_bound; lia].
Qed.

Lemma itoa_line z : plainValue (itoa z) = true.
Proof.
  unfold itoa, plainValue. apply negb_true_iff. destruct (Z.ltb_spec z 0); [|by apply utoa_plain].
  by rewrite hasChar_app, utoa_plain by (done || lia).
Qed.

Section config.
Context `{Libs} `{AwgLibs} `{!FormatLaws}.
Hypothesis prefix_plain : forall p, plainValue (Prefix_String p) = true.
Variable resolvePeer : option (string -> result Addr).

(** * What the configuration means *)

Definition interfaceOf (opts : AwgEndpointOptions) (privateKey : bytes) : list KeyValue :=
  ("private_key", EncodeToString privateKey) :: given
    [("listen_port", num (awg_ListenPort opts)); ("jc", num (awg_Jc opts)); ("jmin", num (awg_Jmin opts));
     ("jmax", num (awg_Jmax opts)); ("s1", num (awg_S1 opts)); ("s2", num (awg_S2 opts)); ("s3", num (awg_S3 opts));
     ("s4", num (awg_S4 opts)); ("h1", text (awg_H1 opts)); ("h2", text (awg_H2 opts)); ("h3", text (awg_H3 opts));
     ("h4", text (awg_H4 opts)); ("i1", text (awg_I1 opts)); ("i2", text (awg_I2 opts)); ("i3", text (awg_I3 opts));
     ("i4", text (awg_I4 opts)); ("i5", text (awg_I5 opts))].

(** The host of a peer: its address, or what its domain resolves to. *)
Definition hostOf (address host : string) : Prop :=
  if Netip.IsValid (M_ParseAddr address) then host = address
  else exists resolve addr, resolvePeer = Some resolve /\ resolve address = Ok addr /\ host = Addr_String addr.

Definition presharedOf (p : AwgPeerOptions) (key : option string) : Prop :=
  if String.eqb (peer_PresharedKey p) "" then key = None
  else exists k, DecodeString (peer_PresharedKey p) = Ok k /\ key = Some (EncodeToString k).

Definition endpointOf (p : AwgPeerOptions) (endpoint : option string) : Prop :=
  if String.eqb (peer_Address p) "" || (peer_Port p =? 0) then endpoint = None
  else exists host, hostOf (peer_Address p) host /\ endpoint = Some (host +:+ ":" +:+ itoa (peer_Port p)).

Definition peerOf (p : AwgPeerOptions) (q : string * list KeyValue) : Prop :=
  exists publicKey preshared endpoint,
    DecodeString (peer_PublicKey p) = Ok publicKey /\ presharedOf p preshared /\ endpointOf p endpoint /\
    q = (EncodeToString publicKey,
         given [("preshared_key", preshared); ("endpoint", endpoint);
                ("persistent_keepalive_interval", num (peer_PersistentKeepaliveInterval p))] ++
         map (fun a => ("allowed_ip", Prefix_String a)) (peer_AllowedIPs p)).

(** * The text *)

Lemma add_line s l k v : (s +:+ render l) +:+ line k v = s +:+ render (l ++ [(k, v)]).
Proof. rewrite render_app, string_app_assoc. cbn. by rewrite string_app_nil. Qed.

Lemma addInt_render k v s l : addInt k v (s +:+ render l) = s +:+ render (l ++ given [(k, num v)]).
Proof.
  unfold addInt, num. rewrite F_ToString_decimal. destruct (_ =? _); cbn; [by rewrite app_nil_r|]. apply add_line.
Qed.

Lemma addText_render k v s l : addText k v (s +:+ render l) = s +:+ render (l ++ given [(k, text v)]).
Proof. unfold addText, text. destruct (String.eqb _ _); cbn; [by rewrite app_nil_r|]. apply add_line. Qed.

Lemma given_cons kv l : given (kv :: l) = given [kv] ++ given l.
Proof. destruct kv as [k [v|]]; done. Qed.

Lemma allowed_render s l (ips : list Prefix) :
  foldl (fun s ip => s +:+ line "allowed_ip" (Prefix_String ip)) (s +:+ render l) ips =
  s +:+ render (l ++ map (fun a => ("allowed_ip", Prefix_String a)) ips).
Proof.
  revert l. induction ips as [|ip ips IH]; intros l; cbn; [by rewrite app_nil_r|]. rewrite add_line, IH. by rewrite <- app_assoc.
Qed.

Lemma endpointAddr_host address host : endpointAddr resolvePeer address = Ok host -> hostOf address host.
Proof.
  unfold endpointAddr, hostOf. destruct (Netip.IsValid _); cbn [negb]; [by intros [= ->]|].
  destruct resolvePeer as [resolve|]; [|done]. intros Hb. apply bind_Ok in Hb as (addr & Ha%cause_Ok & [= <-]).
  by exists resolve, addr.
Qed.

Lemma peerConfig_render s l p s' : peerConfig resolvePeer (s +:+ render l) p = Ok s' ->
  exists q, peerOf p q /\ s' = s +:+ render (l ++ ("public_key", q.1) :: q.2).
Proof.
  unfold peerConfig. intros Hb. apply bind_Ok in Hb as (pk & Hpk & Hb). rewrite add_line in Hb.
  apply bind_Ok in Hb as (s1 & Hs1 & Hb).
  assert (exists psk, presharedOf p psk /\ s1 = s +:+ render ((l ++ [("public_key", EncodeToString pk)]) ++ given [("preshared_key", psk)]))
    as (psk & Hpsk & ->).
  { unfold presharedOf. destruct (String.eqb (peer_PresharedKey p) ""); cbn [negb] in Hs1.
    - injection Hs1 as <-. exists None. cbn. by rewrite app_nil_r.
    - apply bind_Ok in Hs1 as (k & Hk & [= <-]). exists (Some (EncodeToString k)). rewrite add_line. eauto. }
  apply bind_Ok in Hb as (s2 & Hs2 & Hb).
  assert (exists ep, endpointOf p ep /\ s2 = s +:+ render (((l ++ [("public_key", EncodeToString pk)]) ++ given [("preshared_key", psk)]) ++ given [("endpoint", ep)]))
    as (ep & Hep & ->).
  { unfold endpointOf. rewrite <- negb_orb in Hs2. destruct (_ || _); cbn [negb] in Hs2.
    - injection Hs2 as <-. exists None. cbn. by rewrite app_nil_r.
    - apply bind_Ok in Hs2 as (host & Hh%endpointAddr_host & [= <-]). rewrite F_ToString_decimal, add_line. eexists (Some _). eauto. }
  injection Hb as <-. rewrite addInt_render, allowed_render. eexists (_, _). split; [by exists pk, psk, ep|]. cbn [fst snd].
  do 2 f_equal. rewrite (given_cons ("preshared_key", _)), (given_cons ("endpoint", _)). by rewrite <- !app_assoc.
Qed.

Lemma peersConfig_render peers : forall s l s', peersConfig resolvePeer (s +:+ render l) peers = Ok s' ->
  exists qs, Forall2 peerOf peers qs /\ s' = s +:+ render (l ++ concat (map (fun q => ("public_key", q.1) :: q.2) qs)).
Proof.
  induction peers as [|p peers IH]; intros s l s'; cbn [peersConfig].
  - intros [= <-]. exists []. cbn. by rewrite app_nil_r.
  - intros (s1 & (q & Hq & ->)%peerConfig_render & (qs & Hqs & ->)%IH)%bind_Ok. exists (q :: qs). split; [by constructor|].
    cbn. by rewrite <- app_assoc.
Qed.

Lemma genIpcConfig_render opts s : genIpcConfig opts resolvePeer = Ok s ->
  exists key qs, DecodeString (awg_PrivateKey opts) = Ok key /\ Forall2 peerOf (awg_Peers opts) qs /\
    s = ("private_key" +:+ "=" +:+ EncodeToString key) +:+
        render (tail (interfaceOf opts key) ++ concat (map (fun q => ("public_key", q.1) :: q.2) qs)).
Proof.
  unfold genIpcConfig. intros (key & Hkey & Hb)%bind_Ok. exists key.
  change ("private_key=" +:+ EncodeToString key) with ("private_key" +:+ "=" +:+ EncodeToString key) in Hb.
  rewrite <- (string_app_nil ("private_key" +:+ "=" +:+ EncodeToString key)) in Hb.
  change ((?p +:+ "") : string) with (p +:+ render []) in Hb.
  rewrite !addInt_render, !addText_render in Hb. apply peersConfig_render in Hb as (qs & Hqs & ->).
  exists qs. split_and!; [done..|]. do 2 f_equal. unfold interfaceOf. cbn [tail]. f_equal.
  repeat (rewrite <- app_assoc; rewrite <- given_cons). done.
Qed.

(** * Lines that hold what they are given *)

(** The texts of the options contain no line ends, and neither do the addresses. *)
Definition plainOptions (opts : AwgEndpointOptions) : Prop :=
  Forall (fun t => plainValue t = true)
    [awg_H1 opts; awg_H2 opts; awg_H3 opts; awg_H4 opts; awg_I1 opts; awg_I2 opts; awg_I3 opts; awg_I4 opts; awg_I5 opts] /\
  Forall (fun p => forall host, hostOf (peer_Address p) host -> plainValue host = true) (awg_Peers opts).

Definition plainGiven (kv : string * option string) : Prop :=
  plainKey kv.1 = true /\ kv.1 <> "public_key" /\ (forall v, kv.2 = Some v -> plainValue v = true).

(** Settings of one interface or peer that a line can hold. *)
Definition plainSection (l : list KeyValue) : Prop := plainSettings l /\ Forall (fun kv => kv.1 <> "public_key") l.

Lemma plainSection_app l k : plainSection l -> plainSection k -> plainSection (l ++ k).
Proof. intros [? ?] [? ?]. split; by apply Forall_app. Qed.

Lemma given_plain l : Forall plainGiven l -> plainSection (given l).
Proof.
  induction 1 as [|[k [v|]] l (Hk & Hp & Hv) _ [IH1 IH2]]; [by split; constructor| |by split].
  split; cbn; constructor; auto.
Qed.

Lemma num_plain k z : plainKey k = true -> k <> "public_key" -> plainGiven (k, num z).
Proof.
  intros Hk Hp. split_and!; [done..|]. cbn. unfold num. destruct (_ =? _); [done|]. intros v [= <-]. apply itoa_line.
Qed.

Lemma text_plain k t : plainKey k = true -> k <> "public_key" -> plainValue t = true -> plainGiven (k, text t).
Proof. intros Hk Hp Ht. split_and!; [done..|]. cbn. unfold text. destruct (String.eqb _ _); [done|]. by intros v [= <-]. Qed.

Lemma interface_plain opts key : plainOptions opts -> plainSection (interfaceOf opts key).
Proof.
  intros [Ht _]. apply plainSection_app with (l := [_]).
  - split; (constructor; [|constructor]); [split; [done|apply hex_plain]|done].
  - apply given_plain. rewrite !Forall_cons_iff in Ht. destruct_and!.
    repeat (apply List.Forall_cons; [first [by apply num_plain|by apply text_plain]|]). constructor.
Qed.

Lemma peer_plain p q : (forall host, hostOf (peer_Address p) host -> plainValue host = true) -> peerOf p q -> plainSection q.2.
Proof.
  intros Hh (pk & psk & ep & _ & Hpsk & Hep & ->). cbn [snd]. apply plainSection_app.
  - apply given_plain. repeat apply List.Forall_cons; [..|constructor].
    + split_and!; [done..|]. intros v Hv. cbn in Hv. subst psk. unfold presharedOf in Hpsk.
      destruct (String.eqb _ _); [done|]. destruct Hpsk as (k & _ & [= ->]). apply hex_plain.
    + split_and!; [done..|]. intros v Hv. cbn in Hv. subst ep. unfold endpointOf in Hep. destruct (_ || _); [done|].
      destruct Hep as (host & Hhost%Hh & [= ->]). pose proof (itoa_line (peer_Port p)) as Hp.
      unfold plainValue in *. apply negb_true_iff in Hhost, Hp. by rewrite !hasChar_app, Hhost, Hp.
    + by apply num_plain.
  - split; apply Forall_map, List.Forall_forall; [|done]. intros a _. split; [done|]. apply prefix_plain.
Qed.

Lemma peers_plain peers qs : Forall (fun p => forall host, hostOf (peer_Address p) host -> plainValue host = true) peers ->
  Forall2 peerOf peers qs ->
  Forall (fun q => plainSection q.2) qs /\ plainSettings (concat (map (fun q => ("public_key", q.1) :: q.2) qs)).
Proof.
  intros Hp Hq. induction Hq as [|p q peers qs Hpq _ IH]; [by split; constructor|]. apply Forall_cons_iff in Hp as [Hp Hps].
  destruct (IH Hps) as [IH1 IH2]. pose proof (peer_plain p q Hp Hpq) as Hsec. split; [by constructor|]. cbn. constructor.
  - split; [done|]. destruct Hpq as (pk & psk & ep & _ & _ & _ & ->). apply hex_plain.
  - apply Forall_app. split; [apply Hsec|exact IH2].
Qed.

(** When there is a configuration. *)
Lemma endpointAddr_total address host : hostOf address host -> endpointAddr resolvePeer address = Ok host.
Proof.
  unfold endpointAddr, hostOf. destruct (Netip.IsValid _); cbn [negb]; [by intros ->|].
  intros (resolve & addr & -> & Ha & ->). by rewrite Ha.
Qed.

Lemma peerConfig_total s p q : peerOf p q -> exists s', peerConfig resolvePeer s p = Ok s'.
Proof.
  intros (pk & psk & ep & Hpk & Hpsk & Hep & _). unfold peerConfig. rewrite Hpk. cbn [mbind result_bind].
  unfold presharedOf in Hpsk. unfold endpointOf in Hep. rewrite <- negb_orb.
  destruct (String.eqb (peer_PresharedKey p) ""); [|destruct Hpsk as (k & -> & _)]; cbn [negb mbind result_bind].
  all: destruct (_ || _); [|destruct Hep as (host & Hh%endpointAddr_total & _); cbn [negb]; rewrite Hh]; by eexists.
Qed.

Lemma genIpcConfig_total opts :
  (exists s, genIpcConfig opts resolvePeer = Ok s) <->
  (exists key, DecodeString (awg_PrivateKey opts) = Ok key) /\ Forall (fun p => exists q, peerOf p q) (awg_Peers opts).
Proof.
  split.
  - intros (s & (key & qs & Hkey & Hqs & _)%genIpcConfig_render). split; [by exists key|].
    induction Hqs; constructor; eauto.
  - intros ((key & Hkey) & Hp). unfold genIpcConfig. rewrite Hkey. cbn [mbind result_bind].
    match goal with |- context [peersConfig _ ?s0 _] => generalize s0 end. induction Hp as [|p peers [q Hq] _ IH]; intros s; [by exists s|].
    cbn [peersConfig]. destruct (peerConfig_total s p q Hq) as [s' ->]. apply IH.
Qed.

(** C27: The endpoint has a configuration exactly when its keys can be decoded and
    the domains of its peers resolved.  If the settings H1 to H4 and I1 to I5 and
    the hosts of the peers hold no line ends, the text reads back as exactly the
    options: the interface has the private key and the settings that are given,
    and each peer its keys, the endpoint with the resolved address, and the
    allowed addresses, in the order of the options.  ([line_end_injects] shows
    what a line end in such a setting does.) *)
Theorem ipc_config_round_trip opts :
  ((exists s, genIpcConfig opts resolvePeer = Ok s) <->
   (exists key, DecodeString (awg_PrivateKey opts) = Ok key) /\ Forall (fun p => exists q, peerOf p q) (awg_Peers opts)) /\
  forall s, plainOptions opts -> genIpcConfig opts resolvePeer = Ok s ->
  exists key qs, DecodeString (awg_PrivateKey opts) = Ok key /\ Forall2 peerOf (awg_Peers opts) qs /\
    readIpc s = Some (mkIpcConfig (interfaceOf opts key) qs).
Proof.
  split; [apply genIpcConfig_total|]. intros s Hopts (key & qs & Hkey & Hqs & ->)%genIpcConfig_render. exists key, qs. split_and!; [done..|].
  destruct (interface_plain opts key Hopts) as [Hi Hi']. destruct (peers_plain _ _ (proj2 Hopts) Hqs) as [Hsec Hpeers].
  rewrite readIpc_render by (apply Forall_app with (l1 := interfaceOf opts key); by split). f_equal.
  etransitivity; [exact (groupPeers_plain (interfaceOf opts key) _ Hi')|].
  rewrite groupPeers_peers; [cbn; by rewrite app_nil_r|]. eapply List.Forall_impl; [|exact Hsec]. by intros q [_ ?].
Qed.
End config.

(** * Endpoints of peers *)

Lemma parseDigits_val s : forall acc v, 0 <= acc -> digitsVal s acc = Some v -> v < 2 ^ 16 -> parseDigits s acc = Some v.
Proof.
  induction s as [|c s IH]; intros acc v Ha Hv Hb; [done|]. cbn [digitsVal parseDigits] in *. unfold digitVal in Hv.
  destruct ((48 <=? _) && _) eqn:Hd; [|done]. bool_to_prop. assert (0 <= acc * 10 + (Z.of_N (N_of_ascii c) - 48)) as Hp by lia. pose proof (digitsVal_le s _ _ Hp Hv).
  rewrite (proj2 (Z.ltb_lt _ _)) by lia. apply IH; (done || lia).
Qed.

Lemma ParseUint16_itoa z : 0 <= z < 2 ^ 16 -> ParseUint16 (itoa z) = Ok z.
Proof.
  intros Hz. unfold ParseUint16, itoa. rewrite (proj2 (Z.ltb_ge z 0)) by lia.
  destruct (utoa_nonempty z) as (c & s & Hu & _); [lia|]. rewrite (proj2 (String.eqb_neq (utoa z) "")) by (by rewrite Hu).
  by rewrite (parseDigits_val (utoa z) 0 z) by (done || lia || (apply utoa_val; lia)).
Qed.

Section endpoint.
Context `{Libs} `{AwgLibs} `{!FormatLaws}.

(** What [netip] documents: an address has no brackets, and its text parses. *)
Hypothesis no_brackets : forall s addr, ParseAddr s = Ok addr -> hasPrefix s "[" = false /\ s <> "".
Hypothesis valid_parsed : forall s addr, ParseAddr s = Ok addr -> Netip.IsValid addr = true.
Hypothesis addr_round_trip : forall addr, wf_addr addr -> Netip.IsValid addr = true -> ParseAddr (Addr_String addr) = Ok addr.

Lemma ParseAddrPort_host host addr port : ParseAddr host = Ok addr -> 0 <= port < 2 ^ 16 ->
  ParseAddrPort (host +:+ ":" +:+ itoa port) =
  if Netip.Is6 addr then Err (E_Lib "IPv6 addresses must be surrounded by square brackets") else Ok (mkBindEndpoint addr port).
Proof.
  intros Ha Hp. destruct (no_brackets host addr Ha) as [Hb Hn]. unfold ParseAddrPort, splitAddrPort.
  rewrite (append_cons ":"), append_nil, cutLast_app by (apply itoa_plain; [lia|done]).
  rewrite (proj2 (String.eqb_neq host "")) by done.
  destruct (utoa_nonempty port) as (c & s & Hu & _); [lia|].
  rewrite (proj2 (String.eqb_neq (itoa port) ""))
    by (unfold itoa; rewrite (proj2 (Z.ltb_ge port 0)) by lia; by rewrite Hu).
  rewrite Hb. cbn [mbind result_bind]. rewrite ParseUint16_itoa by done. cbn [mbind result_bind]. rewrite Ha. cbn. done.
Qed.

(** C33: The device accepts the endpoint of a peer only when its address, or what
    its domain resolves to, is an IPv4 address; then the endpoint is this
    address with the port of the peer.  An IPv6 address is written without
    brackets and refused. *)
Theorem peer_endpoint_only_v4 resolvePeer p endpoint addr :
  0 < peer_Port p < 2 ^ 16 -> endpointOf resolvePeer p (Some endpoint) ->
  (if Netip.IsValid (M_ParseAddr (peer_Address p)) then ParseAddr (peer_Address p) = Ok addr
   else exists resolve, resolvePeer = Some resolve /\ resolve (peer_Address p) = Ok addr /\ wf_addr addr /\ Netip.IsValid addr = true) ->
  (Netip.Is4 addr = true -> ParseEndpoint endpoint = Ok (mkBindEndpoint addr (peer_Port p))) /\
  (Netip.Is4 addr = false -> exists err, ParseEndpoint endpoint = Err err).
Proof.
  intros Hp He Ha. unfold endpointOf in He. destruct (_ || _); [done|]. destruct He as (host & Hh & [= ->]).
  assert (ParseAddr host = Ok addr) as Hhost.
  { unfold hostOf in Hh. destruct (Netip.IsValid (M_ParseAddr _)); [by rewrite Hh|].
    destruct Hh as (r & a & -> & Hr & ->), Ha as (r' & [= <-] & Hr' & Hw & Hv). rewrite Hr in Hr'. simplify_eq. by apply addr_round_trip. }
  unfold ParseEndpoint. rewrite (ParseAddrPort_host host addr) by (done || lia). apply valid_parsed in Hhost.
  destruct addr; [done|by split|]. split; [done|]. intros _. by eexists.
Qed.
End endpoint.

(** * Connections to the addresses of the tunnel *)

(** The family of the loopback address is that of the destination. *)
Definition local (e : AwgEndpoint) (destination : Socksaddr) : bool :=
  anyb (ep_address e) (fun addr => NetipPrefix.Contains addr (sa_Addr destination)).

Lemma packetStep_local destination l : forall acc,
  ic_Destination acc.1 = destination \/
    acc.1 = acc.1 {{ ic_OriginDestination := destination;
                     ic_Destination := setAddr destination (loopback (sa_Addr destination)) }} ->
  let r := foldl (packetStep destination) acc l in
  if anyb l (fun addr => NetipPrefix.Contains addr (sa_Addr destination))
  then r.1 = acc.1 {{ ic_OriginDestination := destination;
                      ic_Destination := setAddr destination (loopback (sa_Addr destination)) }} /\
       exists k, r.2 = acc.2 ++ replicate (S k) (destination, setAddr destination (loopback (sa_Addr destination)))
  else r = acc.
Proof.
  induction l as [|p l IH]; intros [metadata nat] Hd; [done|]. cbn [foldl anyb existsb].
  assert (packetStep destination (metadata, nat) p =
    if NetipPrefix.Contains p (sa_Addr destination)
    then (metadata {{ ic_OriginDestination := destination;
                      ic_Destination := setAddr destination (loopback (sa_Addr destination)) }},
          nat ++ [(destination, setAddr destination (loopback (sa_Addr destination)))])
    else (metadata, nat)) as ->.
  { unfold packetStep. destruct (NetipPrefix.Contains _ _); [|done]. destruct metadata. cbn in Hd. unfold constant in *. cbn.
    destruct Hd as [->|[= Hd _]]; [done|by rewrite Hd]. }
  destruct (NetipPrefix.Contains p (sa_Addr destination)); cbn [orb]; [|by apply IH].
  set (m := metadata {{ ic_OriginDestination := _; ic_Destination := _ }}).
  specialize (IH (m, nat ++ [(destination, setAddr destination (loopback (sa_Addr destination)))])).
  fold (anyb l (fun addr => NetipPrefix.Contains addr (sa_Addr destination))).
  cbv zeta in IH. destruct (anyb l _).
  - destruct IH as [-> [k ->]]; [right; by destruct metadata|]. split; [by destruct metadata|].
    exists (S k). cbn [snd]. by rewrite <- app_assoc.
  - rewrite IH by (right; by destruct metadata). split; [done|]. by exists 0%nat.
Qed.

(** A connection or packet to an address of the tunnel itself is routed to the
    loopback address of the same family, with the port kept and the original
    destination remembered; all others are routed to where they are sent.
    Connections and packets are treated alike, and answers to the packets are
    translated back. *)
Theorem tunnel_addresses_local e source destination :
  let metadata := NewConnectionEx e source destination in
  let (packetMetadata, translations) := NewPacketConnectionEx e source destination in
  packetMetadata = metadata /\ ic_Source metadata = source /\ ic_Inbound metadata = ep_Tag e /\
  if local e destination
  then ic_OriginDestination metadata = destination /\ sa_Port (ic_Destination metadata) = sa_Port destination /\
       Netip.IsLoopback (sa_Addr (ic_Destination metadata)) = true /\
       Netip.Is4 (sa_Addr (ic_Destination metadata)) = Netip.Is4 (sa_Addr destination) /\
       exists k, translations = replicate (S k) (destination, ic_Destination metadata)
  else ic_OriginDestination metadata = socksaddrZero /\ ic_Destination metadata = destination /\ translations = [].
Proof.
  cbv zeta. unfold NewPacketConnectionEx.
  match goal with |- context [foldl _ (?m0, [])] => set (m := m0) end.
  pose proof (packetStep_local destination (ep_address e) (m, []) (or_introl eq_refl)) as Hs. cbv zeta in Hs.
  unfold local, NewConnectionEx. destruct (List.find _ _) as [p|] eqn:Hf.
  - rewrite (proj2 (anyb_true _ _)) in * by (apply List.find_some in Hf as [Hin%list_elem_of_In Hc]; by exists p).
    destruct (foldl _ _ _) as [pm t]. cbn [fst snd app] in Hs. destruct Hs as [-> [k ->]]. split_and!; try done; [..|by exists k];
      cbn; unfold loopback, constant; cbn; by destruct (Netip.Is4 (sa_Addr destination)).
  - assert (anyb (ep_address e) (fun addr => NetipPrefix.Contains addr (sa_Addr destination)) = false) as Ha.
    { apply not_true_iff_false. intros (p & Hin%list_elem_of_In & Hc)%anyb_true. by rewrite (List.find_none _ _ Hf p Hin) in Hc. }
    rewrite Ha in *. rewrite Hs. split_and!; done.
Qed.

(** * Sockets *)

Section sockets.
Variable isEAFNOSUPPORT : GoError -> bool.

Inductive BindOp := OpOpen (port : Z) (refused4 refused6 : option GoError) | OpClose.

(** An [Open] that gets its first socket and fails with the second. *)
Definition losing (op : BindOp) : bool :=
  match op with
  | OpOpen _ refused4 refused6 => isNil refused4 && negb (isNil (fails isEAFNOSUPPORT refused6))
  | OpClose => false
  end.

(** A call, with the sockets that were lost so far. *)
Definition bindStep (st : bind_adapter * Sockets * list nat) (op : BindOp) : bind_adapter * Sockets * list nat :=
  let '(b, w, lost) := st in
  match op with
  | OpOpen port refused4 refused6 =>
      let '(b', w', _) := Bind_Open isEAFNOSUPPORT b w port refused4 refused6 in
      (b', w', if isNil (conn4 b) && isNil (conn6 b) && losing op then lost ++ [nextSocket w] else lost)
  | OpClose => let (b', w') := Bind_Close b w in (b', w', lost)
  end.

Definition bindRun (ops : list BindOp) : bind_adapter * Sockets * list nat :=
  foldl bindStep (newBind, mkSockets [] 0, []) ops.

Definition held (b : bind_adapter) : list nat := option_list (conn4 b) ++ option_list (conn6 b).

Definition bindInv (st : bind_adapter * Sockets * list nat) : Prop :=
  let '(b, w, lost) := st in
  opened w = lost ++ held b /\ NoDup (opened w) /\ Forall (fun c => c < nextSocket w)%nat (opened w).

Lemma fresh_socket (w : Sockets) : NoDup (opened w) -> Forall (fun c => c < nextSocket w)%nat (opened w) ->
  NoDup (opened w ++ [nextSocket w]) /\ Forall (fun c => c < S (nextSocket w))%nat (opened w ++ [nextSocket w]).
Proof.
  intros Hn Hf. split.
  - apply list.NoDup_app. split_and!; [done| |apply NoDup_singleton]. intros c Hc ->%list_elem_of_singleton.
    rewrite List.Forall_forall in Hf. apply list_elem_of_In in Hc. specialize (Hf _ Hc). lia.
  - apply Forall_app. split; [|by constructor; [lia|constructor]]. eapply List.Forall_impl; [|exact Hf]. cbn. lia.
Qed.

Lemma filter_other (l : list nat) c : c ∉ l -> filter (fun x => x <> c) l = l.
Proof. intros Hc. induction l as [|x l IH]; [done|]. rewrite list.filter_cons, decide_True by set_solver. f_equal. apply IH. set_solver. Qed.

Lemma close_middle (l : list nat) c k : NoDup (l ++ [c] ++ k) -> filter (fun x => x <> c) (l ++ [c] ++ k) = l ++ k.
Proof.
  intros (_ & Hl & (Hk & _)%list.NoDup_cons)%list.NoDup_app. rewrite !list.filter_app, (filter_other k) by done.
  rewrite (filter_other l) by (intros Hc; apply (Hl c Hc); set_solver). f_equal.
  cbn. rewrite decide_False by auto. done.
Qed.

Lemma closeSocket_fresh (w : Sockets) c : NoDup (opened w) -> Forall (fun c => c < nextSocket w)%nat (opened w) ->
  NoDup (opened (closeSocket w c)) /\ Forall (fun x => x < nextSocket (closeSocket w c))%nat (opened (closeSocket w c)).
Proof.
  intros Hn Hf. destruct c as [c|]; [|done]. destruct w as [l n]; cbn in *. split; [by apply list.NoDup_filter|].
  rewrite List.Forall_forall in *. intros x Hx%list_elem_of_In. apply list_elem_of_filter in Hx as [_ Hx%list_elem_of_In]. auto.
Qed.

Lemma closeSocket_held (w : Sockets) l c k : opened w = l ++ option_list c ++ k -> NoDup (opened w) ->
  opened (closeSocket w c) = l ++ k.
Proof. destruct w, c as [c|]; cbn; intros -> Hn; [by apply close_middle|done]. Qed.

Lemma bindOpen_inv b w lost port r4 r6 : bindInv (b, w, lost) -> bindInv (bindStep (b, w, lost) (OpOpen port r4 r6)).
Proof.
  intros (Ho & Hn & Hf). cbn [bindStep]. unfold Bind_Open. destruct b as [[c4|] [c6|]]; [done..|].
  cbn [conn4 conn6 isNil negb orb andb]. unfold held in Ho. cbn in Ho. rewrite app_nil_r in Ho.
  destruct (fresh_socket w Hn Hf) as [Hn1 Hf1].
  destruct (fresh_socket (mkSockets (opened w ++ [nextSocket w]) (S (nextSocket w))) Hn1 Hf1) as [Hn2 Hf2]. cbn in Hn2, Hf2.
  destruct r4 as [e4|], r6 as [e6|]; cbn [connect fails losing isNil negb andb];
    repeat (destruct (isEAFNOSUPPORT _); cbn [connect fails isNil negb andb]);
    (split_and!; [|done..]); unfold held; cbn; rewrite ?app_nil_r, ?Ho, <- ?app_assoc; done.
Qed.

Lemma bindStep_inv st op : bindInv st -> bindInv (bindStep st op).
Proof.
  destruct st as [[b w] lost]. intros Hi. destruct op as [port r4 r6|]; [by apply bindOpen_inv|]. destruct Hi as (Ho & Hn & Hf).
  cbn [bindStep]. unfold Bind_Close. destruct (closeSocket_fresh w (conn4 b) Hn Hf) as [Hn4 Hf4].
  destruct (closeSocket_fresh _ (conn6 b) Hn4 Hf4) as [Hn6 Hf6]. split_and!; [|done..].
  apply (closeSocket_held _ lost (conn6 b) []); [|done]. rewrite app_nil_r. by apply closeSocket_held.
Qed.

Lemma bindRun_inv ops : bindInv (bindRun ops).
Proof.
  unfold bindRun. assert (bindInv (newBind, mkSockets [] 0, [])) as Hi by (split_and!; [done|apply NoDup_nil_2|constructor]).
  revert Hi. generalize (newBind, mkSockets [] 0, @nil nat). induction ops as [|op ops IH]; intros st Hi; [done|].
  cbn. by apply IH, bindStep_inv.
Qed.

Lemma bindRun_lost ops : Forall (fun op => losing op = false) ops -> (bindRun ops).2 = [].
Proof.
  unfold bindRun. intros Hl. assert (((newBind, mkSockets [] 0, @nil nat) : bind_adapter * Sockets * list nat).2 = []) as Hi by done.
  revert Hi. generalize (newBind, mkSockets [] 0, @nil nat). induction Hl as [|op ops Ho _ IH]; intros [[b w] lost] Hi; [done|].
  cbn [foldl]. apply IH. destruct op; cbn [bindStep]; [|done]. destruct (Bind_Open _ _ _ _ _ _) as [[b' w'] r].
  by rewrite Ho, andb_false_r.
Qed.

(** After any calls of Open and Close, the sockets that are open are those the
    adapter holds, and closing it closes all of them, except for one socket
    of each Open that gets its IPv4 socket and fails with the other. *)
Theorem bind_sockets ops :
  let '(b, w, lost) := bindRun ops in
  opened w = lost ++ held b /\ opened (Bind_Close b w).2 = lost /\
  (Forall (fun op => losing op = false) ops -> lost = []).
Proof.
  pose proof (bindRun_inv ops) as Hi. pose proof (bindRun_lost ops) as Hl. pose proof (bindStep_inv _ OpClose Hi) as Hc.
  destruct (bindRun ops) as [[b w] lost]. destruct Hi as (Ho & _). cbn [bindStep] in Hc.
  destruct (Bind_Close b w) as [b' w'] eqn:Hb. injection Hb as <- _. destruct Hc as (Hc & _). split_and!; [done| |done].
  cbn in Hc. by rewrite app_nil_r in Hc.
Qed.

(** The socket that is lost. *)
Lemma failed_open_leaks err : isEAFNOSUPPORT err = false ->
  let '(b, w, _) := bindRun [OpOpen 0 None (Some err); OpClose] in opened w = [0%nat] /\ held b = [].
Proof. intros He. cbn. by rewrite He. Qed.
End sockets.

(** * Sending *)

Lemma sendAll_prefix conn e bufs : forall writes,
  let (sent, err) := sendAll conn e bufs writes in
  exists n, sent = map (fun buf => mkDatagram conn buf (AsSlice (be_Addr e)) (be_Port e)) (take n bufs) /\
            (n <= length bufs)%nat /\ (err = None <-> n = length bufs).
Proof.
  induction bufs as [|buf bufs IH]; intros writes; cbn [sendAll]; [by exists 0%nat|].
  destruct (mjoin (head writes)) as [err|]; [by exists 0%nat; split_and!; [|lia|]|]. specialize (IH (tail writes)).
  destruct (sendAll _ _ _ _) as [sent err]. destruct IH as (n & -> & Hn & He). exists (S n). cbn. split_and!; [done|lia|]. rewrite He. lia.
Qed.

(** Packets are sent in order, to the address of the endpoint and from the
    socket of its family; when the socket is missing nothing is sent, and an
    error means that only a part of the packets was. *)
Theorem send_by_family b bufs e writes :
  let (sent, err) := Bind_Send b bufs (BindEndpoint e) writes in
  match (if Netip.Is6 (be_Addr e) then conn6 b else conn4 b) with
  | None => sent = [] /\ err = Some ErrUnsupported
  | Some conn =>
      exists n, sent = map (fun buf => mkDatagram conn buf (AsSlice (be_Addr e)) (be_Port e)) (take n bufs) /\
                (n <= length bufs)%nat /\ (err = None <-> n = length bufs)
  end.
Proof. unfold Bind_Send. cbn [DstIP]. destruct (if Netip.Is6 _ then _ else _); [apply sendAll_prefix|done]. Qed.

(** * The counter *)

(** The results of successive calls. *)
Fixpoint obfuscateAll (o : counterObf) (dsts : list bytes) : list (result bytes) :=
  match dsts with
  | [] => []
  | dst :: dsts' => let (o, r) := Obfuscate o dst in r :: obfuscateAll o dsts'
  end.

Lemma obfuscateAll_lookup dsts : forall c k dst, 0 <= c < 2 ^ 32 -> dsts !! k = Some dst -> (4 <= length dst)%nat ->
  obfuscateAll (mkCounterObf c) dsts !! k = Some (Ok (be 4 (u32 (c + Z.of_nat k)) ++ drop 4 dst)).
Proof.
  induction dsts as [|d dsts IH]; intros c k dst Hc Hk Hl; [done|]. cbn [obfuscateAll Obfuscate counter].
  destruct k as [|k]; cbn in Hk.
  - simplify_eq. cbn [lookup list_lookup]. rewrite (proj2 (Nat.leb_le _ _)) by done. do 4 f_equal. unfold u32, wrap. rewrite Zminus_mod_idemp_l. f_equal. lia.
  - cbn [lookup list_lookup]. rewrite (IH _ k dst); [|apply wrap_range; lia|done..]. do 4 f_equal.
    unfold u32, wrap. rewrite Zplus_mod_idemp_l. f_equal. lia.
Qed.

(** The counter tag of the k-th packet is k modulo 2^32 in network byte order,
    and what follows the tag is left alone; two packets get the same tag only
    when their numbers differ by a multiple of 2^32. *)
Theorem packet_counter dsts i j di dj :
  dsts !! i = Some di -> dsts !! j = Some dj -> (4 <= length di)%nat -> (4 <= length dj)%nat ->
  exists ri rj, obfuscateAll newCounterObf dsts !! i = Some (Ok ri) /\ obfuscateAll newCounterObf dsts !! j = Some (Ok rj) /\
    ri = be 4 (Z.of_nat i mod 2 ^ 32) ++ drop 4 di /\
    (take 4 ri = take 4 rj <-> Z.of_nat i mod 2 ^ 32 = Z.of_nat j mod 2 ^ 32).
Proof.
  intros Hi Hj Hli Hlj. eexists _, _. unfold newCounterObf.
  rewrite (obfuscateAll_lookup dsts 0 i di), (obfuscateAll_lookup dsts 0 j dj) by (done || lia).
  split_and!; [done..|]. rewrite !take_app_length' by (by rewrite be_length).
  change (u32 (0 + Z.of_nat i)) with (Z.of_nat i mod 2 ^ 32). change (u32 (0 + Z.of_nat j)) with (Z.of_nat j mod 2 ^ 32).
  split; [|by intros ->]. intros He. apply (f_equal beVal) in He. rewrite !beVal_be in He; [done|..]; by apply wrap_range.
Qed.

Lemma packet_counter_witness : exists ri rj,
  obfuscateAll newCounterObf [stringBytes "abcdef"; stringBytes "ghij"] !! 0%nat = Some (Ok ri) /\
  obfuscateAll newCounterObf [stringBytes "abcdef"; stringBytes "ghij"] !! 1%nat = Some (Ok rj) /\
  ri = be 4 0 ++ stringBytes "ef" /\ take 4 ri <> take 4 rj.
Proof.
  destruct (packet_counter [stringBytes "abcdef"; stringBytes "ghij"] 0 1 _ _ eq_refl eq_refl) as (ri & rj & H1 & H2 & H3 & H4).
  - cbn. lia.
  - cbn. lia.
  - exists ri, rj. split_and!; [exact H1|exact H2|exact H3|]. rewrite H4. discriminate.
Defined.

(** * A configuration *)

Definition demoAddrText (addr : Addr) : string :=
  match addr with Addr4 16909060 => "1.2.3.4" | Addr4 167772161 => "10.0.0.1" | Addr6 _ _ => "fd00::1" | _ => "invalid IP" end.

#[local] Instance awgDemoLibs : AwgLibs := {|
  M_ParseAddr s := if String.eqb s "1.2.3.4" then Addr4 16909060 else AddrZero;
  Addr_String := demoAddrText;
  IPSet_Prefixes _ := [];
  Socksaddr_IsFqdn s := negb (String.eqb (sa_Fqdn s) "")
|}.

Definition demoPeer (address : string) : AwgPeerOptions :=
  mkAwgPeerOptions address 51820 "AQIDBA==" "BQYH" [mkPrefix (Addr4 167772160) 8] 25.

Definition demoAwg : AwgEndpointOptions :=
  mkAwgEndpointOptions false "/+8=" [] 0 0 4 40 70 0 0 0 0 "1" "" "" "" "<b 0x01><c>" "" "" "" ""
    [demoPeer "1.2.3.4"; demoPeer "vpn.example"].

Definition demoResolver : option (string -> result Addr) := Some (fun _ => Ok (Addr4 167772161)).

Definition demoIpcPeer (address : string) : string * list KeyValue :=
  ("01020304", [("preshared_key", "050607"); ("endpoint", address +:+ ":51820"); ("persistent_keepalive_interval", "25");
                ("allowed_ip", "prefix")]).

Lemma ipc_config_round_trip_witness : exists s key qs,
  @genIpcConfig demoLibs awgDemoLibs demoAwg demoResolver = Ok s /\
  readIpc s = Some (mkIpcConfig (interfaceOf demoAwg key) qs) /\ qs = [demoIpcPeer "1.2.3.4"; demoIpcPeer "10.0.0.1"].
Proof.
  assert (@plainOptions awgDemoLibs demoResolver demoAwg) as Hp.
  { split; [repeat (apply List.Forall_cons; [reflexivity|]); apply List.Forall_nil|].
    apply List.Forall_cons; [|apply List.Forall_cons; [|apply List.Forall_nil]]; unfold hostOf; cbn.
    - intros host ->. reflexivity.
    - intros host (r & a & [= <-] & [= <-] & ->). reflexivity. }
  destruct (@ipc_config_round_trip demoLibs awgDemoLibs (fun _ => eq_refl) (fun _ => eq_refl) demoResolver demoAwg) as [_ Hr].
  edestruct (Hr _ Hp eq_refl) as (key & qs & Hk & Hqs & Hread). eexists _, key, qs. split; [reflexivity|]. split; [exact Hread|].
  vm_compute in Hread. injection Hread as _ <-. reflexivity.
Defined.

(** A line end in a text adds a line of its own. *)
Lemma line_end_injects :
  exists s, @genIpcConfig demoLibs awgDemoLibs
              (demoAwg {{ awg_Peers := []; awg_H1 := "1" +:+ line "public_key" "00" }}) None = Ok s /\
    ipc_peers <$> readIpc s = Some [("00", [("i1", "<b 0x01><c>")])].
Proof. eexists. split; reflexivity. Qed.

(** Addresses written as numbers. *)
Definition numText (addr : Addr) : string :=
  match addr with
  | AddrZero => "invalid IP"
  | Addr4 n => "v" +:+ utoa n
  | Addr6 n zone => "w" +:+ utoa n +:+ "%" +:+ zone
  end.

Definition numParse (s : string) : result Addr :=
  match s with
  | String "v"%char s' => match digitsVal s' 0 with Some n => Ok (Addr4 n) | None => Err (E_New "address") end
  | String "w"%char s' =>
      match cut "%" s' with
      | Some (n, zone) => match digitsVal n 0 with Some n => Ok (Addr6 n zone) | None => Err (E_New "address") end
      | None => Err (E_New "address")
      end
  | _ => Err (E_New "address")
  end.

Lemma numParse_text addr : wf_addr addr -> Netip.IsValid addr = true -> numParse (numText addr) = Ok addr.
Proof.
  destruct addr as [|n|n zone]; [done|..]; intros Hw _; cbn in Hw; cbn [numText]; rewrite append_cons, append_nil; cbn [numParse].
  - by rewrite utoa_val by lia.
  - rewrite (append_cons "%"), append_nil, cut_app by (apply utoa_plain; [lia|done]). by rewrite utoa_val by lia.
Qed.

#[local] Instance numLibs : Libs := {|
  IsIP := @IsIP demoLibs;
  IsIPv4 := @IsIPv4 demoLibs;
  IsIPv6 := @IsIPv6 demoLibs;
  IsDomain := @IsDomain demoLibs;
  Socksaddr_IsValid := @Socksaddr_IsValid demoLibs;
  AddrFromIP := @AddrFromIP demoLibs;
  IsPublicAddr := @IsPublicAddr demoLibs;
  DomainMatcher := @DomainMatcher demoLibs;
  NewMatcher := @NewMatcher demoLibs;
  DomainMatcher_Match := @DomainMatcher_Match demoLibs;
  AdGuardMatcher := @AdGuardMatcher demoLibs;
  NewAdGuardMatcher := @NewAdGuardMatcher demoLibs;
  AdGuardMatcher_Match := @AdGuardMatcher_Match demoLibs;
  F_ToString := @F_ToString demoLibs;
  IPSetBuilder_IPSet := @IPSetBuilder_IPSet demoLibs;
  IPSet_Contains := @IPSet_Contains demoLibs;
  Regexp := @Regexp demoLibs;
  Regexp_Compile := @Regexp_Compile demoLibs;
  Regexp_MatchString := @Regexp_MatchString demoLibs;
  ParsePrefix := @ParsePrefix demoLibs;
  ParseAddr := numParse;
  Prefix_String := @Prefix_String demoLibs;
  ParseMAC := @ParseMAC demoLibs;
  HardwareAddr_String := @HardwareAddr_String demoLibs;
  ToLowerUnicode := @ToLowerUnicode demoLibs;
  EqualFoldUnicode := @EqualFoldUnicode demoLibs;
  TrimSpaceUnicode := @TrimSpaceUnicode demoLibs;
  CanonicalName := @CanonicalName demoLibs;
  TypeToString := @TypeToString demoLibs;
  IsDuplicate := @IsDuplicate demoLibs;
  RR_String := @RR_String demoLibs;
  RcodeToString := @RcodeToString demoLibs
|}.

#[local] Instance numAwgLibs : AwgLibs := {|
  M_ParseAddr s := match numParse s with Ok addr => addr | _ => AddrZero end;
  Addr_String := numText;
  IPSet_Prefixes _ := [];
  Socksaddr_IsFqdn s := negb (String.eqb (sa_Fqdn s) "")
|}.

Lemma numParse_valid s addr : numParse s = Ok addr -> (hasPrefix s "[" = false /\ s <> "") /\ Netip.IsValid addr = true.
Proof.
  destruct s as [|c s]; [done|]. destruct c as [[] [] [] [] [] [] [] []]; try done; cbn.
  - destruct (cut "%" s) as [[n zone]|]; [|done]. destruct (digitsVal n 0); [|done]. by intros [= <-].
  - destruct (digitsVal s 0); [|done]. by intros [= <-].
Qed.

Lemma peer_endpoint_only_v4_witness :
  @ParseEndpoint numLibs "v16909060:51820" = Ok (mkBindEndpoint (Addr4 16909060) 51820) /\
  exists err, @ParseEndpoint numLibs "w1%:51820" = Err err.
Proof.
  split.
  - refine (proj1 (@peer_endpoint_only_v4 numLibs numAwgLibs (fun s addr H => proj1 (numParse_valid s addr H))
      (fun s addr H => proj2 (numParse_valid s addr H)) numParse_text None (demoPeer "v16909060") _ (Addr4 16909060) _ _ _) eq_refl).
    + cbn. lia.
    + exists "v16909060". split; reflexivity.
    + reflexivity.
  - refine (proj2 (@peer_endpoint_only_v4 numLibs numAwgLibs (fun s addr H => proj1 (numParse_valid s addr H))
      (fun s addr H => proj2 (numParse_valid s addr H)) numParse_text (Some (fun _ => Ok (Addr6 1 ""))) (demoPeer "vpn.example") _ (Addr6 1 "") _ _ _) eq_refl).
    + cbn. lia.
    + exists "w1%". split; [|reflexivity]. exists (fun _ => Ok (Addr6 1 "")), (Addr6 1 ""). split_and!; reflexivity.
    + exists (fun _ => Ok (Addr6 1 "")). split_and!; [reflexivity|reflexivity|cbn; lia|reflexivity].
Defined.
