(* ===== verification/Trojan.v ===== *)
(** The Trojan protocol: the client of [transport/trojan/protocol.go], the server
    of [transport/trojan/service.go] and the streams of [transport/trojan/mux.go]. *)
From S2P Require Import Prelude Netip Metadata Bytes Streams.

#[global] Instance byte_countable : Countable byte.
Proof.
  refine (inj_countable (fun b => Z.to_nat (byteVal b)) (fun n => Some (byteOf (Z.of_nat n))) _).
  intros b. rewrite Z2Nat.id by apply byteVal_range. by destruct b.
Defined.

(** * Packages *)

(** [M.SocksaddrSerializer] of [sing], and SHA-224. *)
Class TrojanLibs := {
  WriteAddrPort : Socksaddr -> result bytes;
  AddrPortLen : Socksaddr -> nat;
  ReadAddrPort : Reader -> result (Socksaddr * Reader);
  Sum224 : bytes -> bytes
}.

(** A connection to write to: what was sent, and the errors of the next writes
    with the bytes sent before them. *)
Record Out := mkOut { sent : bytes; failures : list (option (GoError * nat)) }.

Definition writeConn (o : Out) (b : bytes) : Out * option GoError :=
  match failures o with
  | Some (err, n) :: failures' => (mkOut (sent o ++ take n b) failures', Some err)
  | _ => (mkOut (sent o ++ b) (tail (failures o)), None)
  end.

(** [buf.Buffer]: its data, and the room before it. *)
Record Buffer := mkBuffer { b_start : nat; b_data : bytes }.

(** Writes into a buffer of [n] bytes; [common.Must] panics when it is full. *)
Definition fill (n : nat) (parts : list bytes) : result bytes :=
  if (length (concat parts) <=? n)%nat then Ok (concat parts) else Panic "short buffer".

(** [buf.With(b.ExtendHeader(n))], filled with [parts]: the bytes of [b] after it. *)
Definition prepend (b : Buffer) (n : nat) (parts : result (list bytes)) : result bytes :=
  if (b_start b <? n)%nat then Panic "buffer overflow"
  else
    parts ← parts;
    header ← fill n parts;
    Ok (header ++ replicate (n - length header) (byteOf 0) ++ b_data b).

(** * The client *)

Definition KeyLength : nat := 56.
Definition CommandTCP : Z := 1.
Definition CommandUDP : Z := 3.
Definition CommandMux : Z := 0x7f.

Definition CRLF : bytes := [byteOf 13; byteOf 10].

Section trojan.
Context `{TrojanLibs}.

Definition Key (password : string) : bytes := stringBytes (EncodeToString (Sum224 (stringBytes password))).

(** Successive writes, up to the first error. *)
Fixpoint writeEach (o : Out) (parts : list (result bytes)) : Out * result unit :=
  match parts with
  | [] => (o, Ok tt)
  | Ok b :: parts' =>
      match writeConn o b with
      | (o, None) => writeEach o parts'
      | (o, Some err) => (o, Err err)
      end
  | Err err :: _ => (o, Err err)
  | Panic s :: _ => (o, Panic s)
  end.

Definition ClientHandshakeRaw (conn : Out) (key : bytes) (command : Z) (destination : Socksaddr) (payload : bytes) : Out * result unit :=
  writeEach conn ([Ok key; Ok CRLF; Ok [byteOf command]; WriteAddrPort destination; Ok CRLF] ++
                  if nonempty payload then [Ok payload] else []).

(** A write of what was prepared, if that did not fail. *)
Definition writePrepared (conn : Out) (message : string) (data : result bytes) : Out * result unit :=
  match data with
  | Ok data =>
      match writeConn conn data with
      | (conn, None) => (conn, Ok tt)
      | (conn, Some err) => (conn, Err (E_Cause err message))
      end
  | Err err => (conn, Err err)
  | Panic s => (conn, Panic s)
  end.

Definition ClientHandshake (conn : Out) (key : bytes) (destination : Socksaddr) (payload : bytes) : Out * result unit :=
  let headerLen := (KeyLength + AddrPortLen destination + 5)%nat in
  writePrepared conn "write request"
    (address ← WriteAddrPort destination;
     fill (headerLen + length payload) [key; CRLF; [byteOf CommandTCP]; address; CRLF; payload]).

Definition ClientHandshakeBuffer (conn : Out) (key : bytes) (destination : Socksaddr) (payload : Buffer) : Out * result unit :=
  writePrepared conn "write request"
    (prepend payload (KeyLength + AddrPortLen destination + 5)
       (address ← WriteAddrPort destination; Ok [key; CRLF; [byteOf CommandTCP]; address; CRLF])).

Definition ClientHandshakePacket (conn : Out) (key : bytes) (destination : Socksaddr) (payload : Buffer) : Out * result unit :=
  let headerLen := (KeyLength + 2 * AddrPortLen destination + 9)%nat in
  let parts address :=
    [key; CRLF; [byteOf CommandUDP]; address; CRLF; address; be 2 (u16 (len (b_data payload))); CRLF] in
  if (headerLen <=? b_start payload)%nat then
    writePrepared conn "write payload" (prepend payload headerLen (address ← WriteAddrPort destination; Ok (parts address)))
  else
    match writePrepared conn "write request" (address ← WriteAddrPort destination; fill headerLen (parts address)) with
    | (conn, Ok _) => writePrepared conn "write payload" (Ok (b_data payload))
    | r => r
    end.

Definition WritePacket (conn : Out) (buffer : Buffer) (destination : Socksaddr) : Out * result unit :=
  writePrepared conn "write packet"
    (prepend buffer (AddrPortLen destination + 4)
       (address ← WriteAddrPort destination; Ok [address; be 2 (u16 (len (b_data buffer))); CRLF])).

Record ClientConn := mkClientConn { cc_conn : Out; cc_key : bytes; cc_destination : Socksaddr; cc_headerWritten : bool }.

Definition NewClientConn (conn : Out) (key : bytes) (destination : Socksaddr) : ClientConn :=
  mkClientConn conn key destination false.

Definition ClientConn_Write (c : ClientConn) (p : bytes) : ClientConn * result unit :=
  if cc_headerWritten c then
    let (conn, err) := writeConn (cc_conn c) p in
    (c {{ cc_conn := conn }}, match err with None => Ok tt | Some err => Err err end)
  else
    match ClientHandshake (cc_conn c) (cc_key c) (cc_destination c) p with
    | (conn, Ok _) => (c {{ cc_conn := conn; cc_headerWritten := true }}, Ok tt)
    | (conn, r) => (c {{ cc_conn := conn }}, r)
    end.

Definition ClientConn_WriteBuffer (c : ClientConn) (buffer : Buffer) : ClientConn * result unit :=
  if cc_headerWritten c then
    let (conn, err) := writeConn (cc_conn c) (b_data buffer) in
    (c {{ cc_conn := conn }}, match err with None => Ok tt | Some err => Err err end)
  else
    match ClientHandshakeBuffer (cc_conn c) (cc_key c) (cc_destination c) buffer with
    | (conn, Ok _) => (c {{ cc_conn := conn; cc_headerWritten := true }}, Ok tt)
    | (conn, r) => (c {{ cc_conn := conn }}, r)
    end.

Record ClientPacketConn := mkClientPacketConn { cp_conn : Out; cp_key : bytes; cp_headerWritten : bool }.

Definition NewClientPacketConn (conn : Out) (key : bytes) : ClientPacketConn := mkClientPacketConn conn key false.

Definition ClientPacketConn_WritePacket (c : ClientPacketConn) (buffer : Buffer) (destination : Socksaddr)
    : ClientPacketConn * result unit :=
  if negb (cp_headerWritten c) then
    let (conn, r) := ClientHandshakePacket (cp_conn c) (cp_key c) destination buffer in
    (c {{ cp_conn := conn; cp_headerWritten := true }}, r)
  else
    let (conn, r) := WritePacket (cp_conn c) buffer destination in (c {{ cp_conn := conn }}, r).

(** [ReadPacket] into a buffer with [free] bytes. *)
Definition ReadPacket (conn : Reader) (free : nat) : result (bytes * Socksaddr * Reader) :=
  '(destination, conn) ← cause "read destination" (ReadAddrPort conn);
  '(length, conn) ← cause "read chunk length" (binaryRead 2 conn);
  conn ← cause "skip crlf" (SkipN 2 conn);
  if (free <? Z.to_nat length)%nat then Err (E_Lib "short buffer")
  else
    '(data, conn) ← readExact (Z.to_nat length) conn;
    Ok (data, destination, conn).

(** * The server *)

Context {K : Type} `{Countable K}.

Record Service := mkService { users : gmap K bytes; keys : gmap bytes K; hasFallback : bool }.

Definition NewService (fallbackHandler : bool) : Service := mkService ∅ ∅ fallbackHandler.

Definition ErrUserExists : GoError := E_New "user already exists".

(** The loop of [UpdateUsers]; [String] is how a user is printed. *)
Fixpoint collectUsers (String : K -> string) (userList : list K) (passwordList : list string) (users : gmap K bytes)
    (keys : gmap bytes K) : result (gmap K bytes * gmap bytes K) :=
  match userList with
  | [] => Ok (users, keys)
  | user :: userList' =>
      match users !! user with
      | Some _ => Err ErrUserExists
      | None =>
          match passwordList with
          | [] => Panic "index out of range"
          | password :: passwordList' =>
              let key := Key password in
              match keys !! key with
              | Some oldUser => Err (E_Extend ErrUserExists ("password used by " +:+ String oldUser))
              | None => collectUsers String userList' passwordList' (<[user := key]> users) (<[key := user]> keys)
              end
          end
      end
  end.

Definition UpdateUsers (s : Service) (String : K -> string) (userList : list K) (passwordList : list string) : Service * result unit :=
  match collectUsers String userList passwordList ∅ ∅ with
  | Ok (users, keys) => (mkService users keys (hasFallback s), Ok tt)
  | Err err => (s, Err err)
  | Panic p => (s, Panic p)
  end.

(** What happens to a connection: it is handed to the handler with the user, the
    destination and what is left to read, or to the fallback from the start. *)
Inductive Accepted :=
| HandleConnection (user : K) (destination : Socksaddr) (conn : Reader)
| HandlePacketConnection (user : K) (destination : Socksaddr) (conn : Reader)
| HandleMux (user : K) (conn : Reader)
| HandleFallback (conn : Reader).

Definition fallback (s : Service) (conn : Reader) (header : bytes) (err : GoError) : result Accepted :=
  if negb (hasFallback s) then Err (E_Extend err "fallback disabled") else Ok (HandleFallback (header :: conn)).

Definition NewConnection (s : Service) (conn : Reader) : result Accepted :=
  match Reader_Read KeyLength conn with
  | (_, Some err, _) => Err err
  | (key, None, conn) =>
      if negb (length key =? KeyLength)%nat then fallback s conn key (E_New "bad request size")
      else
        match keys s !! key with
        | None => fallback s conn key (E_New "bad request")
        | Some user =>
            conn ← cause "skip crlf" (SkipN 2 conn);
            '(command, conn) ← cause "read command" (binaryRead 1 conn);
            if negb ((command =? CommandTCP) || (command =? CommandUDP) || (command =? CommandMux))
            then Err (E_New "unknown command ")
            else
              '(destination, conn) ← cause "read destination" (ReadAddrPort conn);
              conn ← cause "skip crlf" (SkipN 2 conn);
              if command =? CommandTCP then Ok (HandleConnection user destination conn)
              else if command =? CommandUDP then Ok (HandlePacketConnection user destination conn)
              else Ok (HandleMux user conn)
        end
  end.

(** What a buffered reader holds once it has read: the rest of the chunk it is
    in. *)
Definition Buffered (r : Reader) : bytes := match r with c :: _ => c | [] => [] end.

(** A stream of a multiplexed connection.  The new buffer is empty, so its length
    asks for no bytes, and what the reader has buffered is left in it. *)
Definition newMuxConnection0 (user : K) (conn : Reader) : result Accepted :=
  '(command, reader) ← cause "read command" (binaryRead 1 conn);
  '(destination, reader) ← cause "read destination" (ReadAddrPort reader);
  let conn := tail reader in
  conn ← (if nonempty (Buffered reader) then '(cached, _) ← readExact 0 reader; Ok (cached :: conn) else Ok conn);
  if command =? CommandTCP then Ok (HandleConnection user destination conn)
  else if command =? CommandUDP then Ok (HandlePacketConnection user destination conn)
  else Err (E_New "unknown command ").
End trojan.

#[global] Arguments Service K {_ _}.
#[global] Arguments Accepted K : clear implicits.
