(* ===== verification/TrojanSpec.v ===== *)
(** A Trojan server accepts what a Trojan client sends, and nothing else. *)
From S2P Require Import Prelude Netip Metadata Bytes Streams Trojan.

(** Destinations as the protocol can carry them: an address without a zone, or a
    domain. *)
Definition serializable (d : Socksaddr) : Prop :=
  0 <= sa_Port d < 2 ^ 16 /\ wf_addr (sa_Addr d) /\
  match sa_Addr d with
  | AddrZero => (0 < String.length (sa_Fqdn d) < 256)%nat
  | addr => sa_Fqdn d = "" /\ Netip.hasZone addr = false /\ Netip.Is4In6 addr = false
  end.

(** What the serializer of [sing] and SHA-224 document. *)
Class TrojanLaws `{TrojanLibs} : Prop := {
  AddrPortLen_exact : forall d w, WriteAddrPort d = Ok w -> AddrPortLen d = length w;
  ReadAddrPort_WriteAddrPort : forall d w r rest, serializable d -> WriteAddrPort d = Ok w -> concat r = w ++ rest ->
    exists r', ReadAddrPort r = Ok (d, r') /\ concat r' = rest;
  Sum224_length : forall b, length (Sum224 b) = 28%nat
}.

Section spec.
Context `{TrojanLaws} {K : Type} `{Countable K}.

Lemma stringBytes_length s : length (stringBytes s) = String.length s.
Proof. unfold stringBytes, String.list_byte_of_string. rewrite length_map. induction s as [|c s IH]; [done|]. cbn. by rewrite IH. Qed.

Lemma hex_length l : length (stringBytes (EncodeToString l)) = (2 * length l)%nat.
Proof. rewrite stringBytes_length. induction l as [|b l IH]; [done|]. cbn [EncodeToString String.length length]. rewrite IH. lia. Qed.

Lemma Key_length password : length (Key password) = KeyLength.
Proof. unfold Key. by rewrite hex_length, Sum224_length. Qed.

(** * What the client sends *)

(** The request before the payload. *)
Definition request (key : bytes) (command : Z) (address : bytes) : bytes :=
  key ++ CRLF ++ [byteOf command] ++ address ++ CRLF.

Definition chunk (address data : bytes) : bytes := address ++ be 2 (len data) ++ CRLF ++ data.

Lemma fill_exact n parts : length (concat parts) = n -> fill n parts = Ok (concat parts).
Proof. intros <-. unfold fill. by rewrite Nat.leb_refl. Qed.

Lemma prepend_exact b n parts l : (n <= b_start b)%nat -> parts = Ok l -> length (concat l) = n ->
  prepend b n parts = Ok (concat l ++ b_data b).
Proof.
  intros Hs -> Hl. unfold prepend. rewrite (proj2 (Nat.ltb_ge _ _)) by done. cbn. rewrite fill_exact by done. cbn.
  by rewrite Hl, Nat.sub_diag.
Qed.

Lemma writePrepared_sent bs message data : writePrepared (mkOut bs []) message (Ok data) = (mkOut (bs ++ data) [], Ok tt).
Proof. done. Qed.

Lemma writeEach_sent parts : forall bs, writeEach (mkOut bs []) (map Ok parts) = (mkOut (bs ++ concat parts) [], Ok tt).
Proof. induction parts as [|p parts IH]; intros bs; cbn; [by rewrite app_nil_r|]. by rewrite IH, <- app_assoc. Qed.

(** The three handshakes of a stream send the same bytes. *)
Lemma handshake_raw bs key d w payload : WriteAddrPort d = Ok w ->
  ClientHandshakeRaw (mkOut bs []) key CommandTCP d payload = (mkOut (bs ++ request key CommandTCP w ++ payload) [], Ok tt).
Proof.
  intros Hw. unfold ClientHandshakeRaw. rewrite Hw.
  replace (_ ++ _) with (map (Ok (A := bytes)) ([key; CRLF; [byteOf CommandTCP]; w; CRLF] ++ if nonempty payload then [payload] else []))
    by (by destruct payload).
  rewrite writeEach_sent. unfold request. do 3 f_equal. rewrite concat_app. cbn [concat]. rewrite app_nil_r, <- !app_assoc.
  do 5 f_equal. destruct payload; cbn; by rewrite ?app_nil_r.
Qed.

Lemma handshake_sent bs key d w payload : WriteAddrPort d = Ok w -> length key = KeyLength ->
  ClientHandshake (mkOut bs []) key d payload = (mkOut (bs ++ request key CommandTCP w ++ payload) [], Ok tt).
Proof.
  intros Hw Hk. unfold ClientHandshake. rewrite Hw. cbn [mbind result_bind]. rewrite (AddrPortLen_exact d w Hw).
  rewrite fill_exact by (cbn [concat]; rewrite !length_app, Hk; unfold KeyLength, CRLF; cbn [length]; lia).
  rewrite writePrepared_sent. unfold request. cbn [concat]. by rewrite app_nil_r, <- !app_assoc.
Qed.

Lemma handshake_buffer_sent bs key d w b : WriteAddrPort d = Ok w -> length key = KeyLength ->
  (KeyLength + length w + 5 <= b_start b)%nat ->
  ClientHandshakeBuffer (mkOut bs []) key d b = (mkOut (bs ++ request key CommandTCP w ++ b_data b) [], Ok tt).
Proof.
  intros Hw Hk Hs. unfold ClientHandshakeBuffer. rewrite (AddrPortLen_exact d w Hw).
  rewrite (prepend_exact b _ _ [key; CRLF; [byteOf CommandTCP]; w; CRLF]).
  - rewrite writePrepared_sent. unfold request. cbn [concat]. by rewrite app_nil_r, <- !app_assoc.
  - done.
  - by rewrite Hw.
  - cbn [concat]. rewrite !length_app, Hk. unfold KeyLength, CRLF. cbn [length]. lia.
Qed.

Lemma handshake_packet_sent bs key d w b : WriteAddrPort d = Ok w -> length key = KeyLength -> len (b_data b) < 2 ^ 16 ->
  ClientHandshakePacket (mkOut bs []) key d b =
  (mkOut (bs ++ request key CommandUDP w ++ chunk w (b_data b)) [], Ok tt).
Proof.
  intros Hw Hk Hl. unfold ClientHandshakePacket. rewrite Hw. cbn [mbind result_bind]. rewrite (AddrPortLen_exact d w Hw).
  unfold u16. rewrite wrap_small by (unfold len in *; lia).
  assert (length (concat [key; CRLF; [byteOf CommandUDP]; w; CRLF; w; be 2 (len (b_data b)); CRLF])
    = (KeyLength + 2 * length w + 9)%nat) as Hlen
    by (cbn [concat]; rewrite !length_app, Hk, be_length; unfold KeyLength, CRLF; cbn [length]; lia).
  destruct (Nat.leb_spec (KeyLength + 2 * length w + 9) (b_start b)) as [Hs|_].
  - rewrite (prepend_exact b _ _ [key; CRLF; [byteOf CommandUDP]; w; CRLF; w; be 2 (len (b_data b)); CRLF]) by done.
    rewrite writePrepared_sent. unfold request, chunk. cbn [concat]. by rewrite app_nil_r, <- !app_assoc.
  - rewrite fill_exact, !writePrepared_sent by done. unfold request, chunk. cbn [concat]. by rewrite app_nil_r, <- !app_assoc.
Qed.

Lemma write_packet_sent bs d w b : WriteAddrPort d = Ok w -> len (b_data b) < 2 ^ 16 -> (length w + 4 <= b_start b)%nat ->
  WritePacket (mkOut bs []) b d = (mkOut (bs ++ chunk w (b_data b)) [], Ok tt).
Proof.
  intros Hw Hl Hs. unfold WritePacket. rewrite (AddrPortLen_exact d w Hw). unfold u16. rewrite wrap_small by (unfold len in *; lia).
  rewrite (prepend_exact b _ _ [w; be 2 (len (b_data b)); CRLF]).
  - rewrite writePrepared_sent. unfold chunk. cbn [concat]. by rewrite app_nil_r, <- !app_assoc.
  - done.
  - by rewrite Hw.
  - cbn [concat]. rewrite !length_app, be_length. unfold CRLF. cbn [length]. lia.
Qed.

(** * What the server reads *)

(** The users a service knows are those of the lists. *)
Definition knows (s : Service K) (userList : list K) (passwordList : list string) : Prop :=
  forall user key, keys s !! key = Some user <->
    exists i password, userList !! i = Some user /\ passwordList !! i = Some password /\ key = Key password.

Lemma collectUsers_knows (String : K -> string) userList : forall passwordList us ks us' ks',
  collectUsers String userList passwordList us ks = Ok (us', ks') ->
  forall key user, ks' !! key = Some user <-> ks !! key = Some user \/
    exists i password, userList !! i = Some user /\ passwordList !! i = Some password /\ key = Key password.
Proof.
  induction userList as [|u userList IH]; intros passwordList us ks us' ks' Hc key user; cbn [collectUsers] in Hc.
  - injection Hc as _ <-. split; [auto|]. by intros [?|(i & ? & ? & _)].
  - destruct (us !! u); [done|]. destruct passwordList as [|pw passwordList]; [done|].
    destruct (ks !! Key pw) eqn:Hk; [done|]. rewrite (IH _ _ _ _ _ Hc). rewrite lookup_insert_Some. split.
    + intros [[[<- <-]|[_ ?]]|(i & p & ? & ? & ?)]; [right; by exists 0%nat, pw|by left|right; by exists (S i), p].
    + intros [Hks|([|i] & p & Hu & Hp & ->)]; [|cbn in *; simplify_eq; auto|right; eauto].
      left. right. split; [|done]. intros <-. congruence.
Qed.

Lemma UpdateUsers_knows (s : Service K) String userList passwordList s' :
  UpdateUsers s String userList passwordList = (s', Ok tt) -> knows s' userList passwordList.
Proof.
  unfold UpdateUsers. destruct (collectUsers _ _ _ _ _) as [[us ks]|?|?] eqn:Hc; [|done..]. intros [= <-] user key. cbn.
  rewrite (collectUsers_knows _ _ _ _ _ _ _ Hc). split; [intros [?|?]; [set_solver|done]|auto].
Qed.

(** The key arrives with the first read. *)
Definition keyFirst (r : Reader) : Prop := exists c r', r = c :: r' /\ (KeyLength <= length c)%nat.

Lemma read_key r key rest : keyFirst r -> concat r = key ++ rest -> length key = KeyLength ->
  exists r', Reader_Read KeyLength r = (key, None, r') /\ concat r' = rest.
Proof.
  intros (c & r0 & -> & Hl) Hc Hk. exists (drop KeyLength c :: r0). cbn in Hc.
  assert (take KeyLength c = key /\ drop KeyLength c ++ concat r0 = rest) as [Ht Hd].
  { apply (f_equal (take KeyLength)) in Hc as Ht. rewrite take_app_le, take_app_length' in Ht by done.
    apply (f_equal (drop KeyLength)) in Hc as Hd. by rewrite drop_app_le, drop_app_length' in Hd by done. }
  destruct c as [|b c]; [cbn in Hl; unfold KeyLength in Hl; lia|]. cbn [Reader_Read]. by rewrite Ht.
Qed.

Lemma accept_request (s : Service K) user key command d w r rest :
  keys s !! key = Some user -> length key = KeyLength -> serializable d -> WriteAddrPort d = Ok w ->
  command = CommandTCP \/ command = CommandUDP -> keyFirst r -> concat r = request key command w ++ rest ->
  exists r', concat r' = rest /\
    NewConnection s r = Ok (if command =? CommandTCP then HandleConnection user d r' else HandlePacketConnection user d r').
Proof.
  intros Hkey Hk Hd Hw Hcmd Hf Hr. unfold request in Hr. rewrite <- !app_assoc in Hr.
  destruct (read_key r key _ Hf Hr Hk) as (r1 & Hr1 & Hc1). unfold NewConnection. rewrite Hr1, Hk, Nat.eqb_refl. cbn [negb]. rewrite Hkey.
  destruct (SkipN_app 2 r1 CRLF _ Hc1 eq_refl) as (r2 & -> & Hc2). cbn [cause mbind result_bind].
  assert (0 <= command < 256) as Hrange by (destruct Hcmd as [->| ->]; unfold CommandTCP, CommandUDP; lia).
  change [byteOf command] with (be 1 command) in Hc2.
  destruct (binaryRead_app 1 r2 command _ Hc2) as (r3 & -> & Hc3); [lia|]. cbn [cause mbind result_bind].
  destruct (ReadAddrPort_WriteAddrPort d w r3 _ Hd Hw Hc3) as (r4 & Hr4 & Hc4).
  destruct (SkipN_app 2 r4 CRLF _ Hc4 eq_refl) as (r5 & Hr5 & Hc5). exists r5. split; [done|].
  destruct Hcmd as [->| ->]; cbn [negb orb Z.eqb CommandTCP CommandUDP CommandMux Pos.eqb]; rewrite Hr4; cbn [cause mbind result_bind];
    by rewrite Hr5.
Qed.

(** * Streams *)

Inductive ClientOp := OpWrite (p : bytes) | OpWriteBuffer (b : Buffer).

Definition payloadOf (op : ClientOp) : bytes := match op with OpWrite p => p | OpWriteBuffer b => b_data b end.

(** Calls on a connection, all without an error. *)
Fixpoint clientRun (c : ClientConn) (ops : list ClientOp) : option ClientConn :=
  match ops with
  | [] => Some c
  | op :: ops' =>
      match match op with OpWrite p => ClientConn_Write c p | OpWriteBuffer b => ClientConn_WriteBuffer c b end with
      | (c, Ok _) => clientRun c ops'
      | _ => None
      end
  end.

(** The room [FrontHeadroom] asks for. *)
Definition headroom (n : nat) (op : ClientOp) : Prop := match op with OpWrite _ => True | OpWriteBuffer b => (n <= b_start b)%nat end.

Lemma clientRun_written ops : forall bs key d,
  clientRun (mkClientConn (mkOut bs []) key d true) ops =
  Some (mkClientConn (mkOut (bs ++ concat (map payloadOf ops)) []) key d true).
Proof.
  induction ops as [|op ops IH]; intros bs key d; cbn [clientRun map concat]; [by rewrite app_nil_r|].
  destruct op; cbn; unfold constant; cbn; rewrite IH, <- app_assoc; done.
Qed.

Lemma clientRun_sent key d w op ops : WriteAddrPort d = Ok w -> length key = KeyLength ->
  headroom (KeyLength + 5 + length w) op ->
  clientRun (NewClientConn (mkOut [] []) key d) (op :: ops) =
  Some (mkClientConn (mkOut (request key CommandTCP w ++ concat (map payloadOf (op :: ops))) []) key d true).
Proof.
  intros Hw Hk Hh. cbn [clientRun]. unfold NewClientConn, ClientConn_Write, ClientConn_WriteBuffer. cbn [cc_headerWritten cc_conn cc_key cc_destination].
  destruct op as [p|b].
  - rewrite (handshake_sent [] key d w p) by done. cbn. unfold constant. cbn. rewrite clientRun_written. by rewrite <- app_assoc.
  - rewrite (handshake_buffer_sent [] key d w b) by (done || (unfold headroom in Hh; lia)). cbn. unfold constant. cbn. rewrite clientRun_written. by rewrite <- app_assoc.
Qed.

(** A first read of less than the key is taken for a bad request. *)
Lemma short_key (s : Service K) part rest : (0 < length part < KeyLength)%nat ->
  NewConnection s (part :: rest) = fallback s ([] :: rest) part (E_New "bad request size").
Proof.
  intros Hl. unfold NewConnection. destruct part as [|b part]; [cbn in Hl; lia|]. cbn [Reader_Read].
  rewrite take_ge, drop_ge by lia. rewrite (proj2 (Nat.eqb_neq _ _)) by lia. done.
Qed.

(** C34: A stream written by the client of a known user is handed to the handler with this
    user, the destination and exactly the data that was written, however the
    stream is cut after the key, if the first read returns the whole key of 56
    bytes.  If it returns a part of the key, the server hands the whole stream
    to the fallback, or fails without one.  The destination can be serialized,
    and a buffer that is written first has the headroom that is asked for. *)
Theorem trojan_stream_delivered (s : Service K) userList passwordList i user password d w op ops c r :
  knows s userList passwordList -> userList !! i = Some user -> passwordList !! i = Some password ->
  serializable d -> WriteAddrPort d = Ok w -> headroom (KeyLength + 5 + length w) op ->
  clientRun (NewClientConn (mkOut [] []) (Key password) d) (op :: ops) = Some c ->
  concat r = sent (cc_conn c) ->
  (keyFirst r -> exists r', NewConnection s r = Ok (HandleConnection user d r') /\ concat r' = concat (map payloadOf (op :: ops))) /\
  (forall part rest, r = part :: rest -> (0 < length part < KeyLength)%nat ->
     if hasFallback s then exists r', NewConnection s r = Ok (HandleFallback r') /\ concat r' = concat r
     else NewConnection s r = Err (E_Extend (E_New "bad request size") "fallback disabled")).
Proof.
  intros Hs Hu Hp Hd Hw Hh Hc Hr. split.
  2: { intros part rest -> Hl. rewrite short_key by done. unfold fallback. destruct (hasFallback s); [|done].
       by eexists. }
  intros Hf. rewrite (clientRun_sent _ d w) in Hc by (done || apply Key_length). injection Hc as <-. cbn in Hr.
  destruct (accept_request s user (Key password) CommandTCP d w r _ (proj2 (Hs _ _) ltac:(eauto)) (Key_length _) Hd Hw (or_introl eq_refl) Hf Hr)
    as (r' & Hr' & Ha). by exists r'.
Qed.

(** * Packets *)

Fixpoint packetRun (c : ClientPacketConn) (packets : list (Buffer * Socksaddr)) : option ClientPacketConn :=
  match packets with
  | [] => Some c
  | (b, d) :: packets' =>
      match ClientPacketConn_WritePacket c b d with
      | (c, Ok _) => packetRun c packets'
      | _ => None
      end
  end.

Fixpoint readPackets (r : Reader) (free : list nat) : result (list (bytes * Socksaddr) * Reader) :=
  match free with
  | [] => Ok ([], r)
  | n :: free' =>
      '(data, destination, r) ← ReadPacket r n;
      '(packets, r) ← readPackets r free';
      Ok ((data, destination) :: packets, r)
  end.

(** Packets the protocol can carry, and buffers with room for them. *)
Definition carried (p : Buffer * Socksaddr) : Prop :=
  serializable p.2 /\ len (b_data p.1) < 2 ^ 16 /\
  exists w, WriteAddrPort p.2 = Ok w /\ (length w + 4 <= b_start p.1)%nat.

Definition chunks (packets : list (Buffer * Socksaddr)) : bytes :=
  concat (map (fun p => match WriteAddrPort p.2 with Ok w => chunk w (b_data p.1) | _ => [] end) packets).

Lemma packetRun_written packets : Forall carried packets -> forall bs key,
  packetRun (mkClientPacketConn (mkOut bs []) key true) packets =
  Some (mkClientPacketConn (mkOut (bs ++ chunks packets) []) key true).
Proof.
  induction 1 as [|[b d] packets (Hd & Hl & w & Hw & Hs) _ IH]; intros bs key; cbn [packetRun]; [unfold chunks; cbn; by rewrite app_nil_r|].
  unfold ClientPacketConn_WritePacket. cbn [cp_headerWritten negb cp_conn]. rewrite (write_packet_sent _ d w) by done.
  cbn. unfold constant. cbn. rewrite IH. unfold chunks. cbn [map concat]. cbn [fst snd] in *. rewrite Hw. by rewrite <- app_assoc.
Qed.

Lemma ReadPacket_chunk r d w data rest free : serializable d -> WriteAddrPort d = Ok w -> len data < 2 ^ 16 ->
  (length data <= free)%nat -> concat r = chunk w data ++ rest ->
  exists r', ReadPacket r free = Ok (data, d, r') /\ concat r' = rest.
Proof.
  intros Hd Hw Hl Hf Hr. unfold chunk in Hr. rewrite <- !app_assoc in Hr. unfold ReadPacket.
  destruct (ReadAddrPort_WriteAddrPort d w r _ Hd Hw Hr) as (r1 & -> & Hc1). cbn [cause mbind result_bind].
  destruct (binaryRead_app 2 r1 (len data) _ Hc1) as (r2 & -> & Hc2); [unfold len in *; lia|]. cbn [cause mbind result_bind].
  destruct (SkipN_app 2 r2 CRLF _ Hc2 eq_refl) as (r3 & -> & Hc3). cbn [cause mbind result_bind].
  unfold len. rewrite Nat2Z.id, (proj2 (Nat.ltb_ge _ _)) by done.
  destruct (readExact_app (length data) r3 data rest Hc3 eq_refl) as (r4 & -> & Hc4). by exists r4.
Qed.

Lemma readPackets_chunks packets : Forall carried packets -> forall r free,
  Forall2 (fun p n => (length (b_data p.1) <= n)%nat) packets free -> concat r = chunks packets ->
  exists r', readPackets r free = Ok (map (fun p => (b_data p.1, p.2)) packets, r') /\ concat r' = [].
Proof.
  induction 1 as [|[b d] packets (Hd & Hl & w & Hw & Hs) _ IH]; intros r free Hfree Hr.
  - inversion Hfree; subst. by exists r.
  - inversion Hfree as [|? n ? free' Hn Hfree']; subst. unfold chunks in Hr. cbn [map concat fst snd] in *. rewrite Hw in Hr.
    destruct (ReadPacket_chunk r d w (b_data b) _ n Hd Hw Hl Hn Hr) as (r1 & Hr1 & Hc1).
    destruct (IH r1 free' Hfree' Hc1) as (r2 & Hr2 & Hc2). exists r2. cbn [readPackets map]. rewrite Hr1. cbn [mbind result_bind].
    by rewrite Hr2.
Qed.

(** C36: Packets below 64 KiB sent by the client of a known user are handed to the handler
    one by one, each with its own destination and in the order they were
    sent, however the stream is cut after the key, if the first read returns the
    whole key of 56 bytes.  The destinations can be serialized, the buffers of the
    client have the headroom that is asked for, and those of the server hold the
    packets. *)
Theorem trojan_packets_delivered (s : Service K) userList passwordList i user password b d packets c r free :
  knows s userList passwordList -> userList !! i = Some user -> passwordList !! i = Some password ->
  Forall carried ((b, d) :: packets) ->
  packetRun (NewClientPacketConn (mkOut [] []) (Key password)) ((b, d) :: packets) = Some c ->
  keyFirst r -> concat r = sent (cp_conn c) ->
  Forall2 (fun p n => (length (b_data p.1) <= n)%nat) ((b, d) :: packets) free ->
  exists r' r'', NewConnection s r = Ok (HandlePacketConnection user d r') /\
    readPackets r' free = Ok (map (fun p => (b_data p.1, p.2)) ((b, d) :: packets), r'') /\ concat r'' = [].
Proof.
  intros Hs Hu Hp Hcar Hc Hf Hr Hfree. pose proof Hcar as [(Hd & Hl & w & Hw & _) Hrest]%Forall_cons_iff. cbn [fst snd] in *.
  cbn [packetRun] in Hc. unfold ClientPacketConn_WritePacket, NewClientPacketConn in Hc. cbn [cp_headerWritten negb cp_conn cp_key] in Hc.
  rewrite (handshake_packet_sent [] (Key password) d w b) in Hc by (done || apply Key_length). cbn in Hc. unfold constant in Hc. cbn in Hc.
  rewrite packetRun_written in Hc by done. injection Hc as <-. cbn in Hr. rewrite <- app_assoc in Hr.
  destruct (accept_request s user (Key password) CommandUDP d w r _ (proj2 (Hs _ _) ltac:(eauto)) (Key_length _) Hd Hw (or_intror eq_refl) Hf Hr)
    as (r' & Hr' & Ha). exists r'.
  destruct (readPackets_chunks ((b, d) :: packets) Hcar r' free Hfree) as (r'' & Hread & Hend); [|by exists r''].
  rewrite Hr'. unfold chunks. cbn [map concat fst snd]. by rewrite Hw.
Qed.

(** * Authentication *)

(** C35: The server hands a connection to its handler only when the stream starts with the
    key of the user it names; otherwise it fails, or hands the whole stream to
    the fallback, nothing lost. *)
Theorem trojan_authenticates (s : Service K) userList passwordList r a : knows s userList passwordList ->
  NewConnection s r = Ok a ->
  let authentic user :=
    exists i password rest, userList !! i = Some user /\ passwordList !! i = Some password /\ concat r = Key password ++ rest in
  match a with
  | HandleConnection user _ _ | HandlePacketConnection user _ _ | HandleMux user _ => authentic user
  | HandleFallback r' =>
      concat r' = concat r /\
      (keyFirst r -> ~ exists password rest, password ∈ take (length userList) passwordList /\ concat r = Key password ++ rest)
  end.
Proof.
  intros Hs Ha authentic. unfold NewConnection in Ha. destruct (Reader_Read KeyLength r) as [[key [err|]] r0] eqn:Hread; [done|].
  destruct (Reader_Read_data _ _ _ _ _ Hread) as (Hc & _).
  assert (forall e, fallback s r0 key e = Ok a -> a = HandleFallback (key :: r0)) as Hfall
    by (unfold fallback; intros e; destruct (hasFallback s); cbn; congruence).
  assert (keyFirst r -> forall password rest, concat r = Key password ++ rest -> key = Key password) as Hkey.
  { intros Hf password rest Hr. destruct (read_key r (Key password) rest Hf Hr (Key_length _)) as (r1 & Hr1 & _). congruence. }
  assert (a = HandleFallback (key :: r0) -> (keyFirst r -> keys s !! key = None) ->
    match a with
    | HandleConnection user _ _ | HandlePacketConnection user _ _ | HandleMux user _ => authentic user
    | HandleFallback r' => concat r' = concat r /\
        (keyFirst r -> ~ exists password rest, password ∈ take (length userList) passwordList /\ concat r = Key password ++ rest)
    end) as Hdone.
  { intros -> Hnone. split; [done|]. intros Hf (password & rest & Hin & Hr). specialize (Hkey Hf _ _ Hr). subst key.
    apply list_elem_of_lookup in Hin as [j Hj]. apply lookup_take_Some in Hj as [Hj Hlt].
    apply lookup_lt_is_Some in Hlt as [user Hu]. specialize (Hnone Hf).
    by rewrite (proj2 (Hs user (Key password)) ltac:(eauto)) in Hnone. }
  destruct (length key =? KeyLength)%nat eqn:Hlen; cbn [negb] in Ha.
  2:{ apply Hdone; [by eapply Hfall|]. intros (c & r1 & -> & Hl). exfalso. apply Nat.eqb_neq in Hlen. apply Hlen.
      destruct c as [|b c]; [cbn in Hl; unfold KeyLength in Hl; lia|]. 
      assert (key = take KeyLength (b :: c)) as -> by (cbn [Reader_Read] in Hread; congruence).
      rewrite length_take. lia. }
  destruct (keys s !! key) as [user|] eqn:Hk; [|apply Hdone; [by eapply Hfall|done]].
  assert (authentic user) as Hauth.
  { apply Hs in Hk as (j & password & Hu & Hp & ->). by exists j, password, (concat r0). }
  repeat first [ progress inv_ok
               | match goal with p : _ * _ |- _ => destruct p end
               | match goal with H : (if ?b then _ else _) = Ok _ |- _ => destruct b end ]; exact Hauth.
Qed.
End spec.

(** * An instance *)

(** Addresses as in SOCKS 5. *)
Definition socksWrite (d : Socksaddr) : result bytes :=
  match sa_Addr d with
  | AddrZero =>
      if (String.length (sa_Fqdn d) <? 256)%nat
      then Ok (be 1 3 ++ be 1 (Z.of_nat (String.length (sa_Fqdn d))) ++ stringBytes (sa_Fqdn d) ++ be 2 (sa_Port d))
      else Err (E_New "fqdn too long")
  | Addr4 ip => Ok (be 1 1 ++ be 4 ip ++ be 2 (sa_Port d))
  | Addr6 ip _ => Ok (be 1 4 ++ be 16 ip ++ be 2 (sa_Port d))
  end.

Definition socksRead (r : Reader) : result (Socksaddr * Reader) :=
  '(family, r) ← binaryRead 1 r;
  if family =? 3 then
    '(n, r) ← binaryRead 1 r;
    '(fqdn, r) ← readExact (Z.to_nat n) r;
    '(port, r) ← binaryRead 2 r;
    Ok (mkSocksaddr AddrZero port (String.string_of_list_byte fqdn), r)
  else
    '(ip, r) ← binaryRead (if family =? 1 then 4 else 16) r;
    '(port, r) ← binaryRead 2 r;
    Ok (mkSocksaddr (if family =? 1 then Addr4 ip else Addr6 ip "") port "", r).

#[local] Instance demoTrojan : TrojanLibs := {|
  WriteAddrPort := socksWrite;
  AddrPortLen d := match socksWrite d with Ok w => length w | _ => 0%nat end;
  ReadAddrPort := socksRead;
  Sum224 b := take 28 (b ++ replicate 28 (byteOf 0))
|}.

Lemma socksRead_write d w r rest : serializable d -> socksWrite d = Ok w -> concat r = w ++ rest ->
  exists r', socksRead r = Ok (d, r') /\ concat r' = rest.
Proof.
  intros (Hp & Hwf & Hd) Hw Hr. unfold socksWrite in Hw. unfold socksRead. destruct d as [addr port fqdn]; cbn [sa_Addr sa_Port sa_Fqdn] in *.
  destruct addr as [|ip|ip zone].
  - rewrite (proj2 (Nat.ltb_lt _ _)) in Hw by lia. match type of Hw with Ok ?x = _ => assert (w = x) as -> by congruence end. rewrite <- !app_assoc in Hr.
    destruct (binaryRead_app 1 r 3 _ Hr) as (r1 & -> & Hc1); [lia|]. cbn [mbind result_bind Z.eqb Pos.eqb].
    destruct (binaryRead_app 1 r1 (Z.of_nat (String.length fqdn)) _ Hc1) as (r2 & -> & Hc2); [lia|]. cbn [mbind result_bind].
    rewrite Nat2Z.id. destruct (readExact_app _ r2 _ _ Hc2 (stringBytes_length fqdn)) as (r3 & -> & Hc3). cbn [mbind result_bind].
    destruct (binaryRead_app 2 r3 port rest Hc3) as (r4 & -> & Hc4); [lia|]. exists r4. split; [|done]. cbn.
    unfold stringBytes. by rewrite String.string_of_list_byte_of_string.
  - match type of Hw with Ok ?x = _ => assert (w = x) as -> by congruence end. destruct Hd as (-> & _). rewrite <- !app_assoc in Hr. cbn in Hwf.
    destruct (binaryRead_app 1 r 1 _ Hr) as (r1 & -> & Hc1); [lia|]. cbn [mbind result_bind Z.eqb Pos.eqb].
    destruct (binaryRead_app 4 r1 ip _ Hc1) as (r2 & -> & Hc2); [lia|]. cbn [mbind result_bind].
    destruct (binaryRead_app 2 r2 port rest Hc2) as (r3 & -> & Hc3); [lia|]. by exists r3.
  - match type of Hw with Ok ?x = _ => assert (w = x) as -> by congruence end. destruct Hd as (-> & Hz & _). rewrite <- !app_assoc in Hr. cbn in Hwf, Hz.
    destruct (binaryRead_app 1 r 4 _ Hr) as (r1 & -> & Hc1); [lia|]. cbn [mbind result_bind Z.eqb Pos.eqb].
    destruct (binaryRead_app 16 r1 ip _ Hc1) as (r2 & -> & Hc2); [lia|]. cbn [mbind result_bind].
    destruct (binaryRead_app 2 r2 port rest Hc2) as (r3 & -> & Hc3); [lia|]. exists r3. split; [|done]. cbn.
    by destruct zone.
Qed.

#[local] Instance demoTrojanLaws : TrojanLaws.
Proof.
  split.
  - intros d w Hw. cbn in *. by rewrite Hw.
  - apply socksRead_write.
  - intros b. cbn [Sum224 demoTrojan]. rewrite length_take, length_app, length_replicate. lia.
Qed.

Definition demoDestination : Socksaddr := mkSocksaddr AddrZero 443 "example.com".

Definition demoService : Service nat :=
  (UpdateUsers (NewService true) (fun _ => "user") [7%nat; 8%nat] ["secret"; "other"]).1.

Lemma demo_knows : knows demoService [7%nat; 8%nat] ["secret"; "other"].
Proof. apply (UpdateUsers_knows (NewService true) (fun _ => "user")). vm_compute. reflexivity. Qed.

Lemma demo_serializable : serializable demoDestination.
Proof. unfold serializable. cbn. lia. Qed.

Lemma keyFirst_all (data : bytes) : (KeyLength <= length data)%nat -> keyFirst [data].
Proof. intros Hl. by exists data, []. Qed.

Definition demoSent : bytes := request (Key "other") CommandTCP (be 1 3 ++ be 1 11 ++ stringBytes "example.com" ++ be 2 443) ++ stringBytes "GET /".

Lemma trojan_stream_delivered_witness : exists r',
  NewConnection demoService [demoSent] = Ok (HandleConnection 8%nat demoDestination r') /\ concat r' = stringBytes "GET /".
Proof.
  refine (proj1 (trojan_stream_delivered demoService _ _ 1 8%nat "other" demoDestination _ (OpWrite (stringBytes "GET ")) [OpWrite (stringBytes "/")]
    _ [demoSent] demo_knows eq_refl eq_refl demo_serializable eq_refl I _ _) _).
  - vm_compute. reflexivity.
  - vm_compute. reflexivity.
  - apply keyFirst_all. vm_compute. lia.
Defined.

Definition demoPackets : list (Buffer * Socksaddr) :=
  [(mkBuffer 100 (stringBytes "one"), demoDestination); (mkBuffer 100 [], mkSocksaddr (Addr4 16909060) 53 "")].

Definition demoPacketsSent : bytes := request (Key "secret") CommandUDP (be 1 3 ++ be 1 11 ++ stringBytes "example.com" ++ be 2 443) ++ chunks demoPackets.

Lemma trojan_packets_delivered_witness : exists r' r'',
  NewConnection demoService [demoPacketsSent] = Ok (HandlePacketConnection 7%nat demoDestination r') /\
  readPackets r' [10%nat; 0%nat] = Ok ([(stringBytes "one", demoDestination); ([], mkSocksaddr (Addr4 16909060) 53 "")], r'') /\ concat r'' = [].
Proof.
  refine (trojan_packets_delivered demoService _ _ 0 7%nat "secret" (mkBuffer 100 (stringBytes "one")) demoDestination
    (tail demoPackets) _ [demoPacketsSent] [10%nat; 0%nat] demo_knows eq_refl eq_refl _ _ _ _ _).
  - apply List.Forall_cons; [|apply List.Forall_cons; [|apply List.Forall_nil]].
    + split; [exact demo_serializable|]. split; [reflexivity|]. eexists. split; [reflexivity|]. vm_compute. lia.
    + split; [unfold serializable; cbn; split_and!; (lia || reflexivity)|]. split; [reflexivity|]. eexists. split; [reflexivity|].
      vm_compute. lia.
  - vm_compute. reflexivity.
  - apply keyFirst_all. vm_compute. lia.
  - vm_compute. reflexivity.
  - repeat constructor; cbn; lia.
Defined.

Lemma trojan_authenticates_witness : exists i password rest,
  [7%nat; 8%nat] !! i = Some 8%nat /\ ["secret"; "other"] !! i = Some password /\ concat [demoSent] = Key password ++ rest.
Proof.
  refine (trojan_authenticates demoService _ _ [demoSent] (HandleConnection 8%nat demoDestination [stringBytes "GET /"]) demo_knows _).
  vm_compute. reflexivity.
Defined.

(** What follows the address of a multiplexed stream in the same chunk is lost. *)
Lemma mux_loses_buffered : forall payload,
  newMuxConnection0 8%nat [be 1 1 ++ be 1 1 ++ be 4 16909060 ++ be 2 53 ++ payload] =
  Ok (HandleConnection 8%nat (mkSocksaddr (Addr4 16909060) 53 "") (if nonempty payload then [[]] else [])).
Proof. intros [|b payload]; reflexivity. Qed.

(** A packet of 64 KiB or more is announced with a shorter length. *)
Lemma long_packet_truncated : forall data, len data = 2 ^ 16 ->
  exists o, WritePacket (mkOut [] []) (mkBuffer 100 data) (mkSocksaddr (Addr4 16909060) 53 "") = (o, Ok tt) /\
    sent o = (be 1 1 ++ be 4 16909060 ++ be 2 53) ++ be 2 0 ++ CRLF ++ data.
Proof.
  intros data Hd. eexists (mkOut _ _). unfold WritePacket. cbn [b_data]. rewrite Hd. split; reflexivity.
Qed.
