(* ===== verification/Gun.v ===== *)
(** The framing of [transport/v2raygrpclite/conn.go]: a stream of bytes as gRPC
    messages. *)
From S2P Require Import Prelude Netip Metadata Bytes Streams.

(** * Buffered readers *)

(** [bufio.Reader]: what it has buffered, and the connection below. *)
Record Bufio := mkBufio { buffered : bytes; under : Reader }.

Definition bufioSize4096 : nat := 4096.

Definition ReadByte (b : Bufio) : result (byte * Bufio) :=
  match buffered b with
  | x :: rest => Ok (x, mkBufio rest (under b))
  | [] =>
      match Reader_Read bufioSize4096 (under b) with
      | (x :: rest, None, under') => Ok (x, mkBufio rest under')
      | (_, Some err, _) => Err err
      | ([], None, _) => Err (E_Lib "multiple Read calls return no data or error")
      end
  end.

(** [Discard], which fills the buffer when it is empty, as [ReadByte] does. *)
Fixpoint Discard (n : nat) (b : Bufio) : result Bufio :=
  match n with
  | O => Ok b
  | S n' => '(_, b) ← ReadByte b; Discard n' b
  end.

(** [Read] into [n] bytes: what is buffered, or at most one read below it. *)
Definition Bufio_Read (n : nat) (b : Bufio) : result (bytes * Bufio) :=
  if (n =? 0)%nat then Ok ([], b)
  else if nonempty (buffered b) then Ok (take n (buffered b), mkBufio (drop n (buffered b)) (under b))
  else if (bufioSize4096 <=? n)%nat then
    match Reader_Read n (under b) with
    | (data, None, under') => Ok (data, mkBufio [] under')
    | (_, Some err, _) => Err err
    end
  else
    match Reader_Read bufioSize4096 (under b) with
    | (data, None, under') => Ok (take n data, mkBufio (drop n data) under')
    | (_, Some err, _) => Err err
    end.

(** The loop of [binary.ReadUvarint] over [ReadByte]. *)
Fixpoint bufioUvarint (left i : nat) (x shift : Z) (b : Bufio) : result (Z * Bufio) :=
  match left with
  | O => Err errOverflow
  | S left' =>
      match ReadByte b with
      | Ok (v, b) =>
          let v := byteVal v in
          if v <? 128 then
            if (i =? MaxVarintLen64 - 1)%nat && (1 <? v) then Err errOverflow
            else Ok (Z.lor x (u64 (Z.shiftl v shift)), b)
          else bufioUvarint left' (S i) (Z.lor x (u64 (Z.shiftl (Z.land v 127) shift))) (shift + 7) b
      | Err err => Err (if (0 <? i)%nat && bool_decide (err = IO_EOF) then IO_UnexpectedEOF else err)
      | Panic s => Panic s
      end
  end.

(** * Connections *)

Record GunConn := mkGunConn { gun_reader : Bufio; gun_readRemaining : Z }.

Definition newGunConn (reader : Reader) : GunConn := mkGunConn (mkBufio [] reader) 0.

(** A read of at most [readLen] of [n] bytes. *)
Definition readMessage (reader : Bufio) (n : nat) (readLen : Z) : result (bytes * GunConn) :=
  if (readLen <? Z.of_nat n) && (readLen <? 0) then Panic "slice bounds out of range"
  else
    '(data, reader) ← Bufio_Read (if readLen <? Z.of_nat n then Z.to_nat readLen else n) reader;
    Ok (data, mkGunConn reader (readLen - len data)).

(** [Read] into [n] bytes, once the connection is set up. *)
Definition GunConn_read (c : GunConn) (n : nat) : result (bytes * GunConn) :=
  if 0 <? gun_readRemaining c then readMessage (gun_reader c) n (gun_readRemaining c)
  else
    reader ← Discard 6 (gun_reader c);
    '(dataLen, reader) ← bufioUvarint MaxVarintLen64 0 0 0 reader;
    readMessage reader n (toInt dataLen).

(** The header of a message; [UvarintLen] is [varbin.UvarintLen].  [PutUvarint]
    panics when there is no room. *)
Definition gunHeader (UvarintLen : Z -> nat) (n : nat) : result bytes :=
  let varLen := UvarintLen (Z.of_nat n) in
  let uvarint := putUvarint 9 (Z.of_nat n) in
  if (varLen <? length uvarint)%nat then Panic "index out of range"
  else Ok ([byteOf 0] ++ be 4 (u32 (1 + Z.of_nat varLen + Z.of_nat n)) ++ [byteOf 10] ++
           uvarint ++ replicate (varLen - length uvarint) (byteOf 0)).

(** What [Write] writes to the connection, in one write. *)
Definition GunConn_Write (UvarintLen : Z -> nat) (b : bytes) : result bytes :=
  header ← gunHeader UvarintLen (length b); Ok (header ++ b).

(** [WriteBuffer] with [start] bytes of room before the data. *)
Definition GunConn_WriteBuffer (UvarintLen : Z -> nat) (start : nat) (data : bytes) : result bytes :=
  if (start <? 6 + UvarintLen (Z.of_nat (length data)))%nat then Panic "buffer overflow"
  else header ← gunHeader UvarintLen (length data); Ok (header ++ data).

Definition FrontHeadroom : nat := 6 + MaxVarintLen64.

(** * Reading *)

(** What is still to be read. *)
Definition stream (b : Bufio) : bytes := buffered b ++ concat (under b).

Lemma ReadByte_stream b x rest : stream b = x :: rest -> exists b', ReadByte b = Ok (x, b') /\ stream b' = rest.
Proof.
  unfold stream, ReadByte. destruct b as [[|y buf] src]; cbn [buffered under app].
  - intros Hs. destruct (Reader_Read bufioSize4096 src) as [[d err] src'] eqn:Hr.
    destruct (Reader_Read_data _ _ _ _ _ Hr) as (Hd & _ & Hne & Herr). destruct err as [err|].
    + destruct Herr as [_ Hn]; [done|]. by rewrite Hn in Hs.
    + destruct d as [|y d]; [exfalso; by apply Hne; [done|unfold bufioSize4096; lia|done]|].
      rewrite Hs in Hd. injection Hd as -> ->. by eexists.
  - intros [= -> <-]. by eexists.
Qed.

Lemma ReadByte_end b : stream b = [] -> ReadByte b = Err IO_EOF.
Proof.
  unfold stream, ReadByte. destruct b as [[|y buf] src]; cbn [buffered under app]; [|done]. intros Hs.
  destruct (Reader_Read bufioSize4096 src) as [[d err] src'] eqn:Hr.
  destruct (Reader_Read_data _ _ _ _ _ Hr) as (Hd & _ & Hne & Herr). destruct err as [err|].
  { destruct Herr as [Heq _]; [done|]. injection Heq as ->. by destruct d. }
  rewrite Hs in Hd. destruct d; [exfalso; by apply Hne; [done|unfold bufioSize4096; lia|]|done].
Qed.

Lemma Discard_stream w : forall b rest, stream b = w ++ rest -> exists b', Discard (length w) b = Ok b' /\ stream b' = rest.
Proof.
  induction w as [|x w IH]; intros b rest Hs; [by exists b|]. destruct (ReadByte_stream b x (w ++ rest) Hs) as (b1 & Hb & Hs1).
  cbn [length Discard]. rewrite Hb. by apply IH.
Qed.

Lemma Bufio_Read_stream n b : (0 < n)%nat -> stream b <> [] ->
  exists d b', Bufio_Read n b = Ok (d, b') /\ d <> [] /\ (length d <= n)%nat /\ stream b = d ++ stream b'.
Proof.
  intros Hn Hs. unfold Bufio_Read, stream in *. rewrite (proj2 (Nat.eqb_neq n 0)) by lia.
  destruct b as [[|y buf] src]; cbn [buffered under app nonempty] in *.
  - assert (forall m, (0 < m)%nat -> exists d src', Reader_Read m src = (d, None, src') /\ d <> [] /\ (length d <= m)%nat /\
      concat src = d ++ concat src') as Hread.
    { intros m Hm. destruct (Reader_Read m src) as [[d err] src'] eqn:Hr.
      destruct (Reader_Read_data _ _ _ _ _ Hr) as (Hd & Hl & Hne & Herr).
      destruct err; [by destruct Herr as [_ ?]|]. exists d, src'. auto. }
    destruct (bufioSize4096 <=? n)%nat.
    + destruct (Hread n Hn) as (d & src' & -> & ? & ? & ?). by exists d, (mkBufio [] src').
    + destruct (Hread bufioSize4096) as (d & src' & -> & Hd & Hl & Hc); [unfold bufioSize4096; lia|].
      exists (take n d), (mkBufio (drop n d) src'). split_and!; [done| | |].
      * destruct n; [lia|]. by destruct d.
      * rewrite length_take. lia.
      * cbn. by rewrite app_assoc, take_drop.
  - exists (take n (y :: buf)), (mkBufio (drop n (y :: buf)) src). split_and!; [done| | |].
    + by destruct n; [lia|].
    + rewrite length_take. lia.
    + cbn [buffered under]. by rewrite app_assoc, take_drop.
Qed.

(** The loop reads what the one over the data of a stream does. *)
Lemma bufioUvarint_stream left : forall i x shift b v rest,
  uvarintLoop IO_EOF left i x shift (stream b) = Ok (v, rest) ->
  exists b', bufioUvarint left i x shift b = Ok (v, b') /\ stream b' = rest.
Proof.
  induction left as [|left IH]; intros i x shift b v rest; cbn [uvarintLoop bufioUvarint]; [done|].
  destruct (stream b) as [|y s] eqn:Hs; [done|]. destruct (ReadByte_stream b y s Hs) as (b1 & -> & Hs1).
  destruct (byteVal y <? 128).
  - destruct (_ && _); [done|]. intros [= <- <-]. by exists b1.
  - intros Hv. apply IH. by rewrite Hs1.
Qed.

(** * The round trip *)

Section roundtrip.
Variable UvarintLen : Z -> nat.
Hypothesis UvarintLen_exact : forall n, 0 <= n < 2 ^ 63 -> UvarintLen n = length (putUvarint 9 n).

Definition short (p : bytes) : Prop := len p < 2 ^ 63.

(** The header up to the length, as it is discarded. *)
Lemma frame_parts p : short p -> exists h, length h = 6%nat /\ GunConn_Write UvarintLen p = Ok (h ++ putUvarint 9 (len p) ++ p).
Proof.
  intros Hp. unfold GunConn_Write, gunHeader. unfold short, len in *. rewrite UvarintLen_exact by lia. rewrite Nat.ltb_irrefl.
  cbn [mbind result_bind]. rewrite Nat.sub_diag. eexists ([byteOf 0] ++ be 4 _ ++ [byteOf 10]). split; [by rewrite !length_app, be_length|].
  f_equal. cbn [replicate]. rewrite app_nil_r, <- !app_assoc. done.
Qed.

(** Both ways to write a message send the same bytes. *)
Lemma write_buffer_same start p : short p -> (FrontHeadroom <= start)%nat ->
  GunConn_WriteBuffer UvarintLen start p = GunConn_Write UvarintLen p.
Proof.
  intros Hp Hs. unfold GunConn_WriteBuffer. unfold short, len in *. rewrite UvarintLen_exact by lia.
  assert (forall k n, (length (putUvarint k n) <= S k)%nat) as Hlen.
  { induction k as [|k IH]; intros n; cbn; [lia|]. destruct (_ <? _); cbn; [lia|]. specialize (IH (n / 128)). lia. }
  specialize (Hlen 9%nat (Z.of_nat (length p))). unfold FrontHeadroom, MaxVarintLen64 in Hs.
  by rewrite (proj2 (Nat.ltb_ge _ _)) by lia.
Qed.

(** A connection in the middle of a message, with [data] still to come. *)
Definition awaits (c : GunConn) (data : bytes) : Prop :=
  exists p ps frames, Forall short (p :: ps) /\ mapR (GunConn_Write UvarintLen) ps = Ok frames /\
    stream (gun_reader c) = p ++ concat frames /\ gun_readRemaining c = len p /\ data = p ++ concat ps.

(** Reading on in the message [p]. *)
Lemma readMessage_awaits reader n p ps frames : (0 < n)%nat -> Forall short (p :: ps) ->
  mapR (GunConn_Write UvarintLen) ps = Ok frames -> stream reader = p ++ concat frames ->
  exists d c data, readMessage reader n (len p) = Ok (d, c) /\ awaits c data /\ p ++ concat ps = d ++ data /\
    (p <> [] -> d <> []) /\ stream reader = d ++ stream (gun_reader c).
Proof.
  intros Hn Hs Hf Hr. unfold readMessage. pose proof (Zle_0_nat (length p)) as Hp0. fold (len p) in Hp0.
  rewrite (proj2 (Z.ltb_ge (len p) 0)), andb_false_r by lia. destruct p as [|x p].
  - exists [], (mkGunConn reader 0), (concat ps). change (len []) with 0. rewrite (proj2 (Z.ltb_lt 0 (Z.of_nat n))) by lia.
    split_and!; [done| |done..]. by exists [], ps, frames.
  - set (m := if len (x :: p) <? Z.of_nat n then Z.to_nat (len (x :: p)) else n).
    assert ((0 < m)%nat /\ (m <= length (x :: p))%nat) as [Hm Hmp].
    { unfold m, len. cbn [length]. destruct (Z.ltb_spec (Z.of_nat (S (length p))) (Z.of_nat n)); lia. }
    destruct (Bufio_Read_stream m reader Hm) as (d & b & -> & Hd & Hl & Hc); [by rewrite Hr|]. cbn [mbind result_bind].
    rewrite Hr in Hc. destruct (app_prefix _ _ _ _ Hc) as (q & Hq & Hb); [lia|].
    exists d, (mkGunConn b (len (x :: p) - len d)), (q ++ concat ps). rewrite Hq, <- app_assoc. split_and!; try done; [|by rewrite Hr, Hc].
    exists q, ps, frames. apply Forall_cons_iff in Hs as [Hx Hps]. rewrite Hq in Hx. unfold short, len in *. rewrite length_app in Hx.
    split_and!; [by constructor; [lia|]|done..| |done]. cbn. rewrite length_app. lia.
Qed.

Lemma read_uvarint reader n rest : stream reader = putUvarint 9 n ++ rest -> 0 <= n < 2 ^ 64 ->
  exists reader', bufioUvarint MaxVarintLen64 0 0 0 reader = Ok (n, reader') /\ stream reader' = rest.
Proof.
  intros Hr Hn. apply bufioUvarint_stream. rewrite Hr. pose proof (uvarintLoop_put IO_EOF rest 9 0 0 n eq_refl) as Hu.
  change (7 * Z.of_nat 0) with 0 in Hu. rewrite Z.sub_0_r in Hu.
  etransitivity; [apply Hu; [lia|done]|]. do 2 f_equal. lia.
Qed.

(** One call: it reads on, or the stream has ended. *)
Lemma read_awaits c data n : (0 < n)%nat -> awaits c data ->
  (data = [] /\ GunConn_read c n = Err IO_EOF) \/
  exists d c' data', GunConn_read c n = Ok (d, c') /\ awaits c' data' /\ data = d ++ data' /\
    (length (stream (gun_reader c')) < length (stream (gun_reader c)))%nat.
Proof.
  intros Hn (p & ps & frames & Hs & Hf & Hst & Hrem & ->). unfold GunConn_read. rewrite Hrem.
  destruct p as [|x p].
  - change (0 <? len []) with false. cbn [app] in *. destruct ps as [|q ps]; cbn in Hf.
    + injection Hf as <-. left. split; [done|]. cbn [Discard]. by rewrite ReadByte_end.
    + right. apply bind_Ok in Hf as (fr & Hq & Hf). apply bind_Ok in Hf as (frs & Hf & [= <-]).
      apply Forall_cons_iff in Hs as [_ Hs]. pose proof Hs as [Hsq _]%Forall_cons_iff.
      destruct (frame_parts q Hsq) as (h & Hh & Hq'). rewrite Hq in Hq'. injection Hq' as ->.
      cbn [concat] in Hst. rewrite <- !app_assoc in Hst.
      destruct (Discard_stream h (gun_reader c) _ Hst) as (b1 & Hb1 & Hs1). rewrite Hh in Hb1. rewrite Hb1. cbn [mbind result_bind].
      unfold short in Hsq. destruct (read_uvarint b1 (len q) _ Hs1) as (b2 & -> & Hs2); [unfold len in *; lia|]. cbn [mbind result_bind].
      unfold toInt. rewrite (proj2 (Z.ltb_lt _ _)) by done.
      destruct (readMessage_awaits b2 n q ps frs Hn Hs Hf Hs2) as (d & c' & data' & -> & Ha & Hd & _ & Hst').
      exists d, c', data'. split_and!; [done..|]. rewrite Hst, Hs2 in *. rewrite Hst', !length_app. lia.
  - right. rewrite (proj2 (Z.ltb_lt 0 (len (x :: p)))) by (unfold len; cbn; lia).
    destruct (readMessage_awaits (gun_reader c) n (x :: p) ps frames Hn Hs Hf Hst) as (d & c' & data' & -> & Ha & Hd & Hne & Hst').
    exists d, c', data'. split_and!; [done..|]. rewrite Hst', length_app. destruct d; [by destruct Hne|cbn; lia].
Qed.

(** C37: However a stream of messages is cut and whatever the sizes of the buffers,
    reading it to the end gives exactly the bytes that were written, and then
    the end of the stream; each read that succeeds uses up some of it. *)
Theorem gun_stream_delivered ps frames (r : Reader) sizes fuel :
  Forall short ps -> mapR (GunConn_Write UvarintLen) ps = Ok frames -> concat r = concat frames ->
  (forall i, (0 < sizes i)%nat) -> (length (concat r) < fuel)%nat ->
  drain GunConn_read fuel sizes (newGunConn r) = (concat ps, Some IO_EOF).
Proof.
  intros Hs Hf Hr Hsz Hfuel.
  apply (drain_awaits _ awaits (fun c => length (stream (gun_reader c))) (fun c data n => read_awaits c data n)); [done| |exact Hfuel].
  exists [], ps, frames. split_and!; [by constructor|done..].
Qed.
End roundtrip.

Definition demoUvarintLen (n : Z) : nat := length (putUvarint 9 n).

Definition demoMessages : list bytes := [stringBytes "hello"; []; stringBytes " world"].

Definition demoFrames : list bytes :=
  match mapR (GunConn_Write demoUvarintLen) demoMessages with Ok frames => frames | _ => [] end.

Definition demoChunks : Reader := [take 9 (concat demoFrames); []; drop 9 (concat demoFrames)].

Lemma gun_stream_delivered_witness :
  drain GunConn_read 40 (fun i => S (i mod 3)) (newGunConn demoChunks) = (stringBytes "hello world", Some IO_EOF).
Proof.
  apply (gun_stream_delivered demoUvarintLen (fun _ _ => eq_refl) demoMessages demoFrames demoChunks (fun i => S (i mod 3)) 40).
  - repeat (apply List.Forall_cons; [reflexivity|]). apply List.Forall_nil.
  - vm_compute. reflexivity.
  - vm_compute. reflexivity.
  - intros i. lia.
  - vm_compute. lia.
Defined.

(** A message that claims 2^63 bytes or more makes [Read] panic. *)
Lemma long_message_panics : exists header,
  forall n, (0 < n)%nat -> GunConn_read (newGunConn [replicate 6 (byteOf 0) ++ header]) n = Panic "slice bounds out of range".
Proof.
  exists (putUvarint 9 (2 ^ 63)). intros n Hn. unfold GunConn_read. cbn [newGunConn gun_readRemaining gun_reader Z.ltb Z.compare].
  match goal with |- (?m ≫= _) = _ => let v := eval vm_compute in m in change m with v end. cbn [mbind result_bind].
  match goal with |- (?m ≫= _) = _ => let v := eval vm_compute in m in change m with v end. cbn [mbind result_bind].
  unfold readMessage. match goal with |- context [toInt ?z] => let v := eval vm_compute in (toInt z) in change (toInt z) with v end.
  by rewrite (proj2 (Z.ltb_lt _ (Z.of_nat n))) by lia.
Qed.
