(* ===== verification/Group.v ===== *)
(** The outbound groups: [protocol/group/urltest.go], [protocol/group/selector.go],
    the test history of [common/urltest/urltest.go] and the connections of
    [common/interrupt/group.go]. *)
From S2P Require Import Prelude Netip Metadata.

(** * Outbounds *)

(** An outbound as a group sees it; [det_Now] is [Now()] of an outbound that is a
    group itself.  Outbounds are compared as pointers, here by [det_id]. *)
Record Detour := mkDetour {
  det_id : nat;
  det_Tag : string;
  det_Network : list string;
  det_Now : option string
}.

#[global] Instance Detour_eq_dec : EqDecision Detour.
Proof. solve_decision. Defined.

Definition RealTag (detour : Detour) : string := default (det_Tag detour) (det_Now detour).

Definition supports (network : string) (detour : Detour) : bool := bool_decide (network ∈ det_Network detour).

(** * Connections *)

Record groupConnItem := mkGroupConnItem { gc_conn : nat; gc_isExternal : bool }.

#[global] Instance groupConnItem_eq_dec : EqDecision groupConnItem.
Proof. solve_decision. Defined.

(** The open connections of a group, and those it has closed. *)
Record InterruptGroup := mkInterruptGroup { connections : list groupConnItem; closed : list nat }.

Definition NewConn (g : InterruptGroup) (conn : nat) (isExternal : bool) : InterruptGroup :=
  g {{ connections := connections g ++ [mkGroupConnItem conn isExternal] }}.

Definition Conn_Close (g : InterruptGroup) (item : groupConnItem) : InterruptGroup :=
  mkInterruptGroup (filter (fun it => it <> item) (connections g)) (closed g ++ [gc_conn item]).

Definition toInterrupt (external : bool) (item : groupConnItem) : bool := negb (gc_isExternal item) || external.

Definition Interrupt (g : InterruptGroup) (interruptExternalConnections : bool) : InterruptGroup :=
  mkInterruptGroup (filter (fun it => toInterrupt interruptExternalConnections it = false) (connections g))
    (closed g ++ map gc_conn (filter (fun it => toInterrupt interruptExternalConnections it = true) (connections g))).

(** * The history of tests *)

Record URLTestHistory := mkURLTestHistory { h_Time : Z; h_Delay : Z }.

Definition HistoryStorage : Type := gmap string URLTestHistory.

Definition LoadURLTestHistory (s : HistoryStorage) (tag : string) : option URLTestHistory := s !! tag.
Definition DeleteURLTestHistory (s : HistoryStorage) (tag : string) : HistoryStorage := delete tag s.
Definition StoreURLTestHistory (s : HistoryStorage) (tag : string) (history : URLTestHistory) : HistoryStorage :=
  <[tag := history]> s.

(** * Groups by test *)

Definition DefaultURLTestInterval : Z := 180 * 10 ^ 9.
Definition DefaultURLTestIdleTimeout : Z := 1800 * 10 ^ 9.

Record URLTestGroup := mkURLTestGroup {
  g_outbounds : list Detour;
  g_interval : Z;
  g_tolerance : Z;
  g_idleTimeout : Z;
  g_history : HistoryStorage;
  g_selectedOutboundTCP : option Detour;
  g_selectedOutboundUDP : option Detour;
  g_interruptGroup : InterruptGroup;
  g_interruptExternalConnections : bool;
  g_ticker : bool;
  g_started : bool;
  g_lastActive : Z
}.

Definition NewURLTestGroup (outbounds : list Detour) (interval tolerance idleTimeout : Z)
    (interruptExternalConnections : bool) (history : HistoryStorage) : result URLTestGroup :=
  let interval := if interval =? 0 then DefaultURLTestInterval else interval in
  let tolerance := if tolerance =? 0 then 50 else tolerance in
  let idleTimeout := if idleTimeout =? 0 then DefaultURLTestIdleTimeout else idleTimeout in
  if idleTimeout <? interval then Err (E_New "interval must be less or equal than idle_timeout")
  else Ok (mkURLTestGroup outbounds interval tolerance idleTimeout history None None (mkInterruptGroup [] [])
             interruptExternalConnections false false 0).

(** The selected outbound of a network; other networks have none. *)
Definition selectedFor (g : URLTestGroup) (network : string) : option Detour :=
  if String.eqb network NetworkTCP then g_selectedOutboundTCP g
  else if String.eqb network NetworkUDP then g_selectedOutboundUDP g
  else None.

(** [minDelay] and [minOutbound] before the loop of [Select]. *)
Definition selectStart (g : URLTestGroup) (network : string) : Z * option Detour :=
  match selectedFor g network with
  | None => (0, None)
  | Some selected =>
      match LoadURLTestHistory (g_history g) (RealTag selected) with
      | Some history => (h_Delay history, Some selected)
      | None => (0, None)
      end
  end.

Definition selectStep (g : URLTestGroup) (network : string) (acc : Z * option Detour) (detour : Detour) : Z * option Detour :=
  if negb (supports network detour) then acc
  else
    match LoadURLTestHistory (g_history g) (RealTag detour) with
    | None => acc
    | Some history =>
        if (acc.1 =? 0) || (u16 (h_Delay history + g_tolerance g) <? acc.1) then (h_Delay history, Some detour) else acc
    end.

Definition Select (g : URLTestGroup) (network : string) : option Detour * bool :=
  match (foldl (selectStep g network) (selectStart g network) (g_outbounds g)).2 with
  | Some minOutbound => (Some minOutbound, true)
  | None => (List.find (supports network) (g_outbounds g), false)
  end.

(** One half of [performUpdateCheck]: the new selection, and whether it replaces
    another. *)
Definition updateSelected (selection : option Detour * bool) (selected : option Detour) : option Detour * bool :=
  match selection.1 with
  | Some outbound =>
      if isNil selected || selection.2 && negb (bool_decide (selected = Some outbound))
      then (Some outbound, negb (isNil selected)) else (selected, false)
  | None => (selected, false)
  end.

Definition performUpdateCheck (g : URLTestGroup) : URLTestGroup :=
  let (tcp, updatedTCP) := updateSelected (Select g NetworkTCP) (g_selectedOutboundTCP g) in
  let g := g {{ g_selectedOutboundTCP := tcp }} in
  let (udp, updatedUDP) := updateSelected (Select g NetworkUDP) (g_selectedOutboundUDP g) in
  let g := g {{ g_selectedOutboundUDP := udp }} in
  if updatedTCP || updatedUDP
  then g {{ g_interruptGroup := Interrupt (g_interruptGroup g) (g_interruptExternalConnections g) }} else g.

(** The loop of [urlTest]: the outbounds that are tested, by tag and real tag;
    [manager] knows the outbounds by tag. *)
Fixpoint testsOf (g : URLTestGroup) (manager : string -> bool) (now : Z) (force : bool) (checked : list string)
    (outbounds : list Detour) : list (string * string) :=
  match outbounds with
  | [] => []
  | detour :: outbounds' =>
      let realTag := RealTag detour in
      if bool_decide (realTag ∈ checked) then testsOf g manager now force checked outbounds'
      else
        let recent := match LoadURLTestHistory (g_history g) realTag with
                      | Some history => now - h_Time history <? g_interval g
                      | None => false
                      end in
        if negb force && recent then testsOf g manager now force checked outbounds'
        else
          let next := testsOf g manager now force (realTag :: checked) outbounds' in
          if manager realTag then (det_Tag detour, realTag) :: next else next
  end.

(** A test that ends at [now] with a delay or an error. *)
Definition finishTest (now : Z) (probe : string -> option Z) (acc : HistoryStorage * gmap string Z) (test : string * string)
    : HistoryStorage * gmap string Z :=
  let '(history, result) := acc in
  let '(tag, realTag) := test in
  match probe realTag with
  | None => (DeleteURLTestHistory history realTag, result)
  | Some t => (StoreURLTestHistory history realTag (mkURLTestHistory now t), <[tag := t]> result)
  end.

(** [urlTest], unless a check is running: the tests run at the same time and end
    in the order [done], at [later]. *)
Definition urlTest (g : URLTestGroup) (later : Z) (probe : string -> option Z) (done : list (string * string))
    : URLTestGroup * gmap string Z :=
  let (history, result) := foldl (finishTest later probe) (g_history g, ∅) done in
  (performUpdateCheck (g {{ g_history := history }}), result).

(** [PostStart] up to the first check. *)
Definition Group_PostStart (g : URLTestGroup) (now : Z) : URLTestGroup := g {{ g_started := true; g_lastActive := now }}.

(** [Touch]; the flag says whether a [loopCheck] is started. *)
Definition Touch (g : URLTestGroup) (now : Z) : URLTestGroup * bool :=
  if negb (g_started g) then (g, false)
  else if g_ticker g then (g {{ g_lastActive := now }}, false)
  else (g {{ g_ticker := true }}, true).

(** The two parts of [loopCheck]: what happens at its start and at a tick; the
    flag says whether the outbounds are checked. *)
Definition loopCheckStart (g : URLTestGroup) (now : Z) : URLTestGroup * bool :=
  if g_interval g <? now - g_lastActive g then (g {{ g_lastActive := now }}, true) else (g, false).

Definition loopCheckTick (g : URLTestGroup) (now : Z) : URLTestGroup * bool :=
  if g_idleTimeout g <? now - g_lastActive g then (g {{ g_ticker := false }}, false) else (g, true).

Definition Group_Close (g : URLTestGroup) : URLTestGroup := g {{ g_ticker := false }}.

(** ** The outbound *)

Definition URLTest_Now (g : URLTestGroup) : string :=
  match g_selectedOutboundTCP g, g_selectedOutboundUDP g with
  | Some o, _ | None, Some o => det_Tag o
  | None, None => ""
  end.

(** The outbound of a connection: the selected one, or what [Select] offers. *)
Definition outboundFor (g : URLTestGroup) (network : string) (selected : option Detour) : option Detour :=
  match selected with Some o => Some o | None => (Select g network).1 end.

(** A connection through [outbound]: [dial] gives the connection or an error, and
    a failure forgets the test of the outbound. *)
Definition dialThrough (g : URLTestGroup) (outbound : option Detour) (isExternal : bool) (dial : Detour -> nat + GoError)
    : URLTestGroup * (nat + GoError) :=
  match outbound with
  | None => (g, inr (E_New "missing supported outbound"))
  | Some outbound =>
      match dial outbound with
      | inl conn => (g {{ g_interruptGroup := NewConn (g_interruptGroup g) conn isExternal }}, inl conn)
      | inr err => (g {{ g_history := DeleteURLTestHistory (g_history g) (det_Tag outbound) }}, inr err)
      end
  end.

(** [NetworkName] is [N.NetworkName]. *)
Definition URLTest_DialContext (NetworkName : string -> string) (g : URLTestGroup) (now : Z) (network : string)
    (isExternal : bool) (dial : Detour -> nat + GoError) : URLTestGroup * (nat + GoError) :=
  let g := (Touch g now).1 in
  let name := NetworkName network in
  if String.eqb name NetworkTCP then dialThrough g (outboundFor g network (g_selectedOutboundTCP g)) isExternal dial
  else if String.eqb name NetworkUDP then dialThrough g (outboundFor g network (g_selectedOutboundUDP g)) isExternal dial
  else (g, inr (E_Extend (E_New "unknown network") network)).

Definition URLTest_ListenPacket (g : URLTestGroup) (now : Z) (isExternal : bool) (dial : Detour -> nat + GoError)
    : URLTestGroup * (nat + GoError) :=
  let g := (Touch g now).1 in
  dialThrough g (outboundFor g NetworkUDP (g_selectedOutboundUDP g)) isExternal dial.

(** [NewDirectRouteConnection] up to the call of the selected outbound. *)
Definition URLTest_NewDirectRouteConnection (g : URLTestGroup) (now : Z) (network : string) : URLTestGroup * (Detour + GoError) :=
  let g := (Touch g now).1 in
  (g, match outboundFor g NetworkTCP (g_selectedOutboundTCP g) with
      | None => inr (E_New "missing supported outbound")
      | Some selected =>
          if negb (supports network selected) then inr (E_New (network +:+ " is not supported by outbound: " +:+ det_Tag selected))
          else inl selected
      end).

(** * Groups by hand *)

Record Selector := mkSelector {
  s_Tag : string;
  s_tags : list string;
  s_defaultTag : string;
  s_outbounds : gmap string Detour;
  s_selected : option Detour;
  s_interruptGroup : InterruptGroup;
  s_interruptExternalConnections : bool
}.

Definition NewSelector (tag : string) (tags : list string) (defaultTag : string) (interruptExternalConnections : bool)
    : result Selector :=
  if negb (nonempty tags) then Err (E_New "missing tags")
  else Ok (mkSelector tag tags defaultTag ∅ None (mkInterruptGroup [] []) interruptExternalConnections).

Definition Selector_Network (s : Selector) : list string :=
  match s_selected s with None => [NetworkTCP; NetworkUDP] | Some selected => det_Network selected end.

Definition Selector_Now (s : Selector) : result string :=
  match s_selected s, s_tags s with
  | Some selected, _ => Ok (det_Tag selected)
  | None, tag :: _ => Ok tag
  | None, [] => Panic "index out of range [0] with length 0"
  end.

(** [Start]: the outbounds by tag; then the selection of the cache file, the
    default one, or the first.  [cacheFile] has the selections by group, if
    there is one. *)
Fixpoint collectOutbounds `{Libs} (manager : string -> option Detour) (i : nat) (tags : list string)
    (outbounds : gmap string Detour) : result (gmap string Detour) :=
  match tags with
  | [] => Ok outbounds
  | tag :: tags' =>
      match manager tag with
      | None => Err (E_New ("outbound " +:+ F_ToString (Z.of_nat i) +:+ " not found: " +:+ tag))
      | Some detour => collectOutbounds manager (S i) tags' (<[tag := detour]> outbounds)
      end
  end.

(** The selection kept in the cache file, if it is still an outbound of the group. *)
Definition cachedSelection (s : Selector) (cacheFile : option (gmap string string)) : option Detour :=
  if String.eqb (s_Tag s) "" then None
  else
    match cacheFile with
    | None => None
    | Some cache =>
        let selected := default "" (cache !! s_Tag s) in
        if String.eqb selected "" then None else s_outbounds s !! selected
    end.

(** The outbound [Start] selects. *)
Definition startSelection (s : Selector) (cacheFile : option (gmap string string)) : result (option Detour) :=
  match cachedSelection s cacheFile with
  | Some detour => Ok (Some detour)
  | None =>
      if negb (String.eqb (s_defaultTag s) "") then
        match s_outbounds s !! s_defaultTag s with
        | None => Err (E_New ("default outbound not found: " +:+ s_defaultTag s))
        | Some detour => Ok (Some detour)
        end
      else
        match s_tags s with
        | [] => Panic "index out of range [0] with length 0"
        | tag :: _ => Ok (s_outbounds s !! tag)
        end
  end.

Definition Selector_Start `{Libs} (s : Selector) (manager : string -> option Detour) (cacheFile : option (gmap string string))
    : result Selector :=
  outbounds ← collectOutbounds manager 0 (s_tags s) (s_outbounds s);
  let s := s {{ s_outbounds := outbounds }} in
  selected ← startSelection s cacheFile;
  Ok (s {{ s_selected := selected }}).

(** [SelectOutbound], with the cache file it leaves. *)
Definition SelectOutbound (s : Selector) (cacheFile : option (gmap string string)) (tag : string)
    : bool * Selector * option (gmap string string) :=
  match s_outbounds s !! tag with
  | None => (false, s, cacheFile)
  | Some detour =>
      if bool_decide (s_selected s = Some detour) then (true, s, cacheFile)
      else
        let s := s {{ s_selected := Some detour }} in
        let cacheFile := if String.eqb (s_Tag s) "" then cacheFile else (fun cache => <[s_Tag s := tag]> cache) <$> cacheFile in
        (true, s {{ s_interruptGroup := Interrupt (s_interruptGroup s) (s_interruptExternalConnections s) }}, cacheFile)
  end.

(** [DialContext] and [ListenPacket], which differ in the call of the outbound. *)
Definition Selector_Dial (s : Selector) (isExternal : bool) (dial : Detour -> nat + GoError) : result (Selector * nat) :=
  match s_selected s with
  | None => Panic "invalid memory address or nil pointer dereference"
  | Some selected =>
      match dial selected with
      | inr err => Err err
      | inl conn => Ok (s {{ s_interruptGroup := NewConn (s_interruptGroup s) conn isExternal }}, conn)
      end
  end.

Definition Selector_NewDirectRouteConnection (s : Selector) (network : string) : result Detour :=
  match s_selected s with
  | None => Panic "invalid memory address or nil pointer dereference"
  | Some selected =>
      if negb (supports network selected) then Err (E_New (network +:+ " is not supported by outbound: " +:+ det_Tag selected))
      else Ok selected
  end.
