(* ===== verification/GroupSpec.v ===== *)
(** What the outbound groups select. *)
From S2P Require Import Prelude Netip Metadata Demo Group.

(** * Selection by delay *)

Section select.
Variables (g : URLTestGroup) (network : string).

Definition delayOf (g : URLTestGroup) (d : Detour) : option Z := h_Delay <$> g_history g !! RealTag d.

(** Delays that [Select] can tell from "none", and that do not overflow with the
    tolerance. *)
Definition representable (tolerance delay : Z) : Prop := 0 < delay /\ delay + tolerance < 2 ^ 16.

Hypothesis tolerance_nonneg : 0 <= g_tolerance g.
Hypothesis delays : forall d m, d ∈ g_outbounds g -> delayOf g d = Some m -> representable (g_tolerance g) m.
Hypothesis selected_in : forall s, selectedFor g network = Some s -> s ∈ g_outbounds g /\ supports network s = true.

(** What the loop of [Select] maintains after the outbounds [seen]. *)
Definition bestOf (seen : list Detour) (acc : Z * option Detour) : Prop :=
  match acc.2 with
  | None => acc.1 = 0 /\ (forall c, c ∈ seen -> supports network c = true -> delayOf g c = None) /\
            (forall s, selectedFor g network = Some s -> delayOf g s = None)
  | Some o =>
      o ∈ g_outbounds g /\ supports network o = true /\ delayOf g o = Some acc.1 /\
      (forall c m, c ∈ seen -> supports network c = true -> delayOf g c = Some m -> acc.1 <= m + g_tolerance g) /\
      (forall s m, selectedFor g network = Some s -> delayOf g s = Some m -> o = s \/ acc.1 + g_tolerance g < m)
  end.

Lemma selectStart_best : bestOf [] (selectStart g network).
Proof.
  unfold bestOf, selectStart, LoadURLTestHistory. destruct (selectedFor g network) as [s|] eqn:Hs.
  - destruct (g_history g !! RealTag s) as [h|] eqn:Hh; cbn.
    + destruct (selected_in s) as [Hin Hsup]; [done|]. split; [done|]. split; [done|]. unfold delayOf at 1. rewrite Hh.
      split; [done|]. split; [by intros c m Hc%not_elem_of_nil|]. intros s' m [= <-]. by left.
    + split; [done|]. split; [by intros c Hc%not_elem_of_nil|]. intros s' [= <-]. unfold delayOf. by rewrite Hh.
  - cbn. split; [done|]. split; [by intros c Hc%not_elem_of_nil|done].
Qed.

Lemma selectStep_best seen acc d :
  d ∈ g_outbounds g -> bestOf seen acc -> bestOf (d :: seen) (selectStep g network acc d).
Proof.
  intros Hd Hb. unfold selectStep. destruct (supports network d) eqn:Hsup; cbn [negb].
  2: { unfold bestOf in *. destruct acc.2; [destruct Hb as (? & ? & ? & Hm & Hsel)|destruct Hb as (? & Hn & ?)].
       - do 3 (split; [done|]). split; [|done]. intros c m [->|Hc]%elem_of_cons; [congruence|by eapply Hm].
       - split; [done|]. split; [|done]. intros c [->|Hc]%elem_of_cons; [congruence|by apply Hn]. }
  unfold LoadURLTestHistory. destruct (g_history g !! RealTag d) as [h|] eqn:Hh.
  2: { assert (delayOf g d = None) as Hnone by (unfold delayOf; by rewrite Hh). unfold bestOf in *.
       destruct acc.2; [destruct Hb as (? & ? & ? & Hm & Hsel)|destruct Hb as (? & Hn & ?)].
       - do 3 (split; [done|]). split; [|done]. intros c m [->|Hc]%elem_of_cons; [congruence|by eapply Hm].
       - split; [done|]. split; [|done]. intros c [->|Hc]%elem_of_cons; [done|by apply Hn]. }
  assert (delayOf g d = Some (h_Delay h)) as Hdelay by (unfold delayOf; by rewrite Hh).
  destruct (delays d _ Hd Hdelay) as [Hpos Hfits]. unfold u16. rewrite wrap_small by lia.
  unfold bestOf in Hb. destruct acc as [m [o|]]; cbn [fst snd] in *.
  - destruct Hb as (Ho & Hos & Hod & Hm & Hsel). destruct (delays o _ Ho Hod) as [Hmpos _].
    destruct (Z.eqb_spec m 0); [lia|]. cbn [orb]. destruct (Z.ltb_spec (h_Delay h + g_tolerance g) m).
    + unfold bestOf. cbn. do 3 (split; [done|]). split.
      * intros c m' [->|Hc]%elem_of_cons Hcs Hcm; [rewrite Hdelay in Hcm; simplify_eq; lia|]. specialize (Hm c m' Hc Hcs Hcm). lia.
      * intros s m' Hs Hsm. right. destruct (Hsel s m' Hs Hsm) as [->|]; [|lia]. rewrite Hod in Hsm. simplify_eq. lia.
    + unfold bestOf. cbn. do 3 (split; [done|]). split; [|done].
      intros c m' [->|Hc]%elem_of_cons Hcs Hcm; [rewrite Hdelay in Hcm; simplify_eq; lia|]. by eapply Hm.
  - destruct Hb as (-> & Hn & Hsel). cbn. unfold bestOf. cbn. do 3 (split; [done|]). split.
    + intros c m' [->|Hc]%elem_of_cons Hcs Hcm; [rewrite Hdelay in Hcm; simplify_eq; lia|]. by rewrite (Hn c Hc Hcs) in Hcm.
    + intros s m' Hs Hsm. by rewrite (Hsel s Hs) in Hsm.
Qed.

Lemma select_best : exists m, bestOf (g_outbounds g) (m, (foldl (selectStep g network) (selectStart g network) (g_outbounds g)).2).
Proof.
  assert (forall l seen acc, l ⊆ g_outbounds g -> bestOf seen acc ->
    bestOf (rev l ++ seen) (foldl (selectStep g network) acc l)) as Hfold.
  { induction l as [|d l IH]; intros seen acc Hl Hb; [done|]. cbn. rewrite <- app_assoc. cbn. apply IH; [set_solver|].
    apply selectStep_best; [set_solver|done]. }
  specialize (Hfold (g_outbounds g) [] _ ltac:(done) selectStart_best). rewrite app_nil_r in Hfold.
  destruct (foldl _ _ _) as [m o]. exists m. unfold bestOf in *. cbn in *.
  assert (forall c, c ∈ g_outbounds g -> c ∈ rev (g_outbounds g)) as Hrev
    by (intros c Hc; apply list_elem_of_In, in_rev; rewrite rev_involutive; by apply list_elem_of_In).
  destruct o; naive_solver.
Qed.

(** A supporting outbound, no slower than another beyond the tolerance; one that
    replaces another is faster beyond it. *)
Definition goodChoice (o : Detour) : Prop :=
  o ∈ g_outbounds g /\ supports network o = true /\
  (forall c m, c ∈ g_outbounds g -> supports network c = true -> delayOf g c = Some m ->
     exists d, delayOf g o = Some d /\ d <= m + g_tolerance g) /\
  (forall s d m, selectedFor g network = Some s -> o <> s -> delayOf g s = Some m -> delayOf g o = Some d -> d + g_tolerance g < m).

(** The selection after [performUpdateCheck]. *)
Lemma updated_best o :
  (updateSelected (Select g network) (selectedFor g network)).1 = Some o -> goodChoice o.
Proof.
  unfold Select, updateSelected. destruct select_best as (m0 & Hb). unfold bestOf in Hb. cbn [fst snd] in Hb.
  destruct (foldl _ _ _).2 as [b|].
  - destruct Hb as (Hbin & Hbs & Hbd & Hbm & Hsel). cbn [fst snd andb].
    assert (goodChoice b) as Hgoal.
    { do 2 (split; [done|]). split; [intros c m Hc Hcs Hcm; exists m0; split; [done|by eapply Hbm]|].
      intros s d m Hs Hne Hsm Hd. destruct (Hsel s m Hs Hsm) as [?|?]; [done|]. rewrite Hbd in Hd. by simplify_eq. }
    destruct (isNil (selectedFor g network) || _) eqn:E; cbn; [by intros [= <-]|].
    intros Hs. apply orb_false_iff in E as [_ E]. apply negb_false_iff, bool_decide_eq_true in E.
    assert (o = b) as -> by congruence. done.
  - destruct Hb as (_ & Hn & Hsel). cbn [fst snd andb]. rewrite orb_false_r.
    assert (forall o, o ∈ g_outbounds g /\ supports network o = true -> goodChoice o) as Hgoal.
    { intros o' [Hin Hsup]. do 2 (split; [done|]). split; [intros c m Hc Hcs Hcm; by rewrite (Hn c Hc Hcs) in Hcm|].
      intros s d m Hs Hne Hsm. by rewrite (Hsel s Hs) in Hsm. }
    destruct (List.find _ _) as [f|] eqn:Hf; cbn.
    + apply find_some in Hf as [Hfin Hfs]. destruct (selectedFor g network) as [s|] eqn:Hs; cbn.
      * intros [= <-]. apply Hgoal; by apply selected_in.
      * intros [= <-]. apply Hgoal. split; [by apply list_elem_of_In|done].
    + intros Hs. apply Hgoal; by apply selected_in.
Qed.

Lemma updated_none :
  (updateSelected (Select g network) (selectedFor g network)).1 = None -> forall c, c ∈ g_outbounds g -> supports network c = false.
Proof.
  unfold Select, updateSelected. destruct (foldl _ _ _).2 as [b|]; [by destruct (selectedFor g network); cbn; try case_match|].
  destruct (List.find _ _) as [f|] eqn:Hf; cbn; [by destruct (selectedFor g network)|].
  intros _ c Hc. eapply find_none; [done|]. by apply list_elem_of_In.
Qed.
End select.

(** * A round of tests *)

(** The tests may end in any order. *)
Lemma finished_history later probe done : forall acc t,
  (foldl (finishTest later probe) acc done).1 !! t =
  if decide (t ∈ map snd done) then mkURLTestHistory later <$> probe t else acc.1 !! t.
Proof.
  induction done as [|[tag t0] done IH]; intros [h r] t; cbn; [done|]. rewrite IH.
  assert (forall b, (finishTest later probe (h, r) (tag, t0)).1 !! b = if decide (b = t0) then mkURLTestHistory later <$> probe b else h !! b) as Hf.
  { intros b. unfold finishTest. destruct (probe t0) as [d|] eqn:Hp; cbn; unfold StoreURLTestHistory, DeleteURLTestHistory, HistoryStorage in *;
      case_decide as Hb; subst; rewrite ?lookup_insert_eq, ?lookup_delete_eq, ?Hp, ?lookup_insert_ne, ?lookup_delete_ne by done; done. }
  rewrite Hf. repeat case_decide; set_solver.
Qed.

Lemma tests_cover g manager now outbounds : (forall d, d ∈ outbounds -> manager (RealTag d) = true) ->
  forall checked d, d ∈ outbounds -> RealTag d ∈ checked \/ RealTag d ∈ map snd (testsOf g manager now true checked outbounds).
Proof.
  intros Hm. induction outbounds as [|d0 outbounds IH]; intros checked d Hd; [by apply not_elem_of_nil in Hd|].
  assert (forall d, d ∈ outbounds -> manager (RealTag d) = true) as Hm' by set_solver. specialize (IH Hm').
  cbn. case_bool_decide as Hc.
  - apply elem_of_cons in Hd as [->|Hd]; [by left|]. by apply IH.
  - rewrite (Hm d0) by left. cbn. apply elem_of_cons in Hd as [->|Hd]; [right; left|].
    destruct (IH (RealTag d0 :: checked) d Hd) as [[->|?]%elem_of_cons|?]; [right; left|by left|right; by right].
Qed.

Lemma performUpdateCheck_parts g :
  g_outbounds (performUpdateCheck g) = g_outbounds g /\ g_history (performUpdateCheck g) = g_history g /\
  g_selectedOutboundTCP (performUpdateCheck g) = (updateSelected (Select g NetworkTCP) (g_selectedOutboundTCP g)).1 /\
  g_selectedOutboundUDP (performUpdateCheck g) = (updateSelected (Select g NetworkUDP) (g_selectedOutboundUDP g)).1.
Proof.
  unfold performUpdateCheck. destruct (updateSelected (Select g NetworkTCP) _) as [tcp u1] eqn:H1.
  assert (Select (g {{ g_selectedOutboundTCP := tcp }}) NetworkUDP = Select g NetworkUDP) as Hs by by destruct g.
  cbv zeta. rewrite Hs. replace (g_selectedOutboundUDP (g {{ g_selectedOutboundTCP := tcp }})) with (g_selectedOutboundUDP g) by by destruct g.
  destruct (updateSelected (Select g NetworkUDP) _) as [udp u2]. destruct g. by case_bool.
Qed.

(** C31: After a forced round of tests of all outbounds, ended in any order, each
    outbound has the delay that was measured, and the group uses for TCP and for
    UDP one that supports the network and is slower than no other by more than the
    tolerance; it leaves an outbound whose test succeeded only for one that is
    faster by more than the tolerance, while one whose test failed is left for any.
    The delays are positive, their sums with the tolerance fit 16 bits, the
    outbound manager knows all outbounds, and the one in use is among them. *)
Theorem urltest_selects_fast g manager now later probe done network o :
  0 <= g_tolerance g -> network = NetworkTCP \/ network = NetworkUDP ->
  (forall t d, probe t = Some d -> representable (g_tolerance g) d) ->
  (forall d, d ∈ g_outbounds g -> manager (RealTag d) = true) ->
  (forall s, selectedFor g network = Some s -> s ∈ g_outbounds g /\ supports network s = true) ->
  done ≡ₚ testsOf g manager now true [] (g_outbounds g) ->
  let g' := (urlTest g later probe done).1 in
  (forall d, d ∈ g_outbounds g -> delayOf g' d = probe (RealTag d)) /\
  (selectedFor g' network = None -> forall c, c ∈ g_outbounds g -> supports network c = false) /\
  (selectedFor g' network = Some o ->
     o ∈ g_outbounds g /\ supports network o = true /\
     (forall c m, c ∈ g_outbounds g -> supports network c = true -> probe (RealTag c) = Some m ->
        exists d, probe (RealTag o) = Some d /\ d <= m + g_tolerance g) /\
     (forall s d m, selectedFor g network = Some s -> o <> s -> probe (RealTag s) = Some m -> probe (RealTag o) = Some d ->
        d + g_tolerance g < m)).
Proof.
  intros Htol Hn Hp Hm Hsel Hdone g'. unfold g', urlTest. destruct (foldl _ _ _) as [history result] eqn:Hf. cbn [fst].
  set (g1 := g {{ g_history := history }}).
  assert (forall d, d ∈ g_outbounds g -> delayOf g1 d = probe (RealTag d)) as Hdelay.
  { intros d Hd. unfold delayOf. assert (g_history g1 = history) as -> by by destruct g.
    replace history with (foldl (finishTest later probe) (g_history g, ∅) done).1 by by rewrite Hf.
    rewrite finished_history. rewrite decide_True; [by destruct (probe _)|].
    destruct (tests_cover g manager now (g_outbounds g) Hm [] d Hd) as [?%not_elem_of_nil|?]; [done|]. by rewrite Hdone. }
  destruct (performUpdateCheck_parts g1) as (_ & Hh & Htcp & Hudp).
  assert (selectedFor (performUpdateCheck g1) network = (updateSelected (Select g1 network) (selectedFor g1 network)).1) as Hs.
  { destruct Hn as [->| ->]; [exact Htcp|exact Hudp]. }
  assert (g_outbounds g1 = g_outbounds g /\ g_tolerance g1 = g_tolerance g /\ selectedFor g1 network = selectedFor g network) as (Ho & Ht & Hsf) by by destruct g.
  assert (forall d m, d ∈ g_outbounds g1 -> delayOf g1 d = Some m -> representable (g_tolerance g1) m) as Hrep.
  { intros d m Hd. rewrite Ho in Hd. rewrite Ht, (Hdelay d Hd). apply Hp. }
  split; [intros d Hd; unfold delayOf; rewrite Hh; by apply Hdelay|]. rewrite Hs. split.
  - intros Hnone. rewrite <- Ho. by apply updated_none.
  - intros Hsome. apply updated_best in Hsome as (Hin & Hsup & Hbest & Hsw); [|by rewrite Ht|done|rewrite Hsf, Ho; exact Hsel].
    rewrite Ho in *. rewrite Ht, Hsf in *. do 2 (split; [done|]). split.
    + intros c m Hc Hcs Hcm. rewrite <- (Hdelay o Hin). eapply Hbest; [done..|]. by rewrite Hdelay.
    + intros s d m Hss Hne Hsm Hod. destruct (Hsel s Hss) as [Hsin _]. apply (Hsw s d m Hss Hne); [by rewrite Hdelay|by rewrite Hdelay].
Qed.

(** * Selection by hand *)

Section selector.
Context `{Libs}.

(** The selector and the cache file after some calls of [SelectOutbound]. *)
Definition selectAll (s : Selector) (cache : gmap string string) (ops : list string) : Selector * option (gmap string string) :=
  foldl (fun p tag => let '(_, s, cacheFile) := SelectOutbound p.1 p.2 tag in (s, cacheFile)) (s, Some cache) ops.

Lemma collectOutbounds_tags manager tags : forall i m m',
  collectOutbounds manager i tags m = Ok m' -> dom m' ⊆ dom m ∪ list_to_set tags.
Proof.
  induction tags as [|tag tags IH]; intros i m m'; cbn; [intros [= <-]; set_solver|].
  destruct (manager tag) as [d|]; [|done]. intros Hm%IH. rewrite dom_insert_L in Hm. set_solver.
Qed.

Lemma select_cached s cache tag :
  s_Tag s <> "" -> "" ∉ dom (s_outbounds s) -> startSelection s (Some cache) = Ok (s_selected s) ->
  exists b selected interrupts cache',
    SelectOutbound s (Some cache) tag = (b, s {{ s_selected := selected; s_interruptGroup := interrupts }}, Some cache') /\
    startSelection s (Some cache') = Ok selected.
Proof.
  intros Ht Hd Hs. unfold SelectOutbound. destruct (s_outbounds s !! tag) as [d|] eqn:Ho.
  2: { exists false, (s_selected s), (s_interruptGroup s), cache. split; [by destruct s|done]. }
  case_bool_decide as Hsel; [exists true, (s_selected s), (s_interruptGroup s), cache; split; [by destruct s|done]|].
  assert (tag <> "") as Htag by (intros ->; apply Hd, elem_of_dom; by eexists).
  destruct s as [t ts dt os sel ig ie]. cbn in *. rewrite (proj2 (String.eqb_neq _ _) Ht).
  eexists true, (Some d), _, (<[t := tag]> cache). split; [done|]. unfold startSelection, cachedSelection. cbn.
  rewrite (proj2 (String.eqb_neq _ _) Ht), lookup_insert_eq. cbn. by rewrite (proj2 (String.eqb_neq _ _) Htag), Ho.
Qed.

Lemma selectAll_cached ops : forall s cache s' cacheFile,
  s_Tag s <> "" -> "" ∉ dom (s_outbounds s) -> startSelection s (Some cache) = Ok (s_selected s) ->
  selectAll s cache ops = (s', cacheFile) ->
  exists selected interrupts cache', s' = s {{ s_selected := selected; s_interruptGroup := interrupts }} /\
    cacheFile = Some cache' /\ startSelection s (Some cache') = Ok selected.
Proof.
  induction ops as [|tag ops IH]; intros s cache s' cacheFile Ht Hd Hs; cbn.
  { intros [= <- <-]. exists (s_selected s), (s_interruptGroup s), cache. split; [by destruct s|done]. }
  destruct (select_cached s cache tag Ht Hd Hs) as (b & selected & interrupts & cache1 & -> & Hs1). cbn.
  intros Hall. apply IH in Hall as (selected' & interrupts' & cache2 & -> & -> & Hs2).
  - exists selected', interrupts', cache2. split; [by destruct s|]. by destruct s.
  - by destruct s.
  - by destruct s.
  - by destruct s.
Qed.

(** A selector remembers: after any calls of [SelectOutbound], a group started
    again with the cache file they left selects the outbound that was selected
    last. *)
Theorem selector_remembers tag tags defaultTag ext s0 manager cache s ops s' cacheFile :
  NewSelector tag tags defaultTag ext = Ok s0 -> tag <> "" -> "" ∉ tags ->
  Selector_Start s0 manager (Some cache) = Ok s -> selectAll s cache ops = (s', cacheFile) ->
  exists s'', Selector_Start s0 manager cacheFile = Ok s'' /\ s_selected s'' = s_selected s'.
Proof.
  unfold NewSelector. destruct (nonempty tags) eqn:Hne; [|done]. intros [= <-] Htag Hempty Hs Hall. unfold Selector_Start in *.
  apply bind_Ok in Hs as (os & Hos & (selected & Hsel & [= <-])%bind_Ok). rewrite Hos. cbn in *. unfold constant in *.
  apply selectAll_cached in Hall as (selected' & interrupts & cache' & -> & -> & Hsel'); [|done|..].
  - unfold startSelection, cachedSelection in *. cbn in *. rewrite Hsel'. by eexists.
  - cbn. intros Hin. apply collectOutbounds_tags in Hos. set_solver.
  - cbn. rewrite <- Hsel. done.
Qed.
End selector.

(** * Witnesses *)

Definition demoDetour (id : nat) (tag : string) : Detour := mkDetour id tag [NetworkTCP; NetworkUDP] None.

Definition demoGroup (tolerance : Z) : URLTestGroup :=
  mkURLTestGroup [demoDetour 0 "a"; demoDetour 1 "b"; demoDetour 2 "c"] 1 tolerance 1 ∅ (Some (demoDetour 0 "a")) None
    (mkInterruptGroup [mkGroupConnItem 7 false; mkGroupConnItem 8 true] []) false false true 0.

Definition demoProbe (tag : string) : option Z :=
  if String.eqb tag "a" then Some 300 else if String.eqb tag "b" then Some 120 else if String.eqb tag "c" then Some 100 else None.

Definition demoTests : list (string * string) := [("c", "c"); ("a", "a"); ("b", "b")].

(** The slow "a" is left for "b", of which "c" is within the tolerance. *)
Lemma urltest_selects_fast_witness :
  let g' := (urlTest (demoGroup 50) 9 demoProbe demoTests).1 in
  selectedFor g' NetworkTCP = Some (demoDetour 1 "b") /\ closed (g_interruptGroup g') = [7%nat] /\
  supports NetworkTCP (demoDetour 1 "b") = true.
Proof.
  intros g'. assert (selectedFor g' NetworkTCP = Some (demoDetour 1 "b")) as Hs by (vm_compute; reflexivity).
  split; [exact Hs|]. split; [vm_compute; reflexivity|].
  refine (proj1 (proj2 (proj2 (proj2 (urltest_selects_fast (demoGroup 50) (fun _ => true) 0 9 demoProbe demoTests NetworkTCP
    (demoDetour 1 "b") _ _ _ _ _ _)) Hs))); [cbn; lia|by left| |done| |].
  - intros t d. unfold demoProbe, representable. cbn. repeat case_match; intros [= <-]; lia.
  - intros s [= <-]. split; [left|done].
  - vm_compute. transitivity [("a", "a"); ("c", "c"); ("b", "b")]; [by constructor|]. by do 2 constructor.
Defined.

Definition demoManager (tag : string) : option Detour :=
  if bool_decide (tag ∈ ["a"; "b"]) then Some (demoDetour (String.length tag) tag) else None.

Definition demoSelector : Selector := mkSelector "group" ["a"; "b"] "" ∅ None (mkInterruptGroup [] []) true.

Definition startedSelector : Selector :=
  demoSelector {{ s_outbounds := <["b" := demoDetour 1 "b"]> (<["a" := demoDetour 1 "a"]> ∅); s_selected := Some (demoDetour 1 "a") }}.

Lemma selector_remembers_witness :
  exists s'', @Selector_Start demoLibs demoSelector demoManager (Some {["group" := "b"]}) = Ok s'' /\
    s_selected s'' = Some (demoDetour 1 "b").
Proof.
  exact (@selector_remembers demoLibs "group" ["a"; "b"] "" true demoSelector demoManager ∅ startedSelector ["b"; "x"]
    (selectAll startedSelector ∅ ["b"; "x"]).1 (Some {["group" := "b"]}) eq_refl ltac:(discriminate) ltac:(set_solver)
    ltac:(vm_compute; reflexivity) ltac:(vm_compute; reflexivity)).
Defined.

(** * Limits of the code *)

(** A tolerance meant to forbid any change overflows: the group leaves an outbound
    for one that is slower. *)
Lemma tolerance_overflows :
  let probe tag := if String.eqb tag "a" then Some 100 else Some 120 in
  g_selectedOutboundTCP (urlTest (demoGroup 65500) 9 probe demoTests).1 = Some (demoDetour 2 "c").
Proof. vm_compute. reflexivity. Qed.

(** A delay below a millisecond counts as none: the fastest outbound is replaced. *)
Lemma zero_delay_replaced :
  let probe tag := if String.eqb tag "a" then Some 0 else Some 200 in
  g_selectedOutboundTCP (urlTest (demoGroup 50) 9 probe demoTests).1 = Some (demoDetour 1 "b").
Proof. vm_compute. reflexivity. Qed.

(** The test of an outbound that is itself a group is kept by the tag of the
    outbound it uses; when a connection through it fails, another entry is
    deleted. *)
Lemma nested_failure_kept :
  let nested := mkDetour 3 "inner" [NetworkTCP] (Some "a") in
  let g := (demoGroup 50) {{ g_outbounds := [nested]; g_history := {["a" := mkURLTestHistory 0 100]}; g_selectedOutboundTCP := Some nested }} in
  let g' := (URLTest_DialContext id g 0 NetworkTCP false (fun _ => inr (E_New "refused"))).1 in
  delayOf g' nested = Some 100.
Proof. vm_compute. reflexivity. Qed.
