(* ===== verification/TLSFragment.v ===== *)
(** [common/tlsfragment]: finding the server name in a TLS ClientHello and
    writing the first packet of a connection in fragments. *)
From coqutil Require Import Byte.
From S2P Require Import Prelude Bytes.

(** * [index.go] *)

Definition recordLayerHeaderLen : Z := 5.
Definition handshakeHeaderLen : Z := 6.
Definition randomDataLen : Z := 32.
Definition sessionIDHeaderLen : Z := 1.
Definition cipherSuiteHeaderLen : Z := 2.
Definition compressMethodHeaderLen : Z := 1.
Definition extensionsHeaderLen : Z := 2.
Definition extensionHeaderLen : Z := 4.
Definition sniExtensionHeaderLen : Z := 5.
Definition contentType : Z := 22.
Definition handshakeType : Z := 1.
Definition sniExtensionType : Z := 0.
Definition sniNameDNSHostnameType : Z := 0.
Definition tlsVersionBitmask : Z := 0xFFFC.
Definition tls13 : Z := 0x0304.

Record MyServerName := mkMyServerName {
  Index : Z;
  Length : Z;
  ServerName : bytes;
  ExtensionsListLengthIndex : Z
}.

(** The loop over the extensions.  The slice advances by [4+exLen] in the
    16 bits of [exLen]. *)
Fixpoint extensionsLoop (fuel : nat) (currentIndex : Z) (exs : bytes) : result (option MyServerName) :=
  if len exs <=? 0 then Ok None else
  match fuel with
  | O => Panic outOfFuel
  | S fuel' =>
      if len exs <? extensionHeaderLen then Ok None else
      exType ← uint16At exs 0;
      exLen ← uint16At exs 2;
      if len exs <? extensionHeaderLen + exLen then Ok None else
      sex ← range_ exs extensionHeaderLen (extensionHeaderLen + exLen);
      if exType =? sniExtensionType then
        if len sex <? sniExtensionHeaderLen then Ok None else
        sniType ← at_ sex 2;
        if negb (sniType =? sniNameDNSHostnameType) then Ok None else
        sniLen ← uint16At sex 3;
        sex ← from_ sex sniExtensionHeaderLen;
        Ok (Some (mkMyServerName (currentIndex + extensionHeaderLen + sniExtensionHeaderLen) sniLen sex 0))
      else
        exs ← from_ exs (u16 (4 + exLen));
        extensionsLoop fuel' (currentIndex + (4 + exLen)) exs
  end.

Definition indexTLSServerNameFromExtensions (exs : bytes) : result (option MyServerName) :=
  if len exs =? 0 then Ok None else
  if len exs <? extensionsHeaderLen then Ok None else
  exsLen ← uint16At exs 0;
  exs ← from_ exs extensionsHeaderLen;
  if len exs <? exsLen then Ok None else
  extensionsLoop (length exs) extensionsHeaderLen exs.

Definition indexTLSServerNameFromHandshake (handshake : bytes) : result (option MyServerName) :=
  if len handshake <? handshakeHeaderLen + randomDataLen + sessionIDHeaderLen then Ok None else
  h0 ← at_ handshake 0;
  if negb (h0 =? handshakeType) then Ok None else
  h1 ← at_ handshake 1; h2 ← at_ handshake 2; h3 ← at_ handshake 3;
  let handshakeLen := Z.lor (Z.lor (u32 (Z.shiftl h1 16)) (u32 (Z.shiftl h2 8))) h3 in
  body ← from_ handshake 4;
  if negb (len body =? handshakeLen) then Ok None else
  tlsVersion ← uint16At handshake 4;
  if negb (Z.land tlsVersion tlsVersionBitmask =? 0x0300) && negb (tlsVersion =? tls13) then Ok None else
  sessionIDLen ← at_ handshake 38;
  let currentIndex := handshakeHeaderLen + randomDataLen + sessionIDHeaderLen + sessionIDLen in
  if len handshake <? currentIndex then Ok None else
  cipherSuites ← from_ handshake currentIndex;
  if len cipherSuites <? cipherSuiteHeaderLen then Ok None else
  csLen ← uint16At cipherSuites 0;
  if len cipherSuites <? cipherSuiteHeaderLen + csLen + compressMethodHeaderLen then Ok None else
  compressMethodLen ← at_ cipherSuites (cipherSuiteHeaderLen + csLen);
  let currentIndex := currentIndex + (cipherSuiteHeaderLen + csLen + compressMethodHeaderLen + compressMethodLen) in
  if len handshake <? currentIndex then Ok None else
  exs ← from_ handshake currentIndex;
  serverName ← indexTLSServerNameFromExtensions exs;
  match serverName with
  | None => Ok None
  | Some serverName =>
      Ok (Some (mkMyServerName (Index serverName + currentIndex) (Length serverName) (ServerName serverName) currentIndex))
  end.

Definition IndexTLSServerName (payload : bytes) : result (option MyServerName) :=
  if len payload <? recordLayerHeaderLen then Ok None else
  p0 ← at_ payload 0;
  if negb (p0 =? contentType) then Ok None else
  segmentLen ← uint16At payload 3;
  if len payload <? recordLayerHeaderLen + segmentLen then Ok None else
  handshake ← from_ payload recordLayerHeaderLen;
  serverName ← indexTLSServerNameFromHandshake handshake;
  match serverName with
  | None => Ok None
  | Some serverName =>
      Ok (Some (mkMyServerName (Index serverName + recordLayerHeaderLen) (Length serverName) (ServerName serverName)
                  (ExtensionsListLengthIndex serverName + recordLayerHeaderLen)))
  end.

(** * [conn.go] *)

(** The state of a [Conn] and of the connection below it: what has been handed
    to its [Write] and its no-delay option. *)
Record Conn := mkConn {
  firstPacketWritten : bool;
  splitPacket : bool;
  splitRecord : bool;
  isTCP : bool;
  written : list bytes;
  noDelay : bool
}.

Definition NewConn (isTCP splitPacket splitRecord noDelay : bool) : Conn :=
  mkConn false splitPacket splitRecord isTCP [] noDelay.

(** [strings.Split(s, ".")] *)
Fixpoint splitDot (s : bytes) : list bytes :=
  match s with
  | [] => [[]]
  | b :: s' =>
      if bool_decide (b = byteOf 46) then [] :: splitDot s'
      else match splitDot s' with
           | label :: labels => (b :: label) :: labels
           | [] => [[b]]
           end
  end.

(** [strings.Count(s, ".")] *)
Definition countDots (s : bytes) : nat := length (filter (fun b => b = byteOf 46) s).

(** Code that acts on the connection and may fail. *)
Definition M (A : Type) : Type := Conn -> Conn * result A.

#[export] Instance M_ret : MRet M := fun A a c => (c, Ok a).
#[export] Instance M_bind : MBind M := fun A B k m c =>
  match m c with
  | (c, Ok a) => k a c
  | (c, Err e) => (c, Err e)
  | (c, Panic s) => (c, Panic s)
  end.

Definition lift {A} (r : result A) : M A := fun c => (c, r).

(** The outcome of a call that returns an [error]. *)
Definition fromError (e : option GoError) : result unit :=
  match e with None => Ok () | Some e => Err e end.

Definition when (b : bool) (m : M unit) : M unit := if b then m else mret ().

Section conn.
(** [publicsuffix.List.PublicSuffix] *)
Variable PublicSuffix : bytes -> bytes.
(** The value of [rand.Intn(n)] at the [i]th call, for positive [n]. *)
Variable randIntn : nat -> Z -> Z.
(** What the [n]th [Write] of the connection, [SetNoDelay] and the wait for the
    acknowledgement of the [n]th write return. *)
Variable writeErr : nat -> option GoError.
Variable noDelayErr : bool -> option GoError.
Variable ackErr : nat -> option GoError.

Definition Intn (i : nat) (n : Z) : result Z :=
  if n <=? 0 then Panic "invalid argument to Intn" else Ok (randIntn i n).

(** The labels that are split, and the index of the first of them. *)
Definition splitLabels (serverName : MyServerName) : result (list bytes * Z) :=
  let splits := splitDot (ServerName serverName) in
  splits ←
    match PublicSuffix (ServerName serverName) with
    | [] => Ok splits
    | _ =>
        if (length splits <? countDots (ServerName serverName))%nat then Panic "slice bounds out of range"
        else Ok (take (length splits - countDots (ServerName serverName)) splits)
    end;
  match splits with
  | label :: (_ :: _) as rest =>
      if bool_decide (label = [byteOf 46; byteOf 46; byteOf 46]) then Ok (rest, Index serverName + (len label + 1))
      else Ok (splits, Index serverName)
  | _ => Ok (splits, Index serverName)
  end.

(** [splitIndexes]; [i] is the number of the label. *)
Fixpoint splitIndexes (i : nat) (currentIndex : Z) (splits : list bytes) : result (list Z) :=
  match splits with
  | [] => Ok []
  | split :: splits' =>
      splitAt ← Intn i (len split);
      let next := currentIndex + len split + (if nonempty splits' then 1 else 0) in
      rest ← splitIndexes (S i) next splits';
      Ok (currentIndex + splitAt :: rest)
  end.

(** [payload] in an iteration of the loop: [last] is [splitIndexes[i-1]], absent
    in the first iteration, and [index] is [splitIndexes[i]], absent in the last. *)
Definition fragmentPayload (splitRecord : bool) (b : bytes) (last index : option Z) : result bytes :=
  match last, index with
  | None, None => Panic "index out of range"
  | None, Some index =>
      payload ← range_ b 0 index;
      if splitRecord then from_ payload recordLayerHeaderLen else Ok payload
  | Some last, None => from_ b last
  | Some last, Some index => range_ b last index
  end.

(** A record: the first three bytes of the original header, the length of the
    payload in 16 bits, the payload. *)
Definition record (header payload : bytes) : bytes := header ++ be 2 (u16 (len payload)) ++ payload.

(** [c.Conn.Write(payload)] *)
Definition connWrite (payload : bytes) : M unit := fun c =>
  (c {{ written := written c ++ [payload] }}, fromError (writeErr (length (written c)))).

Definition writeAndWaitAck (payload : bytes) : M unit := fun c =>
  (connWrite payload ;; lift (fromError (ackErr (length (written c))))) c.

Definition SetNoDelay (v : bool) : M unit := fun c =>
  match noDelayErr v with
  | Some err => (c, Err err)
  | None => (c {{ noDelay := v }}, Ok ())
  end.

(** An iteration of the loop of [Write] over the fragments; [last] and [index] as
    above.  Returns the contents of [buffer]. *)
Definition fragmentStep (b buffer : bytes) (last index : option Z) : M bytes := fun c =>
  (payload ← lift (fragmentPayload (splitRecord c) b last index);
   header ← lift (if splitRecord c then range_ b 0 3 else Ok []);
   let buffer :=
     if splitRecord c then (if splitPacket c then [] else buffer) ++ record header payload else buffer in
   let payload := if splitRecord c && splitPacket c then buffer else payload in
   when (splitPacket c)
     (if isTCP c && negb (isNil index) then writeAndWaitAck payload else connWrite payload);;
   mret buffer) c.

Fixpoint fragmentsLoop (b buffer : bytes) (last : option Z) (indexes : list Z) : M bytes :=
  buffer ← fragmentStep b buffer last (head indexes);
  match indexes with
  | [] => mret buffer
  | index :: indexes' => fragmentsLoop b buffer (Some index) indexes'
  end.

(** [Write] for a first packet with a server name. *)
Definition writeFragments (b : bytes) (serverName : MyServerName) : M Z := fun c =>
  (when (splitPacket c && isTCP c) (SetNoDelay true);;
   '(splits, currentIndex) ← lift (splitLabels serverName);
   indexes ← lift (splitIndexes 0 currentIndex splits);
   buffer ← fragmentsLoop b [] None indexes;
   when (splitRecord c && negb (splitPacket c)) (connWrite buffer);;
   when (isTCP c) (SetNoDelay false);;
   mret (len b)) c.

(** [return c.Conn.Write(b)] *)
Definition plainWrite (b : bytes) : M Z := connWrite b;; mret (len b).

(** The deferred assignment of [Write]. *)
Definition firstDone {A} (m : M A) : M A := fun c =>
  let (c, r) := m c in (c {{ firstPacketWritten := true }}, r).

Definition Conn_Write (b : bytes) : M Z := fun c =>
  if firstPacketWritten c then plainWrite b c else
  firstDone
    (serverName ← lift (IndexTLSServerName b);
     match serverName with
     | None => plainWrite b
     | Some serverName => writeFragments b serverName
     end) c.

End conn.
