(* ===== verification/TLSFragmentSpec.v ===== *)
(** Fragmented first packets: where the server name is found, and that the
    fragments put together are the packet. *)
From coqutil Require Import Byte.
From S2P Require Import Prelude Bytes TLSFragment.

(** * Slices *)

Lemma at_ok l i : 0 <= i < len l -> exists v, at_ l i = Ok v /\ 0 <= v < 256.
Proof.
  intros. unfold at_. rewrite (proj2 (Z.leb_le _ _)), (proj2 (Z.ltb_lt _ _)) by lia. cbn [andb].
  eexists. split; [done|]. apply byteVal_range.
Qed.

Lemma uint16At_ok l i : 0 <= i -> i + 1 < len l -> exists v, uint16At l i = Ok v /\ 0 <= v.
Proof.
  intros. unfold uint16At.
  destruct (at_ok l i) as (hi & -> & ?); [lia|]. cbn [mbind result_bind].
  destruct (at_ok l (i + 1)) as (lo & -> & ?); [lia|]. cbn [mbind result_bind].
  eexists. split; [done|]. apply Z.lor_nonneg. split; [|lia]. apply wrap_range. lia.
Qed.

Lemma from_ok l i : 0 <= i <= len l -> from_ l i = Ok (drop (Z.to_nat i) l).
Proof. intros. unfold from_. by rewrite !(proj2 (Z.leb_le _ _)) by lia. Qed.

Lemma range_ok l i j : 0 <= i <= j -> j <= len l -> range_ l i j = Ok (take (Z.to_nat (j - i)) (drop (Z.to_nat i) l)).
Proof. intros. unfold range_. by rewrite !(proj2 (Z.leb_le _ _)) by lia. Qed.

Lemma len_drop {A} (l : list A) i : 0 <= i <= len l -> len (drop (Z.to_nat i) l) = len l - i.
Proof. unfold len. rewrite length_drop. lia. Qed.

Lemma len_take {A} (l : list A) i : 0 <= i <= len l -> len (take (Z.to_nat i) l) = i.
Proof. unfold len. rewrite length_take. lia. Qed.

Lemma len_app {A} (l k : list A) : len (l ++ k) = len l + len k.
Proof. unfold len. rewrite length_app. lia. Qed.

Lemma len_cons {A} x (l : list A) : len (x :: l) = 1 + len l.
Proof. unfold len. cbn [length]. lia. Qed.

Lemma len_nonneg {A} (l : list A) : 0 <= len l.
Proof. unfold len. lia. Qed.

(** * The server name *)

(** [name] is at [i] in [l]. *)
Definition occurs (l : bytes) (i : Z) (name : bytes) : Prop :=
  exists pre post, l = pre ++ name ++ post /\ len pre = i.

Lemma occurs_drop l k i name : 0 <= k <= len l -> occurs (drop (Z.to_nat k) l) i name -> occurs l (i + k) name.
Proof.
  intros Hk (pre & post & Hl & Hi). exists (take (Z.to_nat k) l ++ pre), post.
  split; [by rewrite <- app_assoc, <- Hl, take_drop|]. rewrite len_app, len_take by lia. lia.
Qed.

Lemma occurs_take l k i name : occurs (take k l) i name -> occurs l i name.
Proof.
  intros (pre & post & Hl & Hi). exists pre, (post ++ drop k l). split; [|done].
  by rewrite !app_assoc, <- (app_assoc pre name post), <- Hl, take_drop.
Qed.

Lemma occurs_refl l : occurs l 0 l.
Proof. exists [], []. by rewrite app_nil_r. Qed.

Lemma occurs_bound l i name : occurs l i name -> 0 <= i /\ i + len name <= len l.
Proof.
  intros (pre & post & -> & <-). rewrite !len_app.
  pose proof (len_nonneg pre). pose proof (len_nonneg post). lia.
Qed.

(** What a parser returns when [l] starts at index [at0]. *)
Definition finds (l : bytes) (at0 : Z) (r : result (option MyServerName)) : Prop :=
  r = Ok None \/ exists s, r = Ok (Some s) /\ occurs l (Index s - at0) (ServerName s).

(** The steps of a parser whose reads are in range. *)
Ltac step :=
  match goal with
  | |- finds _ _ (at_ ?l ?i ≫= _) => let v := fresh "v" in destruct (at_ok l i) as (v & -> & ?); [lia|]
  | |- finds _ _ (uint16At ?l ?i ≫= _) =>
      let v := fresh "v" in destruct (uint16At_ok l i) as (v & -> & ?); [lia|lia|]
  | |- finds _ _ (from_ ?l ?i ≫= _) => rewrite (from_ok l i) by lia
  | |- finds _ _ (range_ ?l ?i ?j ≫= _) => rewrite (range_ok l i j) by lia
  | |- finds _ _ (if ?a <? ?b then _ else _) => destruct (Z.ltb_spec a b); [by left|]
  | |- finds _ _ (if ?a then Ok None else _) => destruct a eqn:?; [by left|]
  end; cbn [mbind result_bind].

Lemma extensionsLoop_finds fuel : forall at0 exs,
  (length exs <= fuel)%nat -> len exs < 65536 -> finds exs at0 (extensionsLoop fuel at0 exs).
Proof.
  induction fuel as [|fuel IH]; intros at0 exs Hfuel Hlen; cbn [extensionsLoop];
    destruct (Z.leb_spec (len exs) 0) as [|Hpos]; try (by left); [unfold len in Hpos; lia|].
  unfold extensionHeaderLen, sniExtensionHeaderLen in *.
  repeat step. set (sex := take _ _). assert (len sex = v0) as Hsex.
  { unfold sex. rewrite len_take; rewrite ?len_drop; lia. }
  destruct (v =? sniExtensionType).
  - repeat step.
    right. eexists. split; [done|]. cbn.
    replace (at0 + 4 + 5 - at0) with (0 + 5 + 4) by lia.
    apply occurs_drop; [lia|]. eapply occurs_take, occurs_drop; [|apply occurs_refl]. fold sex. lia.
  - unfold u16. rewrite wrap_small by lia. step.
    destruct (IH (at0 + (4 + v0)) (drop (Z.to_nat (4 + v0)) exs)) as [-> | (s & -> & Hs)].
    + rewrite length_drop. unfold len in *. lia.
    + rewrite len_drop; lia.
    + by left.
    + right. eexists. split; [done|]. apply occurs_drop in Hs; [|lia].
      by replace (Index s - at0) with (Index s - (at0 + (4 + v0)) + (4 + v0)) by lia.
Qed.

Lemma finds_shift l k at0 at1 r :
  0 <= k <= len l -> at1 = at0 + k -> finds (drop (Z.to_nat k) l) at1 r -> finds l at0 r.
Proof.
  intros Hk -> [-> | (s & -> & Hs)]; [by left|]. right. eexists. split; [done|].
  apply occurs_drop in Hs; [|lia]. by replace (Index s - at0) with (Index s - (at0 + k) + k) by lia.
Qed.

Lemma indexExtensions_finds exs : len exs < 65536 -> finds exs 0 (indexTLSServerNameFromExtensions exs).
Proof.
  intros Hlen. unfold indexTLSServerNameFromExtensions, extensionsHeaderLen. repeat step.
  apply (finds_shift _ 2 0 2); [lia|lia|]. apply extensionsLoop_finds; [done|]. rewrite len_drop; lia.
Qed.

Lemma indexHandshake_finds handshake :
  len handshake < 65536 -> finds handshake 0 (indexTLSServerNameFromHandshake handshake).
Proof.
  intros Hlen. unfold indexTLSServerNameFromHandshake.
  unfold handshakeHeaderLen, randomDataLen, sessionIDHeaderLen, cipherSuiteHeaderLen, compressMethodHeaderLen.
  repeat step.
  set (at1 := 6 + 32 + 1 + v4 + (2 + v5 + 1 + v6)) in *.
  destruct (indexExtensions_finds (drop (Z.to_nat at1) handshake)) as [-> | (s & -> & Hs)];
    [rewrite len_drop; lia|by left|]. cbn.
  right. eexists. split; [done|]. cbn. rewrite Z.sub_0_r in *. apply occurs_drop; [lia|done].
Qed.

(** A name that is reported is in the payload at the index reported, behind the
    header of the record. *)
Lemma index_finds payload :
  len payload < 65536 ->
  IndexTLSServerName payload = Ok None \/
  exists s, IndexTLSServerName payload = Ok (Some s) /\ 5 <= Index s /\ occurs payload (Index s) (ServerName s).
Proof.
  intros Hlen. enough (finds (drop (Z.to_nat 5) payload) 5 (IndexTLSServerName payload) /\
    (IndexTLSServerName payload = Ok None \/ 5 <= len payload)) as [[Hn | (s & Hs & Ho)] H5];
    [by left| |].
  - right. exists s. destruct H5 as [|H5]; [congruence|]. apply occurs_bound in Ho as Hb.
    apply occurs_drop in Ho; [|lia]. replace (Index s - 5 + 5) with (Index s) in Ho by lia. eauto with lia.
  - unfold IndexTLSServerName, recordLayerHeaderLen.
    destruct (Z.ltb_spec (len payload) 5); [split; by left|]. split; [|by right].
    repeat step.
    destruct (indexHandshake_finds (drop (Z.to_nat 5) payload)) as [-> | (s & -> & Hs)];
      [rewrite len_drop; lia|by left|]. cbn.
    right. eexists. split; [done|]. cbn. rewrite Z.sub_0_r in Hs. by rewrite Z.add_simpl_r.
Qed.

(** * The cuts *)

(** The length of labels joined by dots. *)
Fixpoint joinedLen (labels : list bytes) : Z :=
  match labels with
  | [] => 0
  | label :: labels' => len label + (if nonempty labels' then 1 else 0) + joinedLen labels'
  end.

Lemma joinedLen_nonneg labels : 0 <= joinedLen labels.
Proof.
  induction labels as [|label labels IH]; cbn [joinedLen]; [lia|].
  pose proof (len_nonneg label). destruct (nonempty labels); lia.
Qed.

Lemma joinedLen_take n labels : joinedLen (take n labels) <= joinedLen labels.
Proof.
  revert n. induction labels as [|label labels IH]; intros [|n]; cbn [take joinedLen]; try lia.
  - pose proof (len_nonneg label). pose proof (joinedLen_nonneg labels). destruct (nonempty labels); lia.
  - specialize (IH n). destruct n, labels; cbn in *; lia.
Qed.

Lemma splitDot_spec s :
  length (splitDot s) = S (countDots s) /\ joinedLen (splitDot s) = len s /\
  Forall (fun label => byteOf 46 ∉ label) (splitDot s).
Proof.
  unfold countDots. induction s as [|b s (IHn & IHl & IHd)]; cbn [splitDot].
  - split_and!; [done..|]. repeat constructor. set_solver.
  - rewrite filter_cons, len_cons. case_bool_decide as Hb; case_decide; try done.
    + cbn [length joinedLen]. rewrite IHn. split_and!; [done| |constructor; [set_solver|done]].
      destruct (splitDot s); [done|]. cbn [nonempty]. rewrite IHl. unfold len. cbn. lia.
    + destruct (splitDot s) as [|label labels]; [done|]. cbn [length joinedLen] in *. split_and!; [done| |].
      * rewrite len_cons. lia.
      * apply Forall_cons_iff in IHd as [Hl Hls]. constructor; [set_solver|done].
Qed.

(** Indexes in order between [lo] and [hi]. *)
Fixpoint cuts (lo hi : Z) (indexes : list Z) : Prop :=
  match indexes with
  | [] => lo <= hi
  | index :: indexes' => lo <= index /\ cuts index hi indexes'
  end.

Lemma cuts_weaken lo lo' hi hi' indexes : lo' <= lo -> hi <= hi' -> cuts lo hi indexes -> cuts lo' hi' indexes.
Proof.
  revert lo lo'. induction indexes as [|i indexes IH]; cbn; intros lo lo' ? ?; [lia|].
  intros [? ?]. split; [lia|]. by apply (IH i i).
Qed.

Lemma cuts_le lo hi indexes : cuts lo hi indexes -> lo <= hi.
Proof. revert lo. induction indexes as [|i indexes IH]; cbn; [done|]. intros lo [? ?%IH]. lia. Qed.

(** The parts of [b] from [start] on. *)
Fixpoint parts (b : bytes) (start : Z) (indexes : list Z) : list bytes :=
  match indexes with
  | [] => [drop (Z.to_nat start) b]
  | index :: indexes' => take (Z.to_nat (index - start)) (drop (Z.to_nat start) b) :: parts b index indexes'
  end.

Lemma concat_parts b start indexes :
  0 <= start -> cuts start (len b) indexes -> concat (parts b start indexes) = drop (Z.to_nat start) b.
Proof.
  revert start. induction indexes as [|i indexes IH]; intros start Hs; cbn [parts cuts concat].
  - intros _. apply app_nil_r.
  - intros [Hi Hc]. rewrite IH by (done || lia).
    rewrite <- (take_drop (Z.to_nat (i - start)) (drop (Z.to_nat start) b)) at 2.
    rewrite drop_drop. do 2 f_equal. lia.
Qed.

Lemma parts_short b start indexes : Forall (fun p => len p <= len b) (parts b start indexes).
Proof.
  revert start. induction indexes as [|i indexes IH]; intros start; cbn [parts]; constructor; auto;
    unfold len; rewrite ?length_take, length_drop; lia.
Qed.

(** * The receiver *)

(** The records of a stream: the type and version of each, and its payload. *)
Fixpoint readRecords (fuel : nat) (s : bytes) : option (list (bytes * bytes)) :=
  match s with
  | [] => Some []
  | _ =>
      let n := beVal (take 2 (drop 3 s)) in
      if len s <? 5 + n then None else
      match fuel with
      | O => None
      | S fuel' =>
          rest ← readRecords fuel' (drop (Z.to_nat n) (drop 5 s));
          Some ((take 3 s, take (Z.to_nat n) (drop 5 s)) :: rest)
      end
  end.

Lemma readRecords_record fuel header p s :
  length header = 3%nat -> len p < 65536 ->
  readRecords (S fuel) (record header p ++ s) = rest ← readRecords fuel s; Some ((header, p) :: rest).
Proof.
  intros Hh Hp. unfold record, u16. rewrite wrap_small by (pose proof (len_nonneg p); lia).
  destruct header as [|h0 [|h1 [|h2 []]]]; try done.
  assert (exists z0 z1, be 2 (len p) = [z0; z1]) as (z0 & z1 & Hz).
  { pose proof (be_length 2 (len p)) as Hl. destruct (be 2 (len p)) as [|z0 [|z1 []]]; try done. eauto. }
  assert (beVal [z0; z1] = len p) as Hv.
  { rewrite <- Hz. apply beVal_be. pose proof (len_nonneg p). cbn. lia. }
  rewrite Hz. cbn [app readRecords firstn skipn]. rewrite take_0, drop_0, Hv.
  replace (len _ <? 5 + len p) with false.
  2:{ symmetry. apply Z.ltb_ge. rewrite !len_cons, len_app. pose proof (len_nonneg s). lia. }
  unfold len at 1 2. by rewrite Nat2Z.id, drop_app_length, take_app_length.
Qed.

Lemma readRecords_concat header ps : forall fuel,
  length header = 3%nat -> Forall (fun p => len p < 65536) ps -> (length ps <= fuel)%nat ->
  readRecords fuel (concat (map (record header) ps)) = Some (map (pair header) ps).
Proof.
  induction ps as [|p ps IH]; intros fuel Hh Hps Hf; [by destruct fuel|].
  destruct fuel as [|fuel]; cbn in Hf; [lia|]. apply Forall_cons_iff in Hps as [Hp Hps].
  cbn [map concat]. rewrite readRecords_record, IH by (done || lia). done.
Qed.

Section conn.
Context (PublicSuffix : bytes -> bytes) (randIntn : nat -> Z -> Z).
Context (writeErr : nat -> option GoError) (noDelayErr : bool -> option GoError) (ackErr : nat -> option GoError).

(** [rand.Intn(n)] is below [n]. *)
Definition randLaw : Prop := forall i n, 0 < n -> 0 <= randIntn i n < n.

Lemma splitLabels_ok s :
  exists splits, splitLabels PublicSuffix s = Ok (splits, Index s) /\ splits <> [] /\
    joinedLen splits <= len (ServerName s) /\ incl splits (splitDot (ServerName s)).
Proof.
  unfold splitLabels. destruct (splitDot_spec (ServerName s)) as (Hn & Hl & Hd).
  set (labels := splitDot _) in *. set (dots := countDots _) in *.
  assert (exists n, (0 < n)%nat /\ match PublicSuffix (ServerName s) with
    | [] => Ok labels
    | _ => if (length labels <? dots)%nat then Panic "slice bounds out of range" else Ok (take (length labels - dots) labels)
    end = Ok (take n labels)) as (n & Hpos & ->).
  { destruct (PublicSuffix _).
    - exists (length labels). by rewrite firstn_all; split; [lia|].
    - exists (length labels - dots)%nat. destruct (Nat.ltb_spec (length labels) dots); split; done || lia. }
  cbn [mbind result_bind]. exists (take n labels).
  assert (incl (take n labels) labels) as Hincl.
  { intros x Hx. rewrite <- (take_drop n labels). apply in_or_app. by left. }
  split_and!; [|destruct labels, n; done || lia|rewrite <- Hl; apply joinedLen_take|done].
  destruct (take n labels) as [|label [|]] eqn:Ht; [done..|]. case_bool_decide as Hdot; [|done].
  exfalso. rewrite Forall_forall in Hd. apply (Hd label); [apply Hincl; left; done|].
  rewrite Hdot. apply list_elem_of_here.
Qed.

Lemma splitIndexes_ok splits : forall i at0,
  randLaw -> Forall (fun label => label <> []) splits ->
  exists indexes, splitIndexes randIntn i at0 splits = Ok indexes /\
    length indexes = length splits /\ cuts at0 (at0 + joinedLen splits) indexes.
Proof.
  induction splits as [|label splits IH]; intros i at0 Hr Hne; cbn [splitIndexes joinedLen].
  - exists []. cbn. auto with lia.
  - apply Forall_cons_iff in Hne as [Hl Hne]. unfold Intn.
    assert (0 < len label) as Hpos by (destruct label; [done|]; unfold len; cbn; lia).
    destruct (Z.leb_spec (len label) 0); [lia|]. cbn [mbind result_bind]. specialize (Hr i (len label) Hpos) as Hi.
    set (next := at0 + len label + _).
    destruct (IH (S i) next Hr Hne) as (indexes & -> & Hlen & Hc).
    eexists. split; [done|]. cbn [length cuts]. split; [by rewrite Hlen|]. split; [lia|].
    eapply cuts_weaken, Hc; subst next; destruct (nonempty splits); lia.
Qed.

(** * Writing *)

(** The errors the connection returns. *)
Definition connFails (e : GoError) : Prop :=
  (exists n, writeErr n = Some e) \/ (exists n, ackErr n = Some e) \/ (exists v, noDelayErr v = Some e).

(** [m] run in [c] does not panic, fails only with an error of the connection,
    and otherwise ends with [Q]. *)
Definition ends {A} (m : M A) (c : Conn) (Q : Conn -> A -> Prop) : Prop :=
  match m c with
  | (c', Ok a) => Q c' a
  | (_, Err e) => connFails e
  | (_, Panic _) => False
  end.

Lemma ends_bind {A B} (m : M A) (k : A -> M B) c Q :
  ends m c (fun c' a => ends (k a) c' Q) -> ends (M_bind A B k m) c Q.
Proof. unfold ends, M_bind. by destruct (m c) as [c' [a| |]]. Qed.

Lemma ends_weaken {A} (m : M A) c (Q Q' : Conn -> A -> Prop) :
  ends m c Q -> (forall c' a, Q c' a -> Q' c' a) -> ends m c Q'.
Proof. unfold ends. destruct (m c) as [c' [a| |]]; auto. Qed.

Lemma ends_lift {A} (r : result A) a c (Q : Conn -> A -> Prop) : r = Ok a -> Q c a -> ends (lift r) c Q.
Proof. by intros ->. Qed.

Lemma ends_when b m c (Q : Conn -> unit -> Prop) :
  (b = true -> ends m c Q) -> (b = false -> Q c ()) -> ends (when b m) c Q.
Proof. intros Ht Hf. destruct b; [by apply Ht|by apply Hf]. Qed.

Lemma connWrite_ends p c : ends (connWrite writeErr p) c (fun c' _ => c' = c {{ written := written c ++ [p] }}).
Proof. unfold ends, connWrite. destruct (writeErr _) eqn:He; cbn; [|done]. left. eauto. Qed.

Lemma writeAndWaitAck_ends p c :
  ends (writeAndWaitAck writeErr ackErr p) c (fun c' _ => c' = c {{ written := written c ++ [p] }}).
Proof.
  unfold writeAndWaitAck. apply ends_bind. eapply ends_weaken; [apply connWrite_ends|].
  intros c' _ ->. unfold ends, lift. destruct (ackErr _) eqn:He; cbn; [|done]. right. left. eauto.
Qed.

Lemma SetNoDelay_ends v c : ends (SetNoDelay noDelayErr v) c (fun c' _ => c' = c {{ noDelay := v }}).
Proof. unfold ends, SetNoDelay. destruct (noDelayErr v) eqn:He; [|done]. right. right. eauto. Qed.

(** What is written for the parts [ps] of [b]. *)
Definition packetsOf (sr : bool) (b : bytes) (ps : list bytes) : list bytes :=
  if sr then map (record (take 3 b)) ps else ps.

Definition startOf (sr : bool) : Z := if sr then 5 else 0.

(** The payload of an iteration is the next part. *)
Lemma fragmentPayload_part sr b last start indexes :
  match last with Some l => start = l | None => start = startOf sr /\ indexes <> [] end ->
  0 <= start -> cuts start (len b) indexes ->
  exists p ps, parts b start indexes = p :: ps /\ fragmentPayload sr b last (head indexes) = Ok p /\
    match indexes with [] => ps = [] | index :: indexes' => ps = parts b index indexes' end.
Proof.
  intros Hlast H0 Hc. destruct indexes as [|i indexes]; cbn [parts cuts head] in *; do 2 eexists; split_and!; try done.
  - destruct last as [l|]; [subst l|by destruct Hlast]. cbn. by rewrite from_ok by lia.
  - destruct Hc as [Hi Hc%cuts_le]. destruct last as [l|]; cbn.
    + subst l. by rewrite range_ok by lia.
    + destruct Hlast as [-> _]. rewrite range_ok by (cbn; lia). cbn [mbind result_bind]. rewrite Z.sub_0_r, drop_0.
      destruct sr; cbn [startOf] in *; unfold recordLayerHeaderLen.
      * rewrite from_ok by (rewrite len_take; lia). f_equal. rewrite firstn_skipn_comm. do 2 f_equal. lia.
      * by rewrite Z.sub_0_r, drop_0.
Qed.

(** An iteration writes a packet when packets are split, and otherwise adds it to
    the buffer. *)
Lemma fragmentStep_ends b buffer last index c p :
  3 <= len b -> fragmentPayload (splitRecord c) b last index = Ok p ->
  ends (fragmentStep writeErr ackErr b buffer last index) c (fun c' buffer' =>
    exists packet, packetsOf (splitRecord c) b [p] = [packet] /\
      c' = c {{ written := written c ++ if splitPacket c then [packet] else [] }} /\
      (splitRecord c = true -> splitPacket c = false -> buffer' = buffer ++ packet)).
Proof.
  intros H3 Hp. unfold fragmentStep. apply ends_bind. eapply ends_lift; [exact Hp|].
  apply ends_bind. apply (ends_lift _ (if splitRecord c then take 3 b else [])).
  { destruct (splitRecord c); [|done]. by rewrite range_ok by lia. }
  apply ends_bind. apply ends_when; intros Hsp.
  - match goal with |- ends (if _ then writeAndWaitAck _ _ ?q else _) _ _ =>
      apply (ends_weaken _ _ (fun c' _ => c' = c {{ written := written c ++ [q] }})) end.
    + destruct (isTCP c && _); [apply writeAndWaitAck_ends|apply connWrite_ends].
    + intros c' _ ->. rewrite Hsp. destruct (splitRecord c) eqn:Hsr; cbn; eexists; split_and!; done.
  - rewrite Hsp. unfold ends. cbn. destruct (splitRecord c) eqn:Hsr; eexists; split_and!; try done.
    all: destruct c; unfold constant; cbn; by rewrite app_nil_r.
Qed.

Lemma fragmentsLoop_ends b indexes : forall last start buffer c,
  match last with Some l => start = l | None => start = startOf (splitRecord c) /\ indexes <> [] end ->
  0 <= start -> 3 <= len b -> cuts start (len b) indexes ->
  ends (fragmentsLoop writeErr ackErr b buffer last indexes) c (fun c' buffer' =>
    let packets := packetsOf (splitRecord c) b (parts b start indexes) in
    c' = c {{ written := written c ++ if splitPacket c then packets else [] }} /\
    (splitRecord c = true -> splitPacket c = false -> buffer' = buffer ++ concat packets)).
Proof.
  induction indexes as [|i indexes IH]; intros last start buffer c Hlast H0 H3 Hc;
    destruct (fragmentPayload_part _ _ _ _ _ Hlast H0 Hc) as (p & ps & Hps & Hp & Hrest);
    cbn [fragmentsLoop]; rewrite Hps; apply ends_bind;
    (eapply ends_weaken; [by apply fragmentStep_ends|]); intros c' buffer' (packet & Hpk & -> & Hb).
  - subst ps. unfold ends. cbn. rewrite Hpk. split; [done|]. intros ? ?. cbn. rewrite app_nil_r. auto.
  - destruct Hc as [Hi Hc]. eapply ends_weaken; [by apply (IH (Some i) i); [..|lia| |]|].
    cbn zeta. intros c'' buffer'' [-> Hb''].
    assert (packetsOf (splitRecord c) b (p :: ps) = packet :: packetsOf (splitRecord c) b ps) as ->.
    { unfold packetsOf in *. destruct (splitRecord c); cbn in *; congruence. }
    subst ps. destruct c as [? sp sr ? ? ?]; unfold constant in *; cbn in *. split.
    + destruct sp; by rewrite <- ?app_assoc, ?app_nil_r.
    + intros Hsr Hsp. rewrite Hb'', Hb by done. by rewrite app_assoc.
Qed.

(** What the peer receives for [b]: one or more records with the payload of [b]
    when a server name is split into records, and the bytes of [b] otherwise. *)
Definition delivers (recorded : bool) (b : bytes) (packets : list bytes) : Prop :=
  if recorded then
    exists payloads, readRecords (length (concat packets)) (concat packets) = Some (map (pair (take 3 b)) payloads) /\
      concat payloads = drop 5 b
  else concat packets = b.

Definition namesServer (b : bytes) : bool :=
  match IndexTLSServerName b with Ok (Some _) => true | _ => false end.

Lemma plainWrite_ends b c :
  ends (plainWrite writeErr b) c (fun c' n => n = len b /\ c' = c {{ written := written c ++ [b] }}).
Proof.
  unfold plainWrite. apply ends_bind. eapply ends_weaken; [apply connWrite_ends|]. by intros c' _ ->.
Qed.

Lemma record_length h p : (0 < length (record h p))%nat.
Proof. unfold record. rewrite !length_app, be_length. lia. Qed.

Lemma length_concat_records h ps : (length ps <= length (concat (map (record h) ps)))%nat.
Proof.
  induction ps as [|p ps IH]; cbn [map concat length]; [lia|].
  rewrite length_app. pose proof (record_length h p). lia.
Qed.

Lemma parts_delivered sr b indexes :
  5 <= len b < 65536 -> cuts (startOf sr) (len b) indexes ->
  delivers sr b (packetsOf sr b (parts b (startOf sr) indexes)).
Proof.
  intros Hb Hc. destruct sr; cbn [startOf delivers packetsOf] in *.
  - exists (parts b 5 indexes). split; [|exact (concat_parts b 5 indexes ltac:(lia) Hc)]. apply readRecords_concat.
    + rewrite length_take. unfold len in Hb. lia.
    + eapply Forall_impl; [|apply parts_short]. cbn. lia.
    + apply length_concat_records.
  - exact (concat_parts b 0 indexes ltac:(lia) Hc).
Qed.

Lemma delivers_concat sr b packets : delivers sr b packets -> delivers sr b [concat packets].
Proof. unfold delivers. cbn [concat]. by rewrite app_nil_r. Qed.

Lemma writeFragments_ends b s c :
  randLaw -> len b < 65536 -> splitPacket c || splitRecord c = true ->
  5 <= Index s -> occurs b (Index s) (ServerName s) ->
  Forall (fun label => label <> []) (splitDot (ServerName s)) ->
  ends (writeFragments PublicSuffix randIntn writeErr noDelayErr ackErr b s) c (fun c' n =>
    n = len b /\ exists packets, written c' = written c ++ packets /\ delivers (splitRecord c) b packets).
Proof.
  intros Hr Hlen Hsplit Hi Hocc Hne. apply occurs_bound in Hocc as [_ Hocc].
  destruct (splitLabels_ok s) as (splits & Hs & Hs0 & Hj & Hincl).
  destruct (splitIndexes_ok splits 0 (Index s) Hr) as (indexes & Hidx & Hn & Hc).
  { rewrite List.Forall_forall in *. intros x Hx. apply Hne, Hincl, Hx. }
  pose proof (len_nonneg (ServerName s)).
  assert (cuts (startOf (splitRecord c)) (len b) indexes) as Hc'.
  { eapply cuts_weaken, Hc; [destruct (splitRecord c); cbn|]; lia. }
  unfold writeFragments. apply ends_bind.
  apply (ends_weaken _ _ (fun c' _ => exists nd, c' = c {{ noDelay := nd }})).
  { apply ends_when; intros _; [|by exists (noDelay c); destruct c].
    eapply ends_weaken; [apply SetNoDelay_ends|]. intros c' _ ->. by eexists. }
  intros c1 _ [nd ->]. apply ends_bind. eapply ends_lift; [exact Hs|]. apply ends_bind.
  eapply ends_lift; [exact Hidx|]. apply ends_bind.
  eapply ends_weaken.
  { apply (fragmentsLoop_ends b indexes None (startOf (splitRecord c))); [|destruct (splitRecord c); cbn; lia|lia|done].
    split; [by destruct c|]. by destruct indexes, splits. }
  cbn zeta. intros c2 buffer [-> Hbuf]. pose proof (parts_delivered _ b indexes ltac:(lia) Hc') as Hd.
  apply ends_bind.
  apply (ends_weaken _ _ (fun c' _ => exists packets, written c' = written c ++ packets /\ delivers (splitRecord c) b packets)).
  - destruct c as [? sp sr ? w ?]; unfold constant in *; cbn in *. apply ends_when; intros Hw.
    + eapply ends_weaken; [apply connWrite_ends|]. intros c' _ ->. apply andb_true_iff in Hw as [-> Hsp%negb_true_iff].
      exists [buffer]. rewrite Hbuf, Hsp by done. cbn. split; [by rewrite app_nil_r|]. apply (delivers_concat true), Hd.
    + destruct sp; [|by destruct sr]. eexists. split; [done|]. exact Hd.
  - intros c3 _ Hw. apply ends_bind. apply ends_when; intros _; [|done].
    eapply ends_weaken; [apply SetNoDelay_ends|]. intros c' _ ->. by destruct c3.
Qed.

Lemma ends_firstDone {A} (m : M A) c (Q : Conn -> A -> Prop) :
  ends m c (fun c' a => Q (c' {{ firstPacketWritten := true }}) a) -> ends (firstDone m) c Q.
Proof. unfold ends, firstDone. by destruct (m c) as [c' [a| |]]. Qed.

Lemma plain_delivered b c :
  exists packets, written (c {{ written := written c ++ [b] }}) = written c ++ packets /\ delivers false b packets.
Proof. exists [b]. destruct c. split; [done|]. apply app_nil_r. Qed.

(** C16: A packet given to a fragmenting connection reaches the peer complete and in
    order: as the same bytes or, when records are split, as records of the
    original type and version whose payloads put together are the payload of
    the packet.  [Write] never panics on packets below 64 KiB whose server name
    has no empty label, reports the length of the packet, and fails only with
    an error of the connection. *)
Theorem fragments_reassemble b c :
  randLaw -> len b < 65536 -> splitPacket c || splitRecord c = true ->
  (forall s, IndexTLSServerName b = Ok (Some s) -> Forall (fun label => label <> []) (splitDot (ServerName s))) ->
  match Conn_Write PublicSuffix randIntn writeErr noDelayErr ackErr b c with
  | (c', Ok n) =>
      n = len b /\ firstPacketWritten c' = true /\
      exists packets, written c' = written c ++ packets /\
        delivers (splitRecord c && negb (firstPacketWritten c) && namesServer b) b packets
  | (_, Err e) => connFails e
  | (_, Panic _) => False
  end.
Proof.
  intros Hr Hlen Hsplit Hlabels. unfold Conn_Write. destruct (firstPacketWritten c) eqn:Hfirst.
  - apply (ends_weaken _ _ _ _ (plainWrite_ends b c)). intros c' n [-> ->]. split_and!; [done|by destruct c|].
    rewrite andb_false_r. by apply plain_delivered.
  - apply ends_firstDone, ends_bind. rewrite andb_true_r. unfold namesServer.
    destruct (index_finds b Hlen) as [-> | (s & Hs & Hi & Ho)]; [|rewrite Hs]; (eapply ends_lift; [done|]).
    + apply (ends_weaken _ _ _ _ (plainWrite_ends b c)). intros c' n [-> ->]. split_and!; [done|by destruct c|].
      rewrite andb_false_r. by apply plain_delivered.
    + eapply ends_weaken; [by apply writeFragments_ends; eauto|]. intros c' n [-> Hd].
      rewrite andb_true_r. by destruct c'.
Qed.
End conn.
