(* ===== verification/TLSHello.v ===== *)
(** The server name of a well-formed ClientHello is found, and fragmenting it. *)
From coqutil Require Import Byte.
From S2P Require Import Prelude Bytes TLSFragment TLSFragmentSpec.

(** * ClientHello messages (RFC 8446, section 4.1.2, and RFC 6066, section 3) *)

Record ClientHello := mkClientHello {
  recordVersion : Z;
  version : Z;
  random : bytes;
  sessionID : bytes;
  cipherSuites : bytes;
  compression : bytes;
  extensionsBefore : list (Z * bytes);
  serverName : bytes;
  extensionsAfter : list (Z * bytes)
}.

Definition extension (e : Z * bytes) : bytes := be 2 e.1 ++ be 2 (len e.2) ++ e.2.

Definition sniData (name : bytes) : bytes := be 2 (len name + 3) ++ be 1 0 ++ be 2 (len name) ++ name.

Definition extensions (h : ClientHello) : bytes :=
  concat (map extension (extensionsBefore h)) ++ extension (0, sniData (serverName h)) ++
  concat (map extension (extensionsAfter h)).

(** Up to the list of extensions, and with it. *)
Definition helloHead (h : ClientHello) : bytes :=
  be 2 (version h) ++ random h ++ be 1 (len (sessionID h)) ++ sessionID h ++
  be 2 (len (cipherSuites h)) ++ cipherSuites h ++ be 1 (len (compression h)) ++ compression h.

Definition hello (h : ClientHello) : bytes := helloHead h ++ be 2 (len (extensions h)) ++ extensions h.

Definition handshake (h : ClientHello) : bytes := be 1 1 ++ be 3 (len (hello h)) ++ hello h.

Definition packet (h : ClientHello) : bytes :=
  be 1 22 ++ be 2 (recordVersion h) ++ be 2 (len (handshake h)) ++ handshake h.

Definition wellFormed (h : ClientHello) : Prop :=
  0x0300 <= version h <= 0x0304 /\ length (random h) = 32%nat /\ len (sessionID h) < 256 /\
  len (compression h) < 256 /\ Forall (fun e => 0 < e.1 < 65536) (extensionsBefore h) /\
  len (handshake h) < 65536.

(** Where the name starts. *)
Definition nameIndex (h : ClientHello) : Z :=
  5 + 4 + len (helloHead h) + 2 + len (concat (map extension (extensionsBefore h))) + 9.

(** * Reading what was written *)

Lemma at_app_r l r i : len l <= i -> at_ (l ++ r) i = at_ r (i - len l).
Proof.
  intros Hi. unfold at_. rewrite len_app. pose proof (len_nonneg l).
  replace ((0 <=? i) && (i <? len l + len r)) with ((0 <=? i - len l) && (i - len l <? len r)).
  2:{ lia. }
  rewrite app_nth2 by (unfold len in *; lia). 
  by replace (Z.to_nat (i - len l)) with (Z.to_nat i - length l)%nat by (unfold len in *; lia).
Qed.

Lemma uint16At_app_r l r i : len l <= i -> uint16At (l ++ r) i = uint16At r (i - len l).
Proof. intros Hi. unfold uint16At. rewrite !at_app_r by lia. do 2 f_equal. by replace (i + 1 - len l) with (i - len l + 1) by lia. Qed.

Lemma at_byte z r : at_ (byteOf z :: r) 0 = Ok (z mod 256).
Proof.
  unfold at_. rewrite len_cons. pose proof (len_nonneg r). replace ((0 <=? 0) && (0 <? 1 + len r)) with true by lia.
  change (nth (Z.to_nat 0) (byteOf z :: r) (byteOf 0)) with (byteOf z). by rewrite byte.unsigned_of_Z.
Qed.

Lemma at_cons b r i : 0 < i -> at_ (b :: r) i = at_ r (i - 1).
Proof. intros. apply (at_app_r [b] r i). unfold len. cbn. lia. Qed.

Lemma at_be z r : 0 <= z < 256 -> at_ (be 1 z ++ r) 0 = Ok z.
Proof. intros Hz. change (be 1 z ++ r) with (byteOf z :: r). by rewrite at_byte, Z.mod_small. Qed.

Lemma be_2 z r : be 2 z ++ r = byteOf (Z.shiftr z 8) :: byteOf z :: r.
Proof. done. Qed.

Lemma be_3 z r : be 3 z ++ r = byteOf (Z.shiftr (Z.shiftr z 8) 8) :: byteOf (Z.shiftr z 8) :: byteOf z :: r.
Proof. done. Qed.

Lemma bytes_2 z : 0 <= z < 65536 -> Z.lor (u16 (Z.shiftl (Z.shiftr z 8 mod 256) 8)) (z mod 256) = z.
Proof.
  intros Hz. pose proof (Z.div_mod z 256 ltac:(lia)). pose proof (Z.mod_pos_bound z 256 ltac:(lia)).
  rewrite Z.shiftr_div_pow2 by lia. change (2 ^ 8) with 256.
  rewrite (Z.mod_small (z / 256)) by lia. unfold u16. rewrite wrap_small.
  - rewrite Z.lor_comm, lor_shifted; change (2 ^ 8) with 256; lia.
  - rewrite Z.shiftl_mul_pow2 by lia. change (2 ^ 8) with 256. change (2 ^ 16) with 65536. lia.
Qed.

Lemma uint16At_be z r : 0 <= z < 65536 -> uint16At (be 2 z ++ r) 0 = Ok z.
Proof.
  intros Hz. unfold uint16At. rewrite be_2, at_byte. cbn [mbind result_bind].
  rewrite at_cons by lia. rewrite at_byte. cbn [mbind result_bind]. by rewrite bytes_2.
Qed.

Lemma bytes_3 z : 0 <= z < 65536 ->
  Z.lor (Z.lor (u32 (Z.shiftl (Z.shiftr (Z.shiftr z 8) 8 mod 256) 16)) (u32 (Z.shiftl (Z.shiftr z 8 mod 256) 8))) (z mod 256) = z.
Proof.
  intros Hz. rewrite Z.shiftr_shiftr by lia. rewrite (Z.shiftr_div_pow2 z (8 + 8)) by lia.
  rewrite (Z.div_small z (2 ^ (8 + 8))) by (change (2 ^ (8 + 8)) with 65536; lia).
  change (u32 (Z.shiftl (0 mod 256) 16)) with 0. rewrite Z.lor_0_l. rewrite <- (bytes_2 z Hz) at 3. f_equal.
  pose proof (Z.mod_pos_bound (Z.shiftr z 8) 256 ltac:(lia)).
  unfold u16, u32. by rewrite !wrap_small; rewrite ?Z.shiftl_mul_pow2 by lia;
    change (2 ^ 8) with 256; change (2 ^ 16) with 65536; change (2 ^ 32) with 4294967296; [|lia..].
Qed.

Lemma from_app l r i : i = len l -> from_ (l ++ r) i = Ok r.
Proof.
  intros ->. rewrite from_ok by (rewrite len_app; pose proof (len_nonneg l); pose proof (len_nonneg r); lia).
  unfold len. by rewrite Nat2Z.id, drop_app_length.
Qed.

Lemma range_app l m r i j : i = len l -> j = len l + len m -> range_ (l ++ m ++ r) i j = Ok m.
Proof.
  intros -> ->. rewrite range_ok by (rewrite ?len_app; pose proof (len_nonneg l); pose proof (len_nonneg m); pose proof (len_nonneg r); lia).
  unfold len. rewrite Nat2Z.id, drop_app_length. replace (Z.to_nat _) with (length m) by lia. by rewrite take_app_length.
Qed.

Lemma len_be n z : len (be n z) = Z.of_nat n.
Proof. unfold len. by rewrite be_length. Qed.

(** * The search *)

Lemma len_extension t d : len (extension (t, d)) = 4 + len d.
Proof. unfold extension. rewrite !len_app, !len_be. cbn. lia. Qed.

Lemma extension_reads t d exs :
  0 <= t < 65536 -> len d < 65536 -> let e := extension (t, d) ++ exs in
  uint16At e 0 = Ok t /\ uint16At e 2 = Ok (len d) /\ range_ e 4 (4 + len d) = Ok d /\ from_ e (4 + len d) = Ok exs.
Proof.
  intros Ht Hd e. pose proof (len_nonneg d). subst e.
  assert (from_ (extension (t, d) ++ exs) (4 + len d) = Ok exs) as Hfrom by (apply from_app; by rewrite len_extension).
  rewrite Hfrom. unfold extension. rewrite <- !app_assoc. cbn [fst snd]. split_and!.
  - by apply uint16At_be.
  - rewrite uint16At_app_r by (by rewrite len_be). rewrite len_be. by apply uint16At_be.
  - rewrite app_assoc. apply range_app; rewrite len_app, !len_be; cbn; lia.
  - done.
Qed.

Lemma extensionsLoop_skip fuel at0 t d exs :
  0 < t < 65536 -> len d + 4 < 65536 ->
  extensionsLoop (S fuel) at0 (extension (t, d) ++ exs) = extensionsLoop fuel (at0 + len (extension (t, d))) exs.
Proof.
  intros Ht Hd. pose proof (len_nonneg d). pose proof (len_nonneg exs).
  destruct (extension_reads t d exs) as (Rt & Rl & Rd & Rr); [lia..|].
  assert (len (extension (t, d) ++ exs) = 4 + len d + len exs) as Hlen by (by rewrite len_app, len_extension).
  cbn [extensionsLoop]. unfold extensionHeaderLen, sniExtensionType. rewrite Hlen, Rt. cbn [mbind result_bind].
  rewrite Rl. cbn [mbind result_bind]. rewrite Rd. cbn [mbind result_bind].
  unfold u16. rewrite (wrap_small 16 (4 + len d)) by (change (2 ^ 16) with 65536; lia). rewrite Rr. cbn [mbind result_bind].
  replace (4 + len d + len exs <=? 0) with false by lia. replace (4 + len d + len exs <? 4) with false by lia.
  replace (4 + len d + len exs <? 4 + len d) with false by lia. replace (t =? 0) with false by lia.
  by rewrite len_extension.
Qed.

Lemma len_sniData name : len (sniData name) = 5 + len name.
Proof. unfold sniData. rewrite !len_app, !len_be. cbn. lia. Qed.

Lemma extensionsLoop_sni fuel at0 name exs :
  len name + 5 < 65536 ->
  extensionsLoop (S fuel) at0 (extension (0, sniData name) ++ exs) = Ok (Some (mkMyServerName (at0 + 9) (len name) name 0)).
Proof.
  intros Hd. pose proof (len_nonneg name). pose proof (len_nonneg exs). pose proof (len_sniData name) as Hsni.
  destruct (extension_reads 0 (sniData name) exs) as (Rt & Rl & Rd & Rr); [lia..|].
  assert (len (extension (0, sniData name) ++ exs) = 9 + len name + len exs) as Hlen.
  { rewrite len_app, len_extension. lia. }
  cbn [extensionsLoop]. unfold extensionHeaderLen, sniExtensionHeaderLen. rewrite Hlen, Rt. cbn [mbind result_bind].
  rewrite Rl. cbn [mbind result_bind]. rewrite Rd. cbn [mbind result_bind]. rewrite Hsni.
  replace (9 + len name + len exs <=? 0) with false by lia. replace (9 + len name + len exs <? 4) with false by lia.
  replace (9 + len name + len exs <? 4 + (5 + len name)) with false by lia. replace (5 + len name <? 5) with false by lia.
  change (0 =? sniExtensionType) with true. cbn match.
  assert (at_ (sniData name) 2 = Ok 0) as ->.
  { unfold sniData. rewrite at_app_r by (by rewrite len_be). rewrite len_be. by apply at_be. }
  assert (uint16At (sniData name) 3 = Ok (len name)) as Hu.
  { unfold sniData. rewrite app_assoc, uint16At_app_r; rewrite len_app, !len_be; [|done]. apply uint16At_be. lia. }
  cbn [mbind result_bind negb Z.eqb sniNameDNSHostnameType]. rewrite Hu. cbn [mbind result_bind].
  assert (from_ (sniData name) 5 = Ok name) as ->.
  { unfold sniData. rewrite !app_assoc. apply from_app. by rewrite !len_app, !len_be. }
  cbn [mbind result_bind]. by replace (at0 + 4 + 5) with (at0 + 9) by lia.
Qed.

Lemma extensionsLoop_found before : forall fuel at0 name exs,
  Forall (fun e => 0 < e.1 < 65536) before -> (length before < fuel)%nat ->
  len (concat (map extension before) ++ extension (0, sniData name) ++ exs) < 65536 ->
  extensionsLoop fuel at0 (concat (map extension before) ++ extension (0, sniData name) ++ exs) =
  Ok (Some (mkMyServerName (at0 + len (concat (map extension before)) + 9) (len name) name 0)).
Proof.
  induction before as [|[t d] before IH]; intros fuel at0 name exs Ht Hf Hlen; (destruct fuel as [|fuel]; [cbn in Hf; lia|]);
    cbn [map concat app] in *.
  - rewrite extensionsLoop_sni; [by rewrite Z.add_0_r|].
    rewrite len_app, len_extension, len_sniData in Hlen. pose proof (len_nonneg exs). lia.
  - apply Forall_cons_iff in Ht as [Ht Hts]. cbn [length fst] in *. rewrite <- app_assoc in *.
    rewrite len_app, len_extension in Hlen. set (rest := concat _ ++ _) in *.
    pose proof (len_nonneg rest). pose proof (len_nonneg d). rewrite extensionsLoop_skip by lia.
    subst rest. rewrite IH by (done || lia). by rewrite len_app, Z.add_assoc.
Qed.

Lemma length_extensions l : (length l <= length (concat (map extension l)))%nat.
Proof.
  induction l as [|[t d] l IH]; cbn [map concat length]; [lia|].
  rewrite length_app. pose proof (len_extension t d) as He. pose proof (len_nonneg d). unfold len in He at 1. lia.
Qed.

Lemma indexExtensions_found h :
  Forall (fun e => 0 < e.1 < 65536) (extensionsBefore h) -> len (extensions h) < 65536 ->
  indexTLSServerNameFromExtensions (be 2 (len (extensions h)) ++ extensions h) =
  Ok (Some (mkMyServerName (2 + len (concat (map extension (extensionsBefore h))) + 9) (len (serverName h)) (serverName h) 0)).
Proof.
  intros Ht Hlen. pose proof (len_nonneg (extensions h)).
  unfold indexTLSServerNameFromExtensions, extensionsHeaderLen. rewrite len_app, len_be. change (Z.of_nat 2) with 2.
  rewrite (proj2 (Z.eqb_neq _ _)), (proj2 (Z.ltb_ge _ _)) by lia.
  rewrite uint16At_be by lia. cbn [mbind result_bind]. rewrite from_app by (by rewrite len_be). cbn [mbind result_bind].
  rewrite Z.ltb_irrefl. apply extensionsLoop_found; [done| |done].
  unfold extensions. rewrite !length_app. pose proof (length_extensions (extensionsBefore h)).
  pose proof (len_extension 0 (sniData (serverName h))) as He. pose proof (len_nonneg (sniData (serverName h))).
  unfold len in He at 1. lia.
Qed.

Lemma version_accepted v :
  0x0300 <= v <= 0x0304 -> negb (Z.land v tlsVersionBitmask =? 0x0300) && negb (v =? tls13) = false.
Proof.
  intros Hv. assert (v = 0x300 \/ v = 0x301 \/ v = 0x302 \/ v = 0x303 \/ v = 0x304) as Hc by lia.
  by destruct Hc as [-> | [-> | [-> | [-> | ->]]]].
Qed.

Lemma at_in x l z r i : x = l ++ be 1 z ++ r -> len l = i -> 0 <= z < 256 -> at_ x i = Ok z.
Proof. intros -> <- Hz. rewrite at_app_r by done. rewrite Z.sub_diag. by apply at_be. Qed.

Lemma uint16At_in x l z r i : x = l ++ be 2 z ++ r -> len l = i -> 0 <= z < 65536 -> uint16At x i = Ok z.
Proof. intros -> <- Hz. rewrite uint16At_app_r by done. rewrite Z.sub_diag. by apply uint16At_be. Qed.

Lemma from_in x l r i : x = l ++ r -> len l = i -> from_ x i = Ok r.
Proof. intros -> <-. by apply from_app. Qed.

Section handshake.
Context (h : ClientHello) (Hwf : wellFormed h).

Lemma len_random : len (random h) = 32.
Proof. destruct Hwf as (_ & Hr & _). unfold len. rewrite Hr. done. Qed.

Lemma len_helloHead :
  len (helloHead h) = 38 + len (sessionID h) + len (cipherSuites h) + len (compression h).
Proof.
  unfold helloHead. rewrite !len_app, !len_be, len_random. cbn. lia.
Qed.

Lemma len_handshake : len (handshake h) = 6 + len (helloHead h) + len (extensions h).
Proof. unfold handshake, hello. rewrite !len_app, !len_be. cbn. lia. Qed.

(** The handshake from the cipher suites on. *)
Definition suites : bytes :=
  be 2 (len (cipherSuites h)) ++ cipherSuites h ++ be 1 (len (compression h)) ++ compression h ++
  be 2 (len (extensions h)) ++ extensions h.

Definition beforeSuites : bytes :=
  be 1 1 ++ be 3 (len (hello h)) ++ be 2 (version h) ++ random h ++ be 1 (len (sessionID h)) ++ sessionID h.

Lemma handshake_suites : handshake h = beforeSuites ++ suites.
Proof.
  unfold handshake, beforeSuites. set (n := len (hello h)). unfold hello, helloHead, suites. by rewrite <- !app_assoc.
Qed.

Lemma len_beforeSuites : len beforeSuites = 39 + len (sessionID h).
Proof.
  unfold beforeSuites. rewrite !len_app, !len_be, len_random. cbn. lia.
Qed.

Lemma len_suites : len suites = 5 + len (cipherSuites h) + len (compression h) + len (extensions h).
Proof. unfold suites. rewrite !len_app, !len_be. cbn. lia. Qed.

Lemma handshake_length_read h1 h2 h3 :
  at_ (handshake h) 1 = Ok h1 -> at_ (handshake h) 2 = Ok h2 -> at_ (handshake h) 3 = Ok h3 ->
  Z.lor (Z.lor (u32 (Z.shiftl h1 16)) (u32 (Z.shiftl h2 8))) h3 = len (hello h).
Proof.
  destruct Hwf as (_ & _ & _ & _ & _ & Hlen). unfold handshake in *. rewrite !len_app, !len_be in Hlen.
  pose proof (len_nonneg (hello h)).
  change (be 1 1) with [byteOf 1]. cbn [app]. rewrite be_3.
  rewrite !(at_cons (byteOf 1)) by lia. cbn [Z.sub]. change (1 - 1) with 0. change (2 - 1) with 1. change (3 - 1) with 2.
  rewrite at_byte. rewrite (at_cons _ _ 1), (at_cons _ _ 2) by lia. change (1 - 1) with 0. change (2 - 1) with 1.
  rewrite at_byte, at_cons by lia. change (1 - 1) with 0. rewrite at_byte.
  intros [= <-] [= <-] [= <-]. apply bytes_3. cbn in Hlen. lia.
Qed.

(** The list of extensions, with its length. *)
Definition extensionList : bytes := be 2 (len (extensions h)) ++ extensions h.

Lemma handshake_reads :
  at_ (handshake h) 0 = Ok 1 /\ from_ (handshake h) 4 = Ok (hello h) /\ uint16At (handshake h) 4 = Ok (version h) /\
  at_ (handshake h) 38 = Ok (len (sessionID h)) /\ from_ (handshake h) (6 + 32 + 1 + len (sessionID h)) = Ok suites /\
  from_ (handshake h) (4 + len (helloHead h)) = Ok extensionList.
Proof.
  pose proof len_beforeSuites as Hb. pose proof len_random as Hr. destruct Hwf as (Hv & _ & Hsid & _).
  pose proof (len_nonneg (sessionID h)). split_and!.
  - by apply (at_in _ [] 1 (be 3 (len (hello h)) ++ hello h)).
  - by apply (from_in _ (be 1 1 ++ be 3 (len (hello h)))).
  - apply (uint16At_in _ (be 1 1 ++ be 3 (len (hello h))) _ (drop 2 (hello h))); [done..|lia].
  - apply (at_in _ (be 1 1 ++ be 3 (len (hello h)) ++ be 2 (version h) ++ random h) _ (sessionID h ++ suites)).
    + rewrite handshake_suites. unfold beforeSuites. by rewrite <- !app_assoc.
    + by rewrite !len_app, !len_be, Hr.
    + lia.
  - apply (from_in _ _ _ _ handshake_suites). lia.
  - apply (from_in _ (be 1 1 ++ be 3 (len (hello h)) ++ helloHead h)).
    + unfold handshake. set (n := len (hello h)). unfold hello. by rewrite <- !app_assoc.
    + rewrite !len_app, !len_be. cbn. lia.
Qed.

Lemma suites_reads :
  uint16At suites 0 = Ok (len (cipherSuites h)) /\ at_ suites (2 + len (cipherSuites h)) = Ok (len (compression h)).
Proof.
  pose proof len_handshake as Hhs. pose proof len_helloHead as Hhead. destruct Hwf as (_ & _ & _ & Hcomp & _ & Hlen).
  pose proof (len_nonneg (sessionID h)). pose proof (len_nonneg (cipherSuites h)). pose proof (len_nonneg (compression h)).
  pose proof (len_nonneg (extensions h)). split.
  - apply (uint16At_in _ [] _ _ 0 eq_refl); [done|lia].
  - apply (at_in _ (be 2 (len (cipherSuites h)) ++ cipherSuites h) _ (compression h ++ extensionList)).
    + unfold suites. by rewrite <- !app_assoc.
    + by rewrite len_app, len_be.
    + lia.
Qed.

Lemma indexHandshake_found :
  indexTLSServerNameFromHandshake (handshake h) =
  Ok (Some (mkMyServerName (nameIndex h - 5) (len (serverName h)) (serverName h) (4 + len (helloHead h)))).
Proof.
  pose proof len_handshake as Hhs. pose proof len_helloHead as Hhead. pose proof len_suites as Hs.
  pose proof handshake_length_read as Hread.
  destruct handshake_reads as (R0 & R4 & Rv & R38 & Rs & Re). destruct suites_reads as (Rcs & Rcomp).
  destruct Hwf as (Hv & _ & Hsid & Hcomp & Hext & Hlen).
  pose proof (len_nonneg (sessionID h)). pose proof (len_nonneg (cipherSuites h)). pose proof (len_nonneg (compression h)).
  pose proof (len_nonneg (extensions h)).
  destruct (at_ok (handshake h) 1) as (h1 & R1 & _); [lia|]. destruct (at_ok (handshake h) 2) as (h2 & R2 & _); [lia|].
  destruct (at_ok (handshake h) 3) as (h3 & R3 & _); [lia|]. specialize (Hread h1 h2 h3 R1 R2 R3).
  unfold indexTLSServerNameFromHandshake.
  unfold handshakeHeaderLen, randomDataLen, sessionIDHeaderLen, cipherSuiteHeaderLen, compressMethodHeaderLen.
  rewrite (proj2 (Z.ltb_ge _ _)), R0 by lia. cbn [mbind result_bind]. change (negb (1 =? handshakeType)) with false.
  rewrite R1, R2, R3, R4, Rv, R38. cbn [mbind result_bind].
  rewrite Hread, Z.eqb_refl, version_accepted, (proj2 (Z.ltb_ge _ _)), Rs by lia. cbn [mbind result_bind negb].
  rewrite (proj2 (Z.ltb_ge _ _)), Rcs by lia. cbn [mbind result_bind].
  rewrite (proj2 (Z.ltb_ge _ _)), Rcomp by lia. cbn [mbind result_bind].
  set (i := 6 + 32 + 1 + _ + _). replace i with (4 + len (helloHead h)) by lia.
  rewrite (proj2 (Z.ltb_ge _ _)), Re by lia. cbn [mbind result_bind]. unfold extensionList.
  rewrite indexExtensions_found by (done || lia). cbn [mbind result_bind Index Length ServerName].
  unfold nameIndex. do 3 f_equal; lia.
Qed.
End handshake.

Lemma IndexTLSServerName_packet h : wellFormed h ->
  IndexTLSServerName (packet h) =
    Ok (Some (mkMyServerName (nameIndex h) (len (serverName h)) (serverName h) (9 + len (helloHead h)))).
Proof.
  intros Hwf. pose proof (indexHandshake_found h Hwf) as Hi. destruct Hwf as (_ & _ & _ & _ & _ & Hlen).
  pose proof (len_nonneg (handshake h)). unfold IndexTLSServerName, recordLayerHeaderLen.
  assert (len (packet h) = 5 + len (handshake h)) as -> by (unfold packet; rewrite !len_app, !len_be; cbn; lia).
  rewrite (proj2 (Z.ltb_ge _ _)) by lia. rewrite (at_in _ [] 22 (be 2 (recordVersion h) ++ be 2 (len (handshake h)) ++ handshake h) 0) by (done || lia).
  cbn [mbind result_bind].
  change (22 =? contentType) with true. cbn [negb].
  rewrite (uint16At_in _ (be 1 22 ++ be 2 (recordVersion h)) (len (handshake h)) (handshake h) 3) by (done || lia).
  cbn [mbind result_bind]. rewrite Z.ltb_irrefl.
  rewrite (from_in _ (be 1 22 ++ be 2 (recordVersion h) ++ be 2 (len (handshake h))) (handshake h) 5) by done.
  cbn [mbind result_bind]. rewrite Hi. cbn. do 3 f_equal; lia.
Qed.

(** C17: The search for the server name succeeds on every well-formed ClientHello that
    fits a record, whatever the other extensions are: it returns the name, its
    length, its index in the packet and the index of the list of extensions. *)
Theorem server_name_found h :
  wellFormed h ->
  IndexTLSServerName (packet h) =
    Ok (Some (mkMyServerName (nameIndex h) (len (serverName h)) (serverName h) (9 + len (helloHead h)))) /\
  occurs (packet h) (nameIndex h) (serverName h).
Proof.
  intros Hwf. split; [by apply IndexTLSServerName_packet|].
  exists (be 1 22 ++ be 2 (recordVersion h) ++ be 2 (len (handshake h)) ++ be 1 1 ++ be 3 (len (hello h)) ++
    helloHead h ++ be 2 (len (extensions h)) ++ concat (map extension (extensionsBefore h)) ++
    be 2 0 ++ be 2 (len (sniData (serverName h))) ++ be 2 (len (serverName h) + 3) ++ be 1 0 ++ be 2 (len (serverName h))).
  exists (concat (map extension (extensionsAfter h))). split.
  - unfold packet. set (n1 := len (handshake h)). unfold handshake. set (n2 := len (hello h)). unfold hello.
    set (n3 := len (extensions h)). unfold extensions, extension at 2. cbn [fst snd]. set (n4 := len (sniData _)).
    unfold sniData. by rewrite <- !app_assoc.
  - rewrite !len_app, !len_be. unfold nameIndex. cbn. lia.
Qed.

(** * A concrete ClientHello *)

Definition demoHello (name : bytes) : ClientHello :=
  mkClientHello 0x0301 0x0303 (repeat (byteOf 7) 32) (repeat (byteOf 8) 32) (be 2 0x1301) [byteOf 0]
    [(0x000a, be 2 0x001d)] name [(0x0010, [byteOf 1; byteOf 2])].

(** "ab.cd" *)
Definition demoName : bytes := map byteOf [97; 98; 46; 99; 100].

Lemma demoHello_wellFormed : wellFormed (demoHello demoName).
Proof. unfold wellFormed. split_and!; try (vm_compute; reflexivity); vm_compute; repeat constructor; discriminate. Qed.

Lemma server_name_found_witness :
  wellFormed (demoHello demoName) /\ occurs (packet (demoHello demoName)) (nameIndex (demoHello demoName)) demoName.
Proof.
  split; [exact demoHello_wellFormed|]. exact (proj2 (server_name_found (demoHello demoName) demoHello_wellFormed)).
Defined.

Definition noErr {A} (_ : A) : option GoError := None.

Lemma fragments_reassemble_witness :
  let b := packet (demoHello demoName) in
  let c := NewConn true true true false in
  let r := Conn_Write (fun _ => []) (fun _ _ => 0) noErr noErr noErr b c in
  namesServer b = true /\ length (written r.1) = 3%nat /\ noDelay r.1 = false /\
  exists packets, written r.1 = packets /\ delivers true b packets.
Proof.
  intros b c r.
  assert (IndexTLSServerName b = Ok (Some (mkMyServerName 99 5 demoName 82))) as Hs by (vm_compute; reflexivity).
  assert (match r with
    | (c', Ok n) => n = len b /\ firstPacketWritten c' = true /\
        exists packets, written c' = [] ++ packets /\ delivers (true && negb false && namesServer b) b packets
    | (_, Err e) => connFails noErr noErr noErr e
    | (_, Panic _) => False
    end) as Hr.
  { apply (fragments_reassemble (fun _ => []) (fun _ _ => 0) noErr noErr noErr b c).
    - intros i n Hn. lia.
    - vm_compute. reflexivity.
    - reflexivity.
    - intros s Hs'. rewrite Hs in Hs'. injection Hs' as <-. vm_compute. repeat constructor; discriminate. }
  split; [vm_compute; reflexivity|]. split; [vm_compute; reflexivity|]. split; [vm_compute; reflexivity|].
  destruct r as [c' [n|e|m]] eqn:Er.
  - destruct Hr as (_ & _ & packets & Hw & Hd). exists packets. split; [exact Hw|exact Hd].
  - exfalso. vm_compute in Er. discriminate.
  - destruct Hr.
Defined.

(** * Limits of the code *)

(** A server name with an empty label makes [Write] panic: [rand.Intn(0)]. *)
Lemma empty_label_panics :
  (Conn_Write (fun _ => []) (fun _ _ => 0) noErr noErr noErr (packet (demoHello [])) (NewConn true true false true)).2 =
  Panic "invalid argument to Intn".
Proof. vm_compute. reflexivity. Qed.

(** An extension of 65532 bytes: the slice does not advance, since [4+exLen] is
    zero in 16 bits, and the loop never ends. *)
Lemma extension_loop_diverges d exs : forall fuel at0,
  len d = 65532 -> extensionsLoop fuel at0 (extension (1, d) ++ exs) = Panic outOfFuel.
Proof.
  intros fuel at0 Hd. revert at0. pose proof (len_nonneg exs).
  destruct (extension_reads 1 d exs) as (Rt & Rl & Rd & _); [lia..|].
  assert (len (extension (1, d) ++ exs) = 4 + len d + len exs) as Hlen by (by rewrite len_app, len_extension).
  induction fuel as [|fuel IH]; intros at0; cbn [extensionsLoop]; unfold extensionHeaderLen; rewrite Hlen;
    rewrite (proj2 (Z.leb_gt _ _)) by lia; [done|].
  rewrite Rt. cbn [mbind result_bind]. rewrite Rl. cbn [mbind result_bind]. rewrite Rd. cbn [mbind result_bind].
  rewrite !(proj2 (Z.ltb_ge _ _)) by lia. change (1 =? sniExtensionType) with false. cbn match.
  rewrite Hd. change (u16 (4 + 65532)) with 0. rewrite from_ok by lia. cbn [mbind result_bind]. rewrite drop_0. apply IH.
Qed.

(** With a public suffix only the first label is cut, whatever the suffix. *)
Lemma suffix_keeps_first_label PublicSuffix s :
  PublicSuffix (ServerName s) <> [] ->
  splitLabels PublicSuffix s = Ok (take 1 (splitDot (ServerName s)), Index s).
Proof.
  intros Hp. unfold splitLabels. destruct (splitDot_spec (ServerName s)) as (Hn & _ & _). rewrite Hn.
  destruct (PublicSuffix _); [done|]. rewrite (proj2 (Nat.ltb_ge _ _)) by lia. rewrite Nat.sub_succ_l, Nat.sub_diag by lia.
  by destruct (splitDot (ServerName s)).
Qed.
