(* ===== verification/Ja3.v ===== *)
(** [common/ja3]: the parser of TLS ClientHello messages that the QUIC sniffer uses, and
    the JA3 string of a message. *)
From stdpp Require Import sorting.
From coqutil Require Import Byte.
From S2P Require Import Prelude Netip Metadata Text Bytes TLSFragment TLSFragmentSpec TLSHello.

(** * [parser.go] *)

(** The constants of [parser.go] that [tlsfragment/index.go] declares too are taken from
    there. *)
Definition ecExtensionHeaderLen : Z := 2.
Definition ecpfExtensionHeaderLen : Z := 1.
Definition versionExtensionHeaderLen : Z := 1.
Definition signatureAlgorithmsExtensionHeaderLen : Z := 2.
Definition ecExtensionType : Z := 10.
Definition ecpfExtensionType : Z := 11.
Definition versionExtensionType : Z := 43.
Definition signatureAlgorithmsExtensionType : Z := 13.
Definition GreaseBitmask : Z := 0x0F0F.

(** [ParseError] *)
Definition LengthErr (check : Z) : GoError := E_New ("length check " +:+ itoa check +:+ " failed").
Definition VersionErr (check : Z) : GoError := E_New ("version check " +:+ itoa check +:+ " failed").
Definition ContentTypeErr : GoError := E_New "content type not matching".
Definition HandshakeTypeErr : GoError := E_New "handshake type not matching".
Definition SNITypeErr : GoError := E_New "SNI type not supported".

(** The exported fields of [ClientHello]. *)
Record Fingerprint := mkFingerprint {
  fp_Version : Z;
  fp_CipherSuites : list Z;
  fp_Extensions : list Z;
  fp_EllipticCurves : list Z;
  fp_EllipticCurvePF : list Z;
  fp_Versions : list Z;
  fp_SignatureAlgorithms : list Z;
  fp_ServerName : bytes
}.

Definition fingerprintZero : Fingerprint := mkFingerprint 0 [] [] [] [] [] [] [].

(** [for i := range n], reading 16 bits at [off+2*i]. *)
Definition uint16sAt (l : bytes) (off n : Z) : result (list Z) := mapR (fun i => uint16At l (off + 2 * i)) (seqZ 0 n).

(** [for i := 0; i < n; i += 2], reading 16 bits at the start of [l[i:]]. *)
Definition uint16sFrom (l : bytes) (n : Z) : result (list Z) :=
  mapR (fun i => tail ← from_ l (2 * i); uint16At tail 0) (seqZ 0 ((n + 1) / 2)).

(** The switch on the type of an extension with the data [sex]. *)
Definition parseExtension (j : Fingerprint) (exType : Z) (sex : bytes) : result Fingerprint :=
  if exType =? sniExtensionType then
    if len sex <? sniExtensionHeaderLen then Err (LengthErr 13) else
    sniType ← at_ sex 2;
    sniLen ← uint16At sex 3;
    sex ← from_ sex sniExtensionHeaderLen;
    if negb (len sex =? sniLen) then Err (LengthErr 14) else
    if sniType =? sniNameDNSHostnameType then Ok (j {{ fp_ServerName := sex }}) else Err SNITypeErr
  else if exType =? ecExtensionType then
    if len sex <? ecExtensionHeaderLen then Err (LengthErr 15) else
    ecsLen ← uint16At sex 0;
    sex ← from_ sex ecExtensionHeaderLen;
    if negb (len sex =? ecsLen) then Err (LengthErr 16) else
    ellipticCurves ← uint16sAt sex 0 (ecsLen / 2);
    Ok (j {{ fp_EllipticCurves := ellipticCurves }})
  else if exType =? ecpfExtensionType then
    if len sex <? ecpfExtensionHeaderLen then Err (LengthErr 17) else
    numPF ← at_ sex 0;
    sex ← from_ sex ecpfExtensionHeaderLen;
    if negb (len sex =? numPF) then Err (LengthErr 18) else
    ellipticCurvePF ← mapR (fun i => at_ sex i) (seqZ 0 numPF);
    Ok (j {{ fp_EllipticCurvePF := ellipticCurvePF }})
  else if exType =? versionExtensionType then
    if len sex <? versionExtensionHeaderLen then Err (LengthErr 19) else
    versionsLen ← at_ sex 0;
    tail ← from_ sex 1;
    versions ← uint16sFrom tail versionsLen;
    Ok (j {{ fp_Versions := fp_Versions j ++ versions }})
  else if exType =? signatureAlgorithmsExtensionType then
    if len sex <? signatureAlgorithmsExtensionHeaderLen then Err (LengthErr 20) else
    ssaLen ← uint16At sex 0;
    tail ← from_ sex 2;
    signatureAlgorithms ← uint16sFrom tail ssaLen;
    Ok (j {{ fp_SignatureAlgorithms := fp_SignatureAlgorithms j ++ signatureAlgorithms }})
  else Ok j.

(** The loop over the extensions; the slice advances by [4+exLen] in the 16 bits of
    [exLen]. *)
Fixpoint parseExtensionsLoop (fuel : nat) (exs : bytes) (j : Fingerprint) : result Fingerprint :=
  if len exs <=? 0 then Ok j else
  match fuel with
  | O => Panic outOfFuel
  | S fuel' =>
      if len exs <? extensionHeaderLen then Err (LengthErr 11) else
      exType ← uint16At exs 0;
      exLen ← uint16At exs 2;
      let j := j {{ fp_Extensions := fp_Extensions j ++ [exType] }} in
      if len exs <? extensionHeaderLen + exLen then Err (LengthErr 12) else
      sex ← range_ exs extensionHeaderLen (extensionHeaderLen + exLen);
      j ← parseExtension j exType sex;
      exs ← from_ exs (u16 (4 + exLen));
      parseExtensionsLoop fuel' exs j
  end.

Definition parseExtensions (j : Fingerprint) (exs : bytes) : result Fingerprint :=
  if len exs =? 0 then Ok j else
  if len exs <? extensionsHeaderLen then Err (LengthErr 9) else
  exsLen ← uint16At exs 0;
  exs ← from_ exs extensionsHeaderLen;
  if len exs <? exsLen then Err (LengthErr 10) else
  parseExtensionsLoop (length exs) exs j.

Definition badVersion (tlsVersion : Z) : bool := negb (Z.land tlsVersion tlsVersionBitmask =? 0x0300) && negb (tlsVersion =? tls13).

Definition parseHandshake (j : Fingerprint) (hs : bytes) : result Fingerprint :=
  if len hs <? handshakeHeaderLen + randomDataLen + sessionIDHeaderLen then Err (LengthErr 3) else
  handshType ← at_ hs 0;
  if negb (handshType =? handshakeType) then Err HandshakeTypeErr else
  h1 ← at_ hs 1; h2 ← at_ hs 2; h3 ← at_ hs 3;
  let handshakeLen := Z.lor (Z.lor (u32 (Z.shiftl h1 16)) (u32 (Z.shiftl h2 8))) h3 in
  body ← from_ hs 4;
  if negb (len body =? handshakeLen) then Err (LengthErr 4) else
  tlsVersion ← uint16At hs 4;
  if badVersion tlsVersion then Err (VersionErr 2) else
  let j := j {{ fp_Version := tlsVersion }} in
  sessionIDLen ← at_ hs 38;
  if len hs <? handshakeHeaderLen + randomDataLen + sessionIDHeaderLen + sessionIDLen then Err (LengthErr 5) else
  cs ← from_ hs (handshakeHeaderLen + randomDataLen + sessionIDHeaderLen + sessionIDLen);
  if len cs <? cipherSuiteHeaderLen then Err (LengthErr 6) else
  csLen ← uint16At cs 0;
  if len cs <? cipherSuiteHeaderLen + csLen + compressMethodHeaderLen then Err (LengthErr 7) else
  cipherSuites ← uint16sAt cs 2 (csLen / 2);
  let j := j {{ fp_CipherSuites := cipherSuites }} in
  compressMethodLen ← at_ cs (cipherSuiteHeaderLen + csLen);
  if len cs <? cipherSuiteHeaderLen + csLen + compressMethodHeaderLen + compressMethodLen then Err (LengthErr 8) else
  exs ← from_ cs (cipherSuiteHeaderLen + csLen + compressMethodHeaderLen + compressMethodLen);
  parseExtensions j exs.

Definition parseSegment (j : Fingerprint) (segment : bytes) : result Fingerprint :=
  if len segment <? recordLayerHeaderLen then Err (LengthErr 1) else
  contType ← at_ segment 0;
  if negb (contType =? contentType) then Err ContentTypeErr else
  tlsRecordVersion ← uint16At segment 1;
  if badVersion tlsRecordVersion then Err (VersionErr 1) else
  segmentLen ← uint16At segment 3;
  rest ← from_ segment recordLayerHeaderLen;
  if len rest <? segmentLen then Err (LengthErr 2) else
  hs ← range_ segment recordLayerHeaderLen (recordLayerHeaderLen + segmentLen);
  parseHandshake j hs.

Definition ja3_Compute (payload : bytes) : result Fingerprint := parseSegment fingerprintZero payload.

(** The values of a list that pass the test for GREASE, each followed by a dash. *)
Definition appendValues (values : list Z) (byteString : bytes) : bytes :=
  fold_left (fun byteString val =>
    if negb (Z.land val GreaseBitmask =? 0x0A0A) then byteString
    else byteString ++ stringBytes (utoa val) ++ stringBytes "-") values byteString.

(** A list, ended by a comma in place of the last byte. *)
Definition appendList (values : list Z) (byteString : bytes) : bytes :=
  if nonempty values then removelast (appendValues values byteString) ++ stringBytes "," else byteString ++ stringBytes ",".

Definition marshalJA3 (j : Fingerprint) : bytes :=
  let byteString := stringBytes (utoa (fp_Version j)) ++ stringBytes "," in
  let byteString := appendList (fp_CipherSuites j) byteString in
  let byteString := appendList (fp_Extensions j) byteString in
  let byteString := appendList (fp_EllipticCurves j) byteString in
  if nonempty (fp_EllipticCurvePF j)
  then removelast (fold_left (fun byteString val => byteString ++ stringBytes (utoa val) ++ stringBytes "-") (fp_EllipticCurvePF j) byteString)
  else byteString.

Definition sortedExtensions (j : Fingerprint) : list Z := merge_sort Z.le (fp_Extensions j).

Definition Fingerprint_Equals (j another : Fingerprint) (ignoreExtensionsSequence : bool) : bool :=
  (fp_Version j =? fp_Version another) &&
  bool_decide (fp_CipherSuites j = fp_CipherSuites another) &&
  bool_decide (fp_Extensions j = if ignoreExtensionsSequence then sortedExtensions another else fp_Extensions another) &&
  bool_decide (fp_EllipticCurves j = fp_EllipticCurves another) &&
  bool_decide (fp_EllipticCurvePF j = fp_EllipticCurvePF another) &&
  bool_decide (fp_SignatureAlgorithms j = fp_SignatureAlgorithms another).

(** * Reading ends *)

(** The reads of a parser that are in range. *)
Ltac readStep :=
  match goal with
  | |- (at_ ?l ?i ≫= _) <> _ => let v := fresh "v" in destruct (at_ok l i) as (v & -> & ?); [lia|]
  | |- (uint16At ?l ?i ≫= _) <> _ => let v := fresh "v" in destruct (uint16At_ok l i) as (v & -> & ?); [lia|lia|]
  | |- (from_ ?l ?i ≫= _) <> _ => rewrite (from_ok l i) by lia
  | |- (range_ ?l ?i ?j ≫= _) <> _ => rewrite (range_ok l i j) by lia
  | |- (if ?a <? ?b then _ else _) <> _ => destruct (Z.ltb_spec a b); [done|]
  | |- (if ?a then Err _ else _) <> _ => destruct a eqn:?; [done|]
  end; cbn [mbind result_bind].

Lemma mapR_in_fuel {A} (f : A -> result Z) l : (forall a, f a <> Panic outOfFuel) -> mapR f l <> Panic outOfFuel.
Proof.
  intros Hf. induction l as [|a l IH]; cbn; [done|]. specialize (Hf a). destruct (f a) as [v|e|s]; cbn; [|done|congruence].
  destruct (mapR f l); cbn; congruence.
Qed.

Lemma at_in_fuel l i : at_ l i <> Panic outOfFuel.
Proof. unfold at_. by destruct (_ && _). Qed.

Lemma uint16At_in_fuel l i : uint16At l i <> Panic outOfFuel.
Proof.
  unfold uint16At. pose proof (at_in_fuel l i). destruct (at_ l i); cbn; [|done|congruence].
  pose proof (at_in_fuel l (i + 1)). destruct (at_ l (i + 1)); cbn; [done|done|congruence].
Qed.

Lemma uint16sFrom_in_fuel l n : uint16sFrom l n <> Panic outOfFuel.
Proof.
  apply mapR_in_fuel. intros i. unfold from_. destruct (_ && _); cbn; [apply uint16At_in_fuel|done].
Qed.

Lemma uint16sAt_in_fuel l off n : uint16sAt l off n <> Panic outOfFuel.
Proof. apply mapR_in_fuel. intros i. apply uint16At_in_fuel. Qed.

Lemma bind_in_fuel {A B} (m : result A) (k : A -> result B) : m <> Panic outOfFuel -> (forall a, k a <> Panic outOfFuel) -> (m ≫= k) <> Panic outOfFuel.
Proof. intros Hm Hk. destruct m; cbn; [apply Hk|done|congruence]. Qed.

Lemma parseExtension_in_fuel j t sex : parseExtension j t sex <> Panic outOfFuel.
Proof.
  unfold parseExtension, sniExtensionHeaderLen, ecExtensionHeaderLen, ecpfExtensionHeaderLen, versionExtensionHeaderLen, signatureAlgorithmsExtensionHeaderLen.
  destruct (t =? sniExtensionType); [repeat readStep; case_match; discriminate|].
  destruct (t =? ecExtensionType); [repeat readStep; by apply bind_in_fuel; [apply uint16sAt_in_fuel|]|].
  destruct (t =? ecpfExtensionType); [repeat readStep; by apply bind_in_fuel; [apply mapR_in_fuel; intros; apply at_in_fuel|]|].
  destruct (t =? versionExtensionType); [repeat readStep; by apply bind_in_fuel; [apply uint16sFrom_in_fuel|]|].
  destruct (t =? signatureAlgorithmsExtensionType); [repeat readStep; by apply bind_in_fuel; [apply uint16sFrom_in_fuel|]|]. done.
Qed.

Lemma parseExtensionsLoop_ends fuel : forall exs j, (length exs <= fuel)%nat -> len exs < 65536 -> parseExtensionsLoop fuel exs j <> Panic outOfFuel.
Proof.
  induction fuel as [|fuel IH]; intros exs j Hf Hl; cbn [parseExtensionsLoop]; destruct (Z.leb_spec (len exs) 0); try done; [unfold len in *; lia|].
  unfold extensionHeaderLen. repeat readStep. apply bind_in_fuel; [apply parseExtension_in_fuel|]. intros j'.
  unfold u16. rewrite wrap_small by (change (2 ^ 16) with 65536; lia). readStep.
  apply IH; [rewrite length_drop; unfold len in *; lia|rewrite len_drop; lia].
Qed.


Lemma uint16At_range l i v : uint16At l i = Ok v -> 0 <= v < 65536.
Proof.
  unfold uint16At. intros (hi & Hhi & (lo & Hlo & [= <-])%bind_Ok)%bind_Ok.
  assert (0 <= lo < 2 ^ 8) as Hl. { unfold at_ in Hlo. destruct (_ && _); [|done]. injection Hlo as <-. apply byteVal_range. }
  assert (0 <= hi < 2 ^ 8) as Hh. { unfold at_ in Hhi. destruct (_ && _); [|done]. injection Hhi as <-. apply byteVal_range. }
  unfold u16. rewrite wrap_small by (rewrite Z.shiftl_mul_pow2 by lia; change (2 ^ 16) with 65536; lia).
  rewrite Z.lor_comm, lor_shifted by lia. lia.
Qed.

Lemma parseExtensions_ends j exs : len exs < 65536 -> parseExtensions j exs <> Panic outOfFuel.
Proof.
  intros Hl. unfold parseExtensions, extensionsHeaderLen. destruct (len exs =? 0); [done|]. repeat readStep.
  apply parseExtensionsLoop_ends; [done|]. rewrite len_drop; lia.
Qed.

Lemma parseHandshake_ends j hs : len hs < 65536 -> parseHandshake j hs <> Panic outOfFuel.
Proof.
  intros Hl. unfold parseHandshake, handshakeHeaderLen, randomDataLen, sessionIDHeaderLen, cipherSuiteHeaderLen, compressMethodHeaderLen.
  repeat readStep. apply bind_in_fuel; [apply uint16sAt_in_fuel|]. intros cs. repeat readStep.
  apply parseExtensions_ends. rewrite !len_drop; rewrite ?len_drop in *; lia.
Qed.

(** Parsing ends on every input: the records of TLS are too short for the length of an
    extension to wrap around. *)
Theorem ja3_terminates payload : ja3_Compute payload <> Panic outOfFuel.
Proof.
  unfold ja3_Compute, parseSegment, recordLayerHeaderLen. readStep. readStep. readStep. readStep. readStep.
  destruct (uint16At payload 3) as [n|e|s] eqn:Hn; cbn [mbind result_bind]; [|done|intros [= ->]; by apply uint16At_in_fuel in Hn].
  apply uint16At_range in Hn. readStep. rewrite len_drop by lia. repeat readStep.
  apply parseHandshake_ends. rewrite len_take by (rewrite len_drop; lia). lia.
Qed.

(** * Messages are read back *)

(** The extensions the parser knows, and others. *)
Inductive Ext :=
| ExtServerName (name : bytes)
| ExtGroups (groups : list Z)
| ExtPointFormats (formats : bytes)
| ExtVersions (versions : list Z)
| ExtSignatures (algorithms : list Z)
| ExtOther (type : Z) (data : bytes).

Definition uint16Bytes (l : list Z) : bytes := concat (map (be 2) l).

(** RFC 8446, section 4.2; RFC 8422, section 5.1.2. *)
Definition encodeExt (e : Ext) : Z * bytes :=
  match e with
  | ExtServerName name => (0, sniData name)
  | ExtGroups l => (10, be 2 (2 * len l) ++ uint16Bytes l)
  | ExtPointFormats l => (11, be 1 (len l) ++ l)
  | ExtVersions l => (43, be 1 (2 * len l) ++ uint16Bytes l)
  | ExtSignatures l => (13, be 2 (2 * len l) ++ uint16Bytes l)
  | ExtOther t d => (t, d)
  end.

Definition isUint16 (z : Z) : Prop := 0 <= z < 65536.

Definition validExt (e : Ext) : Prop :=
  match e with
  | ExtServerName _ => True
  | ExtGroups l | ExtSignatures l => Forall isUint16 l
  | ExtPointFormats l => len l < 256
  | ExtVersions l => Forall isUint16 l /\ 2 * len l < 256
  | ExtOther t _ => isUint16 t /\ t ∉ [0; 10; 11; 13; 43]
  end.

(** What an extension adds to the fingerprint. *)
Definition readExt (j : Fingerprint) (e : Ext) : Fingerprint :=
  let j := j {{ fp_Extensions := fp_Extensions j ++ [(encodeExt e).1] }} in
  match e with
  | ExtServerName name => j {{ fp_ServerName := name }}
  | ExtGroups l => j {{ fp_EllipticCurves := l }}
  | ExtPointFormats l => j {{ fp_EllipticCurvePF := map byteVal l }}
  | ExtVersions l => j {{ fp_Versions := fp_Versions j ++ l }}
  | ExtSignatures l => j {{ fp_SignatureAlgorithms := fp_SignatureAlgorithms j ++ l }}
  | ExtOther _ _ => j
  end.

Lemma len_uint16Bytes l : len (uint16Bytes l) = 2 * len l.
Proof. induction l as [|z l IH]; [done|]. unfold uint16Bytes in *. cbn [map concat]. rewrite len_app, len_be, len_cons, IH. lia. Qed.

Lemma mapR_seqZ {A} (f : Z -> result A) (l : list A) : forall m, (forall i a, l !! i = Some a -> f (m + Z.of_nat i) = Ok a) ->
  mapR f (seqZ m (len l)) = Ok l.
Proof.
  induction l as [|a l IH]; intros m Hf; [done|]. rewrite len_cons, seqZ_cons by (pose proof (len_nonneg l); lia). cbn.
  rewrite <- (Z.add_0_r m) at 1. change 0 with (Z.of_nat 0). rewrite (Hf 0%nat a eq_refl). cbn. replace (Z.pred (1 + len l)) with (len l) by lia.
  rewrite IH; [done|]. intros i b Hb. rewrite <- (Hf (S i) b Hb). f_equal. lia.
Qed.

Lemma uint16Bytes_at pre l post i z : l !! i = Some z -> isUint16 z -> uint16At (pre ++ uint16Bytes l ++ post) (len pre + 2 * Z.of_nat i) = Ok z.
Proof.
  intros Hi Hz. apply (uint16At_in _ (pre ++ uint16Bytes (take i l)) z (uint16Bytes (drop (S i) l) ++ post)); [| |done].
  - rewrite <- (take_drop_middle l i z Hi) at 1. unfold uint16Bytes. rewrite map_app, concat_app. cbn [map concat]. by rewrite <- !app_assoc.
  - rewrite len_app, len_uint16Bytes. apply lookup_lt_Some in Hi. unfold len. rewrite length_take. lia.
Qed.

Lemma uint16sAt_read pre l post : Forall isUint16 l -> uint16sAt (pre ++ uint16Bytes l ++ post) (len pre) (len l) = Ok l.
Proof.
  intros Hl. apply mapR_seqZ. intros i z Hi. cbn [Z.add]. apply uint16Bytes_at; [done|]. by eapply Forall_lookup_1 in Hl.
Qed.

Lemma uint16sFrom_read l : Forall isUint16 l -> uint16sFrom (uint16Bytes l) (2 * len l) = Ok l.
Proof.
  intros Hl. unfold uint16sFrom. replace ((2 * len l + 1) / 2) with (len l) by (rewrite Z.mul_comm, Z.div_add_l by lia; change (1 / 2) with 0; lia).
  apply mapR_seqZ. intros i z Hi. cbn [Z.add]. pose proof (lookup_lt_Some _ _ _ Hi) as Hlt.
  rewrite (from_in _ (uint16Bytes (take i l)) (be 2 z ++ uint16Bytes (drop (S i) l))).
  - cbn [mbind result_bind]. apply uint16At_be. by eapply Forall_lookup_1 in Hl.
  - rewrite <- (take_drop_middle l i z Hi) at 1. unfold uint16Bytes. by rewrite map_app, concat_app.
  - rewrite len_uint16Bytes. unfold len. rewrite length_take. lia.
Qed.

Lemma bytes_at_read l : mapR (fun i => at_ l i) (seqZ 0 (len l)) = Ok (map byteVal l).
Proof.
  replace (len l) with (len (map byteVal l)) by (unfold len; by rewrite length_map). apply mapR_seqZ. intros i z Hi.
  rewrite list_lookup_fmap in Hi.
  apply fmap_Some in Hi as (b & Hb & ->). pose proof (lookup_lt_Some _ _ _ Hb). unfold at_.
  rewrite (proj2 (Z.leb_le _ _)), (proj2 (Z.ltb_lt _ _)) by (unfold len; lia). cbn [andb]. rewrite Z.add_0_l, Nat2Z.id. do 2 f_equal.
  by apply nth_lookup_Some.
Qed.

Lemma parseExtension_read j e : validExt e -> len (encodeExt e).2 < 65536 ->
  parseExtension (j {{ fp_Extensions := fp_Extensions j ++ [(encodeExt e).1] }}) (encodeExt e).1 (encodeExt e).2 = Ok (readExt j e).
Proof.
  unfold parseExtension, sniExtensionHeaderLen, ecExtensionHeaderLen, ecpfExtensionHeaderLen, versionExtensionHeaderLen,
    signatureAlgorithmsExtensionHeaderLen, readExt.
  intros Hv Hl. destruct e as [name|l|l|l|l|t d]; cbn [encodeExt fst snd] in *; set (j' := j {{ fp_Extensions := _ }}); clearbody j'.
  - change (0 =? sniExtensionType) with true. cbn match. rewrite len_sniData in *. pose proof (len_nonneg name).
    rewrite (proj2 (Z.ltb_ge _ _)) by lia. unfold sniData.
    rewrite (at_in _ (be 2 (len name + 3)) 0 (be 2 (len name) ++ name)) by (done || lia). cbn [mbind result_bind].
    rewrite (uint16At_in _ (be 2 (len name + 3) ++ be 1 0) (len name) name) by (done || lia). cbn [mbind result_bind].
    rewrite (from_in _ (be 2 (len name + 3) ++ be 1 0 ++ be 2 (len name)) name) by done. cbn [mbind result_bind].
    by rewrite Z.eqb_refl.
  - change (10 =? sniExtensionType) with false. change (10 =? ecExtensionType) with true. cbn match.
    rewrite len_app, len_be, len_uint16Bytes in *. pose proof (len_nonneg l). rewrite (proj2 (Z.ltb_ge _ _)) by lia.
    rewrite uint16At_be by lia. cbn [mbind result_bind]. rewrite from_app by done. cbn [mbind result_bind].
    rewrite len_uint16Bytes, Z.eqb_refl, Z.mul_comm, Z.div_mul by lia. cbn [negb].
    pose proof (uint16sAt_read [] l [] Hv) as Hr. rewrite app_nil_r in Hr. cbn [app] in Hr. change (len []) with 0 in Hr. by rewrite Hr.
  - change (11 =? sniExtensionType) with false. change (11 =? ecExtensionType) with false. change (11 =? ecpfExtensionType) with true. cbn match.
    rewrite len_app, len_be in *. pose proof (len_nonneg l). cbn in Hv. rewrite (proj2 (Z.ltb_ge _ _)) by lia.
    rewrite at_be by lia. cbn [mbind result_bind]. rewrite from_app by done. cbn [mbind result_bind].
    rewrite Z.eqb_refl. cbn [negb]. by rewrite bytes_at_read.
  - change (43 =? sniExtensionType) with false. change (43 =? ecExtensionType) with false. change (43 =? ecpfExtensionType) with false.
    change (43 =? versionExtensionType) with true. cbn match. destruct Hv as [Hv Hn].
    rewrite len_app, len_be, len_uint16Bytes in *. pose proof (len_nonneg l). rewrite (proj2 (Z.ltb_ge _ _)) by lia.
    rewrite at_be by lia. cbn [mbind result_bind]. rewrite from_app by done. cbn [mbind result_bind]. by rewrite uint16sFrom_read.
  - change (13 =? sniExtensionType) with false. change (13 =? ecExtensionType) with false. change (13 =? ecpfExtensionType) with false.
    change (13 =? versionExtensionType) with false. change (13 =? signatureAlgorithmsExtensionType) with true. cbn match.
    rewrite len_app, len_be, len_uint16Bytes in *. pose proof (len_nonneg l). rewrite (proj2 (Z.ltb_ge _ _)) by lia.
    rewrite uint16At_be by lia. cbn [mbind result_bind]. rewrite from_app by done. cbn [mbind result_bind]. by rewrite uint16sFrom_read.
  - destruct Hv as [_ Hv]. rewrite !not_elem_of_cons in Hv.
    unfold sniExtensionType, ecExtensionType, ecpfExtensionType, versionExtensionType, signatureAlgorithmsExtensionType.
    rewrite !(proj2 (Z.eqb_neq _ _)) by lia. done.
Qed.

Lemma parseExtensionsLoop_read exts : forall fuel j,
  Forall validExt exts -> (length exts <= fuel)%nat -> len (concat (map (fun e => extension (encodeExt e)) exts)) < 65536 ->
  parseExtensionsLoop fuel (concat (map (fun e => extension (encodeExt e)) exts)) j = Ok (fold_left readExt exts j).
Proof.
  induction exts as [|e exts IH]; intros fuel j Hv Hf Hlen; [by destruct fuel|]. destruct fuel as [|fuel]; [cbn in Hf; lia|].
  apply Forall_cons_1 in Hv as [Hv Hvs]. cbn [map concat fold_left length] in *. set (rest := concat _) in *.
  assert (isUint16 (encodeExt e).1) as Ht by (destruct e; cbn in *; unfold isUint16 in *; naive_solver lia).
  pose proof (parseExtension_read j e Hv) as Hread. destruct (encodeExt e) as [t d]. cbn [fst snd] in *.
  rewrite len_app, len_extension in Hlen. pose proof (len_nonneg rest). pose proof (len_nonneg d).
  destruct (extension_reads t d rest) as (Rt & Rl & Rd & Rr); [done|lia|].
  cbn [parseExtensionsLoop]. unfold extensionHeaderLen. rewrite len_app, len_extension.
  rewrite (proj2 (Z.leb_gt _ _)), (proj2 (Z.ltb_ge _ 4)) by lia. rewrite Rt. cbn [mbind result_bind]. rewrite Rl. cbn [mbind result_bind].
  rewrite (proj2 (Z.ltb_ge _ _)) by lia. rewrite Rd. cbn [mbind result_bind]. rewrite Hread by lia. cbn [mbind result_bind].
  unfold u16. rewrite (wrap_small 16 (4 + len d)) by (change (2 ^ 16) with 65536; lia). rewrite Rr. cbn [mbind result_bind].
  apply IH; [done|lia|lia].
Qed.

(** A message whose cipher suites and extensions are the given ones. *)
Record describes (h : ClientHello) (suites : list Z) (before after : list Ext) : Prop := {
  ds_suites : cipherSuites h = uint16Bytes suites;
  ds_before : extensionsBefore h = map encodeExt before;
  ds_after : extensionsAfter h = map encodeExt after;
  ds_valid : Forall isUint16 suites /\ Forall validExt before /\ Forall validExt after }.

Definition fingerprintOf (h : ClientHello) (suites : list Z) (before after : list Ext) : Fingerprint :=
  fold_left readExt (before ++ [ExtServerName (serverName h)] ++ after) (fingerprintZero {{ fp_Version := version h; fp_CipherSuites := suites }}).

Section message.
Context (h : ClientHello) (cs : list Z) (before after : list Ext).
Context (Hwf : wellFormed h) (Hd : describes h cs before after).

Lemma extensions_encoded :
  extensions h = concat (map (fun e => extension (encodeExt e)) (before ++ [ExtServerName (serverName h)] ++ after)).
Proof.
  unfold extensions. rewrite (ds_before _ _ _ _ Hd), (ds_after _ _ _ _ Hd), !map_app, !concat_app, !map_map. cbn [map concat]. by rewrite app_nil_r.
Qed.

Lemma parseExtensions_read j : parseExtensions j (extensionList h) =
  Ok (fold_left readExt (before ++ [ExtServerName (serverName h)] ++ after) j).
Proof.
  assert (len (extensions h) < 65536) as Hlen.
  { pose proof (len_handshake h). destruct Hwf as (_ & _ & _ & _ & _ & Hlen). pose proof (len_nonneg (helloHead h)). lia. }
  pose proof (len_nonneg (extensions h)). unfold parseExtensions, extensionList, extensionsHeaderLen. rewrite len_app, len_be. change (Z.of_nat 2) with 2.
  rewrite (proj2 (Z.eqb_neq _ _)), (proj2 (Z.ltb_ge _ _)) by lia. rewrite uint16At_be by lia. cbn [mbind result_bind].
  rewrite from_app by (by rewrite len_be). cbn [mbind result_bind]. rewrite Z.ltb_irrefl. rewrite extensions_encoded in *.
  destruct (ds_valid _ _ _ _ Hd) as (_ & Hb & Ha). apply parseExtensionsLoop_read; [|rewrite <- map_map|done].
  - apply Forall_app. split; [done|]. by constructor.
  - rewrite <- length_extensions. by rewrite length_map.
Qed.

Lemma parseHandshake_read : parseHandshake fingerprintZero (handshake h) = Ok (fingerprintOf h cs before after).
Proof.
  pose proof (len_handshake h) as Hhs. pose proof (len_helloHead h Hwf) as Hhead. pose proof (len_suites h) as Hs.
  pose proof (handshake_length_read h Hwf) as Hread. pose proof (parseExtensions_read) as Hexts.
  destruct (handshake_reads h Hwf) as (R0 & R4 & Rv & R38 & Rs & _). destruct (suites_reads h Hwf) as (Rcs & Rcomp).
  destruct Hwf as (Hv & _ & Hsid & Hcomp & Hext & Hlen).
  pose proof (len_nonneg (sessionID h)). pose proof (len_nonneg (cipherSuites h)). pose proof (len_nonneg (compression h)).
  pose proof (len_nonneg (extensions h)).
  destruct (at_ok (handshake h) 1) as (h1 & R1 & _); [lia|]. destruct (at_ok (handshake h) 2) as (h2 & R2 & _); [lia|].
  destruct (at_ok (handshake h) 3) as (h3 & R3 & _); [lia|]. specialize (Hread h1 h2 h3 R1 R2 R3).
  assert (uint16sAt (suites h) 2 (len (cipherSuites h) / 2) = Ok cs) as Rsuites.
  { rewrite (ds_suites _ _ _ _ Hd), len_uint16Bytes, Z.mul_comm, Z.div_mul by lia. unfold suites. rewrite (ds_suites _ _ _ _ Hd).
    apply (uint16sAt_read (be 2 _)). apply (ds_valid _ _ _ _ Hd). }
  assert (from_ (suites h) (2 + len (cipherSuites h) + 1 + len (compression h)) = Ok (extensionList h)) as Re.
  { apply (from_in _ (be 2 (len (cipherSuites h)) ++ cipherSuites h ++ be 1 (len (compression h)) ++ compression h)).
    - unfold suites, extensionList. by rewrite <- !app_assoc.
    - rewrite !len_app, !len_be. lia. }
  unfold parseHandshake, handshakeHeaderLen, randomDataLen, sessionIDHeaderLen, cipherSuiteHeaderLen, compressMethodHeaderLen.
  rewrite (proj2 (Z.ltb_ge _ _)) by lia. rewrite R0. cbn [mbind result_bind]. change (1 =? handshakeType) with true. cbn [negb].
  rewrite R1. cbn [mbind result_bind]. rewrite R2. cbn [mbind result_bind]. rewrite R3. cbn [mbind result_bind]. rewrite R4. cbn [mbind result_bind].
  rewrite Hread, Z.eqb_refl. cbn [negb]. rewrite Rv. cbn [mbind result_bind]. unfold badVersion. rewrite (version_accepted _ Hv).
  rewrite R38. cbn [mbind result_bind]. rewrite (proj2 (Z.ltb_ge _ _)) by lia. rewrite Rs. cbn [mbind result_bind].
  rewrite (proj2 (Z.ltb_ge (len (suites h)) 2)) by lia. rewrite Rcs. cbn [mbind result_bind].
  rewrite (proj2 (Z.ltb_ge _ _)) by lia. rewrite Rsuites. cbn [mbind result_bind]. rewrite Rcomp. cbn [mbind result_bind].
  rewrite (proj2 (Z.ltb_ge _ _)) by lia. rewrite Re. cbn [mbind result_bind]. apply Hexts.
Qed.

Lemma Compute_read : 0x0300 <= recordVersion h <= 0x0304 -> ja3_Compute (packet h) = Ok (fingerprintOf h cs before after).
Proof.
  intros Hr. pose proof parseHandshake_read as Hh. destruct Hwf as (_ & _ & _ & _ & _ & Hlen). pose proof (len_nonneg (handshake h)).
  unfold ja3_Compute, parseSegment, recordLayerHeaderLen. unfold packet. set (n := len (handshake h)) in *.
  rewrite !len_app, !len_be. fold n. rewrite (proj2 (Z.ltb_ge _ _)) by lia.
  rewrite (at_in _ [] 22 (be 2 (recordVersion h) ++ be 2 n ++ handshake h)) by (done || lia). cbn [mbind result_bind].
  change (22 =? contentType) with true. cbn [negb].
  rewrite (uint16At_in _ (be 1 22) (recordVersion h) (be 2 n ++ handshake h) 1) by (done || lia). cbn [mbind result_bind].
  unfold badVersion. rewrite (version_accepted _ Hr).
  rewrite (uint16At_in _ (be 1 22 ++ be 2 (recordVersion h)) n (handshake h)) by (done || lia). cbn [mbind result_bind].
  rewrite (from_in _ (be 1 22 ++ be 2 (recordVersion h) ++ be 2 n) (handshake h)) by done. cbn [mbind result_bind].
  fold n. rewrite Z.ltb_irrefl.
  replace (range_ _ 5 (5 + n)) with (Ok (handshake h)); [done|].
  symmetry. rewrite <- (app_nil_r (be 1 22 ++ be 2 (recordVersion h) ++ be 2 n ++ handshake h)).
  replace ((be 1 22 ++ be 2 (recordVersion h) ++ be 2 n ++ handshake h) ++ []) with ((be 1 22 ++ be 2 (recordVersion h) ++ be 2 n) ++ handshake h ++ [])
    by (by rewrite <- !app_assoc).
  apply range_app; [done|]. rewrite !len_app, !len_be. fold n. lia.
Qed.
End message.

(** Every ClientHello is read back: the version, the cipher suites, the types of the
    extensions in order, the server name, and the lists in the extensions the
    parser knows. *)
Theorem ja3_round_trip h cs before after : wellFormed h -> describes h cs before after -> 0x0300 <= recordVersion h <= 0x0304 ->
  ja3_Compute (packet h) = Ok (fingerprintOf h cs before after).
Proof. apply Compute_read. Qed.

(** * A message *)

Definition demoBefore : list Ext := [ExtGroups [29; 23]].
Definition demoAfter : list Ext := [ExtPointFormats [byteOf 0]; ExtVersions [0x0304]; ExtSignatures [0x0403; 0x0804]; ExtOther 16 [byteOf 7]].

Definition ja3Hello (after : list (Z * bytes)) : ClientHello :=
  mkClientHello 0x0303 0x0303 (repeat (byteOf 0) 32) [] (uint16Bytes [0x1301]) [byteOf 0] (map encodeExt demoBefore) (stringBytes "example.com") after.

Lemma ja3Hello_wellFormed : wellFormed (ja3Hello (map encodeExt demoAfter)).
Proof. unfold wellFormed. split_and!; try done. by repeat constructor. Qed.

Lemma ja3Hello_described : describes (ja3Hello (map encodeExt demoAfter)) [0x1301] demoBefore demoAfter.
Proof.
  split; [done..|]. unfold isUint16. split_and!; repeat constructor; cbn; unfold isUint16; try lia. set_solver by lia.
Qed.

Lemma ja3_round_trip_witness : exists j, ja3_Compute (packet (ja3Hello (map encodeExt demoAfter))) = Ok j /\
  fp_ServerName j = stringBytes "example.com" /\ fp_Extensions j = [10; 0; 11; 43; 13; 16] /\ fp_EllipticCurves j = [29; 23].
Proof.
  eexists. split; [|split; [|split]].
  - apply (ja3_round_trip _ [0x1301] demoBefore demoAfter); [apply ja3Hello_wellFormed|apply ja3Hello_described|split; discriminate].
  - reflexivity.
  - reflexivity.
  - reflexivity.
Defined.

(** * Limits *)

(** A list of versions that is longer than its extension makes the parser panic. *)
Lemma overlong_versions_panic : ja3_Compute (packet (ja3Hello [(43, [byteOf 2])])) = Panic "index out of range".
Proof. by vm_compute. Qed.

(** The test for GREASE values is the wrong way round: the string keeps only them, and
    the fields of a message without them are run together. *)
Lemma ja3_string_without_values :
  marshalJA3 (mkFingerprint 771 [4865; 4866] [0; 10] [29] [0] [] [] []) = stringBytes "771,0" /\
  marshalJA3 (mkFingerprint 771 [0x0A0A; 4865] [0; 0x1A1A] [29; 0x2A2A] [0] [] [] []) = stringBytes "771,2570,6682,10794,0".
Proof. by split; vm_compute. Qed.
