(* ===== verification/Quic.v ===== *)
(** [common/sniff/quic.go] and [internal/qtls]: the sniffer that collects the ClientHello
    of a QUIC connection from its first packets. *)
From coqutil Require Import Byte.
From S2P Require Import Prelude Netip Metadata RuleItem RuleAction Text Bytes Streams Sniff Sniffers TLSFragment TLSFragmentSpec TLSHello Ja3.

Definition VersionDraft29 : Z := 0xff00001d.
Definition Version1 : Z := 1.
Definition Version2 : Z := 0x6b3343cf.
Definition SaltOld : bytes :=
  map byteOf [0xaf; 0xbf; 0xec; 0x28; 0x99; 0x93; 0xd2; 0x4c; 0x9e; 0x97; 0x86; 0xf1; 0x9c; 0x61; 0x11; 0xe0; 0x43; 0x90; 0xa8; 0x99].
Definition SaltV1 : bytes :=
  map byteOf [0x38; 0x76; 0x2c; 0xf7; 0xf5; 0x59; 0x34; 0xb3; 0x4d; 0x17; 0x9a; 0xe6; 0xa4; 0xc8; 0x0c; 0xad; 0xcc; 0xbb; 0x7f; 0x0a].
Definition SaltV2 : bytes :=
  map byteOf [0x0d; 0xed; 0xe3; 0xde; 0xf7; 0x00; 0xa6; 0xdb; 0x81; 0x93; 0x81; 0xbe; 0x6e; 0x26; 0x9d; 0xcb; 0xf9; 0xbd; 0x2e; 0xd9].

Definition ProtocolQUIC : string := "quic".
Definition ClientChromium : string := "chromium".
Definition ClientSafari : string := "safari".
Definition ClientFirefox : string := "firefox".
Definition ClientQUICGo : string := "quic-go".
Definition ClientUnknown : string := "unknown".

(** * Readers *)

(** [qtls.ReadUvarint] *)
Definition qtls_ReadUvarint (r : bytes) : result (Z * bytes) :=
  '(firstByte, r) ← readByte IO_EOF r;
  let len := Z.shiftl 1 (Z.shiftr (Z.land firstByte 0xc0) 6) in
  let b1 := Z.land firstByte (0xff - 0xc0) in
  if len =? 1 then Ok (b1, r) else
  '(b2, r) ← readByte IO_EOF r;
  if len =? 2 then Ok (b2 + Z.shiftl b1 8, r) else
  '(b3, r) ← readByte IO_EOF r;
  '(b4, r) ← readByte IO_EOF r;
  if len =? 4 then Ok (b4 + Z.shiftl b3 8 + Z.shiftl b2 16 + Z.shiftl b1 24, r) else
  '(b5, r) ← readByte IO_EOF r;
  '(b6, r) ← readByte IO_EOF r;
  '(b7, r) ← readByte IO_EOF r;
  '(b8, r) ← readByte IO_EOF r;
  Ok (b8 + Z.shiftl b7 8 + Z.shiftl b6 16 + Z.shiftl b5 24 + Z.shiftl b4 32 + Z.shiftl b3 40 + Z.shiftl b2 48 + Z.shiftl b1 56, r).

(** [Seek] of a [bytes.Reader] from where it is; behind the end nothing is left. *)
Definition seek (n : Z) (r : bytes) : bytes := if len r <=? n then [] else drop (Z.to_nat n) r.

(** [io.CopyN(io.Discard, reader, n)] *)
Definition copyN (n : Z) (r : bytes) : result bytes := if n <=? len r then Ok (drop (Z.to_nat n) r) else Err IO_EOF.

(** * Opening a packet *)

(** HKDF and AES of the libraries: [hkdf.Extract], [hkdf.Expand] read for a number of
    bytes, [Block.Encrypt] of a block and [Open] of AES-GCM. *)
Class QuicLibs := {
  hkdfExtract : bytes -> bytes -> bytes;
  hkdfExpand : bytes -> bytes -> Z -> bytes;
  aesEncrypt : bytes -> bytes -> bytes;
  gcmOpen : bytes -> bytes -> bytes -> bytes -> bytes + GoError }.

(** The lengths that these functions promise; [Open] takes away the tag. *)
Class QuicLaws (L : QuicLibs) := {
  hkdfExpand_len : forall secret info n, 0 <= n <= 255 * 32 -> len (hkdfExpand secret info n) = n;
  aesEncrypt_len : forall key block, len (aesEncrypt key block) = 16;
  gcmOpen_len : forall key nonce ciphertext aad plain, gcmOpen key nonce ciphertext aad = inl plain -> len plain + 16 = len ciphertext }.

(** [aes.NewCipher] *)
Definition NewCipher (key : bytes) : result bytes :=
  if bool_decide (len key ∈ [16; 24; 32]) then Ok key else Err (E_Lib "crypto/aes: invalid key size").

Definition byteXor (a b : byte) : byte := byteOf (Z.lxor (byteVal a) (byteVal b)).

(** [l[at+i] ^= mask[i]] for the bytes of the mask. *)
Definition xorAt (l : bytes) (at0 : nat) (mask : bytes) : bytes :=
  take at0 l ++ zip_with byteXor (take (length mask) (drop at0 l)) mask ++ drop (at0 + length mask) l.

Section packet.
Context `{QuicLibs}.

Definition HKDFExpandLabel (secret context : bytes) (label : string) (length : Z) : result bytes :=
  let b := be 2 (u16 length) ++ [byteOf (6 + len (stringBytes label))] ++ stringBytes "tls13 " ++ stringBytes label ++
           [byteOf (len context)] ++ context in
  let out := hkdfExpand secret b length in
  if len out =? length then Ok out else Panic "quic: HKDF-Expand-Label invocation failed unexpectedly".

(** [AEADAESGCMTLS13] and [Open] of its result: the nonce of eight bytes is added to the
    last bytes of the mask. *)
Definition aeadOpen (key nonceMask nonce ciphertext additionalData : bytes) : result bytes :=
  if negb (len nonceMask =? 12) then Panic "tls: internal error: wrong nonce length" else
  match NewCipher key with
  | Ok key =>
      match gcmOpen key (xorAt nonceMask 4 nonce) ciphertext additionalData with
      | inl plain => Ok plain
      | inr err => Err err
      end
  | _ => Panic "invalid key"
  end.

(** The header up to the packet number: the connection id, the length of the header and of
    the rest of the packet, and the sample for the header protection. *)
Definition readHeader (packet : bytes) : result (Z * bytes * Z * Z * bytes) :=
  '(typeByte, reader) ← readByte IO_EOF packet;
  if Z.land typeByte 0x40 =? 0 then Err (E_New "bad type byte") else
  '(version, reader) ← ReadFull IO_EOF 4 reader;
  let versionNumber := beVal version in
  if negb (versionNumber =? VersionDraft29) && negb (versionNumber =? Version1) && negb (versionNumber =? Version2)
  then Err (E_New "bad version") else
  let packetType := Z.shiftr (Z.land typeByte 0x30) 4 in
  if ((packetType =? 0) && (versionNumber =? Version2)) || ((packetType =? 2) && negb (versionNumber =? Version2)) || (2 <? packetType)
  then Err (E_New "bad packet type") else
  '(destConnIDLen, reader) ← readByte IO_EOF reader;
  if (destConnIDLen =? 0) || (20 <? destConnIDLen) then Err (E_New "bad destination connection id length") else
  '(destConnID, reader) ← ReadFull IO_EOF destConnIDLen reader;
  '(srcConnIDLen, reader) ← readByte IO_EOF reader;
  reader ← copyN srcConnIDLen reader;
  '(tokenLen, reader) ← qtls_ReadUvarint reader;
  reader ← copyN tokenLen reader;
  '(packetLen, reader) ← qtls_ReadUvarint reader;
  let hdrLen := len packet - len reader in
  if len packet <? hdrLen + packetLen then Err OS_ErrInvalid else
  reader ← copyN 4 reader;
  '(pnBytes, _) ← ReadFull IO_EOF 16 reader;
  Ok (versionNumber, destConnID, hdrLen, packetLen, pnBytes).

(** The packet number of [packetNumberLength] bytes. *)
Definition readPacketNumber (newPacket : bytes) (hdrLen packetNumberLength : Z) : result Z :=
  number ← range_ newPacket hdrLen (hdrLen + packetNumberLength);
  Ok (beVal number).

(** The plaintext of a packet; it is followed by what its buffer holds behind it. *)
Definition openInitial (packet : bytes) : result (bytes * bytes) :=
  '(versionNumber, destConnID, hdrLen, packetLen, pnBytes) ← readHeader packet;
  let salt := if versionNumber =? Version1 then SaltV1 else if versionNumber =? Version2 then SaltV2 else SaltOld in
  let isV2 := versionNumber =? Version2 in
  let initialSecret := hkdfExtract destConnID salt in
  secret ← HKDFExpandLabel initialSecret [] "client in" 32;
  hpKey ← HKDFExpandLabel secret [] (if isV2 then "quicv2 hp" else "quic hp") 16;
  hpKey ← NewCipher hpKey;
  let mask := aesEncrypt hpKey pnBytes in
  mask0 ← at_ mask 0;
  maskPN ← range_ mask 1 5;
  let newPacket := xorAt packet 0 [byteOf (Z.land mask0 0xf)] in
  _ ← range_ newPacket hdrLen (hdrLen + 4);
  let newPacket := xorAt newPacket (Z.to_nat hdrLen) maskPN in
  first ← at_ newPacket 0;
  let packetNumberLength := Z.land first 3 + 1 in
  if packetLen + hdrLen <? hdrLen + packetNumberLength then Err OS_ErrInvalid else
  packetNumber ← readPacketNumber newPacket hdrLen packetNumberLength;
  let extHdrLen := hdrLen + packetNumberLength in
  protected ← range_ packet extHdrLen (hdrLen + 4);
  let newPacket := take (Z.to_nat extHdrLen) newPacket ++ protected ++ drop (Z.to_nat (hdrLen + 4)) newPacket in
  data ← range_ newPacket extHdrLen (packetLen + hdrLen);
  key ← HKDFExpandLabel secret [] (if isV2 then "quicv2 key" else "quic key") 16;
  iv ← HKDFExpandLabel secret [] (if isV2 then "quicv2 iv" else "quic iv") 12;
  additional ← range_ newPacket 0 extHdrLen;
  decrypted ← aeadOpen key iv (be 8 packetNumber) data additional;
  Ok (decrypted, drop (Z.to_nat (extHdrLen + len decrypted)) newPacket).
End packet.

(** * Frames *)

Record qCryptoFragment := mkFragment { f_offset : Z; f_length : Z; f_payload : bytes }.

Definition frameTypeCrypto : Z := 0x06.
Definition frameTypePing : Z := 0x01.

(** The frames [frameTypeAck] and [frameTypeAck2]. *)
Definition readAck (frameType : Z) (r : bytes) : result bytes :=
  '(_, r) ← qtls_ReadUvarint r;
  '(_, r) ← qtls_ReadUvarint r;
  '(ackRangeCount, r) ← qtls_ReadUvarint r;
  '(_, r) ← qtls_ReadUvarint r;
  '(_, r) ← readLoop (fun _ r => '(_, r) ← qtls_ReadUvarint r; qtls_ReadUvarint r) ackRangeCount r;
  if frameType =? 0x03 then
    '(_, r) ← qtls_ReadUvarint r;
    '(_, r) ← qtls_ReadUvarint r;
    '(_, r) ← qtls_ReadUvarint r;
    Ok r
  else Ok r.

(** A frame with its type read: the fragment it carries, and what follows.  The payload is
    sliced from [decrypted], whose capacity reaches over [spare]. *)
Definition readFrame (decrypted spare : bytes) (frameType : Z) (r : bytes) : result (list qCryptoFragment * bytes) :=
  if (frameType =? 0x00) || (frameType =? frameTypePing) then Ok ([], r)
  else if (frameType =? 0x02) || (frameType =? 0x03) then r ← readAck frameType r; Ok ([], r)
  else if frameType =? frameTypeCrypto then
    '(offset, r) ← qtls_ReadUvarint r;
    '(length, r) ← qtls_ReadUvarint r;
    let index := len decrypted - len r in
    payload ← range_ (decrypted ++ spare) index (index + length);
    Ok ([mkFragment offset length payload], seek length r)
  else if frameType =? 0x1c then
    '(_, r) ← qtls_ReadUvarint r;
    '(_, r) ← qtls_ReadUvarint r;
    '(length, r) ← qtls_ReadUvarint r;
    Ok ([], seek length r)
  else Err OS_ErrInvalid.

Fixpoint readFrames (decrypted spare : bytes) (fuel : nat) (r : bytes) : result (list Z * list qCryptoFragment) :=
  match r with
  | [] => Ok ([], [])
  | b :: r =>
      match fuel with
      | O => Panic outOfFuel
      | S fuel' =>
          '(fragment, r) ← readFrame decrypted spare (byteVal b) r;
          '(frameTypeList, fragments) ← readFrames decrypted spare fuel' r;
          Ok (byteVal b :: frameTypeList, fragment ++ fragments)
      end
  end.

(** * The ClientHello *)

(** The loop [find]. *)
Fixpoint findFragments (fuel : nat) (fragments : list qCryptoFragment) (index : Z) (buffer : bytes) : result bytes :=
  match list_find (fun fragment => f_offset fragment = index) fragments with
  | None => Ok buffer
  | Some (_, fragment) =>
      match fuel with
      | O => Panic outOfFuel
      | S fuel' => findFragments fuel' fragments (u64 (f_offset fragment + f_length fragment)) (buffer ++ f_payload fragment)
      end
  end.

(** The record with the fragments that follow each other. *)
Definition assemble (fragments : list qCryptoFragment) : result bytes :=
  let frameLen := fold_left (fun frameLen fragment => u64 (frameLen + f_length fragment)) fragments 0 in
  findFragments (length fragments) fragments 0 (be 1 0x16 ++ be 2 0x0303 ++ be 2 (u16 frameLen)).

Definition isZero (slices : list Z) : bool := forallb (fun slice => slice =? 0) slices.

Definition count (slices : list Z) (value : Z) : Z := len (filter (fun slice => slice = value) slices).

(** [quic_blacklist.go] *)
Definition isQUICGo (fingerprint : Fingerprint) : bool :=
  bool_decide (0x11EC ∈ fp_EllipticCurves fingerprint) || bool_decide (0xFF01 ∈ fp_Extensions fingerprint).

Definition isGrease (v : Z) : bool := Z.land v GreaseBitmask =? 0x0A0A.

Definition isSafari (fingerprint : Fingerprint) : bool :=
  match fp_Versions fingerprint, fp_EllipticCurves fingerprint with
  | [version; _], [curve; _; _; _; _] => isGrease version && isGrease curve
  | _, _ => false
  end ||
  bool_decide (fp_CipherSuites fingerprint = [0x1302]) && bool_decide (fp_EllipticCurves fingerprint = [29]) &&
  bool_decide (fp_SignatureAlgorithms fingerprint = [0x0403]).

(** The client, from the types of the frames and the fingerprint. *)
Definition detectClient (frameTypeList : list Z) (fingerprint : Fingerprint) : result string :=
  match frameTypeList with
  | [] => Panic "index out of range"
  | [_] => Ok ClientFirefox
  | first :: rest =>
      if (first =? frameTypeCrypto) && isZero rest && isSafari fingerprint then Ok ClientSafari
      else if (List.last frameTypeList 0 =? frameTypeCrypto) && isZero (removelast frameTypeList) then Ok ClientQUICGo
      else if (1 <? count frameTypeList frameTypeCrypto) || (0 <? count frameTypeList frameTypePing)
      then Ok (if isQUICGo fingerprint then ClientQUICGo else ClientChromium)
      else Ok ClientUnknown
  end.

(** The metadata with [SniffContext]. *)
Abbreviation QuicContext := (InboundContext * option (list qCryptoFragment))%type.

(** [QUICClientHello] once the packet is decrypted. *)
Definition sniffDecrypted (m : QuicContext) (decrypted spare : bytes) : QuicContext * result unit :=
  match readFrames decrypted spare (length decrypted) decrypted with
  | Err err => (m, Err err)
  | Panic s => (m, Panic s)
  | Ok (frameTypeList, fragments) =>
      let fragments := fragments ++ default [] m.2 in
      match assemble fragments with
      | Err err => ((m.1, None), Err err)
      | Panic s => ((m.1, None), Panic s)
      | Ok buffer =>
          let metadata := m.1 {{ ic_Protocol := ProtocolQUIC }} in
          match ja3_Compute buffer with
          | Err err => ((metadata, Some fragments), Err (needMoreData err))
          | Panic s => ((metadata, None), Panic s)
          | Ok fingerprint =>
              let metadata := metadata {{ ic_Domain := String.string_of_list_byte (fp_ServerName fingerprint) }} in
              if String.eqb (ic_Client metadata) "" then
                match detectClient frameTypeList fingerprint with
                | Ok client => ((metadata {{ ic_Client := client }}, None), Ok tt)
                | Err err => ((metadata, None), Err err)
                | Panic s => ((metadata, None), Panic s)
                end
              else ((metadata, None), Ok tt)
          end
      end
  end.

Definition QUICClientHello `{QuicLibs} (m : QuicContext) (packet : bytes) : QuicContext * result unit :=
  match openInitial packet with
  | Ok (decrypted, spare) => sniffDecrypted m decrypted spare
  | Err err => (m, Err err)
  | Panic s => (m, Panic s)
  end.

(** * The header stays in bounds *)

Definition calm {A} (m : result A) : Prop := forall s, m <> Panic s.

Lemma calm_Ok {A} (a : A) : calm (Ok a).
Proof. done. Qed.

Lemma calm_Err {A} e : calm (Err e : result A).
Proof. done. Qed.

Lemma calm_bind {A B} (m : result A) (k : A -> result B) : calm m -> (forall a, m = Ok a -> calm (k a)) -> calm (m ≫= k).
Proof. intros Hm Hk. destruct m as [a|e|s]; cbn; [by apply Hk|done|by destruct (Hm s)]. Qed.

Lemma calm_readByte r : calm (readByte IO_EOF r).
Proof. by destruct r. Qed.

Lemma calm_ReadFull n r : calm (ReadFull IO_EOF n r).
Proof. unfold ReadFull. by case_match. Qed.

Lemma calm_copyN n r : calm (copyN n r).
Proof. unfold copyN. by case_match. Qed.

Create HintDb calm.
#[local] Hint Resolve calm_Ok calm_Err calm_readByte calm_ReadFull calm_copyN : calm.

(** A read, or a test that returns an error. *)
Ltac calmStep :=
  match goal with
  | |- calm (_ ≫= _) => apply calm_bind; [by auto with calm|intros [? ?] ?]
  | |- calm (_ ≫= _) => apply calm_bind; [by auto with calm|intros ? ?]
  | |- calm (if ?b then _ else _) => destruct b eqn:?; [by auto with calm|]
  end.

Lemma calm_ReadUvarint r : calm (qtls_ReadUvarint r).
Proof. unfold qtls_ReadUvarint. repeat calmStep. apply calm_Ok. Qed.

#[local] Hint Resolve calm_ReadUvarint : calm.

Lemma readByte_bounds r v r' : readByte IO_EOF r = Ok (v, r') -> 0 <= v < 256 /\ len r' + 1 = len r.
Proof. destruct r as [|b r]; [done|]. cbn. intros [= <- <-]. rewrite len_cons. pose proof (byteVal_range b). lia. Qed.

Lemma ReadFull_bounds n r d r' : 0 <= n -> ReadFull IO_EOF n r = Ok (d, r') -> len d = n /\ len r' + n = len r.
Proof.
  intros Hn. unfold ReadFull. case_match eqn:Hl; [|done]. apply Z.leb_le in Hl. intros [= <- <-]. fold (len r) in Hl.
  rewrite len_take, len_drop; lia.
Qed.

Lemma copyN_bounds n r r' : 0 <= n -> copyN n r = Ok r' -> len r' + n = len r.
Proof. intros Hn. unfold copyN. case_match eqn:Hl; [|done]. apply Z.leb_le in Hl. intros [= <-]. rewrite len_drop; lia. Qed.

Lemma ReadUvarint_bounds r v r' : qtls_ReadUvarint r = Ok (v, r') -> 0 <= v /\ len r' < len r.
Proof.
  unfold qtls_ReadUvarint. intros ([b1 r1] & [Hb1 Hr1]%readByte_bounds & Hr)%bind_Ok.
  assert (0 <= Z.land b1 (0xff - 0xc0)) by (apply Z.land_nonneg; lia).
  repeat match type of Hr with
  | (if _ then _ else _) = _ => destruct (_ =? _)
  | (_ ≫= _) = Ok _ => let b := fresh "b" in let r := fresh "r" in let Hb := fresh "Hb" in
      apply bind_Ok in Hr as ([b r] & Hb & Hr); apply readByte_bounds in Hb
  | Ok _ = Ok _ => injection Hr as <- <-
  end; rewrite ?Z.shiftl_mul_pow2 by lia; lia.
Qed.

Lemma readHeader_calm packet : calm (readHeader packet).
Proof. unfold readHeader. repeat calmStep. apply calm_Ok. Qed.

Lemma readHeader_bounds packet v id hdrLen packetLen pn : readHeader packet = Ok (v, id, hdrLen, packetLen, pn) ->
  1 <= hdrLen /\ hdrLen + 20 <= len packet /\ 0 <= packetLen /\ hdrLen + packetLen <= len packet.
Proof.
  unfold readHeader. intros ([b1 r1] & [Hb1 L1]%readByte_bounds & Hr)%bind_Ok. case_match; [done|].
  apply bind_Ok in Hr as ([ver r2] & [_ L2]%ReadFull_bounds & Hr); [|lia]. case_match; [done|]. case_match; [done|].
  apply bind_Ok in Hr as ([b3 r3] & [Hb3 L3]%readByte_bounds & Hr). case_match; [done|].
  apply bind_Ok in Hr as ([d4 r4] & [_ L4]%ReadFull_bounds & Hr); [|lia].
  apply bind_Ok in Hr as ([b5 r5] & [Hb5 L5]%readByte_bounds & Hr).
  apply bind_Ok in Hr as (r6 & L6%copyN_bounds & Hr); [|lia].
  apply bind_Ok in Hr as ([b7 r7] & [Hb7 L7]%ReadUvarint_bounds & Hr).
  apply bind_Ok in Hr as (r8 & L8%copyN_bounds & Hr); [|lia].
  apply bind_Ok in Hr as ([b9 r9] & [Hb9 L9]%ReadUvarint_bounds & Hr). case_match eqn:Hlen; [done|]. apply Z.ltb_ge in Hlen.
  apply bind_Ok in Hr as (r10 & L10%copyN_bounds & Hr); [|lia].
  apply bind_Ok in Hr as ([d11 r11] & [_ L11]%ReadFull_bounds & Hr); [|lia].
  injection Hr as <- <- <- <- <-. pose proof (len_nonneg r11). lia.
Qed.

Lemma len_xorAt l at0 mask : (at0 + length mask <= length l)%nat -> len (xorAt l at0 mask) = len l.
Proof. intros Hl. unfold len, xorAt. rewrite !length_app, length_zip_with, !length_take, !length_drop. lia. Qed.

Lemma calm_at l i : 0 <= i < len l -> calm (at_ l i).
Proof. intros Hi. by destruct (at_ok l i Hi) as (v & -> & _). Qed.

Lemma calm_range l i j : 0 <= i <= j -> j <= len l -> calm (range_ l i j).
Proof. intros Hi Hj. by rewrite range_ok. Qed.

Section inBounds.
Context `{QuicLaws}.

Lemma expand_ok secret ctx label n : 0 <= n <= 255 * 32 -> exists out, HKDFExpandLabel secret ctx label n = Ok out /\ len out = n.
Proof.
  intros Hn. unfold HKDFExpandLabel. rewrite hkdfExpand_len, Z.eqb_refl by done. eexists. split; [done|]. by apply hkdfExpand_len.
Qed.

Lemma NewCipher_ok key : len key = 16 -> NewCipher key = Ok key.
Proof. intros Hk. unfold NewCipher. rewrite Hk. by rewrite bool_decide_true by set_solver. Qed.

(** C30: Whatever a peer sends, opening a packet returns plaintext or an error: no read or slice
    of the header or of the packet is out of range. *)
Theorem quic_open_in_bounds packet s : openInitial packet <> Panic s.
Proof.
  revert s. change (calm (openInitial packet)). unfold openInitial. apply calm_bind; [apply readHeader_calm|].
  intros [[[[v id] hdrLen] packetLen] pn] (Hh & Hh20 & Hp & Hhp)%readHeader_bounds.
  destruct (expand_ok (hkdfExtract id (if v =? Version1 then SaltV1 else if v =? Version2 then SaltV2 else SaltOld)) [] "client in" 32) as (secret & -> & _); [lia|].
  cbn [mbind result_bind]. destruct (expand_ok secret [] (if v =? Version2 then "quicv2 hp" else "quic hp") 16) as (hpKey & -> & Hhp16); [lia|].
  cbn [mbind result_bind]. rewrite NewCipher_ok by done. cbn [mbind result_bind]. pose proof (aesEncrypt_len hpKey pn) as Hmask.
  destruct (at_ok (aesEncrypt hpKey pn) 0) as (mask0 & -> & _); [lia|]. cbn [mbind result_bind].
  rewrite (range_ok (aesEncrypt hpKey pn)) by lia. cbn [mbind result_bind]. set (maskPN := take _ _).
  assert (length maskPN = 4%nat) as HmaskPN by (unfold maskPN, len in *; rewrite length_take, length_drop; lia).
  set (p1 := xorAt packet 0 _). assert (len p1 = len packet) as Hp1 by (apply len_xorAt; unfold len in *; cbn; lia).
  rewrite (range_ok p1) by lia. cbn [mbind result_bind].
  set (p2 := xorAt p1 _ maskPN). assert (len p2 = len packet) as Hp2 by (unfold p2; rewrite len_xorAt; unfold len in *; lia).
  destruct (at_ok p2 0) as (first & -> & Hfirst); [lia|]. cbn [mbind result_bind].
  assert (0 <= Z.land first 3 <= 3) as Hl. { change (Z.land first 3) with (Z.land first (Z.ones 2)). rewrite Z.land_ones by lia. pose proof (Z.mod_pos_bound first (2 ^ 2) ltac:(lia)). lia. }
  set (n := Z.land first 3 + 1) in *. destruct (Z.ltb_spec (packetLen + hdrLen) (hdrLen + n)); [done|].
  unfold readPacketNumber. rewrite (range_ok p2) by lia. cbn [mbind result_bind]. rewrite (range_ok packet) by lia. cbn [mbind result_bind].
  set (protected := take _ (drop _ packet)). set (p3 := take _ p2 ++ protected ++ drop _ p2).
  assert (len p3 = len packet) as Hp3.
  { unfold p3, protected. rewrite !len_app, !len_take, len_drop; rewrite ?len_drop; lia. }
  rewrite (range_ok p3 (hdrLen + n)) by lia. cbn [mbind result_bind].
  destruct (expand_ok secret [] (if v =? Version2 then "quicv2 key" else "quic key") 16) as (key & -> & Hkey); [lia|]. cbn [mbind result_bind].
  destruct (expand_ok secret [] (if v =? Version2 then "quicv2 iv" else "quic iv") 12) as (iv & -> & Hiv); [lia|]. cbn [mbind result_bind].
  rewrite (range_ok p3 0) by lia. cbn [mbind result_bind]. unfold aeadOpen. rewrite Hiv, NewCipher_ok by done. cbn [Z.eqb Pos.eqb negb].
  by destruct (gcmOpen _ _ _ _).
Qed.
End inBounds.

(** * Frames are read back *)

Lemma range_in x l m r i j : x = l ++ m ++ r -> len l = i -> j = i + len m -> range_ x i j = Ok m.
Proof. intros -> <- ->. by apply range_app. Qed.

(** A number of RFC 9000, section 16, in [2^n] bytes. *)
Definition varint (n : nat) (v : Z) : bytes := be (2 ^ n) (v + Z.of_nat n * 2 ^ (8 * 2 ^ Z.of_nat n - 2)).

Definition fitsVarint (n : nat) (v : Z) : Prop := (n <= 3)%nat /\ 0 <= v < 2 ^ (8 * 2 ^ Z.of_nat n - 2).

Lemma first_byte b : 0 <= b < 256 -> Z.shiftl 1 (Z.shiftr (Z.land b 0xc0) 6) = 2 ^ (b / 64) /\ Z.land b (0xff - 0xc0) = b mod 64.
Proof.
  intros Hb. assert (forallb (fun b => (Z.shiftl 1 (Z.shiftr (Z.land b 0xc0) 6) =? 2 ^ (b / 64)) && (Z.land b (0xff - 0xc0) =? b mod 64)) (seqZ 0 256) = true)
    as Ha by (by vm_compute).
  rewrite forallb_forall in Ha. specialize (Ha b). rewrite <- list_elem_of_In, elem_of_seqZ in Ha. specialize (Ha ltac:(lia)).
  apply andb_true_iff in Ha as [H1%Z.eqb_eq H2%Z.eqb_eq]. done.
Qed.

Lemma readByte_byteOf z r : readByte IO_EOF (byteOf z :: r) = Ok (z mod 256, r).
Proof. unfold readByte. by rewrite byte.unsigned_of_Z. Qed.

(** [lia] with division by constants. *)
Ltac divLia := repeat match goal with z := _ : Z |- _ => subst z end; Z.to_euclidean_division_equations; lia.

Lemma ReadUvarint_varint n v r : fitsVarint n v -> qtls_ReadUvarint (varint n v ++ r) = Ok (v, r).
Proof.
  intros [Hn Hv]. unfold qtls_ReadUvarint, varint.
  assert (n = 0 \/ n = 1 \/ n = 2 \/ n = 3)%nat as [-> | [-> | [-> | ->]]] by lia.
  - change (2 ^ (8 * 2 ^ Z.of_nat 0 - 2)) with 64 in *. rewrite Z.mul_0_l, Z.add_0_r. change (be (2 ^ 0) v ++ r) with (byteOf v :: r).
    rewrite readByte_byteOf. cbn [mbind result_bind]. rewrite (Z.mod_small v 256) by lia. destruct (first_byte v) as [-> ->]; [lia|].
    rewrite (Z.div_small v 64), (Z.mod_small v 64) by lia. done.
  - change (2 ^ (8 * 2 ^ Z.of_nat 1 - 2)) with 16384 in *. set (z := v + Z.of_nat 1 * 16384).
    change (be (2 ^ 1) z ++ r) with (byteOf (Z.shiftr z 8) :: byteOf z :: r). rewrite !(Z.shiftr_div_pow2 _ 8) by lia. change (2 ^ 8) with 256.
    rewrite readByte_byteOf. cbn [mbind result_bind]. destruct (first_byte (z / 256 mod 256)) as [-> ->]; [apply Z.mod_pos_bound; lia|].
    replace (z / 256 mod 256 / 64) with 1 by divLia. change (2 ^ 1) with 2. cbn [Z.eqb Pos.eqb].
    rewrite readByte_byteOf. cbn [mbind result_bind]. rewrite Z.shiftl_mul_pow2 by lia. do 2 f_equal. change (2 ^ 8) with 256. divLia.
  - change (2 ^ (8 * 2 ^ Z.of_nat 2 - 2)) with 1073741824 in *. set (z := v + Z.of_nat 2 * 1073741824).
    change (be (2 ^ 2) z ++ r) with (byteOf (Z.shiftr (Z.shiftr (Z.shiftr z 8) 8) 8) :: byteOf (Z.shiftr (Z.shiftr z 8) 8) :: byteOf (Z.shiftr z 8) :: byteOf z :: r).
    rewrite !(Z.shiftr_div_pow2 _ 8) by lia. change (2 ^ 8) with 256. set (z1 := z / 256). set (z2 := z1 / 256). set (z3 := z2 / 256).
    rewrite readByte_byteOf. cbn [mbind result_bind]. destruct (first_byte (z3 mod 256)) as [-> ->]; [apply Z.mod_pos_bound; lia|].
    replace (z3 mod 256 / 64) with 2 by divLia. change (2 ^ 2) with 4. cbn [Z.eqb Pos.eqb].
    rewrite !readByte_byteOf. cbn [mbind result_bind]. rewrite !readByte_byteOf. cbn [mbind result_bind]. rewrite !readByte_byteOf. cbn [mbind result_bind].
    rewrite !Z.shiftl_mul_pow2 by lia. do 2 f_equal. change (2 ^ 8) with 256. change (2 ^ 16) with 65536. change (2 ^ 24) with 16777216. divLia.
  - change (2 ^ (8 * 2 ^ Z.of_nat 3 - 2)) with 4611686018427387904 in *. set (z := v + Z.of_nat 3 * 4611686018427387904).
    change (be (2 ^ 3) z ++ r) with (let next z := Z.shiftr z 8 in
      byteOf (next (next (next (next (next (next (next z))))))) :: byteOf (next (next (next (next (next (next z)))))) ::
      byteOf (next (next (next (next (next z))))) :: byteOf (next (next (next (next z)))) :: byteOf (next (next (next z))) ::
      byteOf (next (next z)) :: byteOf (next z) :: byteOf z :: r). cbv beta zeta.
    rewrite !(Z.shiftr_div_pow2 _ 8) by lia. change (2 ^ 8) with 256.
    set (z1 := z / 256). set (z2 := z1 / 256). set (z3 := z2 / 256). set (z4 := z3 / 256). set (z5 := z4 / 256). set (z6 := z5 / 256). set (z7 := z6 / 256).
    rewrite readByte_byteOf. cbn [mbind result_bind]. destruct (first_byte (z7 mod 256)) as [-> ->]; [apply Z.mod_pos_bound; lia|].
    replace (z7 mod 256 / 64) with 3 by divLia. change (2 ^ 3) with 8. cbn [Z.eqb Pos.eqb].
    do 7 (rewrite readByte_byteOf; cbn [mbind result_bind]).
    rewrite !Z.shiftl_mul_pow2 by lia. do 2 f_equal. change (2 ^ 8) with 256. change (2 ^ 16) with 65536. change (2 ^ 24) with 16777216.
    change (2 ^ 32) with 4294967296. change (2 ^ 40) with 1099511627776. change (2 ^ 48) with 281474976710656. change (2 ^ 56) with 72057594037927936. divLia.
Qed.

(** The frames of a first packet. *)
Inductive Frame :=
| Padding
| Ping
| Crypto (no nl : nat) (offset : Z) (data : bytes).

Definition encodeFrame (f : Frame) : bytes :=
  match f with
  | Padding => [byteOf 0]
  | Ping => [byteOf 1]
  | Crypto no nl offset data => byteOf 6 :: varint no offset ++ varint nl (len data) ++ data
  end.

Definition validFrame (f : Frame) : Prop :=
  match f with Crypto no nl offset data => fitsVarint no offset /\ fitsVarint nl (len data) | _ => True end.

Definition frameType (f : Frame) : Z := match f with Padding => 0 | Ping => 1 | Crypto _ _ _ _ => 6 end.

Definition fragmentOf (f : Frame) : list qCryptoFragment :=
  match f with Crypto _ _ offset data => [mkFragment offset (len data) data] | _ => [] end.

Lemma seek_app d r : seek (len d) (d ++ r) = r.
Proof.
  unfold seek. rewrite len_app. pose proof (len_nonneg r). destruct (Z.leb_spec (len d + len r) (len d)).
  - destruct r; [done|]. unfold len in *. cbn in *. lia.
  - unfold len. by rewrite Nat2Z.id, drop_app_length.
Qed.

Lemma readFrame_encoded pre f r spare : validFrame f ->
  exists b, encodeFrame f = b :: tail (encodeFrame f) /\ byteVal b = frameType f /\
    readFrame (pre ++ encodeFrame f ++ r) spare (frameType f) (tail (encodeFrame f) ++ r) = Ok (fragmentOf f, r).
Proof.
  intros Hv. destruct f as [| |no nl o d]; [by exists (byteOf 0)|by exists (byteOf 1)|]. exists (byteOf 6). split_and!; [done|done|].
  cbn [encodeFrame tail frameType fragmentOf]. destruct Hv as [Ho Hl]. unfold readFrame. cbn [orb Z.eqb Pos.eqb frameTypePing frameTypeCrypto].
  rewrite <- !app_assoc, ReadUvarint_varint by done. cbn [mbind result_bind]. rewrite ReadUvarint_varint by done. cbn [mbind result_bind].
  rewrite (range_in _ (pre ++ byteOf 6 :: varint no o ++ varint nl (len d)) d (r ++ spare)).
  - cbn [mbind result_bind]. by rewrite seek_app.
  - rewrite <- !app_assoc. cbn. by rewrite <- !app_assoc.
  - rewrite !len_app, !len_cons, !len_app. lia.
  - lia.
Qed.

Lemma readFrames_encoded frames spare : forall pre fuel, Forall validFrame frames -> (length frames <= fuel)%nat ->
  readFrames (pre ++ concat (map encodeFrame frames)) spare fuel (concat (map encodeFrame frames)) =
  Ok (map frameType frames, concat (map fragmentOf frames)).
Proof.
  induction frames as [|f frames IH]; intros pre fuel Hv Hf; [by destruct fuel|]. apply Forall_cons_1 in Hv as [Hv Hvs].
  cbn [map concat length] in *. destruct fuel as [|fuel]; [lia|].
  destruct (readFrame_encoded pre f (concat (map encodeFrame frames)) spare Hv) as (b & Hb & Hbv & Hr).
  set (rest := concat (map encodeFrame frames)) in *. rewrite Hb at 2. cbn [app readFrames]. rewrite Hbv, Hr. cbn [mbind result_bind].
  rewrite app_assoc, IH; [done|done|lia].
Qed.


(** * The ClientHello is put together *)

(** Consecutive pieces as fragments. *)
Fixpoint place (offset : Z) (pieces : list bytes) : list qCryptoFragment :=
  match pieces with
  | [] => []
  | piece :: pieces' => mkFragment offset (len piece) piece :: place (offset + len piece) pieces'
  end.

Lemma place_offset pieces : forall off f, f ∈ place off pieces -> off <= f_offset f.
Proof.
  induction pieces as [|p pieces IH]; intros off f; cbn; [by intros ?%not_elem_of_nil|]. intros [-> | Hf]%elem_of_cons; [done|].
  apply IH in Hf. pose proof (len_nonneg p). lia.
Qed.

Lemma place_app done todo : forall off, place off (done ++ todo) = place off done ++ place (off + len (concat done)) todo.
Proof.
  induction done as [|p done IH]; intros off; cbn; [by rewrite Z.add_0_r|]. by rewrite IH, len_app, Z.add_assoc.
Qed.

Lemma nonempty_len {A} (l : list A) : l <> [] -> 0 < len l.
Proof. destruct l; [done|]. rewrite len_cons. pose proof (len_nonneg l). lia. Qed.

Lemma place_NoDup pieces : forall off, Forall (fun p => p <> []) pieces -> NoDup (place off pieces).
Proof.
  induction pieces as [|p pieces IH]; intros off Hp; cbn; [constructor|]. apply Forall_cons_1 in Hp as [Hp Hps].
  apply list.NoDup_cons. split; [|auto]. intros Hin%place_offset. cbn in Hin. apply nonempty_len in Hp. lia.
Qed.

Lemma filter_strict_sublist {A} (P Q : A -> Prop) `{forall x, Decision (P x)} `{forall x, Decision (Q x)} (l : list A) :
  (forall x, P x -> Q x) -> (exists x, x ∈ l /\ Q x /\ ~ P x) -> (length (filter P l) < length (filter Q l))%nat.
Proof.
  intros HPQ (x & Hx & HQ & HP). assert (forall l : list A, length (filter P l) <= length (filter Q l))%nat as Hle.
  { intros l'. induction l' as [|y l' IH]; [done|]. rewrite !filter_cons. repeat case_decide; cbn; try lia; exfalso; auto. }
  induction l as [|y l IH]; [by apply not_elem_of_nil in Hx|]. apply elem_of_cons in Hx as [<- | Hx].
  - rewrite (filter_cons_False P), (filter_cons_True Q) by done. cbn. specialize (Hle l). lia.
  - specialize (IH Hx). rewrite !filter_cons. repeat case_decide; cbn; try lia; exfalso; auto.
Qed.

(** The search collects the pieces up to the first that is missing. *)
Lemma findFragments_placed fs : forall pieces off fuel buffer,
  Forall (fun p => p <> []) pieces -> 0 <= off -> off + len (concat pieces) < 2 ^ 64 ->
  (forall f, f ∈ fs -> off <= f_offset f -> f ∈ place off pieces) ->
  (length (filter (fun f => (off <= f_offset f)%Z) fs) <= fuel)%nat ->
  exists done todo, pieces = done ++ todo /\ findFragments fuel fs off buffer = Ok (buffer ++ concat done) /\
    Forall (fun f => f ∈ fs) (place off done) /\ (todo = [] \/ exists f, f ∈ place (off + len (concat done)) todo /\ f ∉ fs).
Proof.
  induction pieces as [|p pieces IH]; intros off fuel buffer Hp Ho Hlen Hin Hfuel.
  - exists [], []. split_and!; [done| |constructor|by left]. destruct fuel; cbn [findFragments];
      (destruct (list_find _ fs) as [[i f]|] eqn:Hf; [|by rewrite app_nil_r]); apply list_find_Some in Hf as (Hf & <- & _);
      apply list_elem_of_lookup_2 in Hf; by apply Hin, not_elem_of_nil in Hf.
  - apply Forall_cons_1 in Hp as [Hp Hps]. apply nonempty_len in Hp. cbn [concat] in Hlen. rewrite len_app in Hlen. pose proof (len_nonneg (concat pieces)).
    assert (findFragments fuel fs off buffer = match list_find (fun f => f_offset f = off) fs with
      | None => Ok buffer
      | Some (_, f) => match fuel with O => Panic outOfFuel | S fuel' => findFragments fuel' fs (u64 (f_offset f + f_length f)) (buffer ++ f_payload f) end
      end) as Hfind by (by destruct fuel). rewrite Hfind. clear Hfind.
    destruct (list_find _ fs) as [[i f]|] eqn:Hf.
    + apply list_find_Some in Hf as (Hf & Hoff & _). apply list_elem_of_lookup_2 in Hf.
      assert (f = mkFragment off (len p) p) as ->.
      { pose proof (Hin f Hf ltac:(lia)) as [-> | Hpl%place_offset]%elem_of_cons; [done|lia]. }
      destruct fuel as [|fuel].
      { exfalso. assert (mkFragment off (len p) p ∈ filter (fun f => off <= f_offset f) fs) as He by (apply list_elem_of_filter; split; [cbn; lia|done]).
        destruct (filter _ fs); [by apply not_elem_of_nil in He|cbn in Hfuel; lia]. }
      cbn [f_offset f_length f_payload]. unfold u64. rewrite wrap_small by lia.
      destruct (IH (off + len p) fuel (buffer ++ p) Hps ltac:(lia) ltac:(lia)) as (done & todo & -> & -> & Hdone & Htodo).
      * intros g Hg Hgo. pose proof (Hin g Hg ltac:(lia)) as [-> | Hpl]%elem_of_cons; [cbn in Hgo; lia|done].
      * apply Nat.lt_succ_r. eapply Nat.lt_le_trans; [|exact Hfuel]. apply filter_strict_sublist; [|by exists (mkFragment off (len p) p); cbn; split_and!; [done|lia|lia]].
        intros g Hg. lia.
      * exists (p :: done), todo. cbn [concat place app]. rewrite app_assoc. split_and!; [done|done|by constructor|].
        destruct Htodo as [|(g & Hg & Hn)]; [by left|]. right. exists g. split; [|done]. by rewrite len_app, Z.add_assoc.
    + exists [], (p :: pieces). split_and!; [done|by rewrite app_nil_r|constructor|]. right. exists (mkFragment off (len p) p). cbn. rewrite Z.add_0_r.
      split; [by left|]. intros Hg. apply list_find_None in Hf. rewrite list.Forall_forall in Hf. by apply (Hf _ Hg).
Qed.

(** The sum of the lengths. *)
Definition total (fs : list qCryptoFragment) : Z := foldr (fun f n => f_length f + n) 0 fs.

#[local] Instance total_proper : Proper ((≡ₚ) ==> eq) total.
Proof. intros l k Hlk. unfold total. induction Hlk; cbn; lia. Qed.

Lemma total_app fs gs : total (fs ++ gs) = total fs + total gs.
Proof. unfold total. induction fs; cbn; lia. Qed.

Lemma total_place pieces : forall off, total (place off pieces) = len (concat pieces).
Proof. unfold total. induction pieces as [|p pieces IH]; intros off; [done|]. cbn. rewrite IH, len_app. lia. Qed.

Lemma place_lengths pieces off f : f ∈ place off pieces -> 0 <= f_length f.
Proof.
  revert off. induction pieces as [|p pieces IH]; intros off; cbn; [by intros ?%not_elem_of_nil|].
  intros [-> | Hf]%elem_of_cons; [apply len_nonneg|eauto].
Qed.

Lemma total_nonneg fs : (forall f, f ∈ fs -> 0 <= f_length f) -> 0 <= total fs.
Proof.
  unfold total. induction fs as [|f fs IH]; intros Hl; cbn; [done|]. pose proof (Hl f ltac:(by left)). assert (forall f, f ∈ fs -> 0 <= f_length f) as Hl' by (intros; apply Hl; by right).
  specialize (IH Hl'). lia.
Qed.

Lemma frameLen_total fs : forall acc, (forall f, f ∈ fs -> 0 <= f_length f) -> 0 <= acc -> acc + total fs < 2 ^ 64 ->
  fold_left (fun n f => u64 (n + f_length f)) fs acc = acc + total fs.
Proof.
  induction fs as [|f fs IH]; intros acc Hl Ha Ht; cbn in *; [lia|].
  assert (forall f, f ∈ fs -> 0 <= f_length f) as Hl' by (intros; apply Hl; by right). pose proof (Hl f ltac:(by left)). pose proof (total_nonneg fs Hl').
  fold (total fs) in *. unfold u64 at 2. rewrite wrap_small by lia. rewrite IH by (done || lia). lia.
Qed.

Section assembly.
Context (pieces : list bytes) (Hpieces : Forall (fun p => p <> []) pieces) (Hlen : len (concat pieces) < 65536).

(** With fragments of the message in any order, the record has the pieces up to the first
    that is missing. *)
Lemma assemble_placed fs extra : fs ++ extra ≡ₚ place 0 pieces ->
  exists done todo, pieces = done ++ todo /\ assemble fs = Ok (be 1 22 ++ be 2 0x0303 ++ be 2 (total fs) ++ concat done) /\
    len (concat done) <= total fs <= len (concat pieces) /\ (todo = [] <-> extra = []).
Proof.
  intros Hperm. assert (forall f, f ∈ fs ++ extra -> 0 <= f_length f) as Hl by (intros f; rewrite Hperm; apply place_lengths).
  assert (forall f, f ∈ fs -> 0 <= f_length f) as Hlf by (intros; apply Hl; set_solver).
  assert (total fs + total extra = len (concat pieces)) as Htot by (by rewrite <- total_app, Hperm, total_place).
  pose proof (total_nonneg fs Hlf). pose proof (total_nonneg extra ltac:(intros; apply Hl; set_solver)).
  destruct (findFragments_placed fs pieces 0 (length fs) (be 1 22 ++ be 2 0x0303 ++ be 2 (total fs))) as (done & todo & Hp & Hf & Hdone & Htodo).
  - done.
  - lia.
  - lia.
  - intros f Hf _. rewrite <- Hperm. set_solver.
  - apply length_filter.
  - exists done, todo. split_and!; [done| | |lia|].
    + unfold assemble. rewrite frameLen_total by (done || lia). rewrite Z.add_0_l. unfold u16. rewrite wrap_small by (change (2 ^ 16) with 65536; lia).
      by rewrite Hf, <- !app_assoc.
    + pose proof (place_NoDup done 0) as Hnd. rewrite Hp, Forall_app in Hpieces. specialize (Hnd (proj1 Hpieces)).
      assert (place 0 done ⊆+ fs) as (r & Hr)%submseteq_Permutation by (apply NoDup_submseteq; [done|by apply list.Forall_forall]).
      rewrite <- (total_place done 0). rewrite Hr, total_app in *. assert (0 <= total r) by (apply total_nonneg; intros f Hin; apply Hlf; rewrite Hr; set_solver). lia.
    + pose proof (place_NoDup pieces 0 Hpieces) as Hnd. split.
      * intros ->. rewrite app_nil_r in Hp. subst done. destruct extra as [|f extra]; [done|]. exfalso. rewrite <- Hperm in Hnd.
        apply list.NoDup_app in Hnd as (_ & Hdis & _). apply (Hdis f); [|by left]. rewrite list.Forall_forall in Hdone. apply Hdone. rewrite <- Hperm. set_solver.
      * intros ->. rewrite app_nil_r in Hperm. destruct Htodo as [|(f & Hf' & Hn)]; [done|]. exfalso. apply Hn. rewrite Hperm, Hp, place_app. set_solver.
Qed.
End assembly.

Lemma at_app_l l r i : 0 <= i < len l -> at_ (l ++ r) i = at_ l i.
Proof.
  intros Hi. unfold at_. rewrite len_app. pose proof (len_nonneg r). rewrite !(proj2 (Z.leb_le _ _)), !(proj2 (Z.ltb_lt _ _)) by lia. cbn [andb].
  rewrite app_nth1; [done|]. unfold len in *. lia.
Qed.

(** A message that is not complete is refused. *)
Lemma prefix_refused h content more n : wellFormed h -> handshake h = content ++ more -> more <> [] -> len content <= n < 65536 ->
  exists e, ja3_Compute (be 1 22 ++ be 2 0x0303 ++ be 2 n ++ content) = Err e.
Proof.
  intros Hwf Hh Hmore%nonempty_len Hn. pose proof (len_nonneg content). unfold ja3_Compute, parseSegment, recordLayerHeaderLen.
  rewrite !len_app, !len_be. rewrite (proj2 (Z.ltb_ge _ _)) by lia.
  rewrite (at_in _ [] 22 (be 2 0x0303 ++ be 2 n ++ content)) by (done || lia). cbn [mbind result_bind]. change (22 =? contentType) with true. cbn [negb].
  rewrite (uint16At_in _ (be 1 22) 0x0303 (be 2 n ++ content) 1) by (done || lia). cbn [mbind result_bind]. change (badVersion 0x0303) with false. cbn match.
  rewrite (uint16At_in _ (be 1 22 ++ be 2 0x0303) n content 3) by (done || lia). cbn [mbind result_bind].
  rewrite (from_in _ (be 1 22 ++ be 2 0x0303 ++ be 2 n) content 5) by done. cbn [mbind result_bind].
  destruct (Z.ltb_spec (len content) n); [by eexists|]. assert (n = len content) as -> by lia.
  rewrite (range_in _ (be 1 22 ++ be 2 0x0303 ++ be 2 (len content)) content []); [|by rewrite app_nil_r, <- !app_assoc|done|lia]. cbn [mbind result_bind].
  unfold parseHandshake, handshakeHeaderLen, randomDataLen, sessionIDHeaderLen. destruct (Z.ltb_spec (len content) (6 + 32 + 1)); [by eexists|].
  destruct (at_ok content 1) as (h1 & R1 & _); [lia|]. destruct (at_ok content 2) as (h2 & R2 & _); [lia|]. destruct (at_ok content 3) as (h3 & R3 & _); [lia|].
  destruct (at_ok content 0) as (h0 & R0 & _); [lia|]. rewrite R0. cbn [mbind result_bind]. destruct (negb (h0 =? handshakeType)); [by eexists|].
  rewrite R1. cbn [mbind result_bind]. rewrite R2. cbn [mbind result_bind]. rewrite R3. cbn [mbind result_bind].
  rewrite (handshake_length_read h Hwf h1 h2 h3) by (rewrite Hh, at_app_l by lia; done).
  rewrite from_ok by lia. cbn [mbind result_bind]. rewrite len_drop by lia.
  assert (len (hello h) = len content + len more - 4) as ->.
  { assert (len (handshake h) = len content + len more) as Hl by (by rewrite Hh, len_app). unfold handshake in Hl. rewrite !len_app, !len_be in Hl. lia. }
  rewrite (proj2 (Z.eqb_neq _ _)) by lia. by eexists.
Qed.

(** * Packets *)

Definition fragmentsOf (frames : list Frame) : list qCryptoFragment := concat (map fragmentOf frames).

Lemma readServerName exts : forall j, Forall (fun e => (encodeExt e).1 <> 0) exts -> fp_ServerName (fold_left readExt exts j) = fp_ServerName j.
Proof.
  induction exts as [|e exts IH]; intros j He; [done|]. apply Forall_cons_1 in He as [He Hes]. cbn [fold_left]. rewrite IH by done. by destruct e.
Qed.

Lemma fingerprint_name h cs before after : Forall (fun e => (encodeExt e).1 <> 0) after -> fp_ServerName (fingerprintOf h cs before after) = serverName h.
Proof. intros Ha. unfold fingerprintOf. rewrite !fold_left_app. by rewrite readServerName. Qed.

Lemma detectClient_ok types fingerprint : types <> [] -> exists client, detectClient types fingerprint = Ok client.
Proof.
  destruct types as [|t1 [|t2 types]]; [done|by eexists|]. intros _. unfold detectClient.
  destruct (_ && isSafari _); [by eexists|]. destruct (_ && isZero _); [by eexists|]. destruct (_ || _); by eexists.
Qed.

Section sniff.
Context (h : ClientHello) (cs : list Z) (before after : list Ext) (pieces : list bytes).
Context (Hwf : wellFormed h) (Hd : describes h cs before after) (Hafter : Forall (fun e => (encodeExt e).1 <> 0) after).
Context (Hpieces : Forall (fun p => p <> []) pieces) (Hconcat : concat pieces = handshake h).

Lemma pieces_length : len (concat pieces) < 65536.
Proof. rewrite Hconcat. apply Hwf. Qed.

Lemma sniffDecrypted_frames frames spare : Forall validFrame frames ->
  readFrames (concat (map encodeFrame frames)) spare (length (concat (map encodeFrame frames))) (concat (map encodeFrame frames)) =
  Ok (map frameType frames, fragmentsOf frames).
Proof.
  intros Hv. apply (readFrames_encoded frames spare []); [done|]. clear. induction frames as [|f frames IH]; cbn; [lia|].
  rewrite length_app. assert (0 < length (encodeFrame f))%nat by (destruct f; cbn; lia). lia.
Qed.

(** A packet that leaves a piece missing. *)
Lemma sniff_more m ctx frames spare extra : Forall validFrame frames -> extra <> [] ->
  (fragmentsOf frames ++ default [] ctx) ++ extra ≡ₚ place 0 pieces ->
  exists e, sniffDecrypted (m, ctx) (concat (map encodeFrame frames)) spare =
    ((m {{ ic_Protocol := ProtocolQUIC }}, Some (fragmentsOf frames ++ default [] ctx)), Err (needMoreData e)).
Proof.
  intros Hv Hextra Hperm. unfold sniffDecrypted. rewrite sniffDecrypted_frames by done. cbn [fst snd].
  destruct (assemble_placed pieces Hpieces pieces_length _ _ Hperm) as (done & todo & Hp & -> & Hl & Htodo).
  destruct (prefix_refused h (concat done) (concat todo) (total (fragmentsOf frames ++ default [] ctx))) as [e ->].
  - exact Hwf.
  - by rewrite <- Hconcat, Hp, concat_app.
  - destruct todo as [|p todo]; [by destruct (Hextra (proj1 Htodo eq_refl))|]. rewrite Hp, Forall_app in Hpieces. destruct Hpieces as [_ [Hne _]%Forall_cons_1]. cbn. by destruct p.
  - pose proof pieces_length. lia.
  - by exists e.
Qed.

(** The packet that completes the message. *)
Lemma sniff_last m ctx frames spare : Forall validFrame frames -> fragmentsOf frames <> [] ->
  fragmentsOf frames ++ default [] ctx ≡ₚ place 0 pieces ->
  exists m', sniffDecrypted (m, ctx) (concat (map encodeFrame frames)) spare = ((m', None), Ok tt) /\
    ic_Protocol m' = ProtocolQUIC /\ ic_Domain m' = String.string_of_list_byte (serverName h).
Proof.
  intros Hv Hne Hperm. unfold sniffDecrypted. rewrite sniffDecrypted_frames by done. cbn [fst snd].
  destruct (assemble_placed pieces Hpieces pieces_length (fragmentsOf frames ++ default [] ctx) []) as (done & todo & Hp & -> & _ & Htodo);
    [by rewrite app_nil_r|].
  rewrite (proj2 Htodo eq_refl), app_nil_r in Hp. subst done.
  assert (total (fragmentsOf frames ++ default [] ctx) = len (handshake h)) as -> by (by rewrite Hperm, total_place, Hconcat). rewrite Hconcat.
  set (h' := mkClientHello 0x0303 (version h) (random h) (sessionID h) (cipherSuites h) (compression h) (extensionsBefore h) (serverName h) (extensionsAfter h)).
  assert (ja3_Compute (be 1 22 ++ be 2 0x0303 ++ be 2 (len (handshake h)) ++ handshake h) = Ok (fingerprintOf h cs before after)) as ->.
  { change (ja3_Compute (packet h') = Ok (fingerprintOf h' cs before after)). apply Compute_read; [exact Hwf| |split; discriminate].
    destruct Hd. by constructor. }
  rewrite fingerprint_name by done. destruct (String.eqb _ ""); [|eexists; split_and!; reflexivity].
  destruct (detectClient_ok (map frameType frames) (fingerprintOf h cs before after)) as [client ->]; [by destruct frames|].
  eexists. split_and!; reflexivity.
Qed.
End sniff.

(** The packets of a connection, one after the other. *)
Fixpoint sniffPackets `{QuicLibs} (m : QuicContext) (packets : list bytes) : QuicContext * list (result unit) :=
  match packets with
  | [] => (m, [])
  | packet :: packets' =>
      let '(m, r) := QUICClientHello m packet in
      let '(m, rs) := sniffPackets m packets' in
      (m, r :: rs)
  end.

(** The packet opens to the given frames. *)
Definition carries `{QuicLibs} (packet : bytes) (frames : list Frame) : Prop :=
  Forall validFrame frames /\ exists spare, openInitial packet = Ok (concat (map encodeFrame frames), spare).

Lemma sniffPackets_found `{QuicLibs} h cs before after pieces packets frames lastPacket lastFrames :
  wellFormed h -> describes h cs before after -> Forall (fun e => (encodeExt e).1 <> 0) after ->
  Forall (fun p => p <> []) pieces -> concat pieces = handshake h ->
  Forall2 carries packets frames -> carries lastPacket lastFrames -> fragmentsOf lastFrames <> [] ->
  forall metadata ctx, concat (map fragmentsOf frames) ++ default [] ctx ++ fragmentsOf lastFrames ≡ₚ place 0 pieces ->
  let '(m, rs) := sniffPackets (metadata, ctx) packets in
  Forall (fun r => exists e, r = Err (needMoreData e)) rs /\
  exists m', QUICClientHello m lastPacket = ((m', None), Ok tt) /\
    ic_Protocol m' = ProtocolQUIC /\ ic_Domain m' = String.string_of_list_byte (serverName h).
Proof.
  intros Hwf Hd Hafter Hpieces Hconcat Hcarry (Hvl & spl & Hol) Hne.
  induction Hcarry as [|packet fr packets frames (Hv & sp & Ho) _ IH]; intros metadata ctx Hall.
  - cbn [sniffPackets]. split; [constructor|]. unfold QUICClientHello. rewrite Hol. eapply sniff_last; [exact Hwf|exact Hd|done..|].
    cbn [map concat app] in Hall. by rewrite (Permutation_app_comm (fragmentsOf lastFrames)).
  - cbn [sniffPackets map concat] in *. unfold QUICClientHello at 1. rewrite Ho.
    destruct (sniff_more h pieces Hwf Hpieces Hconcat metadata ctx fr sp (concat (map fragmentsOf frames) ++ fragmentsOf lastFrames)) as [e ->].
    + done.
    + by intros [_ ?]%app_eq_nil.
    + rewrite <- Hall. solve_Permutation.
    + specialize (IH (metadata {{ ic_Protocol := ProtocolQUIC }}) (Some (fragmentsOf fr ++ default [] ctx))).
      destruct (sniffPackets _ packets) as [m rs]. destruct IH as [Hrs Hlast].
      { cbn [default]. rewrite <- Hall. solve_Permutation. }
      split; [constructor; [by exists e|done]|done].
Qed.

(** C29: The server name of a connection is found, however its ClientHello is cut into the frames
    of packets and in whatever order they arrive: each packet but the last asks for
    more data, and with the last one the protocol and the name are known. *)
Theorem quic_server_name_found `{QuicLibs} h cs before after pieces packets frames lastPacket lastFrames metadata :
  wellFormed h -> describes h cs before after -> Forall (fun e => (encodeExt e).1 <> 0) after ->
  Forall (fun p => p <> []) pieces -> concat pieces = handshake h ->
  Forall2 carries packets frames -> carries lastPacket lastFrames -> fragmentsOf lastFrames <> [] ->
  concat (map fragmentsOf (frames ++ [lastFrames])) ≡ₚ place 0 pieces ->
  let '(m, rs) := sniffPackets (metadata, None) packets in
  Forall (fun r => exists e, r = Err (needMoreData e)) rs /\
  exists m', QUICClientHello m lastPacket = ((m', None), Ok tt) /\
    ic_Protocol m' = ProtocolQUIC /\ ic_Domain m' = String.string_of_list_byte (serverName h).
Proof.
  intros Hwf Hd Hafter Hpieces Hconcat Hcarry Hlast Hne Hperm. eapply sniffPackets_found; [done..|].
  rewrite map_app, concat_app in Hperm. cbn [map concat] in Hperm. by rewrite app_nil_r in Hperm.
Qed.

(** * A connection *)

(** Ciphers that change nothing. *)
#[local] Instance demoQuic : QuicLibs := {
  hkdfExtract _ _ := [];
  hkdfExpand _ _ n := repeat (byteOf 0) (Z.to_nat n);
  aesEncrypt _ _ := repeat (byteOf 0) 16;
  gcmOpen _ _ ciphertext _ := if 16 <=? len ciphertext then inl (take (length ciphertext - 16) ciphertext) else inr (E_Lib "cipher: message authentication failed") }.

#[local] Instance demoQuicLaws : QuicLaws demoQuic.
Proof.
  split.
  - intros secret info n Hn. unfold len. cbn. rewrite repeat_length. lia.
  - done.
  - intros key nonce ct aad plain. cbn. destruct (Z.leb_spec 16 (len ct)); [|done]. intros [= <-]. unfold len in *. rewrite length_take. lia.
Defined.

Definition demoPacket (frames : list Frame) : bytes :=
  let plain := concat (map encodeFrame frames) in
  byteOf 0x40 :: be 4 1 ++ [byteOf 1; byteOf 7; byteOf 0] ++ varint 0 0 ++ varint 1 (17 + len plain) ++ [byteOf 0] ++ plain ++ repeat (byteOf 0) 16.

Definition demoMessage : ClientHello := ja3Hello (map encodeExt demoAfter).
Definition demoPieces : list bytes := [take 50 (handshake demoMessage); drop 50 (handshake demoMessage)].

(** The second half of the message comes first. *)
Definition demoFirst : list Frame := [Padding; Crypto 1 1 50 (drop 50 (handshake demoMessage)); Ping].
Definition demoLast : list Frame := [Crypto 0 1 0 (take 50 (handshake demoMessage)); Padding].

Lemma demoFirst_carried : carries (demoPacket demoFirst) demoFirst.
Proof.
  split; [|eexists; vm_compute; reflexivity]. constructor; [done|constructor; [|constructor; [done|constructor]]].
  cbn [validFrame]. unfold fitsVarint. split; vm_compute; naive_solver lia.
Qed.

Lemma demoLast_carried : carries (demoPacket demoLast) demoLast.
Proof.
  split; [|eexists; vm_compute; reflexivity]. constructor; [|constructor; [done|constructor]].
  cbn [validFrame]. unfold fitsVarint. split; vm_compute; naive_solver lia.
Qed.

Lemma quic_server_name_found_witness : exists m m',
  sniffPackets (inboundContextZero, None) [demoPacket demoFirst] = (m, [Err (needMoreData (LengthErr 2))]) /\
  QUICClientHello m (demoPacket demoLast) = ((m', None), Ok tt) /\ ic_Domain m' = "example.com".
Proof.
  pose proof (quic_server_name_found demoMessage [0x1301] demoBefore demoAfter demoPieces [demoPacket demoFirst] [demoFirst]
    (demoPacket demoLast) demoLast inboundContextZero) as Hf.
  destruct (sniffPackets _ _) as [m rs] eqn:Hs in Hf. destruct Hf as (_ & m' & Hq & _ & Hn).
  - apply ja3Hello_wellFormed.
  - apply ja3Hello_described.
  - repeat constructor; discriminate.
  - repeat constructor; discriminate.
  - vm_compute. reflexivity.
  - constructor; [apply demoFirst_carried|constructor].
  - apply demoLast_carried.
  - discriminate.
  - apply Permutation_swap.
  - exists m, m'. split; [|split; [exact Hq|rewrite Hn; reflexivity]]. rewrite Hs. f_equal.
    assert ((sniffPackets (inboundContextZero, None) [demoPacket demoFirst]).2 = [Err (needMoreData (LengthErr 2))]) as Hr by (vm_compute; reflexivity).
    rewrite Hs in Hr. exact Hr.
Defined.

(** The packet is too short for a frame; opening it is an error and not a panic. *)
Lemma quic_open_in_bounds_witness : openInitial (take 30 (demoPacket demoLast)) <> Panic "slice bounds out of range" /\
  openInitial (take 30 (demoPacket demoLast)) = Err OS_ErrInvalid.
Proof. split; [apply (quic_open_in_bounds (L := demoQuic))|vm_compute; reflexivity]. Defined.

(** * Limits *)

(** A frame that announces more data than the buffer of the packet holds makes the sniffer
    panic. *)
Lemma long_frame_panics m : (sniffDecrypted m (map byteOf [6; 0; 0x3f]) (repeat (byteOf 0) 16)).2 = Panic "slice bounds out of range".
Proof. by destruct m. Qed.

(** An empty frame at the offset that is searched for never lets the search end. *)
Lemma empty_frame_hangs :
  readFrames (map byteOf [6; 0; 0]) [] 3 (map byteOf [6; 0; 0]) = Ok ([6], [mkFragment 0 0 []]) /\
  forall fuel buffer, findFragments fuel [mkFragment 0 0 []] 0 buffer = Panic outOfFuel.
Proof.
  split; [by vm_compute|]. induction fuel as [|fuel IH]; intros buffer; [done|]. apply (IH (buffer ++ [])).
Qed.

(** A frame that is sent twice is counted twice, so the record is never complete. *)
Lemma repeated_frame_never_complete :
  (sniffDecrypted (inboundContextZero, None) (concat (map encodeFrame (demoFirst ++ demoLast))) []).2 = Ok tt /\
  (sniffDecrypted (inboundContextZero, None) (concat (map encodeFrame (demoFirst ++ demoFirst ++ demoLast))) []).2 = Err (needMoreData (LengthErr 2)).
Proof. by split; vm_compute. Qed.

(** A list of versions longer than its extension crashes the sniffer as well. *)
Lemma overlong_versions_reach_sniffer m :
  let message := handshake (ja3Hello [(43, [byteOf 2])]) in
  (sniffDecrypted (m, None) (concat (map encodeFrame [Crypto 0 1 0 message])) []).2 = Panic "index out of range".
Proof. by vm_compute. Qed.
