(* ===== verification/RouterTotal.v ===== *)
(** Routing with the sniffers of [common/sniff] always comes to an outcome. *)
From S2P Require Import Prelude MatchState Netip Metadata RuleItem RuleAction RuleAbstract Sniff Router Demo RouterSpec Bytes Streams Sniffers SniffersSpec Quic.

(** The packet sniffers as [PeekPacket] calls them. *)
Definition packetSniffers `{QuicLibs} (Unpack : bytes -> Msg + GoError) (sniffer : PacketSniffer) (m : QuicContext) (packet : bytes)
    : QuicContext * result unit :=
  match sniffer with
  | DomainNameQuery => sniffedBy m (sniffDomainNameQuery Unpack m.1 packet)
  | RuleAction.QUICClientHello => Quic.QUICClientHello m packet
  | STUNMessage => sniffedBy m (sniffSTUNMessage m.1 packet)
  | UTP => sniffedBy m (sniffUTP m.1 packet)
  | UDPTracker => sniffedBy m (sniffUDPTracker m.1 packet)
  | DTLSRecord => sniffedBy m (sniffDTLSRecord m.1 packet)
  | NTP => sniffedBy m (sniffNTP m.1 packet)
  end.

(** A call that ends without a panic. *)
Definition returns {A B} (r : A * result B) : Prop := forall p, r.2 <> Panic p.

Definition isOk {A} (r : result A) : Prop := exists a, r = Ok a.

(** * Sniffing *)

Section sniffing.
Context {SC : Type}.
Variable streamSniffer : StreamSniffer -> InboundContext * SC -> list bytes -> (InboundContext * SC) * result unit.
Variable packetSniffer : PacketSniffer -> InboundContext * SC -> bytes -> (InboundContext * SC) * result unit.
Variable IsDomainName : string -> bool.

Lemma tryStreamSniffers_returns sniffers reader : (forall s m, s ∈ sniffers -> returns (streamSniffer s m reader)) ->
  forall e m, isOk (tryStreamSniffers streamSniffer sniffers reader e m).
Proof.
  induction sniffers as [|s sniffers IH]; intros Hr e m; cbn; [by eexists|].
  pose proof (Hr s m ltac:(left)) as Hs. destruct (streamSniffer s m reader) as [m' [[]|err|p]]; [by eexists| |by destruct (Hs p)].
  apply IH. intros s' m0 Hin. apply Hr. by right.
Qed.

Lemma PeekStream_returns sniffers : (forall s m reader, s ∈ sniffers -> returns (streamSniffer s m reader)) ->
  forall reads m buffers buffer i e, isOk (PeekStream streamSniffer m reads buffers buffer sniffers i e).
Proof.
  intros Hr. induction reads as [|[d|d err|err] reads IH]; intros m buffers buffer i e; cbn; [by case_bool; eexists| |by case_bool; eexists|by eexists].
  destruct (tryStreamSniffers_returns sniffers (buffers ++ [buffer ++ d]) ltac:(by auto) None m) as [[m' [err|]] ->]; cbn; [|by eexists].
  destruct (IsNeedMoreData err); [apply IH|by eexists].
Qed.

Lemma tryPacketSniffers_returns sniffers packet : (forall s m, s ∈ sniffers -> returns (packetSniffer s m packet)) ->
  forall e m, isOk (tryPacketSniffers packetSniffer sniffers packet e m).
Proof.
  induction sniffers as [|s sniffers IH]; intros Hr e m; cbn; [by eexists|].
  pose proof (Hr s m ltac:(left)) as Hs. destruct (packetSniffer s m packet) as [m' [[]|err|p]]; [by eexists| |by destruct (Hs p)].
  apply IH. intros s' m0 Hin. apply Hr. by right.
Qed.

(** Every packet sniffer returns on the packet. *)
Definition sniffable (packet : bytes) : Prop := forall s m, returns (packetSniffer s m packet).

Lemma sniffOne_returns a m packet : sniffable packet -> isOk (sniffOne packetSniffer a m packet).
Proof.
  intros Hp. unfold sniffOne, PeekPacket. edestruct tryPacketSniffers_returns as [[m' err] ->]; [intros s m0 _; apply Hp|]. by eexists.
Qed.

Abbreviation sniffablePackets := (Forall (fun p => sniffable (pb_Buffer p))).

Lemma sniffInputPackets_returns a packets : sniffablePackets packets -> forall m, isOk (sniffInputPackets packetSniffer a m packets).
Proof.
  induction 1 as [|p packets Hp _ IH]; intros m; cbn; [by eexists|].
  destruct (sniffOne_returns a m (pb_Buffer p) Hp) as [[m' err] ->]. cbn. destruct (needMore err); [apply IH|by eexists].
Qed.

Lemma sniffReadPackets_returns a reads : forall m pbs, sniffablePackets pbs -> sniffablePackets (packetPayload reads) ->
  exists m' pbs' e reads', sniffReadPackets packetSniffer IsDomainName a m reads pbs = Ok (m', pbs', e, reads') /\
    sniffablePackets pbs' /\ sniffablePackets (packetPayload reads').
Proof.
  induction reads as [|[d dst| |err|err] reads IH]; intros m pbs Hp Hr; cbn in *; try by eexists _, _, _, _.
  apply Forall_cons_1 in Hr as [Hd Hr]. destruct (sniffOne_returns a m d Hd) as [[m' err] ->]. cbn.
  assert (sniffablePackets (pbs ++ [mkPacketBuffer d dst])) by (apply list.Forall_app; split; [done|by repeat constructor]).
  destruct (needMore err); [by apply IH|by eexists _, _, _, _].
Qed.

Lemma sniffPackets_returns a m reads pbs : sniffablePackets pbs -> sniffablePackets (packetPayload reads) ->
  exists m' pbs' e reads', Sniff.sniffPackets packetSniffer IsDomainName a m reads pbs = Ok (m', pbs', e, reads') /\
    sniffablePackets pbs' /\ sniffablePackets (packetPayload reads').
Proof.
  intros Hp Hr. unfold Sniff.sniffPackets. destruct (_ && _); [by eexists _, _, _, _|]. destruct (previousFailure _ _); [by eexists _, _, _, _|].
  destruct (sniffInputPackets_returns a pbs Hp m) as [[m' [err|]] ->]; cbn; [by eexists _, _, _, _|]. by apply sniffReadPackets_returns.
Qed.
End sniffing.

(** * Rules *)

Section rules.
Context `{Libs} {pc SC : Type}.
Variable rt : Router pc SC.

(** [P] describes the input that is left and the packets that were read. *)
Variable P : Input -> list PacketBuffer -> Prop.

(** Sniffing returns on such input, and leaves such input. *)
Definition sniffingReturns (action : RuleActionSniff) : Prop := forall m input buffers pbs, P input pbs ->
  exists m' b pbs' e input',
    actionSniff (r_streamSniffer rt) (r_packetSniffer rt) (r_IsDomainName rt) action m input buffers pbs = Ok (m', b, pbs', e, input') /\
    P input' pbs /\ P input' (pbs ++ pbs').

Definition ruleReturns (rule : Rule) : Prop :=
  match Rule_Action rule with Some (ActSniff action) => sniffingReturns action | Some _ => True | None => False end.

Lemma runAction_returns pre byp i rule a st : Rule_Action rule = Some a -> ruleReturns rule -> P (st_input st) (st_packetBuffers st) ->
  exists st' sel, runAction rt pre byp i rule a st = Ok (st', sel) /\ P (st_input st') (st_packetBuffers st').
Proof.
  unfold ruleReturns. intros -> Hr Hp. destruct a; cbn; try by eexists _, _.
  - destruct pre; cbn; [by case_bool; eexists _, _|].
    destruct (Hr (st_metadata st) (st_input st) (st_buffers st) (st_packetBuffers st) Hp) as (m' & b & pbs' & e & input' & -> & H1 & H2).
    cbn. eexists _, _. split; [done|]. by destruct b.
  - destruct (actionResolve _ _ _); by eexists _, _.
Qed.

Lemma matchRules_returns pre byp rules : Forall ruleReturns rules -> forall i st, P (st_input st) (st_packetBuffers st) ->
  isOk (matchRules rt pre byp rules i st).
Proof.
  induction 1 as [|rule rules Hr _ IH]; intros i st Hp; cbn [matchRules]; [by eexists|]. unfold ruleTurn.
  destruct (Rule_Match _ _ _ _) as [[|] m]; cbn [negb]; [|by apply IH].
  destruct (Rule_Action rule) as [a|] eqn:Ha; [|by unfold ruleReturns in Hr; rewrite Ha in Hr].
  match goal with |- context [runAction rt ?p ?b ?j ?r ?a' ?st1] =>
    destruct (runAction_returns p b j r a' st1 Ha Hr) as (st' & sel & -> & Hp'); [by destruct (routeOptionsOf a)|] end.
  cbn. destruct sel; [by eexists|by apply IH].
Qed.

Lemma matchRule_returns md sc cache pre byp input : Forall ruleReturns (r_rules rt) -> P input [] ->
  exists st sel, (matchRule rt md sc cache pre byp input).1 = Ok (st, sel) /\
    forall i rule, sel = SelectRule i rule -> r_rules rt !! i = Some rule.
Proof.
  intros Hr Hp. assert (isOk (matchRule rt md sc cache pre byp input).1) as [[st sel] Hm].
  { unfold matchRule. destruct (searchProcessInfo _ _ _). cbn [fst]. destruct (lookupFakeIP _ _); [by apply matchRules_returns|by eexists]. }
  exists st, sel. split; [done|]. intros i rule ->. by apply matchRule_selected in Hm as [? _].
Qed.
End rules.

(** * Connections *)

Section connections.
Context `{Libs} {pc SC : Type}.
Variable rt : Router pc SC.

(** Rules with actions as their constructor makes them from decoded options. *)
Definition decodedActions : Prop := Forall (fun rule => action_ok (Ok (Rule_Action rule))) (r_rules rt).

Lemma ruleReturns_decoded P : decodedActions ->
  (forall rule action, rule ∈ r_rules rt -> Rule_Action rule = Some (ActSniff action) -> sniffingReturns rt P action) ->
  Forall (ruleReturns rt P) (r_rules rt).
Proof.
  intros Ha Hs. apply list.Forall_forall. intros rule Hin. pose proof (proj1 (list.Forall_forall _ _) Ha rule Hin) as Hr. unfold ruleReturns.
  cbn beta in Hr. destruct (Rule_Action rule) as [[]|] eqn:Hrule; try done. by eapply Hs.
Qed.

Lemma routeConnection_returns md sc cache reads : decodedActions -> is_Some (r_default rt) ->
  (forall rule action s m reader, rule ∈ r_rules rt -> Rule_Action rule = Some (ActSniff action) -> s ∈ streamSniffersOf action ->
     returns (r_streamSniffer rt s m reader)) ->
  isOk (routeConnection rt md sc cache reads).
Proof.
  intros Ha Hd Hs. unfold routeConnection. destruct (negb _); [by eexists|]. destruct (magicDestination _ _); [by eexists|].
  destruct (_ && _); [by eexists|].
  edestruct (matchRule_returns rt (fun input _ => exists reads, input = InputStream reads)) as (st & sel & -> & Hsel).
  - apply ruleReturns_decoded; [done|]. intros rule action Hin Hrule m input buffers pbs [reads' ->]. unfold actionSniff.
    destruct (Skip _); [by eexists _, _, _, _, _; split_and!; eauto|]. destruct (negb _); [by eexists _, _, _, _, _; split_and!; eauto|].
    unfold sniffStream. destruct (_ && _); [by cbn; eexists _, _, _, _, _; split_and!; eauto|].
    destruct (previousFailure _ _); [by cbn; eexists _, _, _, _, _; split_and!; eauto|].
    edestruct (PeekStream_returns (r_streamSniffer rt) (streamSniffersOf action)) as [[[[? ?] ?] ?] ->]; [by eauto|].
    cbn. eexists _, _, _, _, _. by split_and!; eauto.
  - by eexists.
  - cbn [mbind result_bind]. eapply (dispatch_total rt (fun ob => Ok (NewConnection ob _ _))); [exact Ha|exact Hd|by eexists|exact Hsel].
Qed.

Lemma routePacketConnection_returns md sc cache reads : decodedActions -> is_Some (r_default rt) ->
  Forall (fun p => sniffable (r_packetSniffer rt) (pb_Buffer p)) (packetPayload reads) ->
  isOk (routePacketConnection rt md sc cache reads).
Proof.
  intros Ha Hd Hs. unfold routePacketConnection. destruct (negb _); [by eexists|]. destruct (_ && _); [by eexists|].
  set (ok := Forall (fun p => sniffable (r_packetSniffer rt) (pb_Buffer p))).
  edestruct (matchRule_returns rt (fun input pbs => ok pbs /\ exists reads, input = InputPackets reads /\ ok (packetPayload reads))) as (st & sel & -> & Hsel).
  - apply ruleReturns_decoded; [done|]. intros rule action Hin Hrule m input buffers pbs (Hp & reads' & -> & Hr). unfold actionSniff.
    assert (ok (pbs ++ [])) by by rewrite app_nil_r.
    destruct (Skip _); [by eexists _, _, _, _, _; split_and!; eauto|]. destruct (negb _); [by eexists _, _, _, _, _; split_and!; eauto|].
    edestruct (sniffPackets_returns (r_packetSniffer rt) (r_IsDomainName rt) action m reads' pbs Hp Hr) as (? & pbs' & ? & ? & -> & Hp' & Hr').
    cbn. eexists _, _, _, _, _. split; [done|]. split; (split; [|by eauto]); [done|by apply list.Forall_app].
  - split; [constructor|by eexists].
  - cbn [mbind result_bind]. eapply (dispatch_total rt (fun ob => Ok (NewPacketConnection ob _ _))); [exact Ha|exact Hd|by eexists|exact Hsel].
Qed.
End connections.

(** * The sniffers of the program *)

Lemma sniffedBy_returns {SC} (m : InboundContext * SC) accepted r : sniffs accepted r -> returns (sniffedBy m r).
Proof. intros Hs p. destruct r; [done|done|]. by destruct Hs. Qed.

Lemma streamSniffers_return {SC} Unpack others s (m : InboundContext * SC) reader :
  (s ∈ [TLSClientHello; HTTPHost] -> returns (others s m reader)) -> returns (streamSniffers Unpack others s m reader).
Proof.
  intros Ho. destruct s; cbn [streamSniffers]; [apply Ho; set_solver..| | | |]; eapply sniffedBy_returns;
    (apply sniffStreamDomainNameQuery_safe || apply sniffBitTorrent_safe || apply sniffSSH_safe || apply sniffRDP_safe).
Qed.

Lemma packetSniffers_return `{QuicLibs} Unpack s m packet : returns (Quic.QUICClientHello m packet) -> returns (packetSniffers Unpack s m packet).
Proof.
  intros Hq. destruct s; cbn [packetSniffers]; [exact Hq|..]; eapply sniffedBy_returns;
    (apply sniffDomainNameQuery_safe || apply sniffSTUNMessage_safe || apply sniffUTP_safe || apply sniffUDPTracker_safe ||
     apply sniffDTLSRecord_safe || apply sniffNTP_safe).
Qed.

Section total.
Context `{Libs} `{QuicLibs} {pc : Type} (Unpack : bytes -> Msg + GoError).
Variable others : StreamSniffer -> QuicContext -> Reader -> QuicContext * result unit.
Variable rt : Router pc (option (list qCryptoFragment)).

End total.

(** A router with these sniffers, where TLS and HTTP ask for more. *)
Definition demoOthers (_ : StreamSniffer) (m : QuicContext) (_ : Reader) : QuicContext * result unit := (m, Err ErrNeedMoreData).

Definition demoSniffingRouter : @Router demoLibs unit (option (list qCryptoFragment)) :=
  @mkRouter demoLibs unit (option (list qCryptoFragment)) demoServices ∅ demoRules None
    (fun _ => None) (fun _ _ => None) (fun c _ _ => c) None None None
    (fun _ => None) (fun _ => true) (fun _ _ _ => inl [Addr4 16909060])
    (fun _ => None) (fun tag => if String.eqb tag "proxy" then Some demoProxy else None) (Some demoDirect) 1
    (streamSniffers (fun _ => inr IO_EOF) demoOthers) (@packetSniffers demoQuic (fun _ => inr IO_EOF))
    (fun _ => true) (fun s => (sa_Addr s, sa_Port s))
    "sp.mux.sing-box.arpa" "v1.mux.cool" "sp.v2.udp-over-tcp.arpa" "sp.udp-over-tcp.arpa" (fun _ => []) 0.

