(* ===== verification/Obfs.v ===== *)
(** Simple obfuscation of a Shadowsocks stream: [transport/simple-obfs/tls.go] and
    [transport/simple-obfs/http.go]. *)
From coqutil Require Import Byte.
From S2P Require Import Prelude Netip Metadata Bytes Streams TLSFragment TLSFragmentSpec TLSHello.

(** * TLS *)

(** The half of [TLSObfs] that reads, and the half that writes. *)
Record TLSObfs := mkTLSObfs { to_Conn : Reader; to_remain : Z; to_firstResponse : bool }.
Record TLSObfsWriter := mkTLSObfsWriter { tw_server : string; tw_firstRequest : bool }.

Definition NewTLSObfs (conn : Reader) (server : string) : TLSObfs * TLSObfsWriter :=
  (mkTLSObfs conn 0 true, mkTLSObfsWriter server true).

(** [read] into [n] bytes; a call that fails is the error, without the bytes read
    before it.  When the length of the record cannot be read it
    returns no bytes and no error. *)
Definition TLSObfs_read (to : TLSObfs) (n discardN : nat) : result (bytes * TLSObfs) :=
  conn ← SkipN discardN (to_Conn to);
  match readExact 2 conn with
  | Err _ => Ok ([], to {{ to_Conn := [] }})
  | Panic s => Panic s
  | Ok (sizeBuf, conn) =>
      let length := beVal sizeBuf in
      if Z.of_nat n <? length then
        match Reader_Read n conn with
        | (_, Some err, _) => Err err
        | (d, None, conn) => Ok (d, to {{ to_Conn := conn; to_remain := length - len d }})
        end
      else
        '(d, conn) ← readExact (Z.to_nat length) conn;
        Ok (d, to {{ to_Conn := conn }})
  end.

Definition TLSObfs_Read (to : TLSObfs) (n : nat) : result (bytes * TLSObfs) :=
  if 0 <? to_remain to then
    let length := if Z.of_nat n <? to_remain to then Z.of_nat n else to_remain to in
    '(d, conn) ← readExact (Z.to_nat length) (to_Conn to);
    Ok (d, to {{ to_Conn := conn; to_remain := to_remain to - len d }})
  else if to_firstResponse to then TLSObfs_read (to {{ to_firstResponse := false }}) n 105
  else TLSObfs_read to n 3.

Definition chunkSize : nat := 2 ^ 14.

Definition hexBytes (l : list Z) : bytes := map byteOf l.

(** [makeClientHelloMsg], at [now] and with what [rand.Read] gives. *)
Definition makeClientHelloMsg (data : bytes) (server : string) (now : Z) (random sessionID : bytes) : bytes :=
  let data_server := len data + Z.of_nat (String.length server) in
  let length := u16 (212 + data_server) in
  (* handshake, TLS 1.0 version, length *)
  [byteOf 22] ++ hexBytes [0x03; 0x01] ++ [byteOf (Z.shiftr length 8)] ++ [byteOf (Z.land length 0xff)] ++
  (* clientHello, length, TLS 1.2 version *)
  [byteOf 1] ++ [byteOf 0] ++ be 2 (u16 (208 + data_server)) ++ hexBytes [0x03; 0x03] ++
  (* random with timestamp, sid len, sid *)
  be 4 (u32 now) ++ random ++ [byteOf 32] ++ sessionID ++
  (* cipher suites *)
  hexBytes [0x00; 0x38] ++
  hexBytes [
    0xc0; 0x2c; 0xc0; 0x30; 0x00; 0x9f; 0xcc; 0xa9; 0xcc; 0xa8; 0xcc; 0xaa; 0xc0; 0x2b; 0xc0; 0x2f;
    0x00; 0x9e; 0xc0; 0x24; 0xc0; 0x28; 0x00; 0x6b; 0xc0; 0x23; 0xc0; 0x27; 0x00; 0x67; 0xc0; 0x0a;
    0xc0; 0x14; 0x00; 0x39; 0xc0; 0x09; 0xc0; 0x13; 0x00; 0x33; 0x00; 0x9d; 0x00; 0x9c; 0x00; 0x3d;
    0x00; 0x3c; 0x00; 0x35; 0x00; 0x2f; 0x00; 0xff ] ++
  (* compression *)
  hexBytes [0x01; 0x00] ++
  (* extension length *)
  be 2 (u16 (79 + data_server)) ++
  (* session ticket *)
  hexBytes [0x00; 0x23] ++ be 2 (u16 (len data)) ++ data ++
  (* server name *)
  hexBytes [0x00; 0x00] ++ be 2 (u16 (Z.of_nat (String.length server) + 5)) ++ be 2 (u16 (Z.of_nat (String.length server) + 3)) ++
  [byteOf 0] ++ be 2 (u16 (Z.of_nat (String.length server))) ++ stringBytes server ++
  (* ec_point *)
  hexBytes [0x00; 0x0b; 0x00; 0x04; 0x03; 0x01; 0x00; 0x02] ++
  (* groups *)
  hexBytes [0x00; 0x0a; 0x00; 0x0a; 0x00; 0x08; 0x00; 0x1d; 0x00; 0x17; 0x00; 0x19; 0x00; 0x18] ++
  (* signature *)
  hexBytes [
    0x00; 0x0d; 0x00; 0x20; 0x00; 0x1e; 0x06; 0x01; 0x06; 0x02; 0x06; 0x03; 0x05;
    0x01; 0x05; 0x02; 0x05; 0x03; 0x04; 0x01; 0x04; 0x02; 0x04; 0x03; 0x03; 0x01;
    0x03; 0x02; 0x03; 0x03; 0x02; 0x01; 0x02; 0x02; 0x02; 0x03 ] ++
  (* encrypt then mac *)
  hexBytes [0x00; 0x16; 0x00; 0x00] ++
  (* extended master secret *)
  hexBytes [0x00; 0x17; 0x00; 0x00].

Section write.
(** The time and the random bytes of the message. *)
Variables (now : Z) (random sessionID : bytes).

(** What [write] sends for at most [chunkSize] bytes. *)
Definition TLSObfs_write (to : TLSObfsWriter) (b : bytes) : bytes * TLSObfsWriter :=
  if tw_firstRequest to
  then (makeClientHelloMsg b (tw_server to) now random sessionID, to {{ tw_firstRequest := false }})
  else (hexBytes [0x17; 0x03; 0x03] ++ be 2 (u16 (len b)) ++ b, to).

(** The loop of [Write], while all writes succeed. *)
Fixpoint writeChunks (fuel : nat) (to : TLSObfsWriter) (b : bytes) : bytes * TLSObfsWriter :=
  match fuel, b with
  | O, _ | _, [] => ([], to)
  | S fuel', _ =>
      let (sent, to) := TLSObfs_write to (take chunkSize b) in
      let (rest, to) := writeChunks fuel' to (drop chunkSize b) in
      (sent ++ rest, to)
  end.

Definition TLSObfs_Write (to : TLSObfsWriter) (b : bytes) : bytes * TLSObfsWriter := writeChunks (length b) to b.
End write.

(** * HTTP *)

(** The half of [HTTPObfs] that reads; [ho_buf] is [buf[offset:]], nil or not
    empty. *)
Record HTTPObfs := mkHTTPObfs { ho_Conn : Reader; ho_buf : bytes; ho_firstResponse : bool }.

Definition NewHTTPObfs (conn : Reader) : HTTPObfs := mkHTTPObfs conn [] true.

Definition headerEnd : bytes := map byteOf [13; 10; 13; 10].

(** [bytes.Index]: what follows the first occurrence. *)
Fixpoint afterIndex (s sep : bytes) : option bytes :=
  if bool_decide (take (length sep) s = sep) then Some (drop (length sep) s)
  else match s with [] => None | _ :: s' => afterIndex s' sep end.

Section http.
(** [buf.BufferSize]. *)
Variable BufferSize : nat.

Definition HTTPObfs_Read (ho : HTTPObfs) (n : nat) : result (bytes * HTTPObfs) :=
  if nonempty (ho_buf ho) then Ok (take n (ho_buf ho), ho {{ ho_buf := drop n (ho_buf ho) }})
  else if ho_firstResponse ho then
    match Reader_Read BufferSize (ho_Conn ho) with
    | (_, Some err, _) => Err err
    | (buf, None, conn) =>
        match afterIndex buf headerEnd with
        | None => Err IO_EOF
        | Some body => Ok (take n body, mkHTTPObfs conn (drop n body) false)
        end
    end
  else
    match Reader_Read n (ho_Conn ho) with
    | (_, Some err, _) => Err err
    | (d, None, conn) => Ok (d, ho {{ ho_Conn := conn }})
    end.
End http.

(** * Records *)

(** What is sent for some data: what the reader skips, the length and the data. *)
Definition frame (f : bytes * bytes) : bytes := f.1 ++ be 2 (len f.2) ++ f.2.

(** The frames a reader expects. *)
Fixpoint framed (first : bool) (fs : list (bytes * bytes)) : Prop :=
  match fs with
  | [] => True
  | f :: fs' => length f.1 = (if first then 105 else 3)%nat /\ len f.2 < 65536 /\ framed false fs'
  end.

Definition awaits (to : TLSObfs) (data : bytes) : Prop :=
  exists p fs, to_remain to = len p /\ framed (to_firstResponse to) fs /\
    concat (to_Conn to) = p ++ concat (map frame fs) /\ data = p ++ concat (map snd fs).

Local Ltac setters to := destruct to; cbn -[take drop len] in *; unfold constant in *; cbn -[take drop len] in *.

Lemma readExact_end n r : (0 < n)%nat -> concat r = [] -> readExact n r = Err IO_EOF.
Proof. intros Hn Hr. unfold readExact, readFull. rewrite Hr. by destruct n; [lia|]. Qed.

Lemma TLSObfs_read_end to n k : (0 < k)%nat -> concat (to_Conn to) = [] -> TLSObfs_read to n k = Err IO_EOF.
Proof. intros Hk Hc. unfold TLSObfs_read, SkipN. by rewrite readExact_end. Qed.

(** The first read of a record. *)
Lemma TLSObfs_read_awaits to n k f fs : (0 < n)%nat -> length f.1 = k -> len f.2 < 65536 -> framed false fs ->
  to_remain to = 0 -> to_firstResponse to = false -> concat (to_Conn to) = frame f ++ concat (map frame fs) ->
  exists d to' data, TLSObfs_read to n k = Ok (d, to') /\ awaits to' data /\ f.2 ++ concat (map snd fs) = d ++ data /\
    (length (concat (to_Conn to')) + 2 <= length (concat (to_Conn to)))%nat.
Proof.
  destruct f as [h p]; cbn [fst snd]. intros Hn Hk Hp Hfs Hrem Hfirst Hc. unfold frame in Hc; cbn [fst snd] in Hc.
  pose proof (len_nonneg p) as Hp0. unfold TLSObfs_read. rewrite <- !app_assoc in Hc.
  destruct (SkipN_app k (to_Conn to) h _ Hc Hk) as (r1 & -> & H1). cbn [mbind result_bind].
  destruct (readExact_app 2 r1 _ _ H1 (be_length _ _)) as (r2 & -> & H2). rewrite beVal_be by (change (2 ^ (8 * Z.of_nat 2)) with 65536; lia).
  destruct (Z.ltb_spec (Z.of_nat n) (len p)) as [Hlt|Hge].
  - destruct (Reader_Read n r2) as [[d err] r3] eqn:Hr. destruct (Reader_Read_data _ _ _ _ _ Hr) as (Hd & Hl & Hne & Herr).
    destruct err as [err|].
    { destruct Herr as [_ Hn0]; [done|]. rewrite Hn0 in H2. symmetry in H2. apply app_nil in H2 as [-> _]. unfold len in Hlt; cbn in Hlt. lia. }
    rewrite H2 in Hd. destruct (app_prefix _ _ _ _ Hd) as (q & -> & Hq); [unfold len in *; lia|].
    eexists d, _, (q ++ concat (map snd fs)). split; [done|]. rewrite Hc. split_and!.
    + exists q, fs. setters to. rewrite Hfirst. split_and!; try done. rewrite len_app; lia.
    + by rewrite app_assoc.
    + setters to. rewrite Hq, !length_app, be_length. lia.
  - destruct (readExact_app (Z.to_nat (len p)) r2 p _ H2) as (r3 & -> & H3); [unfold len; lia|]. cbn [mbind result_bind].
    eexists p, _, (concat (map snd fs)). split; [done|]. rewrite Hc. split_and!; [|done|].
    + exists [], fs. setters to. rewrite Hfirst. by split_and!.
    + setters to. rewrite H3, !length_app, be_length. lia.
Qed.

Lemma TLSObfs_Read_awaits to data n : (0 < n)%nat -> awaits to data ->
  (data = [] /\ TLSObfs_Read to n = Err IO_EOF) \/
  exists d to' data', TLSObfs_Read to n = Ok (d, to') /\ awaits to' data' /\ data = d ++ data' /\
    (length (concat (to_Conn to')) < length (concat (to_Conn to)))%nat.
Proof.
  intros Hn (p & fs & Hrem & Hfs & Hc & ->). unfold TLSObfs_Read. rewrite Hrem. destruct p as [|x p].
  - change (0 <? len []) with false. cbn [app] in *. destruct fs as [|f fs]; cbn in Hc.
    + left. split; [done|]. by destruct (to_firstResponse to); apply TLSObfs_read_end; (lia || destruct to).
    + right. destruct Hfs as (Hf & Hl & Hfs). destruct (to_firstResponse to) eqn:Hfirst;
        [pose proof (TLSObfs_read_awaits (to {{ to_firstResponse := false }}) n 105 f fs Hn Hf Hl Hfs) as Hr
        |pose proof (TLSObfs_read_awaits to n 3 f fs Hn Hf Hl Hfs) as Hr];
        setters to; destruct Hr as (d & to' & data' & -> & Ha & Hd & Hle); try done;
        exists d, to', data'; (split_and!; [done..|lia]).
  - right. rewrite (proj2 (Z.ltb_lt 0 (len (x :: p)))) by (unfold len; cbn; lia).
    set (m := Z.to_nat (if Z.of_nat n <? len (x :: p) then Z.of_nat n else len (x :: p))).
    assert ((0 < m)%nat /\ (m <= length (x :: p))%nat) as [Hm Hmp].
    { unfold m, len. cbn [length]. destruct (Z.ltb_spec (Z.of_nat n) (Z.of_nat (S (length p)))); lia. }
    assert (length (take m (x :: p)) = m) as Htk by (rewrite length_take; lia).
    rewrite <- (take_drop m (x :: p)) in Hc. rewrite <- app_assoc in Hc.
    destruct (readExact_app m (to_Conn to) _ _ Hc Htk) as (r' & -> & Hr'). cbn [mbind result_bind].
    eexists _, _, (drop m (x :: p) ++ concat (map snd fs)). split; [done|]. split_and!.
    + exists (drop m (x :: p)), fs. setters to. split_and!; try done. unfold len. rewrite length_drop, Htk. cbn [length]. lia.
    + by rewrite app_assoc, take_drop.
    + setters to. rewrite Hr', Hc, !length_app, Htk. lia.
Qed.

(** * Writing *)

Definition record (b : bytes) : bytes * bytes := (hexBytes [0x17; 0x03; 0x03], b).

(** The parts of at most 16 KiB. *)
Fixpoint chunks (fuel : nat) (b : bytes) : list bytes :=
  match fuel, b with
  | O, _ | _, [] => []
  | S fuel', _ => take chunkSize b :: chunks fuel' (drop chunkSize b)
  end.

Lemma chunkSize_val : Z.of_nat chunkSize = 16384.
Proof. by vm_compute. Qed.

Lemma chunks_concat fuel : forall b, (length b <= fuel)%nat -> concat (chunks fuel b) = b.
Proof.
  induction fuel as [|fuel IH]; intros [|x b] Hl; try done; [cbn in Hl; lia|]. cbn [chunks concat].
  rewrite IH; [by rewrite take_drop|]. pose proof chunkSize_val. rewrite length_drop. cbn [length] in *. lia.
Qed.

Lemma chunks_fuel f : forall g b, (length b <= f)%nat -> (length b <= g)%nat -> chunks f b = chunks g b.
Proof.
  pose proof chunkSize_val.
  induction f as [|f IH]; intros [|g] [|x b] Hf Hg; try done; cbn in Hf, Hg; try lia. cbn [chunks]. f_equal.
  apply IH; rewrite length_drop; cbn [length]; lia.
Qed.

Lemma chunks_short fuel b : Forall (fun c => len c < 65536) (chunks fuel b).
Proof.
  revert b. induction fuel as [|fuel IH]; intros [|x b]; cbn [chunks]; constructor; [|by apply IH].
  unfold len. rewrite length_take. pose proof chunkSize_val. lia.
Qed.

Lemma framed_records l : Forall (fun c => len c < 65536) l -> framed false (map record l).
Proof. induction 1; cbn; [done|]. by split_and!. Qed.

(** * The stream *)

Section stream.
Variables (server : string) (now : Z) (random sessionID : bytes).

(** After the first request a write sends records only. *)
Lemma writeChunks_records fuel : forall b, writeChunks now random sessionID fuel (mkTLSObfsWriter server false) b =
  (concat (map frame (map record (chunks fuel b))), mkTLSObfsWriter server false).
Proof.
  induction fuel as [|fuel IH]; intros [|x b]; try done. cbn -[take drop hexBytes len be chunkSize]. rewrite IH.
  unfold frame at 2; cbn [fst snd record]. do 2 f_equal. unfold u16. rewrite wrap_small; [done|].
  pose proof chunkSize_val. unfold len. rewrite length_take. change (2 ^ 16) with 65536. lia.
Qed.

(** The peer answers with a handshake message of 105 bytes, the length of its first
    data and the data, and goes on with what [Write] sends after a first request.
    However this stream is cut and whatever the sizes of the buffers, reading it to
    the end gives exactly the data, and then the end of the stream. *)
Theorem obfs_stream_delivered (head first : bytes) (msgs : list bytes) (conn : Reader) sizes fuel :
  length head = 105%nat -> len first < 65536 -> (forall i, (0 < sizes i)%nat) ->
  concat conn = head ++ be 2 (len first) ++ first ++
    concat (map (fun b => (TLSObfs_Write now random sessionID (mkTLSObfsWriter server false) b).1) msgs) ->
  (length (concat conn) < fuel)%nat ->
  drain TLSObfs_Read fuel sizes (NewTLSObfs conn server).1 = (first ++ concat msgs, Some IO_EOF).
Proof.
  intros Hh Hf Hsz Hc Hfuel.
  set (cs := concat (map (fun b => chunks (length b) b) msgs)).
  assert (concat (map frame (map record cs)) = concat (map (fun b => (TLSObfs_Write now random sessionID (mkTLSObfsWriter server false) b).1) msgs) /\
    concat (map snd (map record cs)) = concat msgs /\ Forall (fun c => len c < 65536) cs) as (Hw & Hd & Hs).
  { subst cs. clear. induction msgs as [|b msgs (IHw & IHd & IHs)]; [done|]. cbn [map concat]. split_and!.
    - unfold TLSObfs_Write at 1. rewrite writeChunks_records, !map_app, concat_app. cbn [fst]. by rewrite IHw.
    - rewrite !map_app, concat_app, IHd, map_map. cbn [snd record]. by rewrite map_id, chunks_concat.
    - apply Forall_app. split; [apply chunks_short|done]. }
  apply (drain_awaits _ awaits (fun to => length (concat (to_Conn to))) TLSObfs_Read_awaits sizes Hsz); [|exact Hfuel].
  exists [], ((head, first) :: map record cs). cbn [to_remain to_firstResponse to_Conn NewTLSObfs fst snd app map concat framed].
  split_and!; [done|done|done|by apply framed_records| |by rewrite Hd].
  rewrite Hw. unfold frame; cbn [fst snd]. by rewrite <- !app_assoc.
Qed.
End stream.

Lemma obfs_stream_delivered_witness :
  let msgs := [map byteOf [4; 5; 6]; map byteOf [7]] in
  let sent := map (fun b => (TLSObfs_Write 0 [] [] (mkTLSObfsWriter EmptyString false) b).1) msgs in
  let conn := [repeat (byteOf 0) 100; repeat (byteOf 0) 6; byteOf 3 :: map byteOf [1; 2]; byteOf 3 :: concat sent] in
  drain TLSObfs_Read 200 (fun _ => 2%nat) (NewTLSObfs conn EmptyString).1 = (map byteOf [1; 2; 3; 4; 5; 6; 7], Some IO_EOF).
Proof.
  intros msgs sent conn.
  apply (obfs_stream_delivered EmptyString 0 [] [] (repeat (byteOf 0) 105) (map byteOf [1; 2; 3]) msgs conn (fun _ => 2%nat) 200);
    [reflexivity|reflexivity|intros; lia|reflexivity|vm_compute; lia].
Defined.

(** The length of a record that cannot be read is no error: the stream ends in the
    middle of a header, and the read returns no bytes. *)
Lemma cut_length_is_no_error :
  TLSObfs_read (mkTLSObfs [map byteOf [0x17; 3; 3; 0]] 0 false) 10 3 = Ok ([], mkTLSObfs [] 0 false).
Proof. reflexivity. Qed.

(** * The first request *)

(** The message as a ClientHello: the data is its session ticket. *)
Definition obfsHello (data : bytes) (server : string) (now : Z) (random sessionID : bytes) : ClientHello := {|
  recordVersion := 0x0301;
  version := 0x0303;
  TLSHello.random := be 4 (u32 now) ++ random;
  TLSHello.sessionID := sessionID;
  cipherSuites := hexBytes [
    0xc0; 0x2c; 0xc0; 0x30; 0x00; 0x9f; 0xcc; 0xa9; 0xcc; 0xa8; 0xcc; 0xaa; 0xc0; 0x2b; 0xc0; 0x2f;
    0x00; 0x9e; 0xc0; 0x24; 0xc0; 0x28; 0x00; 0x6b; 0xc0; 0x23; 0xc0; 0x27; 0x00; 0x67; 0xc0; 0x0a;
    0xc0; 0x14; 0x00; 0x39; 0xc0; 0x09; 0xc0; 0x13; 0x00; 0x33; 0x00; 0x9d; 0x00; 0x9c; 0x00; 0x3d;
    0x00; 0x3c; 0x00; 0x35; 0x00; 0x2f; 0x00; 0xff ];
  compression := hexBytes [0x00];
  extensionsBefore := [(0x23, data)];
  serverName := stringBytes server;
  extensionsAfter := [
    (0x0b, hexBytes [0x03; 0x01; 0x00; 0x02]);
    (0x0a, hexBytes [0x00; 0x08; 0x00; 0x1d; 0x00; 0x17; 0x00; 0x19; 0x00; 0x18]);
    (0x0d, hexBytes [
      0x00; 0x1e; 0x06; 0x01; 0x06; 0x02; 0x06; 0x03; 0x05; 0x01; 0x05; 0x02; 0x05; 0x03; 0x04; 0x01; 0x04; 0x02;
      0x04; 0x03; 0x03; 0x01; 0x03; 0x02; 0x03; 0x03; 0x02; 0x01; 0x02; 0x02; 0x02; 0x03 ]);
    (0x16, []);
    (0x17, []) ] |}.

Lemma len_stringBytes s : len (stringBytes s) = Z.of_nat (String.length s).
Proof. unfold len, stringBytes, String.list_byte_of_string. rewrite length_map. induction s; cbn in *; lia. Qed.

Lemma be2_bytes z : [byteOf (Z.shiftr z 8)] ++ [byteOf (Z.land z 0xff)] = be 2 z.
Proof.
  change (be 2 z) with [byteOf (Z.shiftr z 8); byteOf z]. cbn [app]. do 2 f_equal. apply byte.unsigned_inj.
  rewrite !byte.unsigned_of_Z. unfold byte.wrap. change 0xff with (Z.ones 8). by rewrite Z.land_ones, Z.mod_mod by lia.
Qed.

Lemma be3_small z : 0 <= z < 65536 -> be 3 z = [byteOf 0] ++ be 2 z.
Proof.
  intros Hz. rewrite <- (app_nil_r (be 3 z)), be_3, <- (app_nil_r (be 2 z)), be_2. cbn [app]. do 2 f_equal.
  rewrite Z.shiftr_shiftr, Z.shiftr_div_pow2 by lia. by rewrite Z.div_small by (change (2 ^ (8 + 8)) with 65536; lia).
Qed.

Lemma be2_u16 z : 0 <= z < 65536 -> be 2 (u16 z) = be 2 z.
Proof. intros Hz. unfold u16. by rewrite wrap_small. Qed.

Section hello.
Variables (data : bytes) (server : string) (now : Z) (random sessionID : bytes).
Hypothesis random_28 : length random = 28%nat.
Hypothesis sessionID_32 : length sessionID = 32%nat.
Hypothesis fits : len data + Z.of_nat (String.length server) + 212 < 65536.

Abbreviation h := (obfsHello data server now random sessionID).

Lemma obfs_lengths : len (extensions h) = 79 + len data + Z.of_nat (String.length server) /\
  len (hello h) = 208 + len data + Z.of_nat (String.length server) /\
  len (handshake h) = 212 + len data + Z.of_nat (String.length server).
Proof.
  assert (len (extensions h) = 79 + len data + Z.of_nat (String.length server)) as He.
  { unfold extensions, h. cbn [extensionsBefore extensionsAfter serverName map concat].
    rewrite !len_app, !len_extension, len_sniData, len_stringBytes. unfold hexBytes, len. cbn [map length]. lia. }
  assert (len (hello h) = 208 + len data + Z.of_nat (String.length server)) as Hh.
  { unfold hello. rewrite !len_app, len_be, He. unfold helloHead, h. cbn [TLSHello.random TLSHello.sessionID version cipherSuites compression].
    rewrite !len_app, !len_be. change (len random) with (Z.of_nat (length random)). change (len sessionID) with (Z.of_nat (length sessionID)).
    rewrite random_28, sessionID_32. unfold hexBytes, len. cbn [map length]. lia. }
  split_and!; [done..|]. unfold handshake. rewrite !len_app, !len_be, Hh. cbn -[len hello]. lia.
Qed.

Lemma makeClientHelloMsg_packet : makeClientHelloMsg data server now random sessionID = packet h.
Proof.
  destruct obfs_lengths as (He & Hh & Hs). pose proof (len_nonneg data). unfold packet, makeClientHelloMsg. rewrite Hs.
  unfold handshake. rewrite Hh. unfold hello. rewrite He. rewrite be3_small by lia. unfold helloHead, extensions, extension.
  cbn [obfsHello recordVersion version TLSHello.random TLSHello.sessionID cipherSuites compression extensionsBefore extensionsAfter serverName map concat fst snd].
  rewrite len_sniData. unfold sniData. rewrite len_stringBytes, (Z.add_comm 5). rewrite !Z.add_assoc, (app_assoc [byteOf (Z.shiftr _ 8)]), be2_bytes, !be2_u16 by lia.
  change (len sessionID) with (Z.of_nat (length sessionID)). rewrite sessionID_32, <- !app_assoc. reflexivity.
Qed.

Lemma obfsHello_wellFormed : wellFormed h.
Proof.
  destruct obfs_lengths as (_ & _ & Hs). unfold wellFormed. rewrite Hs. cbn. split_and!; try done; try lia.
  - rewrite length_app, be_length. by rewrite random_28.
  - change (len sessionID) with (Z.of_nat (length sessionID)). by rewrite sessionID_32.
  - by repeat constructor.
Qed.
End hello.

(** The first write sends a well-formed ClientHello that carries the first 16 KiB as its
    session ticket, and the rest as records: all its nested lengths agree, and the
    search for the server name finds the configured server in it. *)
Theorem obfs_hello b server now random sessionID :
  length random = 28%nat -> length sessionID = 32%nat -> b <> [] -> Z.of_nat (String.length server) < 48940 ->
  let ticket := take chunkSize b in
  let hello := obfsHello ticket server now random sessionID in
  TLSObfs_Write now random sessionID (NewTLSObfs [] server).2 b =
    (packet hello ++ (TLSObfs_Write now random sessionID (mkTLSObfsWriter server false) (drop chunkSize b)).1,
     mkTLSObfsWriter server false) /\
  wellFormed hello /\ extensionsBefore hello = [(0x23, ticket)] /\
  exists i e, IndexTLSServerName (packet hello) = Ok (Some (mkMyServerName i (Z.of_nat (String.length server)) (stringBytes server) e)).
Proof.
  intros Hr Hs Hb Hn ticket hello.
  assert (len ticket <= 16384).
  { pose proof chunkSize_val. unfold ticket, len. rewrite length_take. lia. }
  assert (wellFormed hello) as Hwf by (apply obfsHello_wellFormed; done || lia).
  split_and!; [|done|done|].
  - destruct b as [|x b]; [done|]. unfold TLSObfs_Write. cbn -[take drop chunkSize makeClientHelloMsg packet].
    fold ticket. rewrite makeClientHelloMsg_packet by (done || lia). rewrite !writeChunks_records.
    f_equal. unfold hello. cbn [fst]. rewrite (chunks_fuel (length b) (length (drop chunkSize (x :: b)))); [done| |done].
    pose proof chunkSize_val. rewrite length_drop. cbn [length]. lia.
  - exists (nameIndex hello), (9 + len (helloHead hello)). rewrite (IndexTLSServerName_packet hello Hwf).
    unfold hello. cbn [serverName obfsHello]. by rewrite len_stringBytes.
Qed.

Lemma obfs_hello_witness :
  let hello := obfsHello (take chunkSize (map byteOf [1; 2; 3])) "ab.cd" 5 (repeat (byteOf 7) 28) (repeat (byteOf 8) 32) in
  wellFormed hello /\ extensionsBefore hello = [(0x23, map byteOf [1; 2; 3])].
Proof.
  destruct (obfs_hello (map byteOf [1; 2; 3]) "ab.cd" 5 (repeat (byteOf 7) 28) (repeat (byteOf 8) 32)) as (_ & Hwf & Hex & _);
    [reflexivity|reflexivity|discriminate|reflexivity|]. split; [exact Hwf|exact Hex].
Defined.

(** * Responses *)

Section http_spec.
Variable BufferSize : nat.

Lemma afterIndex_first head body :
  afterIndex (head ++ take 3 headerEnd) headerEnd = None -> afterIndex (head ++ headerEnd ++ body) headerEnd = Some body.
Proof.
  induction head as [|x head IH]; [done|]. cbn [app afterIndex]. case_bool_decide as He; [done|]. intros Hn.
  rewrite bool_decide_eq_false_2; [by apply IH|]. intros Hh. apply He. clear -Hh.
  by destruct head as [|y [|z [|u head]]].
Qed.

Definition httpAwaits (ho : HTTPObfs) (data : bytes) : Prop :=
  ho_firstResponse ho = false /\ data = ho_buf ho ++ concat (ho_Conn ho).

Lemma HTTPObfs_Read_awaits ho data n : (0 < n)%nat -> httpAwaits ho data ->
  (data = [] /\ HTTPObfs_Read BufferSize ho n = Err IO_EOF) \/
  exists d ho' data', HTTPObfs_Read BufferSize ho n = Ok (d, ho') /\ httpAwaits ho' data' /\ data = d ++ data' /\
    (length (ho_buf ho' ++ concat (ho_Conn ho')) < length (ho_buf ho ++ concat (ho_Conn ho)))%nat.
Proof.
  destruct ho as [conn buf first]. intros Hn [Hf ->]. cbn in Hf. subst first. unfold HTTPObfs_Read. cbn [ho_Conn ho_buf ho_firstResponse].
  destruct buf as [|x buf]; cbn [nonempty app].
  - destruct (Reader_Read n conn) as [[d err] conn'] eqn:Hr. destruct (Reader_Read_data _ _ _ _ _ Hr) as (Hd & Hl & Hne & Herr).
    destruct err as [err|].
    { left. destruct Herr as [[= ->] ->]; [done|]. done. }
    right. exists d, (mkHTTPObfs conn' [] false), (concat conn'). split_and!; try done. cbn. rewrite Hd, length_app.
    destruct d; [by destruct Hne|cbn; lia].
  - right. exists (take n (x :: buf)), (mkHTTPObfs conn (drop n (x :: buf)) false), (drop n (x :: buf) ++ concat conn).
    split_and!; try done; cbn [ho_buf ho_Conn].
    + by rewrite app_assoc, take_drop.
    + cbn [length]. rewrite !length_app, length_drop. cbn [length]. lia.
Qed.

(** When the whole header of the response is in the first read, its end marked
    once, reading to the end gives exactly what follows the header. *)
Theorem http_body_delivered head rest (conn : Reader) sizes fuel :
  afterIndex (head ++ take 3 headerEnd) headerEnd = None ->
  (length (head ++ headerEnd ++ rest) <= BufferSize)%nat -> (forall i, (0 < sizes i)%nat) ->
  (length (rest ++ concat conn) + 1 < fuel)%nat ->
  drain (HTTPObfs_Read BufferSize) fuel sizes (NewHTTPObfs ((head ++ headerEnd ++ rest) :: conn)) = (rest ++ concat conn, Some IO_EOF).
Proof.
  intros Hno Hl Hsz Hf. destruct fuel as [|fuel]; [lia|]. cbn [drain]. unfold HTTPObfs_Read at 1, NewHTTPObfs.
  cbn [ho_Conn ho_buf ho_firstResponse nonempty].
  assert (Reader_Read BufferSize ((head ++ headerEnd ++ rest) :: conn) = (head ++ headerEnd ++ rest, None, [] :: conn)) as ->.
  { destruct (head ++ headerEnd ++ rest) as [|x w] eqn:Hw; [by destruct head|]. cbn [Reader_Read].
    by rewrite take_ge, drop_ge by (rewrite ?Hw in Hl; lia). }
  rewrite afterIndex_first by done. set (n := sizes fuel). specialize (Hsz fuel) as Hn. fold n in Hn.
  rewrite (drain_awaits _ httpAwaits (fun ho => length (ho_buf ho ++ concat (ho_Conn ho))) HTTPObfs_Read_awaits sizes Hsz fuel _
    (drop n rest ++ concat conn)).
  - by rewrite app_assoc, take_drop.
  - done.
  - cbn [ho_buf ho_Conn concat app]. rewrite !length_app, length_drop in *. lia.
Qed.
End http_spec.

Lemma http_body_delivered_witness :
  let head := map byteOf [72; 84; 84; 80] in
  drain (HTTPObfs_Read 100) 20 (fun _ => 2%nat)
    (NewHTTPObfs [head ++ headerEnd ++ map byteOf [1; 2; 3]; map byteOf [4]]) = (map byteOf [1; 2; 3; 4], Some IO_EOF).
Proof.
  intros head. apply (http_body_delivered 100 head (map byteOf [1; 2; 3]) [map byteOf [4]] (fun _ => 2%nat) 20);
    [reflexivity|vm_compute; lia|intros; lia|vm_compute; lia].
Defined.

(** A response whose header takes two reads ends the connection. *)
Lemma split_header_ends a b BufferSize n : a <> [] -> (length a <= BufferSize)%nat -> afterIndex a headerEnd = None ->
  HTTPObfs_Read BufferSize (NewHTTPObfs [a; b]) n = Err IO_EOF.
Proof.
  intros Ha Hl Hi. unfold HTTPObfs_Read, NewHTTPObfs. cbn [ho_Conn ho_buf ho_firstResponse nonempty].
  destruct a as [|x a]; [done|]. cbn [Reader_Read]. rewrite take_ge by done. by rewrite Hi.
Qed.
