(* ===== verification/Sip003.v ===== *)
(** Plugins of the Shadowsocks outbound and their options: [transport/sip003]. *)
From Stdlib Require Import Ascii.
From S2P Require Import Prelude Netip Metadata Text Demo Bytes Streams Obfs.

(** * Options *)

(** [Args], which is never nil here. *)
Abbreviation Args := (gmap string (list string)).

Definition Args_Get (args : Args) (key : string) : option string :=
  match args !! key with
  | Some (value :: _) => Some value
  | _ => None
  end.

Definition Args_Add (args : Args) (key value : string) : Args := <[key := default [] (args !! key) ++ [value]]> args.

(** The errors of [fmt.Errorf], without the text they quote. *)
Definition errFinalEscape : GoError := E_New "nothing following final escape".
Definition errEmptyKey : GoError := E_New "empty key".

Fixpoint indexUnescaped (s : string) (term : list ascii) : result (nat * string) :=
  match s with
  | EmptyString => Ok (0%nat, "")
  | String b s' =>
      if existsb (Ascii.eqb b) term then Ok (0%nat, "")
      else if Ascii.eqb b "\" then
        match s' with
        | EmptyString => Err errFinalEscape
        | String b s'' => '(i, unesc) ← indexUnescaped s'' term; Ok (S (S i), String b unesc)
        end
      else '(i, unesc) ← indexUnescaped s' term; Ok (S i, String b unesc)
  end.

(** The loop, with [s] for [s[i:]]. *)
Fixpoint parseLoop (fuel : nat) (s : string) (opts : Args) : result Args :=
  if (String.length s =? 0)%nat then Ok opts
  else
    match fuel with
    | O => Panic outOfFuel
    | S fuel' =>
        '(offset, key) ← indexUnescaped s ["="; ";"]%char;
        if (String.length key =? 0)%nat then Err errEmptyKey
        else
          let s := dropString offset s in
          if (String.length s =? 0)%nat || negb (hasPrefix s "=") then
            parseLoop fuel' (dropString 1 s) (Args_Add opts key "1")
          else
            let s := dropString 1 s in
            '(offset, value) ← indexUnescaped s [";"%char];
            parseLoop fuel' (dropString (S offset) s) (Args_Add opts key value)
    end.

Definition ParsePluginOptions (s : string) : result Args := parseLoop (String.length s) s ∅.

(** * The obfuscation plugin *)

Record ObfsLocal := mkObfsLocal { ol_serverAddr : Socksaddr; ol_tls : bool; ol_host : string; ol_port : string }.

Section plugins.
Context `{Libs}.

Definition newObfsLocal (pluginOpts : Args) (serverAddr : Socksaddr) : result ObfsLocal :=
  let plugin := mkObfsLocal serverAddr false "" "" in
  let mode := default "http" (Args_Get pluginOpts "obfs") in
  let plugin := match Args_Get pluginOpts "obfs-host" with Some obfsHost => plugin {{ ol_host := obfsHost }} | None => plugin end in
  plugin ← (if String.eqb mode "http" then Ok plugin
            else if String.eqb mode "tls" then Ok (plugin {{ ol_tls := true }})
            else Err (E_New ("unknown obfs mode " +:+ mode)));
  Ok (plugin {{ ol_port := F_ToString (sa_Port serverAddr) }}).

(** The connections the plugin makes of one of the dialer. *)
Inductive ObfsConn :=
| HTTPConn (host port : string) (conn : HTTPObfs)
| TLSConn (conn : TLSObfs * TLSObfsWriter).

Definition ObfsLocal_DialContext (dial : Socksaddr -> result Reader) (o : ObfsLocal) : result ObfsConn :=
  conn ← dial (ol_serverAddr o);
  if negb (ol_tls o) then Ok (HTTPConn (ol_host o) (ol_port o) (NewHTTPObfs conn))
  else Ok (TLSConn (NewTLSObfs conn (ol_host o))).

(** * The V2Ray plugin *)

Record OutboundTLSOptions := mkOutboundTLSOptions {
  tls_Enabled : bool; tls_ServerName : string; tls_CertificatePath : string; tls_Certificate : list string }.

Inductive V2RayTransportOptions :=
| V2RayTransportTypeWebsocket (Host Path : string)
| V2RayTransportTypeQUIC.

(** [strconv.Atoi] *)
Definition strconvAtoi (s : string) : result Z :=
  let number (s : string) := if String.eqb s "" then None else digitsVal s 0 in
  let value := match s with
               | String "-"%char s' => option_map Z.opp (number s')
               | String "+"%char s' => number s'
               | _ => number s
               end in
  match value with
  | None => Err (E_Lib "invalid syntax")
  | Some n => if (- 2 ^ 63 <=? n) && (n <? 2 ^ 63) then Ok n else Err (E_Lib "value out of range")
  end.

(** [tls.NewClient] and [v2ray.NewClientTransport]. *)
Context {TLSConfig Transport : Type}.
Variable AddrString : Socksaddr -> string.
Variable NewClient : string -> OutboundTLSOptions -> result TLSConfig.
Variable NewClientTransport : Socksaddr -> V2RayTransportOptions -> option TLSConfig -> result Transport.

Inductive Plugin :=
| Obfs (plugin : ObfsLocal)
| V2RayClientTransport (transport : Transport)
| v2rayMuxWrapper (transport : Transport).

Definition v2rayTLSOptions (pluginOpts : Args) : OutboundTLSOptions :=
  {| tls_Enabled := negb (isNil (Args_Get pluginOpts "tls"));
     tls_ServerName := default "" (Args_Get pluginOpts "host");
     tls_CertificatePath := default "" (Args_Get pluginOpts "cert");
     tls_Certificate :=
       match Args_Get pluginOpts "certRaw" with
       | Some certRaw =>
           let certHead := "-----BEGIN CERTIFICATE-----" in
           let certTail := "-----END CERTIFICATE-----" in
           let newline := String (Ascii.ascii_of_N 10) "" in
           [certHead +:+ newline +:+ certRaw +:+ newline +:+ certTail]
       | None => []
       end |}.

Definition newV2RayPlugin (pluginOpts : Args) (serverAddr : Socksaddr) : result Plugin :=
  let tlsOptions := v2rayTLSOptions pluginOpts in
  let mode := default "websocket" (Args_Get pluginOpts "mode") in
  let host := default "cloudfront.com" (Args_Get pluginOpts "host") in
  let path := default "/" (Args_Get pluginOpts "path") in
  tlsClient ← (if tls_Enabled tlsOptions then t ← NewClient (AddrString serverAddr) tlsOptions; Ok (Some t) else Ok None);
  '(transportOptions, mux) ←
    (if String.eqb mode "websocket" then
       mux ← match Args_Get pluginOpts "mux" with
             | Some muxOpt => cause "parse mux value" (strconvAtoi muxOpt)
             | None => Ok 1
             end;
       Ok (V2RayTransportTypeWebsocket host path, mux)
     else if String.eqb mode "quic" then Ok (V2RayTransportTypeQUIC, 0)
     else Err (E_New ("v2ray-plugin: unknown mode: " +:+ mode)));
  transport ← NewClientTransport serverAddr transportOptions tlsClient;
  Ok (if 0 <? mux then v2rayMuxWrapper transport else V2RayClientTransport transport).

(** * The registry *)

Abbreviation PluginConstructor := (Args -> Socksaddr -> result Plugin).

Definition RegisterPlugin (name : string) (constructor : PluginConstructor) (plugins : gmap string PluginConstructor)
  : gmap string PluginConstructor := <[name := constructor]> plugins.

(** What the [init] functions register. *)
Definition plugins : gmap string PluginConstructor :=
  RegisterPlugin "v2ray-plugin" newV2RayPlugin
    (RegisterPlugin "obfs-local" (fun opts addr => plugin ← newObfsLocal opts addr; Ok (Obfs plugin)) ∅).

Definition CreatePlugin (name pluginArgs : string) (serverAddr : Socksaddr) : result Plugin :=
  pluginOptions ← cause "parse plugin_opts" (ParsePluginOptions pluginArgs);
  match plugins !! name with
  | None => Err (E_New ("plugin not found: " +:+ name))
  | Some constructor => constructor pluginOptions serverAddr
  end.
End plugins.

(** * Parsing always ends *)

Lemma dropString_length n s : String.length (dropString n s) = (String.length s - n)%nat.
Proof. revert s. induction n as [|n IH]; intros [|c s]; cbn; try lia. apply IH. Qed.

(** Never a panic, and a character of the result takes at least one. *)
Lemma indexUnescaped_total term : forall n s, (String.length s <= n)%nat ->
  match indexUnescaped s term with
  | Ok (i, unesc) => (String.length unesc <= i <= String.length s)%nat
  | Err e => e = errFinalEscape
  | Panic _ => False
  end.
Proof.
  induction n as [|n IH]; intros [|b s] Hl; cbn in *; try lia.
  destruct (existsb _ _); [cbn; lia|]. destruct (Ascii.eqb b "\").
  - destruct s as [|c s]; [done|]. specialize (IH s). destruct (indexUnescaped s term) as [[i u]|e|m]; cbn in *; [|apply IH; lia..].
    specialize (IH ltac:(lia)). lia.
  - specialize (IH s). destruct (indexUnescaped s term) as [[i u]|e|m]; cbn in *; [|apply IH; lia..].
    specialize (IH ltac:(lia)). lia.
Qed.

Lemma parseLoop_total fuel : forall s opts, (String.length s <= fuel)%nat ->
  (exists opts', parseLoop fuel s opts = Ok opts') \/ parseLoop fuel s opts = Err errFinalEscape \/ parseLoop fuel s opts = Err errEmptyKey.
Proof.
  induction fuel as [|fuel IH]; intros s opts Hl; cbn [parseLoop].
  { destruct s; cbn in *; [|lia]. left. by eexists. }
  destruct (Nat.eqb_spec (String.length s) 0) as [_|Hne]; [left; by eexists|].
  pose proof (indexUnescaped_total ["="; ";"]%char _ s (le_n _)) as Hk.
  destruct (indexUnescaped s _) as [[offset key]|e|m]; cbn [mbind result_bind]; [|subst; by right; left|done].
  destruct (Nat.eqb_spec (String.length key) 0); [by right; right|].
  pose proof (dropString_length offset s) as Hd.
  set (s1 := dropString offset s) in *.
  assert (String.length s1 <= fuel)%nat as Hs1 by lia. destruct (_ || _).
  - apply IH. rewrite dropString_length. lia.
  - pose proof (indexUnescaped_total [";"%char] _ (dropString 1 s1) (le_n _)) as Hv.
    destruct (indexUnescaped (dropString 1 s1) _) as [[j value]|e|m]; cbn [mbind result_bind]; [|subst; by right; left|done].
    apply IH. rewrite !dropString_length. lia.
Qed.

(** Parsing ends on every text: with options, or with one of the two errors. *)
Theorem parse_plugin_options_total s :
  (exists opts, ParsePluginOptions s = Ok opts) \/
  ParsePluginOptions s = Err errFinalEscape \/ ParsePluginOptions s = Err errEmptyKey.
Proof. by apply parseLoop_total. Qed.

(** * The round trip *)

(** "semicolons, equal signs and backslashes must be escaped with a backslash" *)
Fixpoint escape (s : string) : string :=
  match s with
  | EmptyString => ""
  | String c s' =>
      if existsb (Ascii.eqb c) ["="; ";"; "\"]%char then String "\" (String c (escape s')) else String c (escape s')
  end.

Definition printOption (kv : string * string) : string := escape kv.1 +:+ "=" +:+ escape kv.2.

Definition printOptions (l : list (string * string)) : string := join ";" (map printOption l).

(** The values of a key, in order. *)
Definition valuesOf (key : string) (l : list (string * string)) : list string :=
  map snd (filter (fun kv => kv.1 = key) l).

Lemma string_length_app s t : String.length (s +:+ t) = (String.length s + String.length t)%nat.
Proof. induction s as [|c s IH]; [done|]. rewrite append_cons. cbn. by rewrite IH. Qed.

(** Up to a terminator, or the end, the text is what was escaped. *)
Lemma indexUnescaped_escape term rest s :
  (forall c, existsb (Ascii.eqb c) ["="; ";"; "\"]%char = false -> existsb (Ascii.eqb c) term = false) ->
  existsb (Ascii.eqb "\") term = false ->
  match rest with EmptyString => True | String c _ => existsb (Ascii.eqb c) term = true end ->
  indexUnescaped (escape s +:+ rest) term = Ok (String.length (escape s), s).
Proof.
  intros Ht Hb Hr. induction s as [|c s IH].
  - destruct rest as [|c rest]; [done|]. rewrite append_nil. cbn. by rewrite Hr.
  - cbn [escape]. destruct (existsb (Ascii.eqb c) ["="; ";"; "\"]%char) eqn:Hc.
    + rewrite !append_cons. cbn [indexUnescaped]. rewrite Hb. cbn. by rewrite IH.
    + rewrite append_cons. cbn [indexUnescaped]. rewrite (Ht _ Hc). cbn in Hc. rewrite !orb_false_iff in Hc.
      destruct Hc as (_ & _ & -> & _). by rewrite IH.
Qed.

Lemma escape_empty s : s <> "" -> String.length s <> 0%nat.
Proof. by destruct s. Qed.

Lemma parseLoop_print l : forall fuel opts, Forall (fun kv => kv.1 <> "") l -> (String.length (printOptions l) <= fuel)%nat ->
  parseLoop fuel (printOptions l) opts = Ok (fold_left (fun opts kv => Args_Add opts kv.1 kv.2) l opts).
Proof.
  induction l as [|[k v] l IH]; intros fuel opts Hk Hf; [by destruct fuel|].
  apply Forall_cons_iff in Hk as [Hk Hl]. cbn [fst] in Hk.
  set (rest := match l with [] => "" | _ => String ";" (printOptions l) end).
  assert (printOptions ((k, v) :: l) = escape k +:+ String "=" (escape v +:+ rest)) as Hp.
  { unfold rest, printOptions. destruct l as [|kv l]; cbn [map].
    - unfold printOption. cbn [fst snd join]. by rewrite string_app_nil, append_cons, append_nil.
    - rewrite join_cons. unfold printOption at 1. cbn [fst snd]. by rewrite !string_app_assoc, !append_cons, !append_nil. }
  assert (dropString 1 rest = printOptions l) as Hrest by (by destruct l).
  rewrite Hp in *. rewrite string_length_app in Hf. cbn [String.length] in Hf. rewrite string_length_app in Hf.
  destruct fuel as [|fuel]; [lia|]. cbn [parseLoop].
  rewrite (proj2 (Nat.eqb_neq (String.length (escape k +:+ _)) 0)) by (rewrite string_length_app; cbn; lia).
  rewrite indexUnescaped_escape by (done || (intros c; cbn; rewrite !orb_false_iff; tauto)). cbn [mbind result_bind].
  rewrite (proj2 (Nat.eqb_neq (String.length k) 0)) by (by apply escape_empty). rewrite dropString_app. change (dropString 1 (String "=" ?t)) with t. cbn [String.length Nat.eqb hasPrefix Ascii.eqb Bool.eqb orb negb].
  rewrite (hasPrefix_app "" (escape v +:+ rest) : hasPrefix (escape v +:+ rest) "" = true). cbn [negb andb].
  rewrite indexUnescaped_escape; [|intros c; cbn; rewrite !orb_false_iff; tauto|done|unfold rest; by destruct l].
  cbn [mbind result_bind]. 
  assert (forall n u, dropString (S n) u = dropString 1 (dropString n u)) as Hds.
  { induction n as [|n IHn]; intros [|c u]; try done. cbn [dropString] in *. apply (IHn u). }
  rewrite Hds, dropString_app, Hrest. apply IH; [done|].
  rewrite <- Hrest, dropString_length. lia.
Qed.

Lemma fold_values key l : forall opts : Args,
  default [] (fold_left (fun opts kv => Args_Add opts kv.1 kv.2) l opts !! key) = default [] (opts !! key) ++ valuesOf key l.
Proof.
  unfold valuesOf. induction l as [|[k v] l IH]; intros opts; cbn [fold_left]; [cbn; by rewrite app_nil_r|].
  rewrite IH. unfold Args_Add. cbn [fst snd]. destruct (decide (k = key)) as [->|Hk].
  - rewrite lookup_insert_eq, filter_cons_True by done. cbn. by rewrite <- app_assoc.
  - by rewrite lookup_insert_ne, filter_cons_False by done.
Qed.

Lemma Args_Get_values opts key : Args_Get opts key = head (default [] (opts !! key)).
Proof. unfold Args_Get. by destruct (opts !! key) as [[|]|]. Qed.

Lemma ParsePluginOptions_print l : Forall (fun kv => kv.1 <> "") l ->
  exists opts, ParsePluginOptions (printOptions l) = Ok opts /\ forall key, default [] (opts !! key) = valuesOf key l.
Proof.
  intros Hk. eexists. unfold ParsePluginOptions. rewrite parseLoop_print by done. split; [done|].
  intros key. by rewrite fold_values.
Qed.

(** Options that are printed with the documented escapes are read back: each key
    has exactly its values, in their order, and [Get] returns the first. *)
Theorem plugin_options_round_trip l : Forall (fun kv => kv.1 <> "") l ->
  exists opts, ParsePluginOptions (printOptions l) = Ok opts /\
    forall key, default [] (opts !! key) = valuesOf key l /\ Args_Get opts key = head (valuesOf key l).
Proof.
  intros Hk. destruct (ParsePluginOptions_print l Hk) as (opts & Hp & Hv). exists opts. split; [done|].
  intros key. by rewrite Args_Get_values, Hv.
Qed.

Definition demoOptions : list (string * string) := [("obfs", "tls"); ("a;b", "c=\d"); ("obfs-host", "x.y"); ("obfs", "http")].

Lemma plugin_options_round_trip_witness :
  printOptions demoOptions = "obfs=tls;a\;b=c\=\\d;obfs-host=x.y;obfs=http" /\
  exists opts, ParsePluginOptions (printOptions demoOptions) = Ok opts /\ Args_Get opts "obfs" = Some "tls".
Proof.
  split; [reflexivity|]. destruct (plugin_options_round_trip demoOptions) as (opts & Hp & Hv); [by repeat constructor|].
  exists opts. split; [exact Hp|]. exact (proj2 (Hv "obfs")).
Defined.

(** * Plugins *)

Section create.
Context `{Libs} {TLSConfig Transport : Type}.
Variable AddrString : Socksaddr -> string.
Variable NewClient : string -> OutboundTLSOptions -> result TLSConfig.
Variable NewClientTransport : Socksaddr -> V2RayTransportOptions -> option TLSConfig -> result Transport.

(** The obfuscation plugin of the options [l]: HTTP unless the first [obfs] says
    TLS, to the first [obfs-host]; every other mode is an error. *)
Theorem obfs_plugin_created l addr : Forall (fun kv => kv.1 <> "") l ->
  let mode := default "http" (head (valuesOf "obfs" l)) in
  let host := default "" (head (valuesOf "obfs-host" l)) in
  CreatePlugin AddrString NewClient NewClientTransport "obfs-local" (printOptions l) addr =
    if String.eqb mode "http" || String.eqb mode "tls"
    then Ok (Obfs (mkObfsLocal addr (String.eqb mode "tls") host (F_ToString (sa_Port addr))))
    else Err (E_New ("unknown obfs mode " +:+ mode)).
Proof.
  intros Hk mode host. destruct (ParsePluginOptions_print l Hk) as (opts & Hp & Hv). unfold CreatePlugin. rewrite Hp. cbn [cause mbind result_bind].
  assert (plugins AddrString NewClient NewClientTransport !! "obfs-local" = Some (fun opts addr => plugin ← newObfsLocal opts addr; Ok (Obfs plugin))) as ->.
  { unfold plugins, RegisterPlugin. by rewrite lookup_insert_ne, lookup_insert_eq. }
  unfold newObfsLocal. rewrite !Args_Get_values, !Hv. fold mode. unfold host.
  destruct (String.eqb_spec mode "http") as [->|]; [|destruct (String.eqb mode "tls")]; cbn; by destruct (head (valuesOf "obfs-host" l)).
Qed.
(** The V2Ray plugin multiplexes exactly with the websocket transport, unless [mux]
    is given as a number that is not positive. *)
Theorem v2ray_plugin_created l addr p : Forall (fun kv => kv.1 <> "") l ->
  let mode := default "websocket" (head (valuesOf "mode" l)) in
  CreatePlugin AddrString NewClient NewClientTransport "v2ray-plugin" (printOptions l) addr = Ok p ->
  exists opts tlsClient transport, NewClientTransport addr opts tlsClient = Ok transport /\
    (tlsClient = None <-> valuesOf "tls" l = []) /\
    (mode = "quic" /\ opts = V2RayTransportTypeQUIC /\ p = V2RayClientTransport transport \/
     mode = "websocket" /\
     opts = V2RayTransportTypeWebsocket (default "cloudfront.com" (head (valuesOf "host" l))) (default "/" (head (valuesOf "path" l))) /\
     exists mux, match head (valuesOf "mux" l) with Some s => strconvAtoi s = Ok mux | None => mux = 1 end /\
       p = if 0 <? mux then v2rayMuxWrapper transport else V2RayClientTransport transport).
Proof.
  intros Hk mode. destruct (ParsePluginOptions_print l Hk) as (args & Hp & Hv). unfold CreatePlugin. rewrite Hp. cbn [cause mbind result_bind].
  assert (plugins AddrString NewClient NewClientTransport !! "v2ray-plugin" = Some (newV2RayPlugin AddrString NewClient NewClientTransport)) as ->.
  { unfold plugins, RegisterPlugin. by rewrite lookup_insert_eq. }
  unfold newV2RayPlugin. intros (tlsClient & Htls & Hrest)%bind_Ok. apply bind_Ok in Hrest as ([opts mux] & Hopts & Hrest).
  apply bind_Ok in Hrest as (transport & Ht & [= <-]). exists opts, tlsClient, transport. split; [done|]. split.
  { unfold v2rayTLSOptions in Htls. cbn [tls_Enabled] in Htls. rewrite Args_Get_values, Hv in Htls. destruct (valuesOf "tls" l); cbn in Htls.
    - by injection Htls as <-.
    - by apply bind_Ok in Htls as (t & _ & [= <-]). }
  rewrite !Args_Get_values, !Hv in Hopts. fold mode in Hopts. destruct (String.eqb_spec mode "websocket") as [Hm|_].
  - right. apply bind_Ok in Hopts as (mux' & Hmux & [= <- <-]). split_and!; [done..|]. exists mux'. split; [|done].
    destruct (head (valuesOf "mux" l)); [by apply cause_Ok in Hmux|by injection Hmux].
  - left. destruct (String.eqb_spec mode "quic"); [|done]. by injection Hopts as <- <-.
Qed.
End create.

#[local] Existing Instance demoLibs.

Lemma obfs_plugin_created_witness :
  let addr := mkSocksaddr AddrZero 8388 "example.org" in
  CreatePlugin (TLSConfig := unit) (Transport := unit) sa_Fqdn (fun _ _ => Ok tt) (fun _ _ _ => Ok tt) "obfs-local" (printOptions demoOptions) addr =
    Ok (Obfs (mkObfsLocal addr true "x.y" "8388")).
Proof.
  intros addr. etransitivity; [apply (obfs_plugin_created sa_Fqdn (fun _ _ => Ok tt) (fun _ _ _ => Ok tt) demoOptions addr); by repeat constructor|].
  vm_compute. reflexivity.
Defined.

Lemma v2ray_plugin_created_witness :
  let addr := mkSocksaddr AddrZero 8388 "example.org" in
  let l := [("mux", "0"); ("tls", "1")] in
  exists opts tlsClient, tlsClient <> None /\
    CreatePlugin sa_Fqdn (fun _ _ => Ok tt) (fun _ opts tlsClient => Ok (opts, tlsClient)) "v2ray-plugin" (printOptions l) addr =
      Ok (V2RayClientTransport (opts, tlsClient)).
Proof.
  intros addr l.
  destruct (v2ray_plugin_created sa_Fqdn (fun _ _ => Ok tt) (fun _ opts tlsClient => Ok (opts, tlsClient)) l addr
    (V2RayClientTransport (V2RayTransportTypeWebsocket "cloudfront.com" "/", Some tt)))
    as (opts & tlsClient & transport & Ht & Htls & _); [by repeat constructor|vm_compute; reflexivity|].
  exists (V2RayTransportTypeWebsocket "cloudfront.com" "/"), (Some tt). split; [discriminate|vm_compute; reflexivity].
Defined.

(** An option without a value is read as 1. *)
Lemma option_without_value : ParsePluginOptions "tls" = Ok {["tls" := ["1"]]}.
Proof. reflexivity. Qed.
