(* ===== verification/DNSClient.v ===== *)
(** [dns/client.go] and [dns/extension_edns0_subnet.go]: the DNS client with its
    cache, over the interfaces of the caches and the packages it calls. *)
From S2P Require Import Prelude Netip Metadata RuleAction Bytes.

(** * Constants of the [dns] package *)

Definition TypeA : Z := 1.
Definition TypeAAAA : Z := 28.
Definition TypeOPT : Z := 41.
Definition TypeHTTPS : Z := 65.
Definition ClassINET : Z := 1.
Definition RcodeFormatError : Z := 1.
Definition RcodeNameError : Z := 3.
Definition EDNS0SUBNET : Z := 8.
Definition EDNS0PADDING : Z := 12.
Definition SVCB_IPV4HINT : Z := 4.
Definition SVCB_IPV6HINT : Z := 6.

(** [SVCBKeyValue.Key] and [EDNS0.Option] *)
Definition svcbKey (v : SVCBValue) : Z :=
  match v with SVCBIPv4Hint _ => SVCB_IPV4HINT | SVCBIPv6Hint _ => SVCB_IPV6HINT | SVCBOther key _ => key end.
Definition ednsCode (o : EDNS0) : Z :=
  match o with EDNS0_Subnet _ _ _ => EDNS0SUBNET | EDNS0_Other code _ => code end.

(** [adapter.DNSTransport]: its tag and type; what it answers is an argument of
    the functions that ask it. *)
Record DNSTransport := mkDNSTransport { t_Tag : string; t_Type : string }.

Record DNSQueryOptions := mkDNSQueryOptions {
  Transport : option DNSTransport;
  Strategy : Z;
  LookupStrategy : Z;
  DisableCache : bool;
  DisableOptimisticCache : bool;
  RewriteTTL : option Z;
  Timeout : Z;
  ClientSubnet : Prefix
}.

Record dnsCacheKey := mkDNSCacheKey { key_Question : Question; transportTag : string }.

#[global] Instance Question_eq_dec : EqDecision Question.
Proof. solve_decision. Defined.
#[global] Instance dnsCacheKey_eq_dec : EqDecision dnsCacheKey.
Proof. solve_decision. Defined.
#[global] Instance dnsCacheKey_countable : Countable dnsCacheKey.
Proof.
  refine (inj_countable' (fun k => (q_Name (key_Question k), q_Qtype (key_Question k), q_Qclass (key_Question k), transportTag k))
    (fun '(n, t, c, tag) => mkDNSCacheKey (mkQuestion n t c) tag) _).
  by intros [[]].
Defined.

(** * Interfaces *)

(** The sharded LRU cache of messages.  Entries without a lifetime do not expire;
    times are in nanoseconds. *)
Class MemoryCache (T : Type) := {
  NewSharded : Z -> T;
  Get : T -> Z -> dnsCacheKey -> T * option Msg;
  GetWithLifetimeNoExpire : T -> dnsCacheKey -> T * option (Msg * Z);
  Add : T -> dnsCacheKey -> Msg -> T;
  AddWithLifetime : T -> Z -> dnsCacheKey -> Msg -> Z -> T;
  Remove : T -> dnsCacheKey -> T;
  Purge : T -> T
}.

(** [adapter.DNSCacheStore] and [adapter.RDRCStore]. *)
Class DNSCacheStore (T : Type) := {
  LoadDNSCache : T -> string -> string -> Z -> option (list byte * Z);
  SaveDNSCacheAsync : T -> string -> string -> Z -> list byte -> Z -> T;
  ClearDNSCache : T -> T
}.

Class RDRCStore (T : Type) := {
  LoadRDRC : T -> string -> string -> Z -> bool;
  SaveRDRCAsync : T -> string -> string -> Z -> T
}.

(** The functions of third-party packages: messages and their wire format,
    [int(d.Seconds())] of a duration, and the error of a task group. *)
Class DNSLibs := {
  Pack : Msg -> option (list byte);
  Unpack : list byte -> option Msg;
  IsEdns0 : Msg -> option RR;
  edns_Version : RR -> Z;
  edns_UDPSize : RR -> Z;
  edns_Do : RR -> bool;
  SetEdns0 : Msg -> Z -> bool -> Msg;
  IsFqdn : string -> bool;
  Fqdn : string -> string;
  seconds : Z -> Z;
  groupError : option GoError -> option GoError -> option GoError
}.

(** * Lifetimes of responses *)

Fixpoint negativeTTL (records : list RR) : option Z :=
  match records with
  | [] => None
  | RR_SOA h minttl _ :: _ => Some (if hdr_Ttl h <? minttl then hdr_Ttl h else minttl)
  | _ :: records' => negativeTTL records'
  end.

Definition extractNegativeTTL (response : Msg) : option Z := negativeTTL (msg_Ns response).

Definition isOPT (record : RR) : bool := hdr_Rrtype (rr_Header record) =? TypeOPT.

Definition allRecords (response : Msg) : list RR := msg_Answer response ++ msg_Ns response ++ msg_Extra response.

Definition shorterTTL (timeToLive : Z) (record : RR) : Z :=
  if isOPT record then timeToLive else
  let ttl := hdr_Ttl (rr_Header record) in
  if (timeToLive =? 0) || (0 <? ttl) && (ttl <? timeToLive) then ttl else timeToLive.

Definition computeTimeToLive (response : Msg) : Z :=
  match (if nonempty (msg_Answer response) then None else extractNegativeTTL response) with
  | Some soaTTL => soaTTL
  | None => foldl shorterTTL 0 (allRecords response)
  end.

Definition setTTL (timeToLive : Z) (record : RR) : RR :=
  if isOPT record then record else rr_withHeader record ((rr_Header record) {{ hdr_Ttl := timeToLive }}).

Definition normalizeTTL (response : Msg) (timeToLive : Z) : Msg :=
  response {{ msg_Answer := map (setTTL timeToLive) (msg_Answer response);
              msg_Ns := map (setTTL timeToLive) (msg_Ns response);
              msg_Extra := map (setTTL timeToLive) (msg_Extra response) }}.

(** The hints of HTTPS records that the strategy excludes are dropped. *)
Definition filterHints (strategy : Z) (rr : RR) : RR :=
  match rr with
  | RR_HTTPS h value =>
      RR_HTTPS h (filter (fun it =>
        svcbKey it <> if strategy =? DomainStrategyIPv4Only then SVCB_IPV6HINT else SVCB_IPV4HINT) value)
  | _ => rr
  end.

Definition applyStrategy (question : Question) (response : Msg) (options : DNSQueryOptions) : Msg :=
  if (q_Qtype question =? TypeHTTPS) &&
     ((Strategy options =? DomainStrategyIPv4Only) || (Strategy options =? DomainStrategyIPv6Only))
  then response {{ msg_Answer := map (filterHints (Strategy options)) (msg_Answer response) }}
  else response.

Definition applyResponseOptions (question : Question) (response : Msg) (options : DNSQueryOptions) : Msg * Z :=
  let response := applyStrategy question response options in
  let timeToLive := default (computeTimeToLive response) (RewriteTTL options) in
  (normalizeTTL response timeToLive, timeToLive).

Definition stripPadding (record : RR) : RR :=
  match record with
  | RR_OPT h option => RR_OPT h (filter (fun it => ednsCode it <> EDNS0PADDING) option)
  | _ => record
  end.

Definition stripDNSPadding (response : Msg) : Msg :=
  response {{ msg_Extra := map stripPadding (msg_Extra response) }}.

(** * Fixed responses *)

Definition FixedResponseStatus (message : Msg) (rcode : Z) : Msg :=
  mkMsg (msg_Id message) true true true true rcode (msg_Question message) [] [] [].

Definition fixedRecord (question : Question) (timeToLive : Z) (address : Addr) : list RR :=
  let h := mkRRHeader (q_Name question) in
  if Netip.Is4 address && (q_Qtype question =? TypeA) then [RR_A (h TypeA ClassINET timeToLive) (AsSlice address)]
  else if Netip.Is6 address && (q_Qtype question =? TypeAAAA)
  then [RR_AAAA (h TypeAAAA ClassINET timeToLive) (AsSlice address)]
  else [].

Definition FixedResponse (id : Z) (question : Question) (addresses : list Addr) (timeToLive : Z) : Msg :=
  mkMsg id true true true true RcodeSuccess [question] (flat_map (fixedRecord question timeToLive) addresses) [] [].

(** * Client subnets *)

(** The position of the first client subnet option. *)
Fixpoint subnetIndex (i : nat) (options : list EDNS0) : option nat :=
  match options with
  | [] => None
  | EDNS0_Subnet _ _ _ :: _ => Some i
  | _ :: options' => subnetIndex (S i) options'
  end.

(** The search of [findExists]: the position of [optRecord], which every record
    that is not an [OPT] resets, and of [subnetOption]. *)
Fixpoint findExists (i : nat) (optRecord : option nat) (records : list RR) : option nat * option nat :=
  match records with
  | [] => (optRecord, None)
  | RR_OPT _ options :: records' =>
      match subnetIndex 0 options with
      | Some j => (Some i, Some j)
      | None => findExists (S i) (Some i) records'
      end
  | _ :: records' => findExists (S i) None records'
  end.

Definition subnetOption (clientSubnet : Prefix) : EDNS0 :=
  EDNS0_Subnet (if Netip.Is4 (pfx_addr clientSubnet) then 1 else 2) (u8 (pfx_bits clientSubnet))
    (AsSlice (pfx_addr clientSubnet)).

(** The option is set in the record found, or appended to it. *)
Definition setOption (clientSubnet : Prefix) (position : option nat) (record : RR) : RR :=
  match record with
  | RR_OPT h options =>
      RR_OPT h (match position with
                | Some j => <[j := subnetOption clientSubnet]> options
                | None => options ++ [subnetOption clientSubnet]
                end)
  | _ => record
  end.

Definition SetClientSubnet (message : Msg) (clientSubnet : Prefix) : Msg :=
  match findExists 0 None (msg_Extra message) with
  | (None, _) =>
      message {{ msg_Extra := msg_Extra message ++ [RR_OPT (mkRRHeader "." TypeOPT 0 0) [subnetOption clientSubnet]] }}
  | (Some i, position) =>
      message {{ msg_Extra := alter (setOption clientSubnet position) i (msg_Extra message) }}
  end.

(** * The client *)

Definition ErrNotCached : GoError := E_New "not cached".
Definition ErrResponseRejected : GoError := E_New "response rejected".
Definition ErrResponseRejectedCached : GoError := E_Extend ErrResponseRejected "cached".

(** [errors.As(err, &rcodeError)] *)
Fixpoint asRcode (e : GoError) : option Z :=
  match e with
  | E_Rcode rcode => Some rcode
  | E_Cause e' _ | E_Extend e' _ => asRcode e'
  | E_Multi e1 e2 => match asRcode e1 with Some rcode => Some rcode | None => asRcode e2 end
  | _ => None
  end.

Definition goodRcode (response : Msg) : bool :=
  (msg_Rcode response =? RcodeSuccess) || (msg_Rcode response =? RcodeNameError).

Section client.
Context {MC} `{MemoryCache MC} {DC} `{DNSCacheStore DC} {RC} `{RDRCStore RC} `{DNSLibs} `{Libs}.

Definition Checker : Type := Msg -> bool.

(** A refresh in the background that has not finished. *)
Record Refresh := mkRefresh {
  rf_key : dnsCacheKey;
  rf_message : Msg;
  rf_options : DNSQueryOptions;
  rf_checker : option Checker
}.

Record Client := mkClient {
  disableCache : bool;
  disableExpire : bool;
  optimisticTimeout : Z;
  cacheCapacity : Z;
  clientSubnet : Prefix;
  rdrc : option RC;
  dnsCache : option DC;
  cache : option MC;
  backgroundRefresh : gset dnsCacheKey;
  refreshes : list Refresh
}.

Definition initializeMemoryCache (c : Client) : Client :=
  if disableCache c || negb (isNil (cache c)) then c else c {{ cache := Some (NewSharded (cacheCapacity c)) }}.

Definition NewClient (disableCache disableExpire : bool) (optimisticTimeout capacity : Z) (clientSubnet : Prefix)
    (hasDNSCacheFunc : bool) : Client :=
  let client := mkClient disableCache disableExpire optimisticTimeout (Z.max capacity 1024) clientSubnet None None None ∅ [] in
  if negb disableCache && negb hasDNSCacheFunc then initializeMemoryCache client else client.

(** The functions given to [NewClient] return the stores, if there are any. *)
Definition Start (c : Client) (initRDRC : option (option RC)) (initDNSCache : option (option DC)) : Client :=
  let c := match initRDRC with Some r => c {{ rdrc := r }} | None => c end in
  let c := match initDNSCache with Some d => c {{ dnsCache := d }} | None => c end in
  if isNil (dnsCache c) then initializeMemoryCache c else c.

Definition ClearCache (c : Client) : Client :=
  c {{ cache := Purge <$> cache c; dnsCache := ClearDNSCache <$> dnsCache c }}.

Definition storeCache (c : Client) (now : Z) (tag : string) (question : Question) (message : Msg) (timeToLive : Z) : Client :=
  let timeToLive := u32 timeToLive in
  if timeToLive =? 0 then c else
  match dnsCache c with
  | Some d =>
      match Pack message with
      | Some packed =>
          c {{ dnsCache := Some (SaveDNSCacheAsync d tag (q_Name question) (q_Qtype question) packed (now + second * timeToLive)) }}
      | None => c
      end
  | None =>
      match cache c with
      | None => c
      | Some m =>
          let key := mkDNSCacheKey question tag in
          c {{ cache := Some (if disableExpire c then Add m key message
                              else AddWithLifetime m now key message (second * timeToLive)) }}
      end
  end.

(** What is served of a response that expires at [expireAt]: the response with
    its lifetime, and whether it is stale. *)
Definition serve (c : Client) (now : Z) (response : Msg) (expireAt : Z) : option (Msg * Z * bool) :=
  if expireAt <? now then
    if (0 <? optimisticTimeout c) && (now <? expireAt + optimisticTimeout c)
    then Some (normalizeTTL response 1, 0, true) else None
  else
    let nowTTL := Z.max (seconds (expireAt - now)) 0 in
    Some (normalizeTTL response (u32 nowTTL), nowTTL, false).

Definition loadPersistentResponse (c : Client) (d : DC) (now : Z) (question : Question) (tag : string)
    : option (Msg * Z * bool) :=
  '(rawMessage, expireAt) ← LoadDNSCache d tag (q_Name question) (q_Qtype question);
  response ← Unpack rawMessage;
  if disableExpire c then Some (response, 0, false) else serve c now response expireAt.

Definition loadResponse (c : Client) (now : Z) (question : Question) (tag : string)
    : Client * option (Msg * Z * bool) :=
  match dnsCache c with
  | Some d => (c, loadPersistentResponse c d now question tag)
  | None =>
      match cache c with
      | None => (c, None)
      | Some m =>
          let key := mkDNSCacheKey question tag in
          if disableExpire c then
            let (m, response) := Get m now key in
            (c {{ cache := Some m }}, response ← response; Some (response, 0, false))
          else
            let (m, entry) := GetWithLifetimeNoExpire m key in
            match entry with
            | None => (c {{ cache := Some m }}, None)
            | Some (response, expireAt) =>
                match serve c now response expireAt with
                | Some served => (c {{ cache := Some m }}, Some served)
                | None => (c {{ cache := Some (Remove m key) }}, None)
                end
            end
      end
  end.

Definition prepareExchangeMessage (c : Client) (message : Msg) (options : DNSQueryOptions) : Msg :=
  let subnet := if NetipPrefix.IsValid (ClientSubnet options) then ClientSubnet options else clientSubnet c in
  if NetipPrefix.IsValid subnet then SetClientSubnet message subnet else message.

(** What the transport makes of a message; a return code as an error becomes a
    response. *)
Definition exchangeToTransport (transport : Msg -> result Msg) (message : Msg) : result Msg :=
  match transport message with
  | Ok response => Ok (stripDNSPadding response)
  | Err err =>
      match asRcode err with
      | Some rcode => Ok (FixedResponseStatus message rcode)
      | None => Err err
      end
  | Panic s => Panic s
  end.

Definition rejectedBy (checker : option Checker) (response : Msg) : bool :=
  match checker with
  | None => false
  | Some responseChecker => if negb (goodRcode response) then true else negb (responseChecker response)
  end.

Definition saveRejected (c : Client) (tag : string) (question : Question) : Client :=
  c {{ rdrc := (fun r => SaveRDRCAsync r tag (q_Name question) (q_Qtype question)) <$> rdrc c }}.

Definition backgroundRefreshDNS (c : Client) (tag : string) (question : Question) (message : Msg)
    (options : DNSQueryOptions) (checker : option Checker) : Client :=
  let key := mkDNSCacheKey question tag in
  if bool_decide (key ∈ backgroundRefresh c) then c
  else c {{ backgroundRefresh := {[key]} ∪ backgroundRefresh c;
            refreshes := refreshes c ++ [mkRefresh key message options checker] }}.

(** The goroutine of a refresh, which ends at [now]. *)
Definition runRefresh (c : Client) (now : Z) (r : Refresh) (transport : Msg -> result Msg) : Client :=
  let question := key_Question (rf_key r) in
  let tag := transportTag (rf_key r) in
  match exchangeToTransport transport (rf_message r) with
  | Ok response =>
      if rejectedBy (rf_checker r) response then saveRejected c tag question
      else if isNil (rf_checker r) && negb (goodRcode response) then c
      else
        let (response, timeToLive) := applyResponseOptions question response (rf_options r) in
        storeCache c now tag question response timeToLive
  | _ => c
  end.

(** The [i]th refresh ends. *)
Definition finishRefresh (c : Client) (i : nat) (now : Z) (transport : Msg -> result Msg) : Client :=
  match refreshes c !! i with
  | None => c
  | Some r =>
      let c := c {{ refreshes := delete i (refreshes c) }} in
      let c := runRefresh c now r transport in
      c {{ backgroundRefresh := backgroundRefresh c ∖ {[rf_key r]} }}
  end.

(** [message.Extra[0].( *dns.OPT).Option] *)
Definition optOptions (record : RR) : result (list EDNS0) :=
  match record with RR_OPT _ options => Ok options | _ => Panic "interface conversion" end.

Definition isSimpleRequest (message : Msg) (options : DNSQueryOptions) : result bool :=
  simple ←
    match msg_Question message, msg_Ns message, msg_Extra message with
    | [_], [], [] => Ok true
    | [_], [], [record] =>
        if isOPT record && (0 <? hdr_Class (rr_Header record)) && (hdr_Ttl (rr_Header record) =? 0)
        then options ← optOptions record; Ok (negb (nonempty options))
        else Ok false
    | _, _, _ => Ok false
    end;
  Ok (simple && negb (NetipPrefix.IsValid (ClientSubnet options))).

(** The answer from the cache, if it is used. *)
Definition exchangeCached (c : Client) (now : Z) (tag : string) (question : Question) (message : Msg)
    (options : DNSQueryOptions) (checker : option Checker) : Client * option Msg :=
  match loadResponse c now question tag with
  | (c, Some (response, _, isStale)) =>
      if isStale && negb (DisableOptimisticCache options) then
        (backgroundRefreshDNS c tag question message options checker, Some (response {{ msg_Id := msg_Id message }}))
      else if negb isStale then (c, Some (response {{ msg_Id := msg_Id message }}))
      else (c, None)
  | (c, None) => (c, None)
  end.

(** The EDNS0 record of the response is dropped or replaced when the request has
    none or one of a lower version. *)
Definition matchEdns0 (message response : Msg) : Msg :=
  match IsEdns0 response with
  | None => response
  | Some responseOpt =>
      let requestOpt := IsEdns0 message in
      if match requestOpt with None => true | Some opt => edns_Version opt <? edns_Version responseOpt end then
        let response := response {{ msg_Extra := filter (fun it => isOPT it = false) (msg_Extra response) }} in
        if isNil requestOpt then response
        else SetEdns0 response (edns_UDPSize responseOpt) (edns_Do responseOpt)
      else response
  end.

(** The part of [Exchange] that asks the transport, and ends at [later]. *)
Definition exchangeFresh (c : Client) (later : Z) (tag : string) (contextTag : option string) (question : Question)
    (message : Msg) (options : DNSQueryOptions) (checker : option Checker) (disableCache : bool)
    (transport : Msg -> result Msg) : Client * result (option Msg * option GoError) :=
  if bool_decide (contextTag = Some tag) then
    (c, Ok (None, Some (E_New ("DNS query loopback in transport[" +:+ tag +:+ "]")%string)))
  else if negb disableCache && negb (isNil checker) &&
          match rdrc c with None => false | Some r => LoadRDRC r tag (q_Name question) (q_Qtype question) end then
    (c, Ok (None, Some ErrResponseRejectedCached))
  else
    match exchangeToTransport transport message with
    | Panic s => (c, Panic s)
    | Err err => (c, Ok (None, Some err))
    | Ok response =>
        let disableCache := disableCache || negb (goodRcode response) in
        if rejectedBy checker response then
          (if disableCache then c else saveRejected c tag question, Ok (Some response, Some ErrResponseRejected))
        else
          let (response, timeToLive) := applyResponseOptions question response options in
          let c := if disableCache then c else storeCache c later tag question response timeToLive in
          (c, Ok (Some (matchEdns0 message (response {{ msg_Id := msg_Id message }})), None))
    end.

Definition strategyRejects (question : Question) (options : DNSQueryOptions) : bool :=
  (q_Qtype question =? TypeA) && (Strategy options =? DomainStrategyIPv6Only)
  || (q_Qtype question =? TypeAAAA) && (Strategy options =? DomainStrategyIPv4Only).

(** [Exchange] of a call that looks into the cache at [now] and has the answer
    of the transport at [later]. *)
Definition Exchange (c : Client) (now later : Z) (tag : string) (contextTag : option string) (message : Msg)
    (options : DNSQueryOptions) (checker : option Checker) (transport : Msg -> result Msg)
    : Client * result (option Msg * option GoError) :=
  match msg_Question message with
  | [] => (c, Ok (Some (FixedResponseStatus message RcodeFormatError), None))
  | question :: _ =>
      if strategyRejects question options then (c, Ok (Some (FixedResponseStatus message RcodeSuccess), None))
      else
        let message := prepareExchangeMessage c message options in
        match isSimpleRequest message options with
        | Panic s => (c, Panic s)
        | Err err => (c, Err err)
        | Ok simple =>
            let disabled := negb simple || disableCache c || DisableCache options in
            match (if disabled then (c, None) else exchangeCached c now tag question message options checker) with
            | (c, Some response) => (c, Ok (Some response, None))
            | (c, None) => exchangeFresh c later tag contextTag question message options checker disabled transport
            end
        end
  end.

(** * Lookups *)

(** [questionCache]: [None] is [ErrNotCached]. *)
Definition questionCache (c : Client) (now : Z) (tag : string) (question : Question) (message : Msg)
    (options : DNSQueryOptions) (checker : option Checker) : Client * option (result (list Addr)) :=
  match loadResponse c now question tag with
  | (c, None) => (c, None)
  | (c, Some (response, _, isStale)) =>
      if isStale && DisableOptimisticCache options then (c, None)
      else
        let c := if isStale
                 then backgroundRefreshDNS c tag question (prepareExchangeMessage c message options) options checker
                 else c in
        (c, Some (if msg_Rcode response =? RcodeSuccess then Ok (DNSResponseAddresses (Some response))
                  else Err (E_Rcode (msg_Rcode response))))
  end.

Definition lookupToExchange (c : Client) (now later : Z) (tag : string) (contextTag : option string) (name : string)
    (qType : Z) (options : DNSQueryOptions) (checker : option Checker) (transport : Msg -> result Msg)
    : Client * result (list Addr) :=
  let question := mkQuestion name qType ClassINET in
  let message := mkMsg 0 false false true false 0 [question] [] [] [] in
  match (if disableCache c || DisableCache options then (c, None)
         else questionCache c now tag question message options checker) with
  | (c, Some cached) => (c, cached)
  | (c, None) =>
      match Exchange c now later tag contextTag message options checker transport with
      | (c, Ok (_, Some err)) => (c, Err err)
      | (c, Ok (None, None)) => (c, Panic "invalid memory address or nil pointer dereference")
      | (c, Ok (Some response, None)) =>
          (c, if msg_Rcode response =? RcodeSuccess then Ok (DNSResponseAddresses (Some response))
              else Err (E_Rcode (msg_Rcode response)))
      | (c, Err err) => (c, Err err)
      | (c, Panic s) => (c, Panic s)
      end
  end.

Definition sortAddresses (response4 response6 : list Addr) (strategy : Z) : list Addr :=
  if strategy =? DomainStrategyPreferIPv6 then response6 ++ response4 else response4 ++ response6.

Definition FqdnToDomain (fqdn : string) : string :=
  if IsFqdn fqdn then String.substring 0 (String.length fqdn - 1) fqdn else fqdn.

Definition errorOf {A} (r : result A) : option GoError := match r with Err e => Some e | _ => None end.
Definition addressesOf (r : result (list Addr)) : list Addr := match r with Ok l => l | _ => [] end.

(** [Lookup]; the two tasks of the group run in either order. *)
Definition Lookup (c : Client) (now later : Z) (sixFirst : bool) (tag : string) (contextTag : option string)
    (domain : string) (options : DNSQueryOptions) (checker : option Checker) (transport : Msg -> result Msg)
    : Client * result (list Addr * option GoError) :=
  let dnsName := Fqdn (FqdnToDomain domain) in
  let strategy := if LookupStrategy options =? DomainStrategyAsIS then Strategy options else LookupStrategy options in
  let lookupOptions := if LookupStrategy options =? DomainStrategyAsIS then options else options {{ Strategy := strategy }} in
  let ask c qType := lookupToExchange c now later tag contextTag dnsName qType lookupOptions checker transport in
  let returns (p : Client * result (list Addr)) :=
    (p.1, match p.2 with Ok l => Ok (l, None) | Err e => Ok ([], Some e) | Panic s => Panic s end) in
  if strategy =? DomainStrategyIPv4Only then returns (ask c TypeA)
  else if strategy =? DomainStrategyIPv6Only then returns (ask c TypeAAAA)
  else
    let '(c, r4, r6) :=
      if sixFirst then let (c, r6) := ask c TypeAAAA in let (c, r4) := ask c TypeA in (c, r4, r6)
      else let (c, r4) := ask c TypeA in let (c, r6) := ask c TypeAAAA in (c, r4, r6) in
    (c, match r4, r6 with
        | Panic s, _ | _, Panic s => Panic s
        | _, _ =>
            if negb (nonempty (addressesOf r4)) && negb (nonempty (addressesOf r6))
            then Ok ([], groupError (errorOf r4) (errorOf r6))
            else Ok (sortAddresses (addressesOf r4) (addressesOf r6) strategy, None)
        end).
End client.
