(* ===== verification/DNSClientSpec.v ===== *)
(** The DNS client: where the responses it returns come from, and their
    lifetimes. *)
From S2P Require Import Prelude Netip Metadata RuleAction Bytes DNSClient.

(** * Laws of the interfaces *)

(** [mc_entry t k m e]: the cache holds [m] under [k], to expire at [e].  The
    cache may drop entries at any time. *)
Class MemoryCacheLaws (T : Type) `{MemoryCache T} := {
  mc_entry : T -> dnsCacheKey -> Msg -> option Z -> Prop;
  mc_new n k m e : ~ mc_entry (NewSharded n) k m e;
  mc_get t now k t' r : Get t now k = (t', r) ->
    (forall m, r = Some m -> exists e, mc_entry t k m e) /\
    (forall k' m e, mc_entry t' k' m e -> mc_entry t k' m e);
  mc_getLifetime t k t' r : GetWithLifetimeNoExpire t k = (t', r) ->
    (forall m e, r = Some (m, e) -> mc_entry t k m (Some e)) /\
    (forall k' m e, mc_entry t' k' m e -> mc_entry t k' m e);
  mc_add t k m k' m' e' : mc_entry (Add t k m) k' m' e' ->
    (k' = k /\ m' = m /\ e' = None) \/ mc_entry t k' m' e';
  mc_addLifetime t now k m l k' m' e' : mc_entry (AddWithLifetime t now k m l) k' m' e' ->
    (k' = k /\ m' = m /\ exists e, e' = Some e /\ e <= now + l) \/ mc_entry t k' m' e';
  mc_remove t k k' m e : mc_entry (Remove t k) k' m e -> mc_entry t k' m e;
  mc_purge t k m e : ~ mc_entry (Purge t) k m e
}.

(** [dc_saved d tag name type raw e]: [raw] has been saved to expire at [e].  The
    store works in the background ([dc_evolves]), and may lose entries and
    round times down, but only returns what has been saved for a question of
    the same name and (16-bit) type.  [dc_valid]: times are not before 1970. *)
Class DNSCacheLaws (T : Type) `{DNSCacheStore T} := {
  dc_valid : T -> Prop;
  dc_saved : T -> string -> string -> Z -> list byte -> Z -> Prop;
  dc_evolves : T -> T -> Prop;
  dc_load t tag n q raw e : LoadDNSCache t tag n q = Some (raw, e) -> dc_saved t tag n q raw e;
  dc_save t tag n q raw e tag' n' q' raw' e' : dc_saved (SaveDNSCacheAsync t tag n q raw e) tag' n' q' raw' e' ->
    (tag' = tag /\ n' = n /\ u16 q' = u16 q /\ raw' = raw /\ e' = e) \/ dc_saved t tag' n' q' raw' e';
  dc_save_valid t tag n q raw e : dc_valid t -> 0 <= e -> dc_valid (SaveDNSCacheAsync t tag n q raw e);
  dc_clear t tag n q raw e : dc_saved (ClearDNSCache t) tag n q raw e -> dc_saved t tag n q raw e;
  dc_clear_valid t : dc_valid t -> dc_valid (ClearDNSCache t);
  dc_evolve t t' tag n q raw e : dc_valid t -> dc_evolves t t' -> dc_saved t' tag n q raw e ->
    exists e', dc_saved t tag n q raw e' /\ e <= e';
  dc_evolve_valid t t' : dc_valid t -> dc_evolves t t' -> dc_valid t'
}.

Class DNSLibsLaws `{DNSLibs} := {
  setEdns0_id m size do : msg_Id (SetEdns0 m size do) = msg_Id m;
  isEdns0_none m : msg_Extra m = [] -> IsEdns0 m = None;
  groupError_none : groupError None None = None;
  seconds_bound d : 0 <= d -> second * seconds d < d + second
}.

Section client.
Context {MC} `{MemoryCache MC, !MemoryCacheLaws MC} {DC} `{DNSCacheStore DC, !DNSCacheLaws DC}.
Context {RC} `{RDRCStore RC} `{DNSLibs, !DNSLibsLaws} `{Libs}.

Abbreviation Client := (Client (MC := MC) (DC := DC) (RC := RC)).

(** * Answers of transports *)

(** A transport was asked with [an_message] for the question of [an_key] and had
    answered by [an_time]. *)
Record Answer := mkAnswer {
  an_time : Z;
  an_key : dnsCacheKey;
  an_message : Msg;
  an_options : DNSQueryOptions;
  an_result : result Msg
}.

(** The message a call of [Exchange] sends, if it comes to that. *)
Definition sends (c : Client) (now : Z) (tag : string) (contextTag : option string) (message : Msg)
    (options : DNSQueryOptions) (checker : option Checker) : option Msg :=
  match msg_Question message with
  | [] => None
  | question :: _ =>
      if strategyRejects question options then None else
      let message := prepareExchangeMessage c message options in
      match isSimpleRequest message options with
      | Ok simple =>
          let disabled := negb simple || disableCache c || DisableCache options in
          match (if disabled then (c, None) else exchangeCached c now tag question message options checker) with
          | (_, Some _) => None
          | (c, None) =>
              if bool_decide (contextTag = Some tag) then None
              else if negb disabled && negb (isNil checker) &&
                match rdrc c with None => false | Some r => LoadRDRC r tag (q_Name question) (q_Qtype question) end
              then None else Some message
          end
      | _ => None
      end
  end.

(** The answers a call adds to the history. *)
Definition answersOf (sent : option Msg) (later : Z) (tag : string) (options : DNSQueryOptions)
    (transport : Msg -> result Msg) (message : Msg) : list Answer :=
  match sent, msg_Question message with
  | Some m, question :: _ => [mkAnswer later (mkDNSCacheKey question tag) m options (exchangeToTransport transport m)]
  | _, _ => []
  end.

(** The clients that arise from calls in any order, with the answers so far. *)
Inductive reaches : list Answer -> Client -> Prop :=
| reaches_start dis exp opt cap subnet has r d :
    (forall store, d = Some (Some store) -> dc_valid store /\ forall tag n q raw e, ~ dc_saved store tag n q raw e) ->
    reaches [] (Start (NewClient dis exp opt cap subnet has) r d)
| reaches_exchange h c now later tag contextTag message options checker transport :
    reaches h c -> 0 <= later ->
    reaches (answersOf (sends c now tag contextTag message options checker) later tag options transport message ++ h)
      (Exchange c now later tag contextTag message options checker transport).1
| reaches_question h c now tag question message options checker :
    reaches h c -> reaches h (questionCache c now tag question message options checker).1
| reaches_refresh h c i now transport r :
    reaches h c -> 0 <= now -> refreshes c !! i = Some r ->
    reaches (mkAnswer now (rf_key r) (rf_message r) (rf_options r) (exchangeToTransport transport (rf_message r)) :: h)
      (finishRefresh c i now transport)
| reaches_clear h c : reaches h c -> reaches h (ClearCache c)
| reaches_evolve h c d d' :
    reaches h c -> dnsCache c = Some d -> dc_evolves d d' -> reaches h (c {{ dnsCache := Some d' }}).

(** [a] is an answer that may be cached: as [m], for [ttl] seconds. *)
Definition cacheable (a : Answer) (m : Msg) (ttl : Z) : Prop :=
  exists raw t, an_result a = Ok raw /\ goodRcode raw = true /\
    applyResponseOptions (key_Question (an_key a)) raw (an_options a) = (m, t) /\ ttl = u32 t /\ ttl <> 0.

Definition expiry (a : Answer) (ttl : Z) : Z := an_time a + second * ttl.

(** * The caches hold answers *)

Definition memoryOk (h : list Answer) (disableExpire : bool) (t : MC) : Prop :=
  forall k m e, mc_entry t k m e -> exists a ttl, a ∈ h /\ an_key a = k /\ cacheable a m ttl /\
    match e with None => disableExpire = true | Some e => e <= expiry a ttl end.

Definition storeOk (h : list Answer) (d : DC) : Prop :=
  forall tag n q raw e, dc_saved d tag n q raw e -> exists a m ttl, a ∈ h /\ transportTag (an_key a) = tag /\
    q_Name (key_Question (an_key a)) = n /\ u16 (q_Qtype (key_Question (an_key a))) = u16 q /\
    cacheable a m ttl /\ Pack m = Some raw /\ e <= expiry a ttl.

Definition cachesOk (h : list Answer) (c : Client) : Prop :=
  (forall t, cache c = Some t -> memoryOk h (disableExpire c) t) /\ (forall d, dnsCache c = Some d -> storeOk h d /\ dc_valid d).

Lemma memoryOk_sub h h' de t t' :
  memoryOk h de t -> (forall k m e, mc_entry t' k m e -> mc_entry t k m e) -> h ⊆ h' -> memoryOk h' de t'.
Proof. intros Hm Ht Hh k m e (a & ttl & Ha & ?)%Ht%Hm. exists a, ttl. split; [by apply Hh|done]. Qed.

Lemma storeOk_sub h h' d d' :
  storeOk h d ->
  (forall tag n q raw e, dc_saved d' tag n q raw e -> exists e', dc_saved d tag n q raw e' /\ e <= e') ->
  h ⊆ h' -> storeOk h' d'.
Proof.
  intros Hm Ht Hh tag n q raw e (e' & Hs & He)%Ht. apply Hm in Hs as (a & m & ttl & Ha & ? & ? & ? & ? & ? & ?).
  exists a, m, ttl. split; [by apply Hh|]. split_and!; [done..|lia].
Qed.

Lemma cachesOk_sub h h' c : cachesOk h c -> h ⊆ h' -> cachesOk h' c.
Proof.
  intros [Hm Hd] Hh. split.
  - intros t Ht. eapply memoryOk_sub; eauto.
  - intros d [Ht ?]%Hd. split; [|done]. eapply storeOk_sub; [done| |done]. intros. eexists. split; [done|lia].
Qed.

Lemma storeCache_ok h c now tag question m ttl a :
  cachesOk h c -> a ∈ h -> an_key a = mkDNSCacheKey question tag -> an_time a = now -> 0 <= now ->
  (exists raw, an_result a = Ok raw /\ goodRcode raw = true /\ applyResponseOptions question raw (an_options a) = (m, ttl)) ->
  cachesOk h (storeCache c now tag question m ttl).
Proof.
  intros [Hm Hd] Ha Hk Hn Hnow (raw & Hraw & Hrc & Happ). unfold storeCache. cbn zeta.
  destruct (Z.eqb_spec (u32 ttl) 0) as [|Httl]; [done|].
  assert (cacheable a m (u32 ttl)) as Hc by (exists raw, ttl; rewrite Hk; done).
  assert (0 <= u32 ttl) by (apply wrap_range; lia).
  destruct c as [dis exp opt cap sub r dc mc bg rf]; unfold constant; cbn in *.
  destruct dc as [d|].
  - destruct (Pack m) as [packed|] eqn:Hp; [|done]. destruct (Hd d eq_refl) as [Hst Hv]. split; cbn; [done|]. intros d' [= <-].
    split; [|apply dc_save_valid; [done|change second with 1000000000; lia]]. intros tag' n q raw' e Hs.
    apply dc_save in Hs as [(-> & -> & Hq & -> & ->)|Hs]; [|by apply Hst].
    exists a, m, (u32 ttl). rewrite Hk. unfold expiry. rewrite Hn. split_and!; done || lia.
  - destruct mc as [t|]; [|done]. split; cbn; [|done]. intros t' [= <-] k m' e He. destruct exp.
    + apply mc_add in He as [(-> & -> & ->)|He]; [|by apply (Hm t)]. by exists a, (u32 ttl).
    + apply mc_addLifetime in He as [(-> & -> & e' & -> & Hle)|He]; [|by apply (Hm t)].
      exists a, (u32 ttl). unfold expiry. by rewrite Hn.
Qed.

(** * What the cache serves *)

(** [m] as it is served at [now] when it was stored to expire at [e]. *)
Inductive served (c : Client) (now e : Z) (m : Msg) : Msg -> bool -> Prop :=
| served_forever : disableExpire c = true -> served c now e m m false
| served_fresh t : now <= e -> 0 <= t -> second * t < e - now + second -> served c now e m (normalizeTTL m t) false
| served_stale : 0 < optimisticTimeout c -> now < e + optimisticTimeout c -> served c now e m (normalizeTTL m 1) true.

(** A message as it comes out of the cache: from a cache file, what its packed form
    is unpacked to. *)
Definition storedAs (c : Client) (m m' : Msg) : Prop :=
  match dnsCache c with
  | None => m' = m
  | Some _ => exists raw, Pack m = Some raw /\ Unpack raw = Some m'
  end.

(** [response] is an answer to [question] on [tag], as served at [now]. *)
Definition cachedAnswer (h : list Answer) (c : Client) (now : Z) (question : Question) (tag : string)
    (response : Msg) (stale : bool) : Prop :=
  exists a m m' ttl, a ∈ h /\ cacheable a m ttl /\ storedAs c m m' /\ served c now (expiry a ttl) m' response stale /\
    transportTag (an_key a) = tag /\ q_Name (key_Question (an_key a)) = q_Name question /\
    u16 (q_Qtype (key_Question (an_key a))) = u16 (q_Qtype question) /\
    (dnsCache c = None -> key_Question (an_key a) = question).

Lemma u32_le z : 0 <= z -> 0 <= u32 z <= z.
Proof.
  intros. unfold u32, wrap. pose proof (Z.mod_pos_bound z (2 ^ 32) ltac:(lia)). pose proof (Z.mod_le z (2 ^ 32) ltac:(lia) ltac:(lia)). lia.
Qed.

Lemma serve_served c now m e e' response t stale :
  serve c now m e = Some (response, t, stale) -> e <= e' -> served c now e' m response stale.
Proof.
  unfold serve. intros Hs He. destruct (Z.ltb_spec e now).
  - destruct (Z.ltb_spec 0 (optimisticTimeout c)); [|done]. destruct (Z.ltb_spec now (e + optimisticTimeout c)); [|done].
    cbn in Hs. simplify_eq. constructor; lia.
  - simplify_eq. pose proof (seconds_bound (e - now) ltac:(lia)) as Hb. set (x := seconds _) in *.
    pose proof (u32_le (Z.max x 0) ltac:(lia)). constructor; [lia..|]. change second with 1000000000 in *. lia.
Qed.

Lemma loadResponse_ok h c now question tag c' r :
  cachesOk h c -> loadResponse c now question tag = (c', r) ->
  cachesOk h c' /\ (exists t, c' = c {{ cache := t }}) /\
  (forall response t stale, r = Some (response, t, stale) -> cachedAnswer h c now question tag response stale).
Proof.
  intros Hc Hl. pose proof Hc as [Hm Hd]. unfold loadResponse in Hl.
  destruct (dnsCache c) as [d|] eqn:Edc.
  - injection Hl as <- <-. split; [done|]. split; [exists (cache c); by destruct c|].
    intros response t stale Hr. unfold loadPersistentResponse in Hr.
    apply bind_Some in Hr as ([raw e] & Hload & (m & Hun & Hr)%bind_Some).
    apply dc_load in Hload as Hs. destruct (proj1 (Hd d eq_refl) _ _ _ _ _ Hs) as (a & m' & ttl & Ha & Ht & Hn & Hq & Hca & Hp & Hx).
    exists a, m', m, ttl. split_and!; try done; [unfold storedAs; rewrite Edc; by exists raw| |congruence].
    destruct (disableExpire c) eqn:Ee; [simplify_eq; by constructor|]. eapply serve_served; [done|lia].
  - destruct (cache c) as [m|] eqn:Ec.
    2:{ injection Hl as <- <-. split; [done|]. split; [exists None; destruct c; unfold constant; cbn in *; by subst|done]. }
    specialize (Hm m eq_refl).
    assert (forall t, memoryOk h (disableExpire c) t -> cachesOk h (c {{ cache := Some t }})) as Hset.
    { intros t Ht. destruct c; unfold constant; cbn in *; split; cbn; [by intros ? [= <-]|intros; congruence]. }
    destruct (disableExpire c) eqn:Ee.
    + destruct (Get m now _) as [m' r'] eqn:Eg. injection Hl as <- <-. apply mc_get in Eg as [Hg Hsub].
      split; [apply Hset; eapply memoryOk_sub; eauto|]. split; [eauto|].
      intros ? ? ? (x & -> & [= <- <- <-])%bind_Some. destruct (Hg _ eq_refl) as [e He].
      destruct (Hm _ _ _ He) as (a & ttl & Ha & Hk & Hca & _). exists a, x, x, ttl. rewrite Hk.
      split_and!; try done; [by unfold storedAs; rewrite Edc|by constructor].
    + destruct (GetWithLifetimeNoExpire m _) as [m' [[x e]|]] eqn:Eg; apply mc_getLifetime in Eg as [Hg Hsub].
      2:{ injection Hl as <- <-. split; [apply Hset; eapply memoryOk_sub; eauto|]. split; [eauto|done]. }
      destruct (serve c now x e) as [[[response t] stale]|] eqn:Es; injection Hl as <- <-.
      * split; [apply Hset; eapply memoryOk_sub; eauto|]. split; [eauto|]. intros ? ? ? [= <- <- <-].
        destruct (Hm _ _ _ (Hg _ _ eq_refl)) as (a & ttl & Ha & Hk & Hca & He). exists a, x, x, ttl. rewrite Hk.
        split_and!; try done; [by unfold storedAs; rewrite Edc|by eapply serve_served].
      * split; [|split; [eauto|done]]. apply Hset. eapply memoryOk_sub; [done| |done]. eauto using mc_remove.
Qed.

(** * Calls *)

Lemma cachesOk_refresh h c tag question message options checker :
  cachesOk h c -> cachesOk h (backgroundRefreshDNS c tag question message options checker).
Proof. unfold backgroundRefreshDNS. intros Hc. case_bool_decide; [done|]. by destruct c. Qed.

Lemma cachesOk_rejected h c tag question : cachesOk h c -> cachesOk h (saveRejected c tag question).
Proof. by destruct c. Qed.

Lemma exchangeCached_ok h c now tag question message options checker c' r :
  cachesOk h c -> exchangeCached c now tag question message options checker = (c', r) ->
  cachesOk h c' /\
  forall response, r = Some response -> exists response0 stale,
    cachedAnswer h c now question tag response0 stale /\ response = response0 {{ msg_Id := msg_Id message }} /\
    (stale = true -> DisableOptimisticCache options = false).
Proof.
  intros Hc. unfold exchangeCached. destruct (loadResponse c now question tag) as [c1 [[[m t] stale]|]] eqn:El;
    apply (loadResponse_ok h) in El as (Hc1 & _ & Hr); try done.
  - destruct stale, (DisableOptimisticCache options) eqn:Eo; cbn; intros [= <- <-];
      (split; [by try apply cachesOk_refresh|]); [done|..]; intros ? [= <-]; eexists _, _; (split; [by eapply Hr|done]).
  - by intros [= <- <-].
Qed.

Lemma exchangeFresh_ok h c later tag contextTag question rest message message0 options checker disabled transport :
  cachesOk h c -> 0 <= later -> msg_Question message0 = question :: rest ->
  cachesOk (answersOf (Some message) later tag options transport message0 ++ h)
    (exchangeFresh c later tag contextTag question message options checker disabled transport).1.
Proof.
  intros Hc Hnow Hq. unfold answersOf, exchangeFresh. rewrite Hq. set (a := mkAnswer _ _ _ _ _).
  assert (cachesOk ([a] ++ h) c) as Hc' by (eapply cachesOk_sub; [done|set_solver]).
  case_bool_decide; [done|]. destruct (_ && match rdrc c with _ => _ end); [done|].
  destruct (exchangeToTransport transport message) as [raw| |] eqn:Et; [|done..].
  destruct (rejectedBy checker raw); [destruct (disabled || _); [done|by apply cachesOk_rejected]|].
  destruct (applyResponseOptions question raw options) as [m ttl] eqn:Ea. cbn [fst].
  destruct (disabled || negb (goodRcode raw)) eqn:Ed; [done|].
  apply (storeCache_ok _ _ _ _ _ _ _ a); try done; [set_solver|].
  apply orb_false_iff in Ed as [_ Eg%negb_false_iff]. by exists raw.
Qed.

Lemma cachesOk_Exchange h c now later tag contextTag message options checker transport :
  cachesOk h c -> 0 <= later ->
  cachesOk (answersOf (sends c now tag contextTag message options checker) later tag options transport message ++ h)
    (Exchange c now later tag contextTag message options checker transport).1.
Proof.
  intros Hc Hnow. unfold sends, Exchange. destruct (msg_Question message) as [|question rest] eqn:Hq; [done|].
  destruct (strategyRejects question options); [done|]. set (m := prepareExchangeMessage c message options).
  destruct (isSimpleRequest m options) as [simple| |]; [|done..]. set (disabled := _ || _ || _).
  destruct (if disabled then _ else _) as [c1 r] eqn:E1.
  assert (cachesOk h c1) as Hc1.
  { destruct disabled; [by injection E1 as <- <-|]. by apply (exchangeCached_ok h) in E1 as [? _]. }
  destruct r as [response|]; [done|]. pose proof (exchangeFresh_ok h c1 later tag contextTag question rest m message options
    checker disabled transport Hc1 Hnow Hq) as Hf. unfold exchangeFresh in *.
  case_bool_decide; [done|]. by destruct (_ && match rdrc c1 with _ => _ end).
Qed.

Lemma cachesOk_questionCache h c now tag question message options checker :
  cachesOk h c -> cachesOk h (questionCache c now tag question message options checker).1.
Proof.
  intros Hc. unfold questionCache. destruct (loadResponse c now question tag) as [c1 [[[m t] stale]|]] eqn:El;
    apply (loadResponse_ok h) in El as (Hc1 & _ & _); try done.
  destruct (stale && _); [done|]. destruct stale; [by apply cachesOk_refresh|done].
Qed.

Lemma cachesOk_finishRefresh h c i now transport r :
  cachesOk h c -> 0 <= now -> refreshes c !! i = Some r ->
  cachesOk (mkAnswer now (rf_key r) (rf_message r) (rf_options r) (exchangeToTransport transport (rf_message r)) :: h)
    (finishRefresh c i now transport).
Proof.
  intros Hc Hnow Hi. unfold finishRefresh. rewrite Hi. set (a := mkAnswer _ _ _ _ _).
  set (c1 := c {{ refreshes := _ }}).
  assert (cachesOk (a :: h) c1) as Hc1 by (eapply cachesOk_sub; [by destruct c|set_solver]).
  enough (cachesOk (a :: h) (runRefresh c1 now r transport)) as He by by destruct (runRefresh _ _ _ _).
  unfold runRefresh. destruct (exchangeToTransport transport (rf_message r)) as [raw| |] eqn:Et; [|done..].
  destruct (rejectedBy (rf_checker r) raw) eqn:Er; [by apply cachesOk_rejected|].
  destruct (isNil (rf_checker r) && negb (goodRcode raw)) eqn:Eg; [done|].
  destruct (applyResponseOptions _ raw (rf_options r)) as [m ttl] eqn:Ea.
  apply (storeCache_ok _ _ _ _ _ _ _ a); try done; [set_solver|by destruct (rf_key r) as [[]]|].
  exists raw. split_and!; [done| |done].
  destruct (rf_checker r); cbn in *; destruct (goodRcode raw); done.
Qed.

Lemma start_cachesOk dis exp opt cap subnet has r d :
  (forall store, d = Some (Some store) -> dc_valid store /\ forall tag n q raw e, ~ dc_saved store tag n q raw e) ->
  cachesOk [] (Start (NewClient dis exp opt cap subnet has) r d : Client).
Proof.
  intros Hd. assert (forall t de, t = NewSharded (Z.max cap 1024) -> memoryOk [] de t) as Hnew.
  { intros t de -> k m e He. by apply mc_new in He. }
  unfold Start, NewClient, initializeMemoryCache. split.
  - intros t. destruct dis, has, r, d as [[]|]; cbn; intros [= <-]; by apply Hnew.
  - intros store. destruct dis, has, r, d as [[]|]; cbn; intros [= <-];
      destruct (Hd _ eq_refl) as [Hv Hs]; (split; [|done]); intros ? ? ? ? ? Hs'; by apply Hs in Hs'.
Qed.

Lemma reaches_cachesOk h c : reaches h c -> cachesOk h c.
Proof.
  induction 1 as [| | | |h c _ [Hm Hd]|h c d d' _ [Hm Hd] Hdc He].
  - by apply start_cachesOk.
  - by apply cachesOk_Exchange.
  - by apply cachesOk_questionCache.
  - by apply cachesOk_finishRefresh.
  - destruct c as [? ? ? ? ? ? dc mc ? ?]; unfold constant; cbn in *. split; cbn.
    + destruct mc; cbn; intros ? [= <-] k x e Hk. by apply mc_purge in Hk.
    + destruct dc as [d|]; cbn; intros ? [= <-]. destruct (Hd d eq_refl) as [Hst Hv].
      split; [|by apply dc_clear_valid]. eapply storeOk_sub; [done| |done]. intros ? ? ? ? ? ?%dc_clear. eexists. split; [done|lia].
  - destruct c as [? ? ? ? ? ? dc mc ? ?]; unfold constant; cbn in *. split; cbn; [done|].
    intros ? [= <-]. destruct (Hd d Hdc) as [Hst Hv]. split; [|by eapply dc_evolve_valid].
    eapply storeOk_sub; [done| |done]. intros. by eapply dc_evolve.
Qed.

(** * Responses *)

Lemma prepare_id (c : Client) message options : msg_Id (prepareExchangeMessage c message options) = msg_Id message.
Proof.
  unfold prepareExchangeMessage. destruct (NetipPrefix.IsValid _); [|done].
  unfold SetClientSubnet. destruct (findExists _ _ _) as [[]]; by destruct message.
Qed.

Lemma matchEdns0_id message response : msg_Id (matchEdns0 message response) = msg_Id response.
Proof.
  unfold matchEdns0. destruct (IsEdns0 response); [|done].
  destruct (IsEdns0 message); cbn [isNil]; [|by destruct response].
  destruct (_ <? _); [|done]. rewrite setEdns0_id. by destruct response.
Qed.

(** C14: Every response the client returns is accounted for: it is the empty response
    to a question the strategy rules out, or what the transport answers to this
    call, or an earlier answer of the same transport to a question with the
    same name and type (and class, for the cache in memory), through packing
    and unpacking when it comes from a cache file.  Such an answer is fresh, with
    at most its remaining lifetime, or stale inside the optimistic window, or of
    any age when expiry is disabled.  The response carries the id of the
    request.  This holds after any sequence of calls, background refreshes and
    purges. *)
Theorem dns_answers_explained h (c : Client) now later tag contextTag message question rest options checker transport c' r :
  reaches h c -> msg_Question message = question :: rest ->
  Exchange c now later tag contextTag message options checker transport = (c', Ok (Some r, None)) ->
  msg_Id r = msg_Id message /\
  (strategyRejects question options = true /\ r = FixedResponseStatus message RcodeSuccess \/
   (exists m raw, sends c now tag contextTag message options checker = Some m /\
      exchangeToTransport transport m = Ok raw /\ rejectedBy checker raw = false /\
      r = matchEdns0 m ((applyResponseOptions question raw options).1 {{ msg_Id := msg_Id message }})) \/
   (exists r0 stale, cachedAnswer h c now question tag r0 stale /\ r = r0 {{ msg_Id := msg_Id message }} /\
      (stale = true -> DisableOptimisticCache options = false) /\
      disableCache c = false /\ DisableCache options = false)).
Proof.
  intros Hc%reaches_cachesOk Hq. unfold Exchange, sends. rewrite Hq.
  destruct (strategyRejects question options); [intros [= <- <-]; by auto|].
  pose proof (prepare_id c message options) as Hid. set (m := prepareExchangeMessage c message options) in *.
  destruct (isSimpleRequest m options) as [simple| |]; [|done..]. set (disabled := _ || _ || _).
  destruct (if disabled then _ else _) as [c1 [response|]] eqn:E1.
  - intros [= <- <-]. destruct disabled eqn:Ed; [done|]. apply (exchangeCached_ok h) in E1 as [_ Hr]; [|done].
    destruct (Hr _ eq_refl) as (r0 & stale & Hca & -> & Hst). rewrite Hid. split; [by destruct r0|].
    right. right. exists r0, stale. unfold disabled in Ed. by apply orb_false_iff in Ed as [[_ ?]%orb_false_iff ?].
  - unfold exchangeFresh. case_bool_decide; [done|]. destruct (_ && match rdrc c1 with _ => _ end); [done|].
    destruct (exchangeToTransport transport m) as [raw| |] eqn:Et; [|done..].
    destruct (rejectedBy checker raw) eqn:Er; [done|].
    destruct (applyResponseOptions question raw options) as [m' ttl] eqn:Ea. intros [= <- <-].
    rewrite matchEdns0_id, Hid. split; [by destruct m'|]. right. left. exists m, raw. by rewrite Ea.
Qed.
End client.
