(* ===== verification/DNSLookup.v ===== *)
(** Lifetimes of responses, lookups, and an instance of the interfaces of the DNS
    client. *)
From S2P Require Import Prelude Netip Metadata RuleAction Bytes DNSClient DNSClientSpec Demo.

(** * Lifetimes *)

Definition recordTTL (record : RR) : Z := hdr_Ttl (rr_Header record).

(** The lifetimes that count: those of records other than [OPT] that are not
    zero. *)
Definition positiveTTLs (records : list RR) : list Z :=
  filter (fun ttl => 0 < ttl) (map recordTTL (filter (fun r => isOPT r = false) records)).

(** [t] is the least of [l], or zero if there is none. *)
Definition isLeast (t : Z) (l : list Z) : Prop :=
  match l with [] => t = 0 | _ => t ∈ l /\ Forall (fun x => t <= x) l end.

Lemma isLeast_snoc t l x : 0 < x -> Forall (fun y => 0 < y) l -> isLeast t l ->
  isLeast (if (t =? 0) || (0 <? x) && (x <? t) then x else t) (l ++ [x]).
Proof.
  intros Hx Hl Ht. assert ((0 <? x) = true) as -> by lia. cbn [andb].
  destruct l as [|y l]; cbn [isLeast app] in *.
  - subst t. cbn. split; [set_solver|repeat constructor; lia].
  - destruct Ht as [Hin Hle]. assert (0 < t) by (rewrite List.Forall_forall in Hl; apply Hl; by apply list_elem_of_In).
    rewrite (proj2 (Z.eqb_neq t 0)) by lia. cbn [orb]. change (y :: l ++ [x]) with ((y :: l) ++ [x]).
    destruct (Z.ltb_spec x t); (split; [set_solver|]); apply Forall_app; (split; [|repeat constructor; lia]).
    + eapply Forall_impl; [|exact Hle]. cbn. lia.
    + done.
Qed.

Lemma positiveTTLs_positive records : Forall (fun y => 0 < y) (positiveTTLs records).
Proof. apply List.Forall_forall. intros x Hx%list_elem_of_In. unfold positiveTTLs in Hx. apply list_elem_of_filter in Hx. tauto. Qed.

Lemma positiveTTLs_snoc records r :
  positiveTTLs (records ++ [r]) =
  positiveTTLs records ++ (if negb (isOPT r) && (0 <? recordTTL r) then [recordTTL r] else []).
Proof.
  unfold positiveTTLs. rewrite list.filter_app, map_app, list.filter_app. f_equal. rewrite filter_cons, filter_nil.
  destruct (isOPT r); case_decide; try done. cbn [map negb andb]. rewrite filter_cons, filter_nil.
  destruct (Z.ltb_spec 0 (recordTTL r)); case_decide; done || lia.
Qed.

Lemma foldl_shorterTTL records :
  Forall (fun r => 0 <= recordTTL r) records -> isLeast (foldl shorterTTL 0 records) (positiveTTLs records).
Proof.
  induction records as [|r records IH] using rev_ind; intros Hr; [done|].
  apply Forall_app in Hr as [Hrs Hr]. apply Forall_cons_iff in Hr as [Hr _]. specialize (IH Hrs).
  rewrite foldl_snoc, positiveTTLs_snoc. unfold shorterTTL at 1. fold (recordTTL r).
  destruct (isOPT r); cbn [negb andb]; [by rewrite app_nil_r|].
  destruct (Z.ltb_spec 0 (recordTTL r)) as [Hpos|Hz].
  - pose proof (isLeast_snoc _ _ _ Hpos (positiveTTLs_positive records) IH) as Hl.
    by rewrite (proj2 (Z.ltb_lt 0 _) Hpos) in Hl.
  - assert (recordTTL r = 0) as -> by lia. rewrite app_nil_r. cbn [andb]. rewrite orb_false_r.
    by destruct (Z.eqb_spec (foldl shorterTTL 0 records) 0) as [<-|].
Qed.

(** The negative lifetime of the first SOA record of the authority section. *)
Inductive negative : list RR -> Z -> Prop :=
| negative_here h minttl d l : negative (RR_SOA h minttl d :: l) (Z.min (hdr_Ttl h) minttl)
| negative_later r l t : (forall h minttl d, r <> RR_SOA h minttl d) -> negative l t -> negative (r :: l) t.

Lemma negativeTTL_spec l t : negativeTTL l = Some t <-> negative l t.
Proof.
  split.
  - induction l as [|r l IH]; cbn; [done|]. destruct r as [| | |h minttl d| |]; try (constructor; [done|by auto]).
    intros [= <-]. assert ((if hdr_Ttl h <? minttl then hdr_Ttl h else minttl) = Z.min (hdr_Ttl h) minttl) as ->
      by (destruct (Z.ltb_spec (hdr_Ttl h) minttl); lia). constructor.
  - induction 1 as [h minttl d l|r l t Hr Hn IH]; cbn.
    + destruct (Z.ltb_spec (hdr_Ttl h) minttl); f_equal; lia.
    + destruct r as [| | |h minttl d| |]; try done. by destruct (Hr h minttl d).
Qed.

Lemma foldl_headers l l' : map rr_Header l = map rr_Header l' -> foldl shorterTTL 0 l = foldl shorterTTL 0 l'.
Proof.
  revert l'. generalize 0. induction l as [|r l IH]; intros t [|r' l'] Hm; try done.
  injection Hm as Hh Hm. cbn [foldl]. rewrite (IH (shorterTTL t r) l' Hm). unfold shorterTTL, isOPT. by rewrite Hh.
Qed.

Lemma nonempty_headers (l l' : list RR) : map rr_Header l = map rr_Header l' -> nonempty l = nonempty l'.
Proof. by destruct l, l'. Qed.

Lemma setTTL_spec t r : isOPT (setTTL t r) = true \/ recordTTL (setTTL t r) = t.
Proof. unfold setTTL. destruct (isOPT r) eqn:Ho; [by left|]. right. by destruct r as [[]|[]|[]|[]|[]|[]]. Qed.

Lemma normalized t m : Forall (fun r => isOPT r = true \/ recordTTL r = t) (allRecords (normalizeTTL m t)).
Proof.
  unfold allRecords, normalizeTTL. destruct m; unfold constant; cbn.
  rewrite !Forall_app, !Forall_map. split_and!; apply List.Forall_forall; intros; apply setTTL_spec.
Qed.

(** The lifetime of a response is the least positive lifetime of its records other
    than [OPT], zero if there is none, except that a response without answers
    lives as long as its SOA record says (the smaller of its lifetime and
    minimum).  A configured lifetime replaces it.  All records other than [OPT]
    get this lifetime. *)
Theorem response_lifetime question response options m ttl :
  Forall (fun r => 0 <= recordTTL r) (allRecords response) ->
  applyResponseOptions question response options = (m, ttl) ->
  match RewriteTTL options with
  | Some t => ttl = t
  | None =>
      if nonempty (msg_Answer response) || isNil (extractNegativeTTL response)
      then isLeast ttl (positiveTTLs (allRecords response))
      else negative (msg_Ns response) ttl
  end /\
  Forall (fun r => isOPT r = true \/ recordTTL r = ttl) (allRecords m).
Proof.
  intros Hr Ha. unfold applyResponseOptions in Ha. set (response' := applyStrategy question response options) in Ha.
  assert (map rr_Header (msg_Answer response') = map rr_Header (msg_Answer response) /\
    msg_Ns response' = msg_Ns response /\ msg_Extra response' = msg_Extra response) as (Hans & Hns & Hex).
  { subst response'. unfold applyStrategy. destruct (_ && _); [|done]. destruct response; unfold constant; cbn. split; [|done].
    rewrite map_map. apply map_ext. by intros []. }
  injection Ha as <- <-. split; [|apply normalized]. destruct (RewriteTTL options); [done|]. cbn [default].
  unfold computeTimeToLive, extractNegativeTTL, allRecords. rewrite Hns, Hex.
  rewrite (nonempty_headers _ _ Hans).
  assert (isLeast (foldl shorterTTL 0 (msg_Answer response' ++ msg_Ns response ++ msg_Extra response))
    (positiveTTLs (allRecords response))) as Hleast.
  { rewrite (foldl_headers _ (allRecords response)); [by apply foldl_shorterTTL|].
    unfold allRecords. rewrite !map_app. by rewrite Hans. }
  destruct (nonempty (msg_Answer response)); cbn [orb]; [done|].
  destruct (negativeTTL (msg_Ns response)) as [t|] eqn:En; cbn; [by apply negativeTTL_spec|done].
Qed.

(** * Lookups *)

Section lookup.
Context {MC} `{MemoryCache MC} {DC} `{DNSCacheStore DC} {RC} `{RDRCStore RC} `{DNSLibs, !DNSLibsLaws} `{Libs}.

Abbreviation Client := (Client (MC := MC) (DC := DC) (RC := RC)).

(** A transport that knows the addresses of every name, as [hosts] and [local]. *)
Definition knows (addresses : list Addr) (timeToLive : Z) (message : Msg) : result Msg :=
  match msg_Question message with
  | question :: _ => Ok (FixedResponse (msg_Id message) question addresses timeToLive)
  | [] => Err (E_New "no question")
  end.

Definition ofFamily (qType : Z) (addresses : list Addr) : list Addr :=
  filter (fun a => (if qType =? TypeA then Netip.Is4 a else Netip.Is6 a) = true) addresses.

Definition readable (addresses : list Addr) : Prop := Forall (fun a => AddrFromIP (AsSlice a) = a) addresses.

Lemma rrAddresses_setTTL t r : rrAddresses (setTTL t r) = rrAddresses r.
Proof. unfold setTTL. destruct (isOPT r); [done|]. by destruct r. Qed.

Lemma fixed_addresses name qType addresses ttl :
  qType = TypeA \/ qType = TypeAAAA -> readable addresses ->
  flat_map rrAddresses (flat_map (fixedRecord (mkQuestion name qType ClassINET) ttl) addresses) = ofFamily qType addresses.
Proof.
  intros Hq Hr. unfold ofFamily. induction Hr as [|a addresses Ha Hr IH]; [done|].
  cbn [flat_map]. rewrite flat_map_app, IH, filter_cons. clear IH.
  destruct Hq as [-> | ->]; destruct a; cbn in *; rewrite ?Ha; done.
Qed.

(** The addresses of the response to a question, when the cache is not used. *)
Lemma lookup_question (c : Client) now later tag contextTag name qType options addresses ttl :
  qType = TypeA \/ qType = TypeAAAA -> readable addresses -> DisableCache options = true ->
  contextTag <> Some tag -> strategyRejects (mkQuestion name qType ClassINET) options = false ->
  lookupToExchange c now later tag contextTag name qType options None (knows addresses ttl)
  = (c, Ok (ofFamily qType addresses)).
Proof.
  intros Hq Hr Hdis Hctx Hst. unfold lookupToExchange. rewrite Hdis, orb_true_r.
  unfold Exchange. cbn [msg_Question]. rewrite Hst.
  set (message := mkMsg 0 false false true false 0 _ _ _ _).
  assert (exists m, prepareExchangeMessage c message options = m /\ msg_Question m = msg_Question message /\
    exists simple, isSimpleRequest m options = Ok simple) as (m & -> & Hmq & simple & ->).
  { unfold prepareExchangeMessage, SetClientSubnet. eexists. split; [done|].
    destruct (NetipPrefix.IsValid _); (split; [done|]); unfold isSimpleRequest; cbn; eauto. }
  rewrite Hdis, orb_true_r. unfold exchangeFresh. rewrite bool_decide_eq_false_2 by done. cbn [negb andb].
  unfold exchangeToTransport, knows. rewrite Hmq. unfold message. cbn [msg_Question rejectedBy].
  set (question := mkQuestion name qType ClassINET). unfold applyResponseOptions, applyStrategy.
  assert ((q_Qtype question =? TypeHTTPS) = false) as -> by (destruct Hq as [-> | ->]; done). cbn [andb orb].
  unfold matchEdns0. rewrite isEdns0_none by done. cbn [msg_Rcode].
  change (msg_Rcode _ =? RcodeSuccess) with true. cbn match. do 2 f_equal. cbn.
  rewrite flat_map_concat_map, map_map.
  rewrite (map_ext _ rrAddresses) by (intros; apply rrAddresses_setTTL). rewrite <- flat_map_concat_map.
  by apply fixed_addresses.
Qed.

(** Looking up a name on a transport that knows its addresses returns the addresses
    of the families the strategy admits, those of the preferred family first;
    the lookup strategy takes precedence over the strategy of the query. *)
Theorem lookup_by_strategy (c : Client) now later sixFirst tag contextTag domain options addresses ttl :
  readable addresses -> DisableCache options = true -> contextTag <> Some tag ->
  let strategy := if LookupStrategy options =? DomainStrategyAsIS then Strategy options else LookupStrategy options in
  let v4 := ofFamily TypeA addresses in
  let v6 := ofFamily TypeAAAA addresses in
  Lookup c now later sixFirst tag contextTag domain options None (knows addresses ttl)
  = (c, Ok (if strategy =? DomainStrategyIPv4Only then v4
            else if strategy =? DomainStrategyIPv6Only then v6
            else if strategy =? DomainStrategyPreferIPv6 then v6 ++ v4 else v4 ++ v6, None)).
Proof.
  intros Hr Hdis Hctx strategy v4 v6. unfold Lookup. fold strategy. set (lookupOptions := if _ =? _ then _ else _ : DNSQueryOptions).
  assert (DisableCache lookupOptions = true /\ Strategy lookupOptions = strategy) as [Hd Hs].
  { unfold lookupOptions, strategy. destruct (_ =? _); by destruct options. }
  assert (forall qType, qType = TypeA \/ qType = TypeAAAA ->
    strategyRejects (mkQuestion (Fqdn (FqdnToDomain domain)) qType ClassINET) lookupOptions = false ->
    lookupToExchange c now later tag contextTag (Fqdn (FqdnToDomain domain)) qType lookupOptions None (knows addresses ttl)
    = (c, Ok (ofFamily qType addresses))) as Hask by (intros; by apply lookup_question).
  unfold strategyRejects in Hask. rewrite Hs in Hask. cbn [q_Qtype] in Hask.
  destruct (Z.eqb_spec strategy DomainStrategyIPv4Only) as [E4|E4].
  { rewrite (Hask TypeA) by (rewrite ?E4; auto). done. }
  destruct (Z.eqb_spec strategy DomainStrategyIPv6Only) as [E6|E6].
  { rewrite (Hask TypeAAAA) by (rewrite ?E6; auto). done. }
  assert (forall qType, qType = TypeA \/ qType = TypeAAAA ->
    lookupToExchange c now later tag contextTag (Fqdn (FqdnToDomain domain)) qType lookupOptions None (knows addresses ttl)
    = (c, Ok (ofFamily qType addresses))) as Hboth.
  { intros qType Hq. apply Hask; [done|]. by rewrite !andb_false_r. }
  destruct sixFirst; rewrite !Hboth by auto; cbn [addressesOf errorOf]; fold v4 v6; f_equal; unfold sortAddresses;
    destruct v4, v6; cbn [nonempty negb andb app]; rewrite ?groupError_none, ?app_nil_r; by destruct (strategy =? _).
Qed.
End lookup.
