(* ===== verification/CacheFileDNS.v ===== *)
(** [experimental/cachefile/dns_cache.go]: the DNS cache in the cache file.  Saves
    are queued and written by goroutines, whose steps are interleaved with the
    other operations. *)
From S2P Require Import Prelude Netip Metadata RuleAction Bytes DNSClient DNSClientSpec.

(** The buckets of the transports in the cache file ([bbolt]). *)
Class Bolt (T : Type) := {
  bucketGet : T -> string -> list byte -> option (list byte);
  bucketPut : T -> string -> list byte -> list byte -> T;
  deleteBucketDNSCache : T -> T
}.

Class BoltLaws (T : Type) `{Bolt T} := {
  get_put db b k v b' k' : bucketGet (bucketPut db b k v) b' k' = if decide (b' = b /\ k' = k) then Some v else bucketGet db b' k';
  get_deleted db b k : bucketGet (deleteBucketDNSCache db) b k = None
}.

Record saveCacheKey := mkSaveCacheKey { TransportName : string; QuestionName : string; QType : Z }.

#[global] Instance saveCacheKey_eq_dec : EqDecision saveCacheKey.
Proof. solve_decision. Defined.
#[global] Instance saveCacheKey_countable : Countable saveCacheKey.
Proof.
  refine (inj_countable' (fun k => (TransportName k, QuestionName k, QType k)) (fun '(t, n, q) => mkSaveCacheKey t n q) _).
  by intros [].
Defined.

Record saveDNSCacheEntry := mkSaveDNSCacheEntry {
  rawMessage : list byte;
  expireAt : Z;
  sequence : Z;
  saving : bool
}.

(** The zero value a missing entry is read as. *)
Definition entryZero : saveDNSCacheEntry := mkSaveDNSCacheEntry [] 0 0 false.

(** [flushPendingDNSCacheWith] between its critical sections: about to read the
    entry, to write it to the file, to compare sequences. *)
Inductive Flusher :=
| FlushRead (k : saveCacheKey)
| FlushSave (k : saveCacheKey) (entry : saveDNSCacheEntry)
| FlushCheck (k : saveCacheKey) (entry : saveDNSCacheEntry).

Section cachefile.
Context {T} `{Bolt T}.

Record CacheFile := mkCacheFile {
  saveDNSCache : gmap saveCacheKey saveDNSCacheEntry;
  db : T;
  flushers : list Flusher
}.

(** * Records of the file *)

Definition recordKey (k : saveCacheKey) : list byte := be 2 (QType k) ++ String.list_byte_of_string (QuestionName k).

(** [Time.Unix] of a time in nanoseconds, and [int64] of a [uint64]. *)
Definition unix (t : Z) : Z := t / second.
Definition int64 (z : Z) : Z := if z <? 2 ^ 63 then z else z - 2 ^ 64.

Definition SaveDNSCache (db : T) (k : saveCacheKey) (rawMessage : list byte) (expireAt : Z) : T :=
  bucketPut db (TransportName k) (recordKey k) (be 8 (u64 (unix expireAt)) ++ rawMessage).

Definition loadFile (db : T) (k : saveCacheKey) : option (list byte * Z) :=
  content ← bucketGet db (TransportName k) (recordKey k);
  if (length content <? 8)%nat then None
  else Some (drop 8 content, int64 (beVal (take 8 content)) * second).

(** * Operations *)

Definition File_LoadDNSCache (c : CacheFile) (k : saveCacheKey) : option (list byte * Z) :=
  match saveDNSCache c !! k with
  | Some entry => Some (rawMessage entry, expireAt entry)
  | None => loadFile (db c) k
  end.

Definition queueDNSCacheSave (c : CacheFile) (saveKey : saveCacheKey) (rawMessage : list byte) (expireAt : Z)
    : CacheFile * bool :=
  let entry := default entryZero (saveDNSCache c !! saveKey) in
  let startFlush := negb (saving entry) in
  let entry := mkSaveDNSCacheEntry rawMessage expireAt (u64 (sequence entry + 1)) true in
  (c {{ saveDNSCache := <[saveKey := entry]> (saveDNSCache c) }}, startFlush).

Definition File_SaveDNSCacheAsync (c : CacheFile) (saveKey : saveCacheKey) (rawMessage : list byte) (expireAt : Z) : CacheFile :=
  let (c, startFlush) := queueDNSCacheSave c saveKey rawMessage expireAt in
  if startFlush then c {{ flushers := flushers c ++ [FlushRead saveKey] }} else c.

(** The next step of a flusher, whose write succeeds or not: the flusher after it,
    unless it returns. *)
Definition flushPendingDNSCacheWith (c : CacheFile) (f : Flusher) (saved : bool) : CacheFile * option Flusher :=
  match f with
  | FlushRead saveKey =>
      match saveDNSCache c !! saveKey with
      | None => (c, None)
      | Some entry => (c, Some (FlushSave saveKey entry))
      end
  | FlushSave saveKey entry =>
      (if saved then c {{ db := SaveDNSCache (db c) saveKey (rawMessage entry) (expireAt entry) }} else c,
       Some (FlushCheck saveKey entry))
  | FlushCheck saveKey entry =>
      match saveDNSCache c !! saveKey with
      | None => (c, None)
      | Some currentEntry =>
          if negb (sequence currentEntry =? sequence entry) then (c, Some (FlushRead saveKey))
          else (c {{ saveDNSCache := delete saveKey (saveDNSCache c) }}, None)
      end
  end.

(** One of the flushers makes a step. *)
Inductive flushes (saved : bool) : CacheFile -> CacheFile -> Prop :=
| flushes_one c l1 f l2 c' f' :
    flushers c = l1 ++ f :: l2 -> flushPendingDNSCacheWith c f saved = (c', f') ->
    flushes saved c (c' {{ flushers := l1 ++ option_list f' ++ l2 }}).

(** The two critical sections of [ClearDNSCache]. *)
Definition clearPending (c : CacheFile) : CacheFile := c {{ saveDNSCache := ∅ }}.
Definition clearFile (c : CacheFile) : CacheFile := c {{ db := deleteBucketDNSCache (db c) }}.
Definition File_ClearDNSCache (c : CacheFile) : CacheFile := clearFile (clearPending c).

#[global] Instance CacheFile_DNSCacheStore : DNSCacheStore CacheFile := {|
  LoadDNSCache c tag n q := File_LoadDNSCache c (mkSaveCacheKey tag n q);
  SaveDNSCacheAsync c tag n q raw e := File_SaveDNSCacheAsync c (mkSaveCacheKey tag n q) raw e;
  ClearDNSCache := File_ClearDNSCache
|}.
End cachefile.

#[global] Arguments CacheFile : clear implicits.
#[global] Arguments mkCacheFile {T} _ _ _.
