(* ===== verification/CacheFileSpec.v ===== *)
(** The DNS cache in the cache file keeps the promises of a store, and loads return
    the latest save whatever the goroutines do. *)
From S2P Require Import Prelude Netip Metadata RuleAction Bytes DNSClient DNSClientSpec CacheFileDNS.

(** * Records of the file *)

Lemma be_u16 x y : be 2 x = be 2 y -> u16 x = u16 y.
Proof.
  intros Hb. assert (beVal (be 2 x) = beVal (be 2 y)) as Hv by by rewrite Hb. unfold beVal, be in Hv.
  rewrite !rev_involutive, !LittleEndianList.le_combine_split in Hv. done.
Qed.

Lemma recordKey_inj k k' :
  recordKey k = recordKey k' -> QuestionName k = QuestionName k' /\ u16 (QType k) = u16 (QType k').
Proof.
  unfold recordKey. intros Hk. apply app_inj_1 in Hk as [Hq Hn]; [|by rewrite !be_length].
  split; [|by apply be_u16]. rewrite <- (String.string_of_list_byte_of_string (QuestionName k)), Hn.
  apply String.string_of_list_byte_of_string.
Qed.

Lemma int64_u64 z : - 2 ^ 63 <= z < 2 ^ 63 -> int64 (u64 z) = z.
Proof.
  intros Hz. unfold int64, u64, wrap. destruct (Z.le_gt_cases 0 z).
  - rewrite Z.mod_small by lia. destruct (Z.ltb_spec z (2 ^ 63)); lia.
  - rewrite <- (Z.mod_add z 1) by lia. rewrite Z.mod_small by lia. destruct (Z.ltb_spec (z + 1 * 2 ^ 64) (2 ^ 63)); lia.
Qed.

Lemma int64_le z : 0 <= z -> 0 <= u64 z /\ int64 (u64 z) <= z.
Proof.
  intros Hz. unfold int64, u64, wrap. pose proof (Z.mod_pos_bound z (2 ^ 64) ltac:(lia)).
  pose proof (Z.mod_le z (2 ^ 64) Hz ltac:(lia)). destruct (_ <? _); lia.
Qed.

Section cachefile.
Context {T} `{Bolt T, !BoltLaws T}.

(** What the file returns for an entry: its time in whole seconds. *)
Definition rounded (e : list byte * Z) : list byte * Z := (e.1, int64 (u64 (unix e.2)) * second).

Lemma loadFile_saved db k raw e k' :
  loadFile (SaveDNSCache db k raw e) k' =
  if decide (TransportName k' = TransportName k /\ recordKey k' = recordKey k) then Some (rounded (raw, e))
  else loadFile db k'.
Proof.
  unfold loadFile, SaveDNSCache. rewrite get_put. case_decide; [|done]. cbn [mbind option_bind].
  rewrite length_app, be_length. cbn [Nat.add]. replace (8 + length raw <? 8)%nat with false by (symmetry; apply Nat.ltb_ge; lia).
  rewrite drop_app_length', take_app_length' by (by rewrite be_length). rewrite beVal_be; [done|].
  apply wrap_range. lia.
Qed.

Lemma rounded_le raw e : 0 <= e -> (rounded (raw, e)).2 <= e.
Proof.
  intros He. cbn. unfold unix. pose proof (Z.div_pos e second He ltac:(done)).
  destruct (int64_le (e / second)) as [_ Hle]; [done|]. pose proof (Z.mul_div_le e second ltac:(done)).
  change second with 1000000000 in *. lia.
Qed.

(** * The promises of a store *)

Definition entryOf (f : Flusher) : option (saveCacheKey * saveDNSCacheEntry) :=
  match f with FlushRead _ => None | FlushSave k e | FlushCheck k e => Some (k, e) end.

(** Where an entry can be: in the queue, with a flusher, in the file. *)
Inductive present (c : CacheFile T) (k : saveCacheKey) : list byte -> Z -> Prop :=
| present_queued entry : saveDNSCache c !! k = Some entry -> present c k (rawMessage entry) (expireAt entry)
| present_flushed f entry : f ∈ flushers c -> entryOf f = Some (k, entry) -> present c k (rawMessage entry) (expireAt entry)
| present_stored raw e : loadFile (db c) k = Some (raw, e) -> present c k raw e.

Definition validCache (c : CacheFile T) : Prop :=
  map_Forall (fun _ entry => 0 <= expireAt entry) (saveDNSCache c) /\
  Forall (fun f => match entryOf f with Some (_, entry) => 0 <= expireAt entry | None => True end) (flushers c).

(** The file stores types in 16 bits. *)
Definition savedAs (c : CacheFile T) (tag n : string) (q : Z) (raw : list byte) (e : Z) : Prop :=
  exists q', u16 q' = u16 q /\ present c (mkSaveCacheKey tag n q') raw e.

Inductive evolves : CacheFile T -> CacheFile T -> Prop :=
| evolves_flush saved c c' : flushes saved c c' -> evolves c c'
| evolves_pending c : evolves c (clearPending c)
| evolves_file c : evolves c (clearFile c).

Lemma present_clearPending c k raw e : present (clearPending c) k raw e -> present c k raw e.
Proof.
  destruct c. unfold clearPending, constant. intros [entry Hk|f entry Hf He|? ? Hl]; cbn in *; [by rewrite lookup_empty in Hk| |].
  - by eapply present_flushed.
  - by apply present_stored.
Qed.

Lemma present_clearFile c k raw e : present (clearFile c) k raw e -> present c k raw e.
Proof.
  destruct c. unfold clearFile, constant. intros [entry Hk|f entry Hf He|? ? Hl]; cbn in *.
  - by apply present_queued.
  - by eapply present_flushed.
  - unfold loadFile in Hl. by rewrite get_deleted in Hl.
Qed.

Lemma present_save c k raw e k' raw' e' :
  present (File_SaveDNSCacheAsync c k raw e) k' raw' e' -> (k' = k /\ raw' = raw /\ e' = e) \/ present c k' raw' e'.
Proof.
  unfold File_SaveDNSCacheAsync, queueDNSCacheSave. set (entry := mkSaveDNSCacheEntry _ _ _ _).
  set (start := negb _). intros Hp.
  assert (present (c {{ saveDNSCache := <[k := entry]> (saveDNSCache c) }}) k' raw' e') as Hp'.
  { destruct start; [|by destruct c]. destruct c; unfold constant in *; destruct Hp as [? Hk|f ? Hf He|? ? Hl]; cbn in *.
    - by apply present_queued.
    - apply elem_of_app in Hf as [Hf|Hf%list_elem_of_singleton]; [by eapply present_flushed|]. by subst f.
    - by apply present_stored. }
  clear Hp. destruct c; unfold constant in *; destruct Hp' as [en Hk|f ? Hf He|? ? Hl]; cbn in *.
  - apply lookup_insert_Some in Hk as [[-> <-]|[Hne Hk]]; [by left|]. right. by apply (present_queued (mkCacheFile _ _ _)).
  - right. by eapply (present_flushed (mkCacheFile _ _ _)).
  - right. by apply (present_stored (mkCacheFile _ _ _)).
Qed.

Definition sameRecord (k k' : saveCacheKey) : Prop :=
  TransportName k = TransportName k' /\ QuestionName k = QuestionName k' /\ u16 (QType k) = u16 (QType k').

(** A step of a flusher only moves an entry that it has. *)
Lemma flush_step c f saved c' f' :
  flushPendingDNSCacheWith c f saved = (c', f') ->
  flushers c' = flushers c /\
  (forall k entry, saveDNSCache c' !! k = Some entry -> saveDNSCache c !! k = Some entry) /\
  (forall k entry, entryOf <$> f' = Some (Some (k, entry)) -> saveDNSCache c !! k = Some entry \/ entryOf f = Some (k, entry)) /\
  (forall k raw e, loadFile (db c') k = Some (raw, e) -> loadFile (db c) k = Some (raw, e) \/
     exists k' entry, entryOf f = Some (k', entry) /\ sameRecord k k' /\ (raw, e) = rounded (rawMessage entry, expireAt entry)).
Proof.
  destruct c as [pending file fs], f as [k0|k0 en|k0 en]; cbn; intros Hs.
  - destruct (pending !! k0) as [en|] eqn:Hp; injection Hs as <- <-; cbn; split_and!; auto; try done.
    intros k entry [= <- <-]. by left.
  - injection Hs as <- <-. destruct saved; unfold constant; cbn; split_and!; auto; try (intros ? ? [= <- <-]; by right).
    intros k raw e. rewrite loadFile_saved. case_decide as Hk; [|by left]. intros [= <- <-]. right.
    exists k0, en. destruct Hk as [Ht Hr%recordKey_inj]. done.
  - destruct (pending !! k0) as [cur|] eqn:Hp; [destruct (negb _)|]; injection Hs as <- <-; unfold constant; cbn;
      split_and!; auto; try done. by intros k entry [_ ?]%lookup_delete_Some.
Qed.

Lemma present_flushes saved c c' k raw e :
  validCache c -> flushes saved c c' -> present c' k raw e ->
  exists k' e', sameRecord k k' /\ present c k' raw e' /\ e <= e'.
Proof.
  intros [Hvp Hvf] Hf. destruct Hf as [c l1 f l2 c' f' Hl Hs].
  assert (f ∈ flushers c) as Hin by (rewrite Hl; set_solver).
  apply flush_step in Hs as (_ & Hp & He & Hd).
  assert (forall e0, present c k raw e0 -> e <= e0 -> exists k' e', sameRecord k k' /\ present c k' raw e' /\ e <= e') as Hsame.
  { intros e0 ? ?. by exists k, e0. }
  destruct 1 as [entry Hk|f0 entry Hf0 He0|raw e Hk]; [eapply Hsame; [apply present_queued, Hp|lia]|..].
  - by destruct c'.
  - assert (f0 ∈ l1 ++ option_list f' ++ l2) as Hin0 by by destruct c'. rewrite !elem_of_app in Hin0.
    destruct Hin0 as [Hin0|[Hin0|Hin0]].
    + eapply Hsame; [eapply (present_flushed _ _ f0); [rewrite Hl; set_solver|done]|lia].
    + destruct f' as [f'|]; [|by apply not_elem_of_nil in Hin0]. apply list_elem_of_singleton in Hin0 as ->.
      destruct (He k entry) as [Hq|Hq]; [cbn; by rewrite He0|by eapply Hsame; [apply present_queued|lia]|].
      by eapply Hsame; [eapply present_flushed|lia].
    + eapply Hsame; [eapply (present_flushed _ _ f0); [rewrite Hl; set_solver|done]|lia].
  - destruct (Hd k raw e) as [Hk'|(k' & entry & Hf & Hr & [= -> ->])]; [by destruct c'| |].
    + eapply Hsame; [by apply present_stored|lia].
    + exists k', (expireAt entry). split; [done|]. split; [by eapply present_flushed|].
      apply (rounded_le (rawMessage entry)). rewrite List.Forall_forall in Hvf.
      specialize (Hvf f). rewrite Hf in Hvf. apply Hvf. by apply list_elem_of_In.
Qed.

Lemma valid_flushes saved c c' : validCache c -> flushes saved c c' -> validCache c'.
Proof.
  intros [Hvp Hvf] Hf. destruct Hf as [c l1 f l2 c' f' Hl Hs].
  apply flush_step in Hs as (_ & Hp & He & _). rewrite Hl in Hvf.
  apply Forall_app in Hvf as [Hv1 Hv2]. apply Forall_cons_iff in Hv2 as [Hf Hv2]. split.
  - intros k entry Hk. apply (Hvp k), Hp. by destruct c'.
  - assert (Forall (fun f => match entryOf f with Some (_, entry) => 0 <= expireAt entry | None => True end)
      (l1 ++ option_list f' ++ l2)) as Hv; [|by destruct c'].
    apply Forall_app. split; [done|]. apply Forall_app. split; [|done].
    destruct f' as [f'|]; cbn; [|constructor]. constructor; [|constructor].
    destruct (entryOf f') as [[k entry]|] eqn:Ef; [|done].
    destruct (He k entry) as [Hq|Hq]; [cbn; by rewrite Ef|by apply (Hvp k)|by rewrite Hq in Hf].
Qed.

Lemma valid_save c k raw e : validCache c -> 0 <= e -> validCache (File_SaveDNSCacheAsync c k raw e).
Proof.
  intros [Hvp Hvf] He. unfold File_SaveDNSCacheAsync, queueDNSCacheSave. set (entry := mkSaveDNSCacheEntry _ _ _ _).
  destruct c as [pending file fs]; unfold constant in *; cbn in *.
  assert (map_Forall (fun _ entry => 0 <= expireAt entry) (<[k := entry]> pending)) by (by apply map_Forall_insert_2).
  destruct (negb _); split; cbn; try done. apply Forall_app. split; [done|]. by repeat constructor.
Qed.

#[global] Program Instance CacheFile_laws : DNSCacheLaws (CacheFile T) := {|
  dc_valid := validCache;
  dc_saved := savedAs;
  dc_evolves := evolves
|}.
Next Obligation.
  intros c tag n q raw e Hl. exists q. split; [done|]. cbn in Hl. unfold File_LoadDNSCache in Hl.
  destruct (saveDNSCache c !! _) as [entry|] eqn:Hk; [injection Hl as <- <-; by apply present_queued|by apply present_stored].
Qed.
Next Obligation.
  intros c tag n q raw e tag' n' q' raw' e' (q0 & Hq & [([= -> -> ->] & -> & ->)|Hp]%present_save); [by left|].
  right. by exists q0.
Qed.
Next Obligation. intros. by apply valid_save. Qed.
Next Obligation.
  intros c tag n q raw e (q0 & Hq & Hp). exists q0. split; [done|]. by apply present_clearPending, present_clearFile.
Qed.
Next Obligation. intros c [Hp Hf]. destruct c. split; cbn in *; [by apply map_Forall_empty|done]. Qed.
Next Obligation.
  intros c c' tag n q raw e Hv He (q0 & Hq & Hp). destruct He as [saved c c' Hf|c|c].
  - destruct (present_flushes _ _ _ _ _ _ Hv Hf Hp) as ([tag' n' q'] & e' & (Ht & Hn & Hq') & Hp' & Hle).
    cbn in *. subst tag' n'. exists e'. split; [|done]. exists q'. split; [by rewrite <- Hq'|done].
  - exists e. split; [|done]. exists q0. split; [done|]. by apply present_clearPending.
  - exists e. split; [|done]. exists q0. split; [done|]. by apply present_clearFile.
Qed.
Next Obligation.
  intros c c' Hv He. destruct He as [saved c c' Hf|c|c]; [by eapply valid_flushes|..];
    destruct Hv as [Hp Hf]; destruct c; split; cbn in *; done || by apply map_Forall_empty.
Qed.

(** * Loads return the latest save *)

Definition inRange (k : saveCacheKey) : Prop := 0 <= QType k < 65536.

(** Which entries were written without success by the latest write since their last
    save, after a step of the flusher [f]. *)
Definition failedBy (f : Flusher) (saved : bool) (failed : saveCacheKey -> bool) (k : saveCacheKey) : bool :=
  match f with
  | FlushSave k' _ => if decide (k = k') then negb saved else failed k
  | _ => failed k
  end.

(** [n] saves and any number of steps of the flushers, whose writes succeed or not,
    after the file was opened; [last] is what was saved last. *)
Inductive runs : Z -> CacheFile T -> (saveCacheKey -> option (list byte * Z)) -> (saveCacheKey -> bool) -> Prop :=
| runs_open db : runs 0 (mkCacheFile ∅ db []) (loadFile db) (fun _ => false)
| runs_save n c last failed k raw e :
    runs n c last failed -> inRange k -> 0 <= e < second * 2 ^ 63 ->
    runs (n + 1) (File_SaveDNSCacheAsync c k raw e) (fun k' => if decide (k' = k) then Some (raw, e) else last k')
      (fun k' => if decide (k' = k) then false else failed k')
| runs_flush n c last failed l1 f l2 saved c' f' :
    runs n c last failed -> flushers c = l1 ++ f :: l2 -> flushPendingDNSCacheWith c f saved = (c', f') ->
    runs n (c' {{ flushers := l1 ++ option_list f' ++ l2 }}) last (failedBy f saved failed).

(** The steps of [flushes] are those of [runs]. *)
Lemma runs_flushes n c last failed saved c' : runs n c last failed -> flushes saved c c' ->
  exists failed', runs n c' last failed' /\ (saved = true -> forall k, failed k = false -> failed' k = false).
Proof.
  intros Hr Hf. destruct Hf as [c l1 f l2 c' f' Hl Hs]. eexists. split; [by eapply runs_flush|]. intros -> k Hk.
  destruct f; cbn; [done| |done]. by case_decide.
Qed.

Definition keyOf (f : Flusher) : saveCacheKey :=
  match f with FlushRead k | FlushSave k _ | FlushCheck k _ => k end.

Definition flushersOf (c : CacheFile T) (k : saveCacheKey) : list Flusher := filter (fun f => keyOf f = k) (flushers c).

Definition contents (entry : saveDNSCacheEntry) : list byte * Z := (rawMessage entry, expireAt entry).

(** What the flusher of [k] has seen of the entry [current]. *)
Definition flusherOk (file : T) (failed : bool) (k : saveCacheKey) (current : saveDNSCacheEntry) (f : Flusher) : Prop :=
  match f with
  | FlushRead _ => True
  | FlushSave _ entry | FlushCheck _ entry =>
      sequence entry <= sequence current /\
      (sequence entry = sequence current -> contents entry = contents current) /\
      match f with
      | FlushCheck _ _ => sequence entry = sequence current -> failed = false -> loadFile file k = Some (rounded (contents entry))
      | _ => True
      end
  end.

(** A queued entry is the last save and has one flusher; without one the file has
    the last save, unless its write failed. *)
Definition queueOk (n : Z) (c : CacheFile T) (last : saveCacheKey -> option (list byte * Z)) (failed : saveCacheKey -> bool)
    (k : saveCacheKey) : Prop :=
  match saveDNSCache c !! k with
  | None => flushersOf c k = [] /\ (failed k = false -> loadFile (db c) k = rounded <$> last k)
  | Some current =>
      saving current = true /\ last k = Some (contents current) /\ 0 <= sequence current <= n /\
      exists f, flushersOf c k = [f] /\ flusherOk (db c) (failed k) k current f
  end.

Lemma loadFile_rounded db k : rounded <$> loadFile db k = loadFile db k.
Proof.
  unfold loadFile. destruct (bucketGet db _ _) as [content|]; cbn [mbind option_bind]; [|done].
  destruct (length content <? 8)%nat eqn:Hlen; [done|]. unfold rounded, unix. cbn [fmap option_fmap option_map fst snd].
  rewrite Z.div_mul by discriminate. rewrite int64_u64; [done|].
  assert (0 <= beVal (take 8 content) < 2 ^ 64) as Hb.
  { unfold beVal. pose proof (LittleEndianList.le_combine_bound (rev (take 8 content))) as Hb.
    apply Nat.ltb_ge in Hlen. rewrite length_rev, length_take, Nat.min_l in Hb by lia. exact Hb. }
  unfold int64. destruct (Z.ltb_spec (beVal (take 8 content)) (2 ^ 63)); lia.
Qed.

Lemma loadFile_other db k raw e k' :
  inRange k -> inRange k' -> k' <> k -> loadFile (SaveDNSCache db k raw e) k' = loadFile db k'.
Proof.
  intros Hk Hk' Hne. rewrite loadFile_saved. case_decide as Hr; [|done]. exfalso. apply Hne.
  destruct Hr as [Ht (Hn & Hq)%recordKey_inj]. unfold u16 in Hq. rewrite !wrap_small in Hq by (unfold inRange in *; lia).
  destruct k, k'. cbn in *. by subst.
Qed.

Lemma flusherOk_file file file' failed k current f :
  loadFile file' k = loadFile file k -> flusherOk file failed k current f -> flusherOk file' failed k current f.
Proof. intros Hl. destruct f; cbn; rewrite ?Hl; done. Qed.

Lemma save_other c k raw e k' :
  k' <> k -> let c' := File_SaveDNSCacheAsync c k raw e in
  saveDNSCache c' !! k' = saveDNSCache c !! k' /\ db c' = db c /\ flushersOf c' k' = flushersOf c k'.
Proof.
  intros Hne. destruct c as [pending file fs]. unfold File_SaveDNSCacheAsync, queueDNSCacheSave, flushersOf. cbn.
  destruct (negb _); unfold constant; cbn; rewrite lookup_insert_ne by done; split_and!; try done.
  rewrite list.filter_app. cbn. rewrite decide_False by done. apply app_nil_r.
Qed.

Lemma queueOk_save n c last failed k raw e k' :
  0 <= n -> n + 1 < 2 ^ 64 -> (forall k, inRange k -> queueOk n c last failed k) -> inRange k' ->
  queueOk (n + 1) (File_SaveDNSCacheAsync c k raw e) (fun k' => if decide (k' = k) then Some (raw, e) else last k')
    (fun k' => if decide (k' = k) then false else failed k') k'.
Proof.
  intros H0 Hn Hall Hk'. specialize (Hall k' Hk'). unfold queueOk in *. destruct c as [pending file fs]; cbn in Hall.
  destruct (decide (k' = k)) as [->|Hne].
  - unfold File_SaveDNSCacheAsync, queueDNSCacheSave, flushersOf in *. cbn.
    destruct (pending !! k) as [current|] eqn:Hp; cbn.
    + destruct Hall as (Hs & Hl & Hseq & f & Hf & Hok). rewrite Hs. cbn. unfold constant. cbn. rewrite lookup_insert_eq. cbn.
      unfold u64. rewrite wrap_small by lia. split_and!; [done|done|lia|lia|]. exists f. split; [done|].
      destruct f; cbn in *; [done|..]; destruct Hok as (Hle & _ & Hc); split_and!; done || lia.
    + destruct Hall as [Hf Hl]. unfold constant. cbn. rewrite lookup_insert_eq. cbn.
      unfold u64. rewrite wrap_small by lia. split_and!; [done|done|lia|lia|]. exists (FlushRead k).
      split; [|done]. rewrite list.filter_app, Hf. cbn. by rewrite decide_True.
  - destruct (save_other (mkCacheFile pending file fs) k raw e k' Hne) as (Hp & Hd & Hf). rewrite Hp, Hd, Hf. cbn.
    destruct (pending !! k'); [|done]. destruct Hall as (? & ? & ? & ?). split_and!; done || lia.
Qed.

Lemma filter_split {A} (P : A -> Prop) `{!forall x, Decision (P x)} l1 x l2 y :
  P x -> filter P (l1 ++ x :: l2) = [y] -> y = x /\ filter P l1 = [] /\ filter P l2 = [].
Proof.
  intros Hx. rewrite list.filter_app, filter_cons_True by done. destruct (filter P l1) as [|z l]; cbn.
  - by intros [= -> ->].
  - intros [= -> Hl]. by apply app_eq_nil in Hl as [_ ?].
Qed.

Lemma queueOk_flush n c last failed l1 f l2 saved c' f' k :
  flushers c = l1 ++ f :: l2 -> flushPendingDNSCacheWith c f saved = (c', f') -> inRange (keyOf f) -> inRange k ->
  queueOk n c last failed k ->
  queueOk n (c' {{ flushers := l1 ++ option_list f' ++ l2 }}) last (failedBy f saved failed) k.
Proof.
  intros Hl Hs Hf Hk Hq. destruct c as [pending file fs]; cbn in Hl; subst fs. unfold queueOk, flushersOf in *. cbn in Hq.
  destruct (decide (keyOf f = k)) as [Hkey|Hne].
  - destruct (pending !! k) as [current|] eqn:Hp.
    2:{ destruct Hq as [Hq _]. rewrite list.filter_app, filter_cons_True in Hq by done. by apply app_eq_nil in Hq as [_ ?]. }
    destruct Hq as (Hsv & Hlast & Hseq & f0 & Hf0 & Hok). apply filter_split in Hf0 as (-> & H1 & H2); [|done].
    destruct f as [k0|k0 en|k0 en]; cbn in Hkey, Hs; subst k0.
    + rewrite Hp in Hs. injection Hs as <- <-. unfold constant; cbn -[filter]. rewrite Hp. split_and!; [done..|lia|lia|].
      exists (FlushSave k current). rewrite list.filter_app, filter_cons_True, H1, H2 by done. done.
    + destruct Hok as (? & ? & _). destruct saved; injection Hs as <- <-; unfold constant; cbn -[filter]; rewrite Hp;
        (split_and!; [done..|lia|lia|]); exists (FlushCheck k en);
        rewrite list.filter_app, filter_cons_True, H1, H2 by done; (split; [done|]); (split_and!; [done..|]); intros _;
        rewrite decide_True by done; [|done]. intros _. rewrite loadFile_saved. by rewrite decide_True.
    + rewrite Hp in Hs. destruct Hok as (Hle & Hsame & Hfile). destruct (Z.eqb_spec (sequence current) (sequence en)) as [He|He];
        cbn in Hs; injection Hs as <- <-; unfold constant; cbn -[filter].
      * rewrite lookup_delete_eq. rewrite list.filter_app, H1, H2. split; [done|].
        intros Hfail. rewrite Hlast, Hfile by done. cbn. by rewrite Hsame.
      * rewrite Hp. split_and!; [done..|lia|lia|]. exists (FlushRead k).
        rewrite list.filter_app, filter_cons_True, H1, H2 by done. done.
  - assert (saveDNSCache c' !! k = pending !! k /\ loadFile (db c') k = loadFile file k /\
      filter (fun f => keyOf f = k) (option_list f') = []) as (Hp & Hd & Hfil).
    { destruct f as [k0|k0 en|k0 en]; cbn in *.
      - destruct (pending !! k0); injection Hs as <- <-; cbn; split_and!; try done. by rewrite decide_False.
      - injection Hs as <- <-. unfold constant; cbn. split_and!; [by destruct saved| |by rewrite decide_False].
        destruct saved; [by apply loadFile_other|done].
      - destruct (pending !! k0); [destruct (negb _)|]; injection Hs as <- <-; unfold constant; cbn;
          split_and!; first [done | by rewrite lookup_delete_ne | by rewrite decide_False]. }
    rewrite list.filter_app, filter_cons_False in Hq by done.
    destruct c' as [pending' file' fs']; unfold constant in *; cbn in *. rewrite Hp, !list.filter_app, Hfil. cbn.
    assert (failedBy f saved failed k = failed k) as Hfail.
    { destruct f; cbn in *; [done| |done]. by rewrite decide_False. }
    destruct (pending !! k) as [current|]; rewrite Hfail; [|by rewrite Hd].
    destruct Hq as (? & ? & [? ?] & f0 & ? & ?). split_and!; try done. exists f0. split; [done|]. by eapply flusherOk_file.
Qed.

Lemma runs_ok n c last failed : runs n c last failed ->
  0 <= n /\ (n < 2 ^ 64 -> Forall (fun f => inRange (keyOf f)) (flushers c) /\ forall k, inRange k -> queueOk n c last failed k).
Proof.
  induction 1 as [db|n c last failed k raw e Hr [H0 IH] Hk He|n c last failed l1 f l2 saved c' f' Hr [H0 IH] Hl Hs].
  - split; [done|]. split; [constructor|]. intros k _. unfold queueOk, flushersOf. cbn. rewrite lookup_empty.
    by rewrite loadFile_rounded.
  - split; [lia|]. intros Hn. destruct IH as [Hfs Hq]; [lia|]. split; [|intros; by apply queueOk_save].
    destruct c; unfold File_SaveDNSCacheAsync, queueDNSCacheSave, constant; cbn in *.
    destruct (negb _); cbn; [|done]. apply Forall_app. split; [done|]. by apply Forall_cons_iff.
  - split; [done|]. intros Hn. destruct (IH Hn) as [Hfs Hq].
    rewrite Hl in Hfs. apply Forall_app in Hfs as [H1 H2]. apply Forall_cons_iff in H2 as [Hf H2].
    split; [|intros k Hk; by eapply queueOk_flush; eauto].
    assert (Forall (fun f => inRange (keyOf f)) (l1 ++ option_list f' ++ l2)) as Hall; [|by destruct c'].
    apply Forall_app. split; [done|]. apply Forall_app. split; [|done].
    destruct f as [k|k en|k en]; cbn in *.
    + destruct (saveDNSCache c !! k); injection Hs as <- <-; cbn; auto.
    + injection Hs as <- <-. cbn. auto.
    + destruct (saveDNSCache c !! k); [destruct (negb _)|]; injection Hs as <- <-; cbn; auto.
Qed.

(** C15: Whatever the interleaving of saves and of the goroutines that write them to the
    file, loading an entry returns the message saved last for it, with its
    time, in whole seconds once it comes from the file, as long as it is queued
    or its latest write did not fail.  When all goroutines have returned, nothing
    is queued and the file holds the last save of every entry whose latest write
    did not fail.  (The cache is not cleared meanwhile, and fewer than 2^64 saves
    are made.) *)
Theorem latest_save_loaded n c last failed k :
  runs n c last failed -> n < 2 ^ 64 -> inRange k ->
  (is_Some (saveDNSCache c !! k) \/ failed k = false ->
   File_LoadDNSCache c k = last k \/ File_LoadDNSCache c k = rounded <$> last k) /\
  (flushers c = [] -> saveDNSCache c !! k = None /\ (failed k = false -> loadFile (db c) k = rounded <$> last k)).
Proof.
  intros Hr Hn Hk. destruct (runs_ok _ _ _ _ Hr) as [_ Hok]. destruct (Hok Hn) as [_ Hq]. specialize (Hq k Hk).
  unfold File_LoadDNSCache, queueOk, flushersOf in *. destruct (saveDNSCache c !! k) as [current|].
  - destruct Hq as (_ & Hl & _ & f & Hf & _). split; [by left|]. intros Hnil. by rewrite Hnil in Hf.
  - destruct Hq as [_ Hl]. split; [|done]. intros [[? ?]|Hfail]; [done|]. right. by apply Hl.
Qed.
End cachefile.
