(* ===== verification/DNSDemo.v ===== *)
(** Concrete caches and messages for the DNS client and the cache file. *)
From S2P Require Import Prelude Netip Metadata RuleAction Bytes Demo.
From S2P Require Import SrsDemo.
From S2P Require Import DNSClient DNSClientSpec DNSLookup CacheFileDNS CacheFileSpec.

#[local] Existing Instance srsDemoLibs.

(** * Instances of the interfaces *)

(** A cache in memory without a limit. *)
Abbreviation MapCache := (gmap dnsCacheKey (Msg * option Z)).

#[global] Instance MapCache_cache : MemoryCache MapCache := {|
  NewSharded _ := ∅;
  Get t now k :=
    (t, '(m, e) ← t !! k; match e with Some e => if e <? now then None else Some m | None => Some m end);
  GetWithLifetimeNoExpire t k := (t, '(m, e) ← t !! k; e ← e; Some (m, e));
  Add t k m := <[k := (m, None)]> t;
  AddWithLifetime t now k m l := <[k := (m, Some (now + l))]> t;
  Remove t k := delete k t;
  Purge _ := ∅
|}.

#[global] Program Instance MapCache_laws : MemoryCacheLaws MapCache := {|
  mc_entry t k m e := t !! k = Some (m, e)
|}.
Next Obligation. intros n k m e. cbn. by rewrite lookup_empty. Qed.
Next Obligation.
  intros t now k t' r [= <- <-]. split; [|done]. intros m ([m' e] & Ht & Hr)%bind_Some.
  destruct e as [e|]; [destruct (e <? now); [done|]|]; injection Hr as <-; eauto.
Qed.
Next Obligation.
  intros t k t' r [= <- <-]. split; [|done]. by intros m e ([m' e'] & Ht & (e0 & -> & [= -> ->])%bind_Some)%bind_Some.
Qed.
Next Obligation. intros t k m k' m' e'. cbn. rewrite lookup_insert_Some. intros [[<- [= <- <-]]|[_ ?]]; auto. Qed.
Next Obligation.
  intros t now k m l k' m' e'. cbn. rewrite lookup_insert_Some. intros [[<- [= <- <-]]|[_ ?]]; [left|by right]. eauto with lia.
Qed.
Next Obligation. intros t k k' m e. cbn. by intros [_ ?]%lookup_delete_Some. Qed.
Next Obligation. intros t k m e. cbn. by rewrite lookup_empty. Qed.

(** Buckets as a list of records, the latest first. *)
Definition Records : Type := list (string * list byte * list byte).

Fixpoint findRecord (db : Records) (b : string) (k : list byte) : option (list byte) :=
  match db with
  | [] => None
  | (b', k', v) :: db' => if decide (b = b' /\ k = k') then Some v else findRecord db' b k
  end.

#[global] Instance Records_bolt : Bolt Records := {|
  bucketGet := findRecord;
  bucketPut db b k v := (b, k, v) :: db;
  deleteBucketDNSCache _ := []
|}.

#[global] Instance Records_laws : BoltLaws Records.
Proof. by constructor. Qed.

#[global] Instance demoRDRC : RDRCStore unit := {| LoadRDRC _ _ _ _ := false; SaveRDRCAsync t _ _ _ := t |}.

(** * Messages *)

Definition demoQuestion : Question := mkQuestion "example.org." TypeA ClassINET.
Definition demoQuery (id : Z) (question : Question) : Msg := mkMsg id false false true false 0 [question] [] [] [].
Definition demoAddress : Addr := Addr4 0x01020304.

Definition demoResponse : Msg := FixedResponse 0 demoQuestion [demoAddress] 60.

#[global] Instance RR_eq_dec : EqDecision RR.
Proof. pose proof byte_eq_decision. assert (EqDecision EDNS0) by solve_decision. assert (EqDecision SVCBValue) by solve_decision.
  assert (EqDecision RRHeader) by solve_decision. solve_decision. Defined.
#[global] Instance Msg_eq_dec : EqDecision Msg.
Proof. solve_decision. Defined.

(** Only [demoResponse] has a wire format. *)
#[global] Instance demoDNSLibs : DNSLibs := {|
  Pack m := if decide (m = demoResponse) then Some [byteOf 1] else None;
  Unpack raw := if decide (raw = [byteOf 1]) then Some demoResponse else None;
  IsEdns0 m := None;
  edns_Version _ := 0;
  edns_UDPSize _ := 512;
  edns_Do _ := false;
  SetEdns0 m _ _ := m;
  IsFqdn s := hasSuffix s ".";
  Fqdn s := (s +:+ ".")%string;
  seconds d := d / second;
  groupError e1 e2 := match e1 with Some e => Some e | None => e2 end
|}.

#[global] Instance demoDNSLaws : DNSLibsLaws.
Proof.
  constructor; try done.
  intros d Hd. cbn. pose proof (Z.mul_div_le d second ltac:(done)).
  change second with 1000000000 in *. lia.
Qed.

(** * Witnesses *)

Definition demoOptions : DNSQueryOptions := mkDNSQueryOptions None 0 0 false false None 0 prefixZero.

Definition answering (m : Msg) : result Msg := Ok demoResponse.
Definition failing (m : Msg) : result Msg := Err (E_New "no network").

Definition demoFile : CacheFile Records := mkCacheFile ∅ [] [].

(** A client with a cache file: asked once, ten seconds after the epoch, then the
    flusher of the entry runs to its end. *)
Definition demoClient0 : Client (MC := MapCache) (DC := CacheFile Records) (RC := unit) :=
  Start (NewClient false false 0 0 prefixZero true) None (Some (Some demoFile)).
Definition demoClient1 :=
  (Exchange demoClient0 0 (10 * second) "up" None (demoQuery 5 demoQuestion) demoOptions None answering).1.

(** The first flusher makes a step. *)
Definition stepFirst (c : CacheFile Records) : CacheFile Records :=
  match flushers c with
  | [] => c
  | f :: l => let (c', f') := flushPendingDNSCacheWith c f true in c' {{ flushers := [] ++ option_list f' ++ l }}
  end.

Lemma stepFirst_flushes c : flushers c <> [] -> flushes true c (stepFirst c).
Proof.
  intros Hc. unfold stepFirst. destruct (flushers c) as [|f l] eqn:Hf; [done|].
  destruct (flushPendingDNSCacheWith c f true) as [c' f'] eqn:Hs. by eapply (flushes_one _ _ [] f l).
Qed.

Definition demoFiles (n : nat) : CacheFile Records := Nat.iter n stepFirst (default demoFile (dnsCache demoClient1)).
Definition demoClient (n : nat) := demoClient1 {{ dnsCache := Some (demoFiles n) }}.

Definition demoAnswers : list Answer :=
  answersOf (sends demoClient0 0 "up" None (demoQuery 5 demoQuestion) demoOptions None) (10 * second) "up" demoOptions answering
    (demoQuery 5 demoQuestion) ++ [].

Lemma demo_reaches : reaches demoAnswers (demoClient 3).
Proof.
  assert (reaches demoAnswers demoClient1) as H1.
  { apply reaches_exchange; [|done]. apply reaches_start. intros store [= <-]. split; [by split; [apply map_Forall_empty|constructor]|].
    intros tag n q raw e (q' & _ & [? Hk|? ? Hf|? ? Hl]); cbn in *; [by rewrite lookup_empty in Hk|by apply not_elem_of_nil in Hf|done]. }
  assert (reaches demoAnswers (demoClient 0)) as H0 by (replace (demoClient 0) with demoClient1 by (vm_compute; reflexivity); exact H1).
  assert (forall n, (n < 3)%nat -> reaches demoAnswers (demoClient n) -> reaches demoAnswers (demoClient (S n))) as Hs.
  { intros n Hn Hr. change (demoClient (S n)) with ((demoClient n) {{ dnsCache := Some (demoFiles (S n)) }}).
    eapply reaches_evolve; [exact Hr|done|]. apply (evolves_flush true), stepFirst_flushes.
    destruct n as [|[|[|n]]]; [vm_compute; discriminate..|lia]. }
  apply Hs; [lia|]. apply Hs; [lia|]. apply Hs; [lia|]. exact H0.
Qed.

Definition demoCall :=
  @Exchange _ _ _ _ _ _ demoDNSLibs (demoClient 3) (40 * second) (41 * second) "up" None (demoQuery 9 demoQuestion) demoOptions None failing.
Definition demoReply : Msg := match demoCall.2 with Ok (Some r, None) => r | _ => demoResponse end.

Lemma dns_answers_explained_witness :
  demoCall = (demoCall.1, Ok (Some demoReply, None)) /\ map recordTTL (msg_Answer demoReply) = [30] /\
  msg_Id demoReply = 9 /\ flushers (demoFiles 3) = [].
Proof.
  assert (demoCall = (demoCall.1, Ok (Some demoReply, None))) as He by (vm_compute; reflexivity).
  split; [exact He|]. split; [vm_compute; reflexivity|]. split; [|vm_compute; reflexivity].
  exact (proj1 (dns_answers_explained demoAnswers (demoClient 3) (40 * second) (41 * second) "up" None (demoQuery 9 demoQuestion)
    demoQuestion [] demoOptions None failing _ _ demo_reaches eq_refl He)).
Defined.

(** A negative response: its SOA record lives for an hour, with a minimum of five
    minutes. *)
Definition demoNegative : Msg :=
  mkMsg 0 true false true true RcodeNameError [demoQuestion] [] [RR_SOA (mkRRHeader "org." 6 ClassINET 3600) 300 []]
    [RR_OPT (mkRRHeader "." TypeOPT 1232 0) []].

Lemma response_lifetime_witness :
  let p := applyResponseOptions demoQuestion demoNegative demoOptions in
  p.2 = 300 /\ negative (msg_Ns demoNegative) 300 /\ Forall (fun r => isOPT r = true \/ recordTTL r = 300) (allRecords p.1).
Proof.
  intros p. assert (Forall (fun r => 0 <= recordTTL r) (allRecords demoNegative)) as Hr by (repeat constructor; vm_compute; discriminate).
  assert (applyResponseOptions demoQuestion demoNegative demoOptions = (p.1, 300)) as Hp by (vm_compute; reflexivity).
  split; [vm_compute; reflexivity|]. exact (response_lifetime demoQuestion demoNegative demoOptions p.1 300 Hr Hp).
Defined.

Definition demoAddresses : list Addr := [demoAddress; Addr6 1 ""; Addr4 5].

Lemma lookup_by_strategy_witness :
  let options := mkDNSQueryOptions None DomainStrategyIPv4Only DomainStrategyPreferIPv6 true false None 0 prefixZero in
  Lookup (RC := unit) demoClient0 0 0 true "up" None "example.org" options None (knows demoAddresses 60)
  = (demoClient0, Ok ([Addr6 1 ""; demoAddress; Addr4 5], None)).
Proof.
  intros options. assert (readable demoAddresses) as Hr by (repeat constructor; vm_compute; reflexivity).
  exact (lookup_by_strategy demoClient0 0 0 true "up" None "example.org" options demoAddresses 60 Hr eq_refl ltac:(discriminate)).
Defined.

Definition demoKey : saveCacheKey := mkSaveCacheKey "up" "example.org." 1.

(** Saved twice, the second time while the flusher writes the first. *)
Definition savedTwice : CacheFile Records :=
  File_SaveDNSCacheAsync (stepFirst (File_SaveDNSCacheAsync demoFile demoKey [byteOf 1] (10 * second))) demoKey [byteOf 2] (20 * second + 5).

Lemma latest_save_loaded_witness :
  let c := Nat.iter 5 stepFirst savedTwice in
  flushers c = [] /\ loadFile (db c) demoKey = Some ([byteOf 2], 20 * second).
Proof.
  intros c. set (last1 k := if decide (k = demoKey) then Some ([byteOf 1], 10 * second) else loadFile (db demoFile) k).
  set (last2 k := if decide (k = demoKey) then Some ([byteOf 2], 20 * second + 5) else last1 k).
  assert (exists failed, runs 2 savedTwice last2 failed /\ failed demoKey = false) as H2.
  { destruct (runs_flushes 1 (File_SaveDNSCacheAsync demoFile demoKey [byteOf 1] (10 * second)) last1 (fun k => if decide (k = demoKey) then false else false)
      true (stepFirst (File_SaveDNSCacheAsync demoFile demoKey [byteOf 1] (10 * second)))) as (failed & Hr & _).
    - change 1 with (0 + 1). apply (runs_save _ _ (loadFile (db demoFile)) (fun _ => false)); [apply runs_open|done|done].
    - apply stepFirst_flushes. vm_compute. discriminate.
    - eexists. split; [change 2 with (1 + 1); apply (runs_save _ _ last1 failed); [exact Hr|done|done]|]. cbn. by rewrite decide_True. }
  assert (forall n, (n <= 5)%nat -> exists failed, runs 2 (Nat.iter n stepFirst savedTwice) last2 failed /\ failed demoKey = false) as Hn.
  { induction n as [|n IH]; intros Hn; [exact H2|]. destruct IH as (failed & Hr & Hk); [lia|].
    destruct (runs_flushes 2 _ last2 failed true (Nat.iter (S n) stepFirst savedTwice) Hr) as (failed' & Hr' & Hk').
    - apply stepFirst_flushes. destruct n as [|[|[|[|[|n]]]]]; [vm_compute; discriminate..|lia].
    - exists failed'. split; [exact Hr'|]. by apply Hk'. }
  assert (flushers c = []) as Hf by (vm_compute; reflexivity). split; [exact Hf|].
  assert (inRange demoKey) as Hk by (unfold inRange; cbn; lia). destruct (Hn 5%nat ltac:(lia)) as (failed & Hr & Hfail).
  destruct (latest_save_loaded 2 c last2 failed demoKey Hr eq_refl Hk) as [_ Hl].
  etransitivity; [exact (proj2 (Hl Hf) Hfail)|]. vm_compute. reflexivity.
Defined.

(** * Limits of the code *)

(** [ClearDNSCache] while an entry is being written: the sequence numbers start
    again, so the old flusher takes the next save for its own, drops it from
    the queue, and the file keeps the message from before. *)
Lemma clear_loses_next_save :
  let old := stepFirst (File_SaveDNSCacheAsync demoFile demoKey [byteOf 1] (10 * second)) in
  let new := File_SaveDNSCacheAsync (File_ClearDNSCache old) demoKey [byteOf 2] (20 * second) in
  let c := Nat.iter 3 stepFirst new in
  flushers c = [] /\ File_LoadDNSCache c demoKey = Some ([byteOf 1], 10 * second).
Proof. split; vm_compute; reflexivity. Qed.

(** The cache does not know the strategy of a query: the hints that a query
    with another strategy would drop are served from it. *)
Definition httpsQuestion : Question := mkQuestion "example.org." TypeHTTPS ClassINET.
Definition httpsResponse : Msg :=
  mkMsg 0 true false true true 0 [httpsQuestion]
    [RR_HTTPS (mkRRHeader "example.org." TypeHTTPS ClassINET 60) [SVCBIPv4Hint [[]]; SVCBIPv6Hint [[]]]] [] [].
Definition ipv4Only : DNSQueryOptions := mkDNSQueryOptions None DomainStrategyIPv4Only 0 false false None 0 prefixZero.

Lemma cached_hints_ignore_strategy :
  let ask c options transport :=
    @Exchange MapCache _ (CacheFile Records) _ unit _ demoDNSLibs c 0 0 "up" None (demoQuery 5 httpsQuestion) options None transport in
  let hints r := match r with Ok (Some r, None) => map (fun rr => match rr with RR_HTTPS _ v => map svcbKey v | _ => [] end) (msg_Answer r) | _ => [] end in
  let c0 := Start (NewClient false false 0 0 prefixZero false) None None in
  hints (ask c0 ipv4Only (fun _ => Ok httpsResponse)).2 = [[SVCB_IPV4HINT]] /\
  hints (ask (ask c0 demoOptions (fun _ => Ok httpsResponse)).1 ipv4Only (fun _ => Ok httpsResponse)).2 = [[SVCB_IPV4HINT; SVCB_IPV6HINT]].
Proof. split; vm_compute; reflexivity. Qed.
