(* ===== verification/ConnPool.v ===== *)
(** The pool of connections of the DNS transports, [dns/transport/conn_pool.go]: its
    critical sections, and the goroutines between them. *)
From S2P Require Import Prelude Netip Metadata.

Inductive ConnPoolMode := ConnPoolSingle | ConnPoolOrdered.

#[global] Instance ConnPoolMode_eq_dec : EqDecision ConnPoolMode.
Proof. solve_decision. Defined.

(** [net.ErrClosed] *)
Definition net_ErrClosed : GoError := E_Lib "use of closed network connection".

Section pool.
(** Connections. *)
Context {T : Type} `{Countable T}.

(** * Data *)

(** [canceled] is the cause of the context when it is done; [shared] is
    [hasShared] and [shared]; the keys of [idleElements] are kept. *)
Record connPoolState := mkConnPoolState {
  canceled : option GoError;
  all : gset T;
  idle : list T;
  idleElements : gset T;
  shared : option T;
  sharedClaimed : bool;
  connecting : option nat
}.

Record connPoolConnect := mkConnPoolConnect { done : bool; err : option GoError }.

(** States and connects are shared by pointers, here their positions.  [sem] is what
    is left of the semaphore, [sharedCanceled] the connections whose
    [sharedCancel] was called, [closes] the calls of [options.Close]. *)
Record ConnPool := mkConnPool {
  Mode : ConnPoolMode;
  sem : option nat;
  closed : bool;
  state : option nat;
  states : list connPoolState;
  connects : list connPoolConnect;
  sharedCanceled : gset T;
  closes : list T
}.

Definition newConnPoolState : connPoolState := mkConnPoolState None ∅ [] ∅ None false None.

Definition NewConnPool (mode : ConnPoolMode) (MaxInflight : Z) : ConnPool :=
  mkConnPool mode (if bool_decide (mode = ConnPoolOrdered) && (0 <? MaxInflight) then Some (Z.to_nat MaxInflight) else None)
    false (Some 0%nat) [newConnPoolState] [] ∅ [].

(** * Goroutines *)

(** Where a goroutine is between two critical sections, or calls that other
    goroutines can see. *)
Inductive Thread :=
(* acquireOrdered and dialAndInstall *)
| AcquireOrdered
| CloseIdle (conn : T)
| AcquireSlot (s : nat)
| Dial (s : nat)
| DialClose (conn : T) (dialErr : GoError)
| Install (s : nat) (conn : T)
| InstallClose (conn : T)
| ReturnSlot (r : T + GoError)
(* acquireShared *)
| AcquireShared
| CloseShared (conn : T)
| Wait (s k : nat) (startDial : bool)
(* connectSingle *)
| ConnectSingle (s k : nat)
| ConnectClose (s k : nat) (conn : T) (dialErr : GoError)
| ConnectFinish (s k : nat) (r : T + GoError)
| ConnectCloseLate (k : nat) (conn : T)
| ConnectDone (k : nat)
(* the caller has a connection, or an error *)
| Got (conn : T) (created : bool)
| Failed (e : GoError)
(* Release and Invalidate *)
| Release (conn : T) (reuse : bool)
| ReleaseClose (conn : T)
| Invalidate (conn : T) (cause : GoError)
| InvalidateClose (conn : T) (cause : GoError)
(* Reset and Close *)
| Reset
| Close
| CloseState (s : nat) (cause : GoError)
| CloseEach (conns : list T)
| Finished
(* a nil pointer *)
| Crashed.

(** What a goroutine meets: the answer of [IsAlive], the outcome of the dialer with the
    error of the context of the caller, a context that is done, or what the
    caller does with its connection. *)
Inductive Choice :=
| Go
| Alive (alive : bool)
| DialResult (r : T + GoError) (ctxErr : option GoError)
| CtxDone (ctxErr : GoError)
| StateDone
| CallRelease (reuse : bool)
| CallInvalidate (cause : GoError).

(** * Operations *)

Definition onState (s : nat) (f : connPoolState -> connPoolState) (p : ConnPool) : ConnPool :=
  p {{ states := alter f s (states p) }}.

Definition closeConn (p : ConnPool) (conn : T) : ConnPool := p {{ closes := closes p ++ [conn] }}.

(** The state that [p.state] points to. *)
Definition withState (p : ConnPool) (k : nat -> connPoolState -> ConnPool * Thread) : ConnPool * Thread :=
  match state p with
  | None => (p, Crashed)
  | Some s => match states p !! s with None => (p, Crashed) | Some st => k s st end
  end.

Definition releaseSlot (p : ConnPool) : ConnPool :=
  match sem p with Some n => p {{ sem := Some (S n) }} | None => p end.

(** [removeConn] on the state, and with the context of a shared connection. *)
Definition removeState (mode : ConnPoolMode) (conn : T) (st : connPoolState) : connPoolState :=
  let st := st {{ all := all st ∖ {[conn]} }} in
  match mode with
  | ConnPoolSingle =>
      if bool_decide (shared st = Some conn) then st {{ shared := None; sharedClaimed := false }} else st
  | ConnPoolOrdered =>
      if bool_decide (conn ∈ idleElements st)
      then st {{ idle := filter (fun c => c <> conn) (idle st); idleElements := idleElements st ∖ {[conn]} }}
      else st
  end.

Definition isShared (p : ConnPool) (s : nat) (conn : T) : bool :=
  match Mode p, states p !! s with
  | ConnPoolSingle, Some st => bool_decide (shared st = Some conn)
  | _, _ => false
  end.

Definition removeConn (p : ConnPool) (s : nat) (conn : T) : ConnPool :=
  let sharedCanceled' := if isShared p s conn then sharedCanceled p ∪ {[conn]} else sharedCanceled p in
  onState s (removeState (Mode p) conn) p {{ sharedCanceled := sharedCanceled' }}.

Definition release (p : ConnPool) (conn : T) (reuse alive : bool) : ConnPool * Thread :=
  if closed p then (p, ReleaseClose conn)
  else withState p (fun s st =>
    if negb (bool_decide (conn ∈ all st)) then (p, ReleaseClose conn)
    else if negb reuse || negb alive then (removeConn p s conn, ReleaseClose conn)
    else
      match Mode p with
      | ConnPoolOrdered =>
          (if bool_decide (conn ∈ idleElements st) then p
           else onState s (fun st => st {{ idle := idle st ++ [conn]; idleElements := idleElements st ∪ {[conn]} }}) p, Finished)
      | ConnPoolSingle => (p, Finished)
      end).

Definition invalidate (p : ConnPool) (conn : T) (cause : GoError) : ConnPool * Thread :=
  if closed p then (p, InvalidateClose conn cause)
  else withState p (fun s st =>
    if negb (bool_decide (conn ∈ all st)) then (p, Finished)
    else (removeConn p s conn, InvalidateClose conn cause)).

Definition reset (p : ConnPool) : ConnPool * Thread :=
  if closed p then (p, Finished)
  else withState p (fun oldState _ =>
    (p {{ states := states p ++ [newConnPoolState]; state := Some (length (states p)) }}, CloseState oldState net_ErrClosed)).

Definition close (p : ConnPool) : ConnPool * Thread :=
  if closed p then (p, Finished)
  else withState p (fun oldState _ => (p {{ closed := true; state := None }}, CloseState oldState net_ErrClosed)).

Definition acquireOrdered (p : ConnPool) (alive : bool) : ConnPool * Thread :=
  if closed p then (p, Failed net_ErrClosed)
  else withState p (fun s st =>
    match idle st with
    | idleConn :: idle' =>
        let p := onState s (fun st => st {{ idle := idle'; idleElements := idleElements st ∖ {[idleConn]} }}) p in
        if alive then (p, Got idleConn false)
        else (onState s (fun st => st {{ all := all st ∖ {[idleConn]} }}) p, CloseIdle idleConn)
    | [] => (p, AcquireSlot s)
    end).

(** [dialErr] after a dial that belongs to the state [s]. *)
Definition dialErr (p : ConnPool) (s : nat) (ctxErr : option GoError) : option GoError :=
  match ctxErr with
  | Some e => Some e
  | None => match states p !! s with Some st => canceled st | None => None end
  end.

Definition dialed (p : ConnPool) (s : nat) (r : T + GoError) (ctxErr : option GoError) : Thread :=
  match r, dialErr p s ctxErr with
  | inr _, Some dialErr => ReturnSlot (inr dialErr)
  | inr e, None => ReturnSlot (inr e)
  | inl conn, Some dialErr => DialClose conn dialErr
  | inl conn, None => Install s conn
  end.

Definition install (p : ConnPool) (s : nat) (conn : T) : ConnPool * Thread :=
  if closed p then (p, InstallClose conn)
  else if negb (bool_decide (state p = Some s)) then (p, InstallClose conn)
  else (onState s (fun st => st {{ all := all st ∪ {[conn]} }}) p, ReturnSlot (inl conn)).

(** The shared connection is handed out, or removed when it is not alive. *)
Definition claim (p : ConnPool) (s : nat) (st : connPoolState) (conn : T) (alive : bool) : ConnPool * Thread :=
  if alive then (onState s (fun st => st {{ sharedClaimed := true }}) p, Got conn (negb (sharedClaimed st)))
  else (removeConn p s conn, CloseShared conn).

Definition addConnect (p : ConnPool) : ConnPool := p {{ connects := connects p ++ [mkConnPoolConnect false None] }}.

(** The start of [acquireShared], with the goroutine it starts. *)
Definition acquireShared (p : ConnPool) (alive : bool) : ConnPool * Thread * list Thread :=
  if closed p then (p, Failed net_ErrClosed, [])
  else
    match state p with
    | None => (p, Crashed, [])
    | Some s =>
        match states p !! s with
        | None => (p, Crashed, [])
        | Some st =>
            match shared st with
            | Some conn => (claim p s st conn alive, [])
            | None =>
                match connecting st with
                | Some k => (p, Wait s k false, [])
                | None =>
                    let k := length (connects p) in
                    (onState s (fun st => st {{ connecting := Some k }}) (addConnect p), Wait s k true, [ConnectSingle s k])
                end
            end
        end
    end.

Definition connected (p : ConnPool) (s k : nat) (r : T + GoError) (ctxErr : option GoError) : Thread :=
  match r, dialErr p s ctxErr with
  | inl conn, Some dialErr => ConnectClose s k conn dialErr
  | inr _, Some dialErr => ConnectFinish s k (inr dialErr)
  | r, None => ConnectFinish s k r
  end.

Definition onConnect (k : nat) (f : connPoolConnect -> connPoolConnect) (p : ConnPool) : ConnPool :=
  p {{ connects := alter f k (connects p) }}.

Definition connectFinish (p : ConnPool) (s k : nat) (r : T + GoError) : ConnPool * Thread :=
  let p := onState s (fun st => st {{ connecting := None }}) p in
  match r with
  | inr e => (onConnect k (fun c => c {{ err := Some e }}) p, ConnectDone k)
  | inl conn =>
      if closed p || negb (bool_decide (state p = Some s))
      then (onConnect k (fun c => c {{ err := Some net_ErrClosed }}) p, ConnectCloseLate k conn)
      else (onState s (fun st => st {{ shared := Some conn; all := all st ∪ {[conn]} }}) p, ConnectDone k)
  end.

Definition collectShared (p : ConnPool) (s k : nat) (startDial alive : bool) : ConnPool * Thread :=
  match connects p !! k with
  | None => (p, Crashed)
  | Some c =>
      match err c with
      | Some e => (p, if startDial then Failed e else AcquireShared)
      | None =>
          if closed p then (p, Failed net_ErrClosed)
          else if negb (bool_decide (state p = Some s)) then (p, Failed net_ErrClosed)
          else withState p (fun s st =>
            match shared st with
            | None => (p, AcquireShared)
            | Some conn => claim p s st conn alive
            end)
      end
  end.

Definition isDone (p : ConnPool) (k : nat) : bool := match connects p !! k with Some c => done c | None => false end.

Definition stateCause (p : ConnPool) (s : nat) : option GoError :=
  match states p !! s with Some st => canceled st | None => None end.

(** One step of a goroutine, with the goroutines it starts. *)
Definition threadStep (p : ConnPool) (t : Thread) (c : Choice) : option (ConnPool * Thread * list Thread) :=
  match t, c with
  | AcquireOrdered, Alive alive => Some (acquireOrdered p alive, [])
  | CloseIdle conn, Go => Some (closeConn p conn, AcquireOrdered, [])
  | AcquireSlot s, Go =>
      match sem p with
      | None => Some (p, Dial s, [])
      | Some (S n) => Some (p {{ sem := Some n }}, Dial s, [])
      | Some O => None
      end
  | AcquireSlot s, CtxDone e => if isNil (sem p) then None else Some (p, Failed e, [])
  | AcquireSlot s, StateDone =>
      if isNil (sem p) then None
      else match stateCause p s with Some e => Some (p, Failed e, []) | None => None end
  | Dial s, DialResult r ctxErr => Some (p, dialed p s r ctxErr, [])
  | DialClose conn dialErr, Go => Some (closeConn p conn, ReturnSlot (inr dialErr), [])
  | Install s conn, Go => Some (install p s conn, [])
  | InstallClose conn, Go => Some (closeConn p conn, ReturnSlot (inr net_ErrClosed), [])
  | ReturnSlot r, Go => Some (releaseSlot p, match r with inl conn => Got conn true | inr e => Failed e end, [])
  | AcquireShared, Alive alive => Some (acquireShared p alive)
  | CloseShared conn, Go => Some (closeConn p conn, AcquireShared, [])
  | Wait s k startDial, Alive alive => if isDone p k then Some (collectShared p s k startDial alive, []) else None
  | Wait s k startDial, CtxDone e => Some (p, Failed e, [])
  | Wait s k startDial, StateDone =>
      if isNil (stateCause p s) then None else Some (p, if closed p then Failed net_ErrClosed else AcquireShared, [])
  | ConnectSingle s k, DialResult r ctxErr => Some (p, connected p s k r ctxErr, [])
  | ConnectClose s k conn dialErr, Go => Some (closeConn p conn, ConnectFinish s k (inr dialErr), [])
  | ConnectFinish s k r, Go => Some (connectFinish p s k r, [])
  | ConnectCloseLate k conn, Go => Some (closeConn p conn, ConnectDone k, [])
  | ConnectDone k, Go => Some (onConnect k (fun c => c {{ done := true }}) p, Finished, [])
  | Got conn _, CallRelease reuse => Some (p, Release conn reuse, [])
  | Got conn _, CallInvalidate cause => Some (p, Invalidate conn cause, [])
  | Release conn reuse, Alive alive => Some (release p conn reuse alive, [])
  | ReleaseClose conn, Go => Some (closeConn p conn, Finished, [])
  | Invalidate conn cause, Go => Some (invalidate p conn cause, [])
  | InvalidateClose conn cause, Go => Some (closeConn p conn, Finished, [])
  | Reset, Go => Some (reset p, [])
  | Close, Go => Some (close p, [])
  | CloseState s cause, Go =>
      Some (onState s (fun st => st {{ canceled := Some (default cause (canceled st)) }}) p,
            CloseEach (match states p !! s with Some st => elements (all st) | None => [] end), [])
  | CloseEach [], Go => Some (p, Finished, [])
  | CloseEach (conn :: conns), Go => Some (closeConn p conn, CloseEach conns, [])
  | _, _ => None
  end.

(** * Interleavings *)

(** The goroutines, and the connections that dialers have returned. *)
Record World := mkWorld { pool : ConnPool; threads : list Thread; made : gset T }.

Definition Acquire (mode : ConnPoolMode) : Thread :=
  match mode with ConnPoolSingle => AcquireShared | ConnPoolOrdered => AcquireOrdered end.

(** Calls from outside: connections of an ordered pool are released by those who
    got them; anyone may release or invalidate the connection of a shared one. *)
Definition callable (mode : ConnPoolMode) (t : Thread) : bool :=
  match t with
  | AcquireShared | Release _ _ => bool_decide (mode = ConnPoolSingle)
  | AcquireOrdered => bool_decide (mode = ConnPoolOrdered)
  | Invalidate _ _ | Reset | Close => true
  | _ => false
  end.

Inductive Action :=
| Step (i : nat) (c : Choice)
| Call (t : Thread).

(** A dialer returns a new connection. *)
Definition madeBy (c : Choice) : gset T := match c with DialResult (inl conn) _ => {[conn]} | _ => ∅ end.

Definition step (w : World) (a : Action) : option World :=
  match a with
  | Call t => if callable (Mode (pool w)) t then Some (mkWorld (pool w) (threads w ++ [t]) (made w)) else None
  | Step i c =>
      match threads w !! i with
      | None => None
      | Some t =>
          if bool_decide (madeBy c ## made w) then
            match threadStep (pool w) t c with
            | Some (p, t', spawned) => Some (mkWorld p (<[i := t']> (threads w) ++ spawned) (made w ∪ madeBy c))
            | None => None
            end
          else None
      end
  end.

Inductive reachable (mode : ConnPoolMode) (MaxInflight : Z) : World -> Prop :=
| reachable_init : reachable mode MaxInflight (mkWorld (NewConnPool mode MaxInflight) [] ∅)
| reachable_step w a w' : reachable mode MaxInflight w -> step w a = Some w' -> reachable mode MaxInflight w'.

Fixpoint run (w : World) (actions : list Action) : option World :=
  match actions with
  | [] => Some w
  | a :: actions' => match step w a with Some w' => run w' actions' | None => None end
  end.
End pool.

Arguments connPoolState : clear implicits.
Arguments connPoolState T {_ _}.
Arguments ConnPool : clear implicits.
Arguments ConnPool T {_ _}.
Arguments World : clear implicits.
Arguments World T {_ _}.
Arguments Thread : clear implicits.
Arguments Choice : clear implicits.
Arguments Action : clear implicits.
