(* ===== verification/ConnPoolSpec.v ===== *)
(** What the pool of connections promises: nothing is leaked, a connection has one
    owner, dials are limited, and no goroutine waits for ever. *)
From S2P Require Import Prelude Netip Metadata ConnPool.

Create HintDb conn_pool.

Section spec.
Context {T : Type} `{Countable T}.
Implicit Types (p : ConnPool T) (t : Thread T) (w : World T) (conn : T).

(** * Steps *)

Lemma step_cases w a w' : step w a = Some w' ->
  (exists t, callable (Mode (pool w)) t = true /\ w' = mkWorld (pool w) (threads w ++ [t]) (made w)) \/
  (exists l1 t l2 c p' t' spawned, threads w = l1 ++ t :: l2 /\ madeBy c ## made w /\
    threadStep (pool w) t c = Some (p', t', spawned) /\ w' = mkWorld p' (l1 ++ t' :: l2 ++ spawned) (made w ∪ madeBy c)).
Proof.
  destruct a as [i c|t]; cbn.
  - destruct (threads w !! i) as [t|] eqn:Ht; [|done]. case_bool_decide; [|done].
    destruct (threadStep _ _ _) as [[[p' t'] spawned]|] eqn:Hs; [|done]. intros [= <-]. right.
    exists (take i (threads w)), t, (drop (S i) (threads w)), c, p', t', spawned. split_and!; try done.
    + by rewrite take_drop_middle.
    + f_equal. rewrite insert_take_drop by (by eapply lookup_lt_Some). by rewrite <- app_assoc.
  - destruct (callable _ _) eqn:Hc; [|done]. intros [= <-]. left. by exists t.
Qed.

(** * What a step does to the pool *)

(** Calls add connections to close; states that are not current keep their
    connections; positions stay valid. *)
Record evolves p p' : Prop := {
  ev_mode : Mode p' = Mode p;
  ev_closed : closed p = true -> closed p' = true;
  ev_states : (length (states p) <= length (states p'))%nat;
  ev_connects : (length (connects p) <= length (connects p'))%nat;
  ev_closes : forall conn, conn ∈ closes p -> conn ∈ closes p';
  ev_current : forall s, (s < length (states p))%nat -> state p' = Some s -> state p = Some s;
  ev_frozen : forall s st, states p !! s = Some st -> state p <> Some s ->
    exists st', states p' !! s = Some st' /\ all st' = all st
}.

Record wf p : Prop := {
  wf_closed : closed p = true <-> state p = None;
  wf_state : forall s, state p = Some s -> S s = length (states p);
  wf_connecting : forall s st k, states p !! s = Some st -> connecting st = Some k -> (k < length (connects p))%nat
}.

(** Positions that a goroutine uses are valid. *)
Definition valid p t : Prop :=
  match t with
  | AcquireSlot s | Dial s | Install s _ => (s < length (states p))%nat
  | Wait s k _ | ConnectSingle s k | ConnectClose s k _ _ | ConnectFinish s k _ =>
      (s < length (states p))%nat /\ (k < length (connects p))%nat
  | ConnectCloseLate k _ | ConnectDone k => (k < length (connects p))%nat
  | CloseState s _ => (s < length (states p))%nat /\ state p <> Some s
  | Crashed => False
  | _ => True
  end.

Lemma evolves_refl p : evolves p p.
Proof. constructor; eauto. Qed.

Lemma valid_evolves p p' t : evolves p p' -> valid p t -> valid p' t.
Proof.
  intros E. pose proof (ev_states _ _ E). pose proof (ev_connects _ _ E). destruct t; cbn; try (intuition lia); try done.
  intros [Hs Hn]. split; [lia|]. intros Hs'. by apply Hn, (ev_current _ _ E).
Qed.

Lemma evolves_trans p p' p'' : evolves p p' -> evolves p' p'' -> evolves p p''.
Proof.
  intros [] []. constructor; try (by eauto); try lia; try congruence.
  - intros s Hs Hs''. apply ev_current0; [done|]. apply ev_current1; [lia|done].
  - intros s st Hst Hs. destruct (ev_frozen0 s st Hst Hs) as (st' & Hst' & <-). apply ev_frozen1; [done|].
    intros Hs'. apply Hs, ev_current0; [by eapply lookup_lt_Some|done].
Qed.

(** Updates of one state: the current one, or without a change to its connections. *)
Lemma update_evolves p p' s f : wf p -> Mode p' = Mode p -> closed p' = closed p -> state p' = state p ->
  (forall conn, conn ∈ closes p -> conn ∈ closes p') -> (length (connects p) <= length (connects p'))%nat ->
  states p' = alter f s (states p) -> (state p = Some s \/ forall st, all (f st) = all st) ->
  (forall st k, connecting (f st) = Some k -> connecting st = Some k \/ (k < length (connects p'))%nat) -> evolves p p' /\ wf p'.
Proof.
  intros Hwf Hm Hc Hst Hcl Hco Hs Hf Hk. split; [constructor|constructor]; try done; try congruence.
  - by rewrite Hs, length_alter.
  - intros s' st Hl Hn. rewrite Hs. destruct (decide (s = s')) as [<-|].
    + destruct Hf as [|Hf]; [done|]. exists (f st). rewrite list_lookup_alter_eq, Hl. by rewrite Hf.
    + exists st. by rewrite list_lookup_alter_ne.
  - rewrite Hc, Hst. apply Hwf.
  - rewrite Hst, Hs, length_alter. apply Hwf.
  - intros s' st k. rewrite Hs. destruct (decide (s = s')) as [<-|].
    + rewrite list_lookup_alter_eq. destruct (states p !! s) as [st0|] eqn:Hst0; [|done]. intros [= <-] Hkk.
      destruct (Hk _ _ Hkk); [|done]. eapply Nat.lt_le_trans; [by eapply (wf_connecting _ Hwf)|done].
    + rewrite list_lookup_alter_ne by done. intros Hst0 Hkk. eapply Nat.lt_le_trans; [by eapply (wf_connecting _ Hwf)|done].
Qed.

Lemma onState_evolves p s f : wf p -> (state p = Some s \/ forall st, all (f st) = all st) ->
  (forall st, connecting (f st) = None \/ connecting (f st) = connecting st) ->
  evolves p (onState s f p) /\ wf (onState s f p).
Proof. intros Hwf Hf Hk. apply (update_evolves p _ s f); try done. intros st k Hst. destruct (Hk st); [congruence|left; congruence]. Qed.

Lemma unchanged_evolves p p' : wf p -> Mode p' = Mode p -> closed p' = closed p -> state p' = state p ->
  (forall conn, conn ∈ closes p -> conn ∈ closes p') -> (length (connects p) <= length (connects p'))%nat ->
  states p' = states p -> evolves p p' /\ wf p'.
Proof.
  intros. apply (update_evolves p p' 0 id); try done; [|by right|by left]. rewrite list_alter_id; [done|done].
Qed.

Lemma closeConn_evolves p conn : wf p -> evolves p (closeConn p conn) /\ wf (closeConn p conn).
Proof. intros. apply unchanged_evolves; try done. intros c Hc. cbn. apply elem_of_app. by left. Qed.

Lemma removeConn_evolves p s conn : wf p -> state p = Some s -> evolves p (removeConn p s conn) /\ wf (removeConn p s conn).
Proof. intros Hwf Hs. apply (update_evolves p _ s (removeState (Mode p) conn)); try done; [by left|].
  intros st k Hk. left. rewrite <- Hk. unfold removeState. destruct (Mode p); cbn; case_bool_decide; done.
Qed.

(** The current state exists. *)
Lemma wf_withState p k : wf p -> closed p = false -> exists s st, state p = Some s /\ states p !! s = Some st /\ withState p k = k s st.
Proof.
  intros [Hc Hs _] Hcl. unfold withState. destruct (state p) as [s|] eqn:Hst; [|rewrite (proj2 Hc) in Hcl; done].
  destruct (lookup_lt_is_Some_2 (states p) s) as [st Hl]; [rewrite <- (Hs s); [lia|done]|]. exists s, st. by rewrite Hl.
Qed.

(** A section that leaves the pool as it is, or updates the current state. *)
Definition good p (r : ConnPool T * Thread T) : Prop := evolves p r.1 /\ wf r.1 /\ valid r.1 r.2.

Lemma good_same p t : wf p -> valid p t -> good p (p, t).
Proof. intros. split_and!; [apply evolves_refl|done..]. Qed.

Lemma good_update p p' t : evolves p p' /\ wf p' -> valid p' t -> good p (p', t).
Proof. intros [] ?. by split_and!. Qed.

Lemma claim_good p s st conn alive : wf p -> state p = Some s -> good p (claim p s st conn alive).
Proof.
  intros Hwf Hs. unfold claim. destruct alive; apply good_update; try done.
  - apply onState_evolves; [done|by left|by right].
  - by apply removeConn_evolves.
Qed.

Lemma release_good p conn reuse alive : wf p -> good p (release p conn reuse alive).
Proof.
  intros Hwf. unfold release. destruct (closed p) eqn:Hc; [by apply good_same|].
  match goal with |- good _ (withState _ ?k) => destruct (wf_withState p k Hwf Hc) as (s & st & Hs & Hst & ->) end.
  destruct (negb _); [by apply good_same|]. destruct (_ || _); [by apply good_update; [apply removeConn_evolves|]|].
  destruct (Mode p); [by apply good_same|]. case_bool_decide; [by apply good_same|].
  apply good_update; [|done]. apply onState_evolves; [done|by left|by right].
Qed.

Lemma invalidate_good p conn cause : wf p -> good p (invalidate p conn cause).
Proof.
  intros Hwf. unfold invalidate. destruct (closed p) eqn:Hc; [by apply good_same|].
  match goal with |- good _ (withState _ ?k) => destruct (wf_withState p k Hwf Hc) as (s & st & Hs & Hst & ->) end.
  destruct (negb _); [by apply good_same|]. by apply good_update; [apply removeConn_evolves|].
Qed.

Lemma acquireOrdered_good p alive : wf p -> good p (acquireOrdered p alive).
Proof.
  intros Hwf. unfold acquireOrdered. destruct (closed p) eqn:Hc; [by apply good_same|].
  match goal with |- good _ (withState _ ?k) => destruct (wf_withState p k Hwf Hc) as (s & st & Hs & Hst & ->) end.
  destruct (idle st) as [|idleConn idle'].
  { apply good_same; [done|]. cbn. by eapply lookup_lt_Some. }
  match goal with |- context [onState s ?f p] => destruct (onState_evolves p s f Hwf (or_introl Hs) (fun _ => or_intror eq_refl)) as [E1 W1] end.
  destruct alive; apply good_update; try done.
  match goal with |- evolves _ (onState s ?f ?q) /\ _ => destruct (onState_evolves q s f W1 (or_introl Hs) (fun _ => or_intror eq_refl)) as [E2 W2] end.
  split; [by eapply evolves_trans|done].
Qed.

Lemma install_good p s conn : wf p -> (s < length (states p))%nat -> good p (install p s conn).
Proof.
  intros Hwf Hl. unfold install. destruct (closed p) eqn:Hc; [by apply good_same|].
  case_bool_decide as Hs; cbn [negb]; [|by apply good_same]. apply good_update; [|done]. apply onState_evolves; [done|by left|by right].
Qed.

Lemma replaced_good p p' s : wf p -> state p = Some s -> Mode p' = Mode p -> closes p' = closes p -> connects p' = connects p ->
  (closed p' = true /\ state p' = None /\ states p' = states p \/
   closed p' = false /\ state p' = Some (length (states p)) /\ states p' = states p ++ [newConnPoolState]) ->
  closed p = false -> good p (p', CloseState s net_ErrClosed).
Proof.
  intros [Hc Hl Hk] Hs Hm Hcl Hco Hp Hclosed. specialize (Hl s Hs) as Hsl.
  assert (evolves p p' /\ wf p') as [E W].
  { destruct Hp as [(Hc' & Hs' & Hst)|(Hc' & Hs' & Hst)]; (split; [constructor|constructor]);
      rewrite ?Hst, ?Hcl, ?Hco, ?Hc', ?Hs'; try done; try congruence; rewrite ?length_app; cbn; try lia.
    - eauto.
    - intros s' Hs1 [= <-]. lia.
    - intros s' st Hst' _. exists st. split; [|done]. by apply lookup_app_l_Some.
    - intros s' [= <-]. lia.
    - intros s' st k. rewrite lookup_app_Some. intros [Hst'|[_ Hst']]; [by eapply Hk|]. by apply list_lookup_singleton_Some in Hst' as [_ <-]. }
  split_and!; try done. cbn. destruct Hp as [(_ & -> & ->)|(_ & -> & ->)]; [split; [lia|done]|].
  rewrite length_app. cbn. split; [lia|]. intros [= ?]. lia.
Qed.

Lemma reset_good p : wf p -> good p (reset p).
Proof.
  intros Hwf. unfold reset. destruct (closed p) eqn:Hc; [by apply good_same|].
  match goal with |- good _ (withState _ ?k) => destruct (wf_withState p k Hwf Hc) as (s & st & Hs & Hst & ->) end.
  apply replaced_good; try done. by right.
Qed.

Lemma close_good p : wf p -> good p (close p).
Proof.
  intros Hwf. unfold close. destruct (closed p) eqn:Hc; [by apply good_same|].
  match goal with |- good _ (withState _ ?k) => destruct (wf_withState p k Hwf Hc) as (s & st & Hs & Hst & ->) end.
  apply replaced_good; try done. by left.
Qed.

Lemma onConnect_valid p k f : (k < length (connects p))%nat -> (k < length (connects (onConnect k f p)))%nat.
Proof. intros Hk. change (connects (onConnect k f p)) with (alter f k (connects p)). by rewrite length_alter. Qed.

Lemma onConnect_evolves p0 p k f : wf p -> evolves p0 p -> evolves p0 (onConnect k f p) /\ wf (onConnect k f p).
Proof.
  intros Hwf He. assert (evolves p (onConnect k f p) /\ wf (onConnect k f p)) as [E W].
  { apply unchanged_evolves; try done. change (connects (onConnect k f p)) with (alter f k (connects p)). by rewrite length_alter. }
  split; [by eapply evolves_trans|done].
Qed.

Lemma connectFinish_good p s k r : wf p -> (k < length (connects p))%nat -> good p (connectFinish p s k r).
Proof.
  intros Hwf Hk. unfold connectFinish.
  match goal with |- context [onState s ?f p] => destruct (onState_evolves p s f Hwf (or_intror (fun _ => eq_refl)) (fun _ => or_introl eq_refl)) as [E1 W1] end.
  destruct r as [conn|e].
  - destruct (_ || _) eqn:Hb.
    + apply good_update; [|by apply onConnect_valid]. by apply onConnect_evolves.
    + apply orb_false_iff in Hb as [_ Hb]. apply negb_false_iff, bool_decide_eq_true in Hb.
      apply good_update; [|done].
      match goal with |- evolves _ (onState s ?f ?q) /\ _ => destruct (onState_evolves q s f W1 (or_introl Hb) (fun _ => or_intror eq_refl)) as [E2 W2] end.
      split; [by eapply evolves_trans|done].
  - apply good_update; [|by apply onConnect_valid]. by apply onConnect_evolves.
Qed.

Lemma collectShared_good p s k startDial alive : wf p -> (k < length (connects p))%nat -> good p (collectShared p s k startDial alive).
Proof.
  intros Hwf Hk. unfold collectShared. destruct (lookup_lt_is_Some_2 (connects p) k Hk) as [c ->].
  destruct (err c); [by apply good_same; [|destruct startDial]|]. destruct (closed p) eqn:Hc; [by apply good_same|].
  destruct (negb _); [by apply good_same|].
  match goal with |- good _ (withState _ ?k) => destruct (wf_withState p k Hwf Hc) as (s' & st & Hs & Hst & ->) end.
  destruct (shared st); [by apply claim_good|by apply good_same].
Qed.

Lemma acquireShared_good p alive : wf p ->
  good p (acquireShared p alive).1 /\ Forall (valid (acquireShared p alive).1.1) (acquireShared p alive).2.
Proof.
  intros Hwf. unfold acquireShared. destruct (closed p) eqn:Hc; [split; [by apply good_same|done]|].
  destruct (wf_withState p (fun _ _ => (p, Finished)) Hwf Hc) as (s & st & Hs & Hst & _). rewrite Hs, Hst.
  assert (s < length (states p))%nat as Hl by (by eapply lookup_lt_Some).
  destruct (shared st); [split; [by apply claim_good|done]|]. destruct (connecting st) as [k|] eqn:Hk.
  - split; [|done]. apply good_same; [done|]. cbn. split; [done|by eapply (wf_connecting _ Hwf)].
  - cbn [fst snd]. set (p' := onState s _ (addConnect p)).
    assert (connects p' = connects p ++ [mkConnPoolConnect false None]) as Hc' by done.
    assert (states p' = alter (fun st => st {{ connecting := Some (length (connects p)) }}) s (states p)) as Hs' by done.
    assert (forall b, valid p' (Wait s (length (connects p)) b)) as Hv.
    { intros b. unfold valid. rewrite Hc', Hs', length_alter, length_app. cbn. lia. }
    split; [|constructor; [apply (Hv true)|done]]. apply good_update; [|done].
    eapply update_evolves; [done..| | |exact Hs'|by left|]; rewrite ?Hc', ?length_app; [done|cbn; lia|].
    intros st0 k [= <-]. right. cbn. lia.
Qed.

Lemma good_step p (r : ConnPool T * Thread T) p' t' spawned : good p r -> Some (r, []) = Some (p', t', spawned) ->
  evolves p p' /\ wf p' /\ Forall (valid p') (t' :: spawned).
Proof. intros (E & W & V) [= -> <-]. split_and!; [done..|by constructor]. Qed.

Lemma releaseSlot_evolves p : wf p -> evolves p (releaseSlot p) /\ wf (releaseSlot p).
Proof. intros. unfold releaseSlot. destruct (sem p); by apply unchanged_evolves. Qed.

Lemma dialed_valid p s r e : (s < length (states p))%nat -> valid p (dialed p s r e).
Proof. intros. unfold dialed. destruct r, (dialErr p s e); done. Qed.

Lemma connected_valid p s k r e : (s < length (states p))%nat -> (k < length (connects p))%nat -> valid p (connected p s k r e).
Proof. intros. unfold connected. destruct r, (dialErr p s e); done. Qed.

Lemma threadStep_evolves p t c p' t' spawned : wf p -> valid p t -> threadStep p t c = Some (p', t', spawned) ->
  evolves p p' /\ wf p' /\ Forall (valid p') (t' :: spawned).
Proof.
  intros Hwf Hv. pose proof (closeConn_evolves p) as Hclose.
  destruct t, c; cbn [threadStep]; try discriminate; unfold valid in Hv; try (destruct conns; try discriminate);
    try (apply good_step; first [by apply good_same|by apply good_update; [apply Hclose|]]).
  - by apply good_step, acquireOrdered_good.
  - destruct (sem p) as [[|n]|]; [done|..]; apply good_step; [apply good_update; [by apply unchanged_evolves|done]|by apply good_same].
  - destruct (isNil _); [done|]. by apply good_step, good_same.
  - destruct (isNil _); [done|]. destruct (stateCause p s); [|done]. by apply good_step, good_same.
  - apply good_step, good_same; [done|]. by apply dialed_valid.
  - by apply good_step, install_good.
  - apply good_step, good_update; [by apply releaseSlot_evolves|by destruct r].
  - destruct (acquireShared_good p alive Hwf) as [(E & W & V) F]. destruct (acquireShared p alive) as [[p1 t1] sp]. intros [= <- <- <-].
    split_and!; [done..|by constructor].
  - destruct (isDone p k); [|done]. by apply good_step, collectShared_good; [|apply Hv].
  - destruct (isNil _); [done|]. by apply good_step, good_same; [|destruct (closed p)].
  - apply good_step, good_same; [done|]. by apply connected_valid; apply Hv.
  - by apply good_step, connectFinish_good; [|apply Hv].
  - apply good_step, good_update; [|done]. by apply onConnect_evolves; [|apply evolves_refl].
  - by apply good_step, release_good.
  - by apply good_step, invalidate_good.
  - by apply good_step, reset_good.
  - by apply good_step, close_good.
  - apply good_step, good_update; [|done]. apply onState_evolves; [done|by right|by right].
Qed.

(** * No connection is leaked *)

(** The current state knows the connection. *)
Definition tracked p conn : Prop := exists s st, state p = Some s /\ states p !! s = Some st /\ conn ∈ all st.

(** The goroutine is about to close the connection, or to add it to a state. *)
Definition responsible p t conn : Prop :=
  match t with
  | CloseIdle c | DialClose c _ | Install _ c | InstallClose c | CloseShared c | ConnectClose _ _ c _
  | ConnectFinish _ _ (inl c) | ConnectCloseLate _ c | ReleaseClose c | InvalidateClose c _ => c = conn
  | CloseState s _ => exists st, states p !! s = Some st /\ conn ∈ all st
  | CloseEach conns => conn ∈ conns
  | _ => False
  end.

Definition covered p (ts : list (Thread T)) conn : Prop :=
  conn ∈ closes p \/ tracked p conn \/ Exists (fun t => responsible p t conn) ts.

Lemma responsible_evolves p p' t conn : evolves p p' -> valid p t -> responsible p t conn -> responsible p' t conn.
Proof.
  intros E V. destruct t; try done. cbn in *. destruct V as [_ Hn]. intros (st & Hst & Hc).
  destruct (ev_frozen _ _ E s st Hst Hn) as (st' & Hst' & Ha). exists st'. by rewrite Ha.
Qed.

Lemma tracked_update p p' s f conn : state p' = state p -> states p' = alter f s (states p) ->
  (forall st, conn ∈ all st -> conn ∈ all (f st)) -> tracked p conn -> tracked p' conn.
Proof.
  intros Hs Hst Hf (s0 & st & Hs0 & Hst0 & Hc). destruct (decide (s = s0)) as [<-|Hne].
  - exists s, (f st). rewrite Hs, Hst, list_lookup_alter_eq, Hst0. by split_and!; [..|apply Hf].
  - exists s0, st. by rewrite Hs, Hst, list_lookup_alter_ne.
Qed.

Lemma tracked_same p p' conn : state p' = state p -> states p' = states p -> tracked p conn -> tracked p' conn.
Proof. intros Hs Hst. unfold tracked. by rewrite Hs, Hst. Qed.

Lemma all_removeState mode conn (st : connPoolState T) : all (removeState mode conn st) = all st ∖ {[conn]}.
Proof. unfold removeState. destruct mode; cbn; case_bool_decide; done. Qed.

(** A section after which a goroutine goes on with [r.2]. *)
Definition keeps p (r : ConnPool T * Thread T) : Prop := forall conn, tracked p conn -> covered r.1 [r.2] conn.

Lemma keeps_tracked p r : (forall conn, tracked p conn -> tracked r.1 conn) -> keeps p r.
Proof. intros Hk conn Hc. right. left. by apply Hk. Qed.

Lemma keeps_same p t : keeps p (p, t).
Proof. by apply keeps_tracked. Qed.

Lemma keeps_removed p s c t : responsible (removeConn p s c) t c -> keeps p (removeConn p s c, t).
Proof.
  intros Hr conn Hc. destruct (decide (conn = c)) as [->|Hne]; [right; right; by left|]. right. left.
  apply (tracked_update p _ s (removeState (Mode p) c)); try done. intros st. rewrite all_removeState. set_solver.
Qed.

Lemma claim_keeps p s st conn alive : keeps p (claim p s st conn alive).
Proof.
  unfold claim. destruct alive; [|by apply keeps_removed]. apply keeps_tracked. intros c.
  by apply (tracked_update _ _ s (fun st => st {{ sharedClaimed := true }})).
Qed.

Lemma withState_keeps p k : wf p -> closed p = false ->
  (forall s st, state p = Some s -> states p !! s = Some st -> keeps p (k s st)) -> keeps p (withState p k).
Proof. intros Hwf Hc Hk. destruct (wf_withState p k Hwf Hc) as (s & st & Hs & Hst & ->). by apply Hk. Qed.

Lemma release_keeps p conn reuse alive : wf p -> keeps p (release p conn reuse alive).
Proof.
  intros Hwf. unfold release. destruct (closed p) eqn:Hc; [apply keeps_same|]. apply withState_keeps; [done..|]. intros s st Hs Hst.
  destruct (negb _); [apply keeps_same|]. destruct (_ || _); [by apply keeps_removed|]. destruct (Mode p); [apply keeps_same|].
  case_bool_decide; [apply keeps_same|]. apply keeps_tracked. intros c. by eapply tracked_update.
Qed.

Lemma invalidate_keeps p conn cause : wf p -> keeps p (invalidate p conn cause).
Proof.
  intros Hwf. unfold invalidate. destruct (closed p) eqn:Hc; [apply keeps_same|]. apply withState_keeps; [done..|]. intros s st Hs Hst.
  destruct (negb _); [apply keeps_same|]. by apply keeps_removed.
Qed.

Lemma replaced_keeps p p' s st : state p = Some s -> states p !! s = Some st -> states p' !! s = Some st ->
  keeps p (p', CloseState s net_ErrClosed).
Proof.
  intros Hs Hst Hst' conn (s0 & st0 & Hs0 & Hst0 & Hc). rewrite Hs in Hs0. injection Hs0 as <-. rewrite Hst in Hst0. injection Hst0 as <-.
  right. right. left. by exists st.
Qed.

Lemma reset_keeps p : wf p -> keeps p (reset p).
Proof.
  intros Hwf. unfold reset. destruct (closed p) eqn:Hc; [apply keeps_same|]. apply withState_keeps; [done..|]. intros s st Hs Hst.
  eapply replaced_keeps; [done..|]. by apply lookup_app_l_Some.
Qed.

Lemma close_keeps p : wf p -> keeps p (close p).
Proof.
  intros Hwf. unfold close. destruct (closed p) eqn:Hc; [apply keeps_same|]. apply withState_keeps; [done..|]. intros s st Hs Hst.
  by eapply replaced_keeps.
Qed.

Lemma acquireOrdered_keeps p alive : wf p -> keeps p (acquireOrdered p alive).
Proof.
  intros Hwf. unfold acquireOrdered. destruct (closed p) eqn:Hc; [apply keeps_same|]. apply withState_keeps; [done..|]. intros s st Hs Hst.
  destruct (idle st) as [|c idle']; [apply keeps_same|].
  set (p1 := onState s _ p). assert (forall conn, tracked p conn -> tracked p1 conn) as H1 by (intros conn; by eapply tracked_update).
  destruct alive; [by apply keeps_tracked|]. intros conn Ht. apply H1 in Ht. destruct (decide (conn = c)) as [->|Hne]; [right; right; by left|].
  right. left. eapply tracked_update; [| | |exact Ht]; [done..|]. cbn. set_solver.
Qed.

Lemma install_keeps p s conn : wf p -> (s < length (states p))%nat ->
  forall c, tracked p c \/ c = conn -> covered (install p s conn).1 [(install p s conn).2] c.
Proof.
  intros Hwf Hl c Hc. unfold install. destruct (closed p); [|case_bool_decide as Hs; cbn [negb]].
  1, 3: (destruct Hc as [|<-]; [right; by left|right; right; by left]).
  right. left. cbn [fst]. destruct Hc as [Hc| ->].
  - eapply tracked_update; [| | |exact Hc]; [done..|]. cbn. set_solver.
  - destruct (lookup_lt_is_Some_2 (states p) s Hl) as [st Hst]. eexists s, _. split; [done|].
    change (states (onState s ?f p)) with (alter f s (states p)). rewrite list_lookup_alter_eq, Hst. split; [done|]. cbn. set_solver.
Qed.

Lemma connectFinish_keeps p s k r : wf p -> (s < length (states p))%nat ->
  forall c, tracked p c \/ r = inl c -> covered (connectFinish p s k r).1 [(connectFinish p s k r).2] c.
Proof.
  intros Hwf Hl c Hc. unfold connectFinish. set (p1 := onState s _ p).
  assert (tracked p c -> tracked p1 c) as H1 by (by eapply tracked_update).
  assert (forall f, tracked p1 c -> tracked (onConnect k f p1) c) as H2 by (intros f; by apply tracked_same).
  destruct r as [conn|e].
  2:{ destruct Hc as [Hc|]; [|done]. right. left. by apply H2, H1. }
  destruct (_ || _) eqn:Hb.
  { destruct Hc as [Hc|[= <-]]; [right; left; by apply H2, H1|right; right; by left]. }
  apply orb_false_iff in Hb as [_ Hb]. apply negb_false_iff, bool_decide_eq_true in Hb. right. left. cbn [fst].
  destruct Hc as [Hc|[= ->]].
  - eapply tracked_update; [| | |exact (H1 Hc)]; [done..|]. cbn. set_solver.
  - assert (exists st, states p1 !! s = Some st) as [st Hst].
    { apply lookup_lt_is_Some_2. change (states p1) with (alter (fun st => st {{ connecting := None }}) s (states p)). by rewrite length_alter. }
    eexists s, _. split; [done|]. change (states (onState s ?f p1)) with (alter f s (states p1)). rewrite list_lookup_alter_eq, Hst. split; [done|]. cbn. set_solver.
Qed.

Lemma collectShared_keeps p s k startDial alive : wf p -> keeps p (collectShared p s k startDial alive).
Proof.
  intros Hwf. unfold collectShared. destruct (connects p !! k) as [c|]; [|apply keeps_same]. destruct (err c); [apply keeps_same|].
  destruct (closed p) eqn:Hc; [apply keeps_same|]. destruct (negb _); [apply keeps_same|]. apply withState_keeps; [done..|]. intros s' st Hs Hst.
  destruct (shared st); [apply claim_keeps|apply keeps_same].
Qed.

Lemma acquireShared_keeps p alive : wf p -> keeps p (acquireShared p alive).1.
Proof.
  intros Hwf. unfold acquireShared. destruct (closed p); [apply keeps_same|]. destruct (state p) as [s|]; [|apply keeps_same].
  destruct (states p !! s) as [st|]; [|apply keeps_same]. destruct (shared st); [apply claim_keeps|].
  destruct (connecting st); [apply keeps_same|]. apply keeps_tracked. intros c. by eapply tracked_update.
Qed.

Lemma covered_tail p t ts conn : covered p [t] conn -> covered p (t :: ts) conn.
Proof. intros [?|[?|[Hr|Hr]%Exists_cons]]; [by left|by right; left|by right; right; left|by apply Exists_nil in Hr]. Qed.

Lemma closeConn_covers p conn t c : tracked p c \/ c = conn \/ responsible (closeConn p conn) t c -> covered (closeConn p conn) [t] c.
Proof.
  intros [Hc|[-> |Hr]]; [right; left; by eapply tracked_same|left|right; right; by left].
  cbn. apply elem_of_app. right. by left.
Qed.

Lemma from_keeps p (r : ConnPool T * Thread T) p' t' spawned conn : keeps p r -> Some (r, []) = Some (p', t', spawned) ->
  tracked p conn -> covered p' (t' :: spawned) conn.
Proof. intros Hk [= -> <-] Hc. by apply (Hk conn). Qed.

Lemma threadStep_covers p t c p' t' spawned conn : wf p -> valid p t -> threadStep p t c = Some (p', t', spawned) ->
  tracked p conn \/ responsible p t conn \/ conn ∈ madeBy c -> covered p' (t' :: spawned) conn.
Proof.
  intros Hwf Hv Hstep Hc.
  assert (forall q t0, (forall c0, tracked p c0 -> tracked q c0) -> ~ responsible p t conn -> (conn ∈ madeBy c -> responsible q t0 conn) ->
    covered q [t0] conn) as Hsame.
  { intros q t0 Hq Hr Hm. destruct Hc as [Hc|[Hc|Hc]]; [right; left; by apply Hq|done|right; right; left; by apply Hm]. }
  destruct t, c; cbn [threadStep] in Hstep; try discriminate; try (destruct conns; try discriminate); unfold valid in Hv; cbn [madeBy responsible] in *;
    try (injection Hstep as <- <- <-);
    try (apply closeConn_covers; set_solver); try (by apply Hsame; [done|set_solver|set_solver]).
  - apply (from_keeps p (acquireOrdered p alive)); [by apply acquireOrdered_keeps|done|set_solver].
  - destruct (sem p) as [[|n]|]; [done|..]; injection Hstep as <- <- <-; apply Hsame; set_solver.
  - destruct (isNil _); [done|]. injection Hstep as <- <- <-. apply Hsame; set_solver.
  - destruct (isNil _); [done|]. destruct (stateCause p s); [|done]. injection Hstep as <- <- <-. apply Hsame; set_solver.
  - apply Hsame; [done|set_solver|]. unfold dialed. destruct r; [|set_solver]. by destruct (dialErr p s ctxErr); intros ->%elem_of_singleton.
  - destruct (install p s conn0) as [p1 t1] eqn:Hi. injection Hstep as <- <- <-.
    pose proof (install_keeps p s conn0 Hwf Hv conn) as Hk. rewrite Hi in Hk. apply Hk. set_solver.
  - apply Hsame; [|set_solver..]. intros c. apply tracked_same; unfold releaseSlot; by destruct (sem p).
  - pose proof (acquireShared_keeps p alive Hwf) as Hk. destruct (acquireShared p alive) as [[p1 t1] sp]. injection Hstep as <- <- <-.
    apply covered_tail, Hk. set_solver.
  - destruct (isDone p k); [|done].
    apply (from_keeps p (collectShared p s k startDial alive)); [by apply collectShared_keeps|done|set_solver].
  - destruct (isNil _); [done|]. injection Hstep as <- <- <-. apply Hsame; [done|set_solver|set_solver].
  - apply Hsame; [done|set_solver|]. unfold connected. destruct r; [|set_solver]. by destruct (dialErr p s ctxErr); intros ->%elem_of_singleton.
  - destruct (connectFinish p s k r) as [p1 t1] eqn:Hi. injection Hstep as <- <- <-.
    pose proof (connectFinish_keeps p s k r Hwf (proj1 Hv) conn) as Hk. rewrite Hi in Hk. apply Hk.
    destruct Hc as [|[Hc|Hc]]; [by left| |set_solver]. right. destruct r; [congruence|done].
  - apply (from_keeps p (release p conn0 reuse alive)); [by apply release_keeps|done|set_solver].
  - apply (from_keeps p (invalidate p conn0 cause)); [by apply invalidate_keeps|done|set_solver].
  - apply (from_keeps p (reset p)); [by apply reset_keeps|done|set_solver].
  - apply (from_keeps p (close p)); [by apply close_keeps|done|set_solver].
  - destruct Hc as [Hc|[(st & Hst & Hc)|Hc]]; [right; left; eapply tracked_update; [| | |exact Hc]; done| |set_solver].
    right. right. left. cbn [responsible]. rewrite Hst. by apply elem_of_elements.
Qed.

Record inv w : Prop := {
  inv_wf : wf (pool w);
  inv_valid : Forall (valid (pool w)) (threads w);
  inv_covered : forall conn, conn ∈ made w -> covered (pool w) (threads w) conn
}.

Lemma covered_threads p ts ts' conn : (forall t, t ∈ ts -> responsible p t conn -> Exists (fun t => responsible p t conn) ts') ->
  covered p ts conn -> covered p ts' conn.
Proof.
  intros Hts [?|[?|Hr]]; [by left|by right; left|right; right]. apply list.Exists_exists in Hr as (t & Ht & Hr). by eapply Hts.
Qed.

Lemma inv_step w a w' : inv w -> step w a = Some w' -> inv w'.
Proof.
  intros [Hwf Hv Hc] Hstep. destruct (step_cases _ _ _ Hstep) as [(t & Ht & ->)|(l1 & t & l2 & c & p' & t' & spawned & Hts & Hm & Hst & ->)].
  - constructor; cbn [pool threads made]; [done| |].
    + apply Forall_app. split; [done|]. constructor; [|done]. by destruct t.
    + intros conn Hconn. eapply covered_threads; [|by apply Hc]. intros t0 Ht0 Hr. apply Exists_app. left. apply list.Exists_exists. eauto.
  - rewrite Hts in *. pose proof Hv as [Hv1 [Hvt Hv2]%Forall_cons_1]%Forall_app.
    destruct (threadStep_evolves _ _ _ _ _ _ Hwf Hvt Hst) as (E & W & F). constructor; cbn [pool threads made].
    + done.
    + apply Forall_cons_1 in F as [F1 F2]. apply Forall_app. split; [|constructor; [done|apply Forall_app; split; [|done]]];
        (eapply List.Forall_impl; [|eassumption]); intros t0; by apply valid_evolves.
    + intros conn Hconn. apply elem_of_union in Hconn.
      assert (tracked (pool w) conn \/ responsible (pool w) t conn \/ conn ∈ madeBy c ->
        covered p' (l1 ++ t' :: l2 ++ spawned) conn) as Hstepped.
      { intros Hcov. eapply covered_threads; [|exact (threadStep_covers _ _ _ _ _ _ _ Hwf Hvt Hst Hcov)]. intros t0 Ht0 Hr. apply list.Exists_exists. exists t0. set_solver. }
      destruct Hconn as [Hconn|Hconn]; [|by apply Hstepped; right; right].
      destruct (Hc conn Hconn) as [Hcl|[Htr|Hr]].
      * left. by apply (ev_closes _ _ E).
      * apply Hstepped. by left.
      * apply list.Exists_exists in Hr as (t0 & Ht0 & Hr). apply elem_of_app in Ht0 as [Ht0|[-> |Ht0]%elem_of_cons]; [|by apply Hstepped; right; left|];
          right; right; apply list.Exists_exists; exists t0; (split; [set_solver|]); (eapply responsible_evolves; [done| |done]);
          [by eapply list.Forall_forall in Hv1|by eapply list.Forall_forall in Hv2].
Qed.

Lemma reachable_inv mode MaxInflight w : reachable mode MaxInflight w -> inv w.
Proof.
  induction 1 as [|w a w' _ IH Hs]; [|by eapply inv_step]. constructor; cbn; [|done|set_solver].
  constructor; cbn; [done|by intros s [= <-]|]. intros [|s] st k; cbn; [|done]. by intros [= <-].
Qed.

(** The operation of the goroutine is over. *)
Definition ended t : Prop := match t with Got _ _ | Failed _ | Finished => True | _ => False end.

(** C23: Every connection that a dialer has returned is closed, known to the pool, or in the
    hands of an operation that is about to close or add it; once the pool is closed
    and the operations are over, every connection was closed. *)
Theorem conn_pool_no_leak mode MaxInflight w : reachable mode MaxInflight w -> forall conn, conn ∈ made w ->
  covered (pool w) (threads w) conn /\
  (closed (pool w) = true -> Forall ended (threads w) -> conn ∈ closes (pool w)).
Proof.
  intros [Hwf _ Hc]%reachable_inv conn Hm. split; [by apply Hc|]. intros Hcl He.
  destruct (Hc conn Hm) as [|[(s & _ & Hs & _)|Hr]]; [done|by apply Hwf in Hcl; rewrite Hcl in Hs|].
  apply list.Exists_exists in Hr as (t & Ht & Hr). rewrite list.Forall_forall in He. specialize (He t Ht). by destruct t.
Qed.

(** * A connection of an ordered pool has one owner *)

Lemma submseteq_NoDup (l k : list T) : l ⊆+ k -> NoDup k -> NoDup l.
Proof. intros (r & Hr)%submseteq_Permutation Hk. rewrite Hr in Hk. by apply list.NoDup_app in Hk as (? & _). Qed.

Definition idleOf p : list T :=
  match state p with Some s => match states p !! s with Some st => idle st | None => [] end | None => [] end.

(** The list and the map of idle connections of the current state agree. *)
Definition agree p : Prop := forall s st, state p = Some s -> states p !! s = Some st ->
  forall conn, conn ∈ idleElements st <-> conn ∈ idle st.

(** The connection that a goroutine has for itself. *)
Definition owns t : list T :=
  match t with Got conn _ | ReturnSlot (inl conn) | Install _ conn | Release conn _ => [conn] | _ => [] end.

Definition ordered t : Prop :=
  match t with
  | AcquireShared | CloseShared _ | Wait _ _ _ | ConnectSingle _ _ | ConnectClose _ _ _ _ | ConnectFinish _ _ _
  | ConnectCloseLate _ _ | ConnectDone _ => False
  | _ => True
  end.

(** What a section of an ordered pool does with the connections [old] that are idle
    or owned by its goroutine. *)
Record moves (old : list T) p t : Prop := {
  mv_agree : agree p;
  mv_ordered : ordered t;
  mv_conns : idleOf p ++ owns t ⊆+ old
}.

Lemma idleOf_at p s st : state p = Some s -> states p !! s = Some st -> idleOf p = idle st.
Proof. intros Hs Hst. unfold idleOf. by rewrite Hs, Hst. Qed.

(** Updates that leave the idle connections alone. *)
Lemma moves_update p p' s f t old : state p' = state p -> states p' = alter f s (states p) ->
  (forall st, idle (f st) = idle st /\ idleElements (f st) = idleElements st) ->
  agree p -> ordered t -> idleOf p ++ owns t ⊆+ old -> moves old p' t.
Proof.
  intros Hs Hst Hf Ha Ho Hc.
  assert (forall s0 st', states p' !! s0 = Some st' -> exists st, states p !! s0 = Some st /\ idle st' = idle st /\ idleElements st' = idleElements st) as Hback.
  { intros s0 st'. rewrite Hst. destruct (decide (s = s0)) as [<-|].
    - rewrite list_lookup_alter_eq. destruct (states p !! s) as [st|] eqn:Hl; [|done]. intros [= <-]. exists st. split; [done|apply Hf].
    - rewrite list_lookup_alter_ne by done. intros Hl. by exists st'. }
  assert (idleOf p' = idleOf p) as Hi.
  { unfold idleOf. rewrite Hs. destruct (state p) as [s0|]; [|done]. destruct (states p' !! s0) as [st'|] eqn:Hl'.
    - destruct (Hback s0 st' Hl') as (st & -> & Hid & _). done.
    - apply lookup_ge_None_1 in Hl'. rewrite Hst, length_alter in Hl'. by rewrite lookup_ge_None_2. }
  constructor; [|done|by rewrite Hi]. intros s0 st' Hs0 Hl'. destruct (Hback s0 st' Hl') as (st & Hl & -> & ->). apply (Ha s0); congruence.
Qed.

Lemma moves_same p p' t old : state p' = state p -> states p' = states p -> agree p -> ordered t -> idleOf p ++ owns t ⊆+ old -> moves old p' t.
Proof. intros Hs Hst. apply (moves_update p p' 0 id); [done| |done]. by rewrite list_alter_id. Qed.

(** Updates of the idle connections of the current state. *)
Lemma moves_idle p s st f t old : state p = Some s -> states p !! s = Some st ->
  (forall conn, conn ∈ idleElements (f st) <-> conn ∈ idle (f st)) -> ordered t -> idle (f st) ++ owns t ⊆+ old ->
  forall p', state p' = state p -> states p' = alter f s (states p) -> moves old p' t.
Proof.
  intros Hs Hst Ha Ho Hc p' Hs' Hst'. assert (states p' !! s = Some (f st)) as Hl by (by rewrite Hst', list_lookup_alter_eq, Hst).
  constructor; [|done|]. 
  - intros s0 st0 Hs0 Hst0. rewrite Hs', Hs in Hs0. injection Hs0 as <-. rewrite Hl in Hst0. by injection Hst0 as <-.
  - rewrite (idleOf_at p' s (f st)); [done|congruence|done].
Qed.

Lemma moves_removed p s st conn t old : Mode p = ConnPoolOrdered -> state p = Some s -> states p !! s = Some st -> agree p -> ordered t ->
  idleOf p ++ owns t ⊆+ old -> moves old (removeConn p s conn) t.
Proof.
  intros Hm Hs Hst Ha Ho Hc. rewrite (idleOf_at p s st Hs Hst) in Hc. specialize (Ha s st Hs Hst).
  apply (moves_idle p s st (removeState (Mode p) conn) t old); try done; rewrite Hm; unfold removeState; cbn; case_bool_decide as Hi; cbn; try done.
  - intros c. rewrite list_elem_of_filter. set_solver.
  - etransitivity; [|exact Hc]. apply submseteq_app; [|done]. apply sublist_submseteq, sublist_filter.
Qed.

Lemma withState_moves p k old : wf p -> closed p = false ->
  (forall s st, state p = Some s -> states p !! s = Some st -> moves old (k s st).1 (k s st).2) ->
  moves old (withState p k).1 (withState p k).2.
Proof. intros Hwf Hc Hk. destruct (wf_withState p k Hwf Hc) as (s & st & Hs & Hst & ->). by apply Hk. Qed.

Section ordered_steps.
Context (p : ConnPool T) (Hwf : wf p) (Hm : Mode p = ConnPoolOrdered) (Ha : agree p).

Lemma acquireOrdered_moves alive old : NoDup (idleOf p) -> idleOf p ⊆+ old ->
  moves old (acquireOrdered p alive).1 (acquireOrdered p alive).2.
Proof.
  intros Hn Hc. unfold acquireOrdered. destruct (closed p) eqn:Hcl; [apply (moves_same p); try done; by rewrite app_nil_r|].
  apply withState_moves; [done..|]. intros s st Hs Hst. pose proof (Ha s st Hs Hst) as Hag. rewrite (idleOf_at p s st Hs Hst) in *.
  destruct (idle st) as [|c idle'] eqn:Hi.
  { apply (moves_same p); try done. by rewrite (idleOf_at p s st Hs Hst), Hi. }
  apply list.NoDup_cons in Hn as [Hn _].
  assert (forall t, ordered t -> owns t ⊆+ [c] -> moves old (onState s (fun st => st {{ idle := idle'; idleElements := idleElements st ∖ {[c]} }}) p) t) as Hmv.
  { intros t Ho Hot. eapply (moves_idle p s st); [done..| | | |done|done]; cbn; [set_solver|done|].
    etransitivity; [|exact Hc]. rewrite (Permutation_app_comm idle'). change (c :: idle') with ([c] ++ idle'). by apply submseteq_app. }
  destruct alive; cbn [fst snd]; [by apply Hmv|]. destruct (Hmv (CloseIdle c)) as [A O C]; [done|apply submseteq_nil_l|].
  by eapply (moves_update (onState s _ p)).
Qed.

Lemma release_moves conn reuse alive old : idleOf p ++ [conn] ⊆+ old ->
  moves old (release p conn reuse alive).1 (release p conn reuse alive).2.
Proof.
  intros Hc. assert (idleOf p ++ [] ⊆+ old) as Hc0 by (rewrite app_nil_r; etransitivity; [|exact Hc]; by apply submseteq_inserts_r).
  unfold release. destruct (closed p) eqn:Hcl; [by apply (moves_same p)|].
  apply withState_moves; [done..|]. intros s st Hs Hst. destruct (negb _); [by apply (moves_same p)|].
  destruct (_ || _); [by eapply moves_removed|]. rewrite Hm. case_bool_decide as Hi; [by apply (moves_same p)|].
  specialize (Ha s st Hs Hst). rewrite (idleOf_at p s st Hs Hst) in Hc.
  eapply (moves_idle p s st); [done..| | | |done|done]; cbn; [set_solver|done|]. by rewrite app_nil_r.
Qed.

Lemma invalidate_moves conn cause old : idleOf p ++ [] ⊆+ old -> moves old (invalidate p conn cause).1 (invalidate p conn cause).2.
Proof.
  intros Hc. unfold invalidate. destruct (closed p) eqn:Hcl; [by apply (moves_same p)|].
  apply withState_moves; [done..|]. intros s st Hs Hst. destruct (negb _); [by apply (moves_same p)|]. by eapply moves_removed.
Qed.

Lemma install_moves s conn old : idleOf p ++ [conn] ⊆+ old -> moves old (install p s conn).1 (install p s conn).2.
Proof.
  intros Hc. assert (idleOf p ++ [] ⊆+ old) as Hc0 by (rewrite app_nil_r; etransitivity; [|exact Hc]; by apply submseteq_inserts_r).
  unfold install. destruct (closed p) eqn:Hcl; [by apply (moves_same p)|]. case_bool_decide as Hs; cbn [negb]; [|by apply (moves_same p)].
  by eapply (moves_update p).
Qed.

Lemma reset_moves old : idleOf p ++ [] ⊆+ old -> moves old (reset p).1 (reset p).2.
Proof.
  intros Hc. unfold reset. destruct (closed p) eqn:Hcl; [by apply (moves_same p)|].
  apply withState_moves; [done..|]. intros s st Hs Hst. cbn [fst snd]. set (p' := p {{ states := _; state := _ }}).
  assert (state p' = Some (length (states p))) as Hs' by done. assert (states p' = states p ++ [newConnPoolState]) as Hst' by done.
  assert (states p' !! length (states p) = Some newConnPoolState) as Hl by (by rewrite Hst', lookup_app_r, Nat.sub_diag).
  constructor; [|done|].
  - intros s0 st0 Hs0 Hst0. rewrite Hs' in Hs0. injection Hs0 as <-. rewrite Hl in Hst0. injection Hst0 as <-. cbn. set_solver.
  - rewrite (idleOf_at p' _ _ Hs' Hl). cbn. apply submseteq_nil_l.
Qed.

Lemma close_moves old : idleOf p ++ [] ⊆+ old -> moves old (close p).1 (close p).2.
Proof.
  intros Hc. unfold close. destruct (closed p) eqn:Hcl; [by apply (moves_same p)|].
  apply withState_moves; [done..|]. intros s st Hs Hst. constructor; [by intros ? ?|done|]. cbn. apply submseteq_nil_l.
Qed.

Lemma from_moves (r : ConnPool T * Thread T) old p' t' (spawned : list (Thread T)) : moves old r.1 r.2 -> Some (r, []) = Some (p', t', spawned) ->
  moves old p' t' /\ spawned = [].
Proof. by intros Hr [= -> <-]. Qed.

Lemma threadStep_moves t c p' t' spawned : valid p t -> ordered t -> NoDup (idleOf p) -> threadStep p t c = Some (p', t', spawned) ->
  moves (idleOf p ++ owns t ++ elements (madeBy c)) p' t' /\ spawned = [].
Proof.
  intros Hv Ho Hn Hstep.
  assert (idleOf p ++ owns t ⊆+ idleOf p ++ owns t ++ elements (madeBy c)) as Hold by (rewrite app_assoc; by apply submseteq_inserts_r).
  assert (idleOf p ++ [] ⊆+ idleOf p ++ owns t ++ elements (madeBy c)) as Hnil by (rewrite app_nil_r; by apply submseteq_inserts_r).
  destruct t, c; cbn [threadStep] in Hstep; try discriminate; try done; try (destruct conns; try discriminate); cbn [owns] in *;
    try (injection Hstep as <- <- <-; split; [|done]; by apply (moves_same p)).
  - apply (from_moves (acquireOrdered p alive)); [|done]. apply acquireOrdered_moves; [done|]. by rewrite app_nil_r in Hnil.
  - destruct (sem p) as [[|n]|]; [done|..]; injection Hstep as <- <- <-; (split; [|done]); by apply (moves_same p).
  - destruct (isNil _); [done|]. injection Hstep as <- <- <-. split; [|done]. by apply (moves_same p).
  - destruct (isNil _); [done|]. destruct (stateCause p s); [|done]. injection Hstep as <- <- <-. split; [|done]. by apply (moves_same p).
  - injection Hstep as <- <- <-. split; [|done]. unfold dialed. destruct r, (dialErr p s ctxErr); apply (moves_same p); try done.
    cbn [madeBy owns app]. by rewrite elements_singleton.
  - by apply (from_moves (install p s conn)); [apply install_moves|].
  - injection Hstep as <- <- <-. split; [|done]. assert (state (releaseSlot p) = state p /\ states (releaseSlot p) = states p) as [? ?] by (unfold releaseSlot; by destruct (sem p)).
    destruct r; by apply (moves_same p).
  - by apply (from_moves (release p conn reuse alive)); [apply release_moves|].
  - by apply (from_moves (invalidate p conn cause)); [apply invalidate_moves|].
  - by apply (from_moves (reset p)); [apply reset_moves|].
  - by apply (from_moves (close p)); [apply close_moves|].
  - injection Hstep as <- <- <-. split; [|done]. by eapply (moves_update p).
Qed.
End ordered_steps.

Definition owned w : list T := idleOf (pool w) ++ concat (map owns (threads w)).

Record exclusive w : Prop := {
  ex_mode : Mode (pool w) = ConnPoolOrdered;
  ex_agree : agree (pool w);
  ex_ordered : Forall ordered (threads w);
  ex_nodup : NoDup (owned w);
  ex_made : forall conn, conn ∈ owned w -> conn ∈ made w
}.

Lemma exclusive_step w a w' : inv w -> exclusive w -> step w a = Some w' -> exclusive w'.
Proof.
  intros [Hwf Hv _] [Hm Ha Ho Hn Hmade] Hstep. unfold owned in *.
  destruct (step_cases _ _ _ Hstep) as [(t & Ht & ->)|(l1 & t & l2 & c & p' & t' & spawned & Hts & Hfresh & Hst & ->)].
  - assert (owns t = [] /\ ordered t) as [Hot Hord] by (rewrite Hm in Ht; by destruct t).
    constructor; unfold owned; cbn [pool threads made]; try done; rewrite ?map_app, ?concat_app; cbn [map concat]; rewrite ?Hot, ?app_nil_r; try done.
    apply Forall_app. by split; [|constructor].
  - rewrite Hts in *. apply Forall_app in Hv as [_ [Hvt _]%Forall_cons_1]. apply Forall_app in Ho as [Ho1 [Hot Ho2]%Forall_cons_1].
    rewrite !map_app, !concat_app in Hn, Hmade. cbn [map concat] in Hn, Hmade.
    set (rest := concat (map owns l1) ++ concat (map owns l2)).
    assert (idleOf (pool w) ++ concat (map owns l1) ++ owns t ++ concat (map owns l2) ≡ₚ (idleOf (pool w) ++ owns t) ++ rest) as Hperm
      by (unfold rest; solve_Permutation).
    rewrite Hperm in Hn. pose proof Hn as (Hn1 & _ & _)%list.NoDup_app. apply list.NoDup_app in Hn1 as (Hni & _ & _).
    destruct (threadStep_moves _ Hwf Hm Ha t c p' t' spawned Hvt Hot Hni Hst) as [[A O C] ->].
    destruct (threadStep_evolves _ _ _ _ _ _ Hwf Hvt Hst) as (E & _ & _).
    assert (idleOf p' ++ concat (map owns (l1 ++ t' :: l2 ++ [])) ⊆+ ((idleOf (pool w) ++ owns t) ++ rest) ++ elements (madeBy c)) as Hsub.
    { rewrite app_nil_r, map_app, concat_app. cbn [map concat].
      transitivity ((idleOf p' ++ owns t') ++ rest); [apply Permutation_submseteq; unfold rest; solve_Permutation|].
      etransitivity; [apply submseteq_app; [exact C|reflexivity]|]. apply Permutation_submseteq. solve_Permutation. }
    constructor; unfold owned; cbn [pool threads made].
    + by rewrite (ev_mode _ _ E).
    + done.
    + rewrite app_nil_r. apply Forall_app. by split; [|constructor].
    + eapply submseteq_NoDup; [exact Hsub|]. apply list.NoDup_app. split_and!; [done| |apply NoDup_elements].
      intros conn Hc He. apply elem_of_elements in He. apply (Hfresh conn He). apply Hmade. by rewrite Hperm.
    + intros conn Hc. apply (elem_of_submseteq _ _ _ Hc) in Hsub. apply elem_of_union. apply elem_of_app in Hsub as [Hsub|Hsub]; [left|right; by apply elem_of_elements].
      apply Hmade. by rewrite Hperm.
Qed.

Lemma reachable_exclusive MaxInflight w : reachable ConnPoolOrdered MaxInflight w -> exclusive w.
Proof.
  induction 1 as [|w a w' Hr IH Hs]; [|eapply exclusive_step; [by eapply reachable_inv|done..]].
  constructor; unfold owned; cbn; [done| |done|constructor|set_solver]. intros s st [= <-] [= <-]. cbn. set_solver.
Qed.

(** C24: In an ordered pool no connection is handed to two callers at once, and one that a
    caller has is not among the idle ones that others get, however the operations
    are interleaved. *)
Theorem conn_pool_exclusive MaxInflight w i j conn created created' : reachable ConnPoolOrdered MaxInflight w ->
  threads w !! i = Some (Got conn created) ->
  (threads w !! j = Some (Got conn created') -> i = j) /\
  (forall s st, state (pool w) = Some s -> states (pool w) !! s = Some st -> conn ∉ idle st).
Proof.
  intros [_ _ _ Hn _]%reachable_exclusive Hi. unfold owned in Hn. apply list.NoDup_app in Hn as (_ & Hdis & Hn).
  assert (conn ∈ concat (map owns (threads w))) as Hin.
  { apply list_elem_of_In, in_concat. exists [conn]. split; [|by left]. apply in_map_iff. exists (Got conn created). split; [done|].
    apply list_elem_of_In. by eapply list_elem_of_lookup_2. }
  split.
  - intros Hj. destruct (decide (i = j)) as [|Hij]; [done|]. exfalso. eapply (concat_NoDup_lookup _ i j [conn] [conn]); [exact Hn|..];
      [by rewrite list_lookup_fmap, Hi|by rewrite list_lookup_fmap, Hj|done|by left|by left].
  - intros s st Hs Hst Hc. apply (Hdis conn); [|done]. by rewrite (idleOf_at (pool w) s st Hs Hst).
Qed.

(** * Dials *)

Definition connectingOf p (s : nat) : option nat := match states p !! s with Some st => connecting st | None => None end.

(** Nothing about dials changes. *)
Definition quiet p p' : Prop := sem p' = sem p /\ connects p' = connects p /\ forall s, connectingOf p' s = connectingOf p s.

Lemma quiet_refl p : quiet p p.
Proof. done. Qed.

Lemma connectingOf_alter p p' s0 f s : states p' = alter f s0 (states p) ->
  connectingOf p' s = if decide (s0 = s) then (match states p !! s with Some st => connecting (f st) | None => None end) else connectingOf p s.
Proof.
  intros Hst. unfold connectingOf. rewrite Hst. destruct (decide (s0 = s)) as [<-|].
  - rewrite list_lookup_alter_eq. by destruct (states p !! s0).
  - by rewrite list_lookup_alter_ne.
Qed.

Lemma quiet_update p p0 p' s0 f : states p' = alter f s0 (states p0) -> (forall st, connecting (f st) = connecting st) ->
  sem p' = sem p0 -> connects p' = connects p0 -> quiet p p0 -> quiet p p'.
Proof.
  intros Hst Hf Hs Hc (Hs0 & Hc0 & Hk0). split_and!; [congruence..|]. intros s. rewrite (connectingOf_alter p0 p' s0 f s Hst), <- Hk0.
  case_decide; [|done]. unfold connectingOf. destruct (states p0 !! s); [|done]. apply Hf.
Qed.

Lemma quiet_onState p p0 s f : (forall st, connecting (f st) = connecting st) -> quiet p p0 -> quiet p (onState s f p0).
Proof. intros Hf Hq. by apply (quiet_update p p0 _ s f). Qed.

Lemma quiet_removeConn p s conn : quiet p (removeConn p s conn).
Proof.
  apply (quiet_update p p _ s (removeState (Mode p) conn)); try done. intros st. unfold removeState.
  destruct (Mode p); cbn; case_bool_decide; done.
Qed.

#[local] Hint Resolve quiet_refl quiet_removeConn quiet_onState : conn_pool.

Local Ltac walk := repeat match goal with
  | |- context [match ?x with _ => _ end] => lazymatch x with context [match _ with _ => _ end] => fail | _ => destruct x end; cbn [fst snd negb orb]
  end; eauto with conn_pool; try done.

Lemma release_quiet p conn reuse alive : quiet p (release p conn reuse alive).1.
Proof. unfold release, withState. walk. Qed.
Lemma invalidate_quiet p conn cause : quiet p (invalidate p conn cause).1.
Proof. unfold invalidate, withState. walk. Qed.
Lemma acquireOrdered_quiet p alive : quiet p (acquireOrdered p alive).1.
Proof. unfold acquireOrdered, withState. walk. Qed.
Lemma install_quiet p s conn : quiet p (install p s conn).1.
Proof. unfold install. walk. Qed.
Lemma claim_quiet p s st conn alive : quiet p (claim p s st conn alive).1.
Proof. unfold claim. walk. Qed.
Lemma collectShared_quiet p s k startDial alive : quiet p (collectShared p s k startDial alive).1.
Proof. unfold collectShared, withState, claim. walk. Qed.
Lemma close_quiet p : quiet p (close p).1.
Proof. unfold close, withState. walk. Qed.
Lemma reset_quiet p : quiet p (reset p).1.
Proof.
  unfold reset, withState. walk. split_and!; [done..|]. intros s. unfold connectingOf.
  change (states _) with (states p ++ [newConnPoolState]) at 1. destruct (decide (s < length (states p))%nat).
  - by rewrite lookup_app_l.
  - rewrite lookup_app_r, (lookup_ge_None_2 (states p)) by lia. by destruct (s - length (states p))%nat.
Qed.

(** The place in the semaphore, the connect and the states whose dial a goroutine is
    responsible for. *)
Definition slots t : nat := match t with Dial _ | DialClose _ _ | Install _ _ | InstallClose _ | ReturnSlot _ => 1 | _ => 0 end.

Definition connectOf t : option nat :=
  match t with
  | ConnectSingle _ k | ConnectClose _ k _ _ | ConnectFinish _ k _ | ConnectCloseLate k _ | ConnectDone k => Some k
  | _ => None
  end.

Definition dialsOf t : list nat :=
  match t with ConnectSingle s _ | ConnectClose s _ _ _ | ConnectFinish s _ _ => [s] | _ => [] end.

Record dialStep p t p' t' (spawned : list (Thread T)) : Prop := {
  ds_slots : match sem p, sem p' with
             | Some n, Some n' => (n' + slots t' = n + slots t)%nat
             | None, None => True
             | _, _ => False
             end;
  ds_spawned : Forall (fun t => slots t = 0%nat) spawned;
  ds_connects : forall k, (k < length (connects p'))%nat -> isDone p' k = true \/
    Exists (fun t => connectOf t = Some k) (t' :: spawned) \/
    ((k < length (connects p))%nat /\ isDone p' k = isDone p k /\ connectOf t <> Some k);
  ds_others : forall s, connectingOf p s <> None -> s ∉ dialsOf t -> connectingOf p' s <> None;
  ds_flight : (dialsOf t' = dialsOf t /\ spawned = [] /\ forall s, s ∈ dialsOf t -> connectingOf p s <> None -> connectingOf p' s <> None) \/
    (dialsOf t' = [] /\ spawned = []) \/
    exists s, dialsOf t' = [] /\ dialsOf t = [] /\ concat (map dialsOf spawned) = [s] /\ connectingOf p s = None /\ connectingOf p' s <> None
}.

Lemma quiet_step p t p' t' : quiet p p' -> slots t' = slots t -> connectOf t' = connectOf t -> dialsOf t' = dialsOf t -> dialStep p t p' t' [].
Proof.
  intros (Hs & Hc & Hk) Hsl Hco Hd. constructor.
  - rewrite Hs, Hsl. by destruct (sem p).
  - done.
  - intros k Hlt. rewrite Hc in Hlt. unfold isDone. rewrite Hc. destruct (decide (connectOf t = Some k)); [right; left; left; congruence|right; right; done].
  - intros s. by rewrite Hk.
  - left. split_and!; [done..|]. intros s _. by rewrite Hk.
Qed.

(** Goroutines that have nothing to do with dials. *)
Definition plain t : Prop := slots t = 0%nat /\ connectOf t = None /\ dialsOf t = [].

Lemma plain_step p t (r : ConnPool T * Thread T) p' t' spawned : quiet p r.1 -> plain t -> plain r.2 ->
  Some (r, []) = Some (p', t', spawned) -> dialStep p t p' t' spawned.
Proof. intros Hq (? & ? & ?) Hr [= -> <-]. cbn [fst snd] in *. destruct Hr as (? & ? & ?). apply quiet_step; [done|congruence..]. Qed.

Lemma release_plain p conn reuse alive : plain (release p conn reuse alive).2.
Proof. unfold release, withState. walk. Qed.
Lemma invalidate_plain p conn cause : plain (invalidate p conn cause).2.
Proof. unfold invalidate, withState. walk. Qed.
Lemma acquireOrdered_plain p alive : plain (acquireOrdered p alive).2.
Proof. unfold acquireOrdered, withState. walk. Qed.
Lemma claim_plain p s st conn alive : plain (claim p s st conn alive).2.
Proof. unfold claim. walk. Qed.
Lemma collectShared_plain p s k startDial alive : plain (collectShared p s k startDial alive).2.
Proof. unfold collectShared, withState, claim. walk. Qed.
Lemma reset_plain p : plain (reset p).2.
Proof. unfold reset, withState. walk. Qed.
Lemma close_plain p : plain (close p).2.
Proof. unfold close, withState. walk. Qed.

Lemma acquireShared_dials p alive p' t' spawned : acquireShared p alive = (p', t', spawned) -> dialStep p AcquireShared p' t' spawned.
Proof.
  unfold acquireShared. intros Hs.
  assert (forall r : ConnPool T * Thread T, quiet p r.1 -> plain r.2 -> (r, []) = (p', t', spawned) -> dialStep p AcquireShared p' t' spawned) as Hplain.
  { intros r Hq Hp Hr. by eapply (plain_step p _ r); [..|by rewrite Hr]. }
  destruct (closed p); [by apply (Hplain (p, Failed net_ErrClosed))|]. destruct (state p) as [s|]; [|by apply (Hplain (p, Crashed))].
  destruct (states p !! s) as [st|] eqn:Hst; [|by apply (Hplain (p, Crashed))].
  destruct (shared st) as [conn|]; [by eapply Hplain; [apply claim_quiet|apply claim_plain|]|].
  destruct (connecting st) as [k|] eqn:Hk; [by apply (Hplain (p, Wait s k false))|]. injection Hs as <- <- <-.
  set (p' := onState s _ (addConnect p)). assert (connects p' = connects p ++ [mkConnPoolConnect false None]) as Hc by done.
  assert (states p' = alter (fun st => st {{ connecting := Some (length (connects p)) }}) s (states p)) as Hst' by done.
  pose proof (fun s0 => connectingOf_alter p p' s _ s0 Hst') as Hko. assert (sem p' = sem p) as Hsem by done. clearbody p'. constructor.
  - rewrite Hsem. by destruct (sem p).
  - by repeat constructor.
  - intros k. rewrite Hc, length_app. cbn. intros Hlt. destruct (decide (k = length (connects p))) as [->|]; [right; left; right; by left|].
    right. right. split_and!; [lia| |done]. unfold isDone. rewrite Hc, lookup_app_l by lia. done.
  - intros s0 Hs0 _. rewrite (Hko s0). case_decide as Hd; [|done]. subst s0. by rewrite Hst.
  - right. right. exists s. split_and!; try done; [unfold connectingOf; by rewrite Hst|]. rewrite (Hko s), decide_True by done. by rewrite Hst.
Qed.

Lemma connectFinish_dials p s k r p' t' : connectFinish p s k r = (p', t') -> dialStep p (ConnectFinish s k r) p' t' [].
Proof.
  intros Hf.
  assert (sem p' = sem p /\ length (connects p') = length (connects p) /\ (forall k, isDone p' k = isDone p k) /\
    (forall s0, s0 <> s -> connectingOf p' s0 = connectingOf p s0) /\ slots t' = 0%nat /\ connectOf t' = Some k /\ dialsOf t' = [])
    as (Hs & Hl & Hd & Hk & Hsl & Hco & Hdl).
  { unfold connectFinish in Hf. set (p1 := onState s _ p) in Hf.
    assert (forall s0, s0 <> s -> connectingOf p1 s0 = connectingOf p s0) as H1.
    { intros s0 Hne. rewrite (connectingOf_alter p p1 s _ s0 eq_refl). by rewrite decide_False. }
    assert (forall f (q : ConnPool T), connects q = alter f k (connects p) -> (forall c, done (f c) = done c) ->
      length (connects q) = length (connects p) /\ forall k, isDone q k = isDone p k) as Hcon.
    { intros f q Hq Hfd. rewrite Hq, length_alter. split; [done|]. intros k0. unfold isDone. rewrite Hq. destruct (decide (k = k0)) as [<-|].
      - rewrite list_lookup_alter_eq. destruct (connects p !! k); [apply Hfd|done].
      - by rewrite list_lookup_alter_ne. }
    destruct r as [conn|e].
    2:{ injection Hf as <- <-. edestruct Hcon as [? ?]; [..|split_and!; try done]; done. }
    destruct (_ || _); injection Hf as <- <-.
    { edestruct Hcon as [? ?]; [..|split_and!; try done]; done. }
    split_and!; try done. intros s0 Hne. rewrite <- (H1 s0 Hne). erewrite (connectingOf_alter p1 _ s); [|reflexivity]. by rewrite decide_False. }
  constructor.
  - rewrite Hs, Hsl. by destruct (sem p).
  - done.
  - intros k0 Hlt. rewrite Hl in Hlt. destruct (decide (k0 = k)) as [->|Hne]; [right; left; by left|]. right. right. split_and!; [done..|]. cbn. congruence.
  - cbn. intros s0 Hs0 Hne. rewrite Hk; [done|set_solver].
  - right. by left.
Qed.

Lemma connectDone_dials p k : (k < length (connects p))%nat -> dialStep p (ConnectDone k) (onConnect k (fun c => c {{ done := true }}) p) Finished [].
Proof.
  intros Hk. set (p' := onConnect k _ p). assert (connects p' = alter (fun c => c {{ done := true }}) k (connects p)) as Hc by done.
  assert (sem p' = sem p /\ forall s, connectingOf p' s = connectingOf p s) as [Hsem Hk'] by done. clearbody p'. constructor; try done.
  - rewrite Hsem. by destruct (sem p).
  - intros k0. rewrite Hc, length_alter. intros Hlt. destruct (decide (k = k0)) as [<-|Hne].
    + left. unfold isDone. rewrite Hc, list_lookup_alter_eq. by destruct (lookup_lt_is_Some_2 (connects p) k Hk) as [c ->].
    + right. right. split_and!; [done| |cbn; congruence]. unfold isDone. by rewrite Hc, list_lookup_alter_ne.
  - intros s. by rewrite Hk'.
  - right. by left.
Qed.

Lemma threadStep_dials p t c p' t' spawned : valid p t -> threadStep p t c = Some (p', t', spawned) -> dialStep p t p' t' spawned.
Proof.
  intros Hv Hstep.
  destruct t, c; cbn [threadStep] in Hstep; try discriminate; try (destruct conns; try discriminate);
    try (injection Hstep as <- <- <-; by apply quiet_step).
  - by eapply plain_step; [apply acquireOrdered_quiet|done|apply acquireOrdered_plain|].
  - destruct (sem p) as [[|n]|] eqn:Hs; [done|..]; injection Hstep as <- <- <-;
      (constructor; try done; [rewrite Hs; cbn; try lia|intros k Hk; by right; right|by left]).
  - destruct (isNil _); [done|]. injection Hstep as <- <- <-. by apply quiet_step.
  - destruct (isNil _); [done|]. destruct (stateCause p s); [|done]. injection Hstep as <- <- <-. by apply quiet_step.
  - injection Hstep as <- <- <-. unfold dialed. destruct r, (dialErr p s ctxErr); by apply quiet_step.
  - pose proof (install_quiet p s conn) as Hq. unfold install in *. destruct (closed p); [|destruct (negb _)];
      injection Hstep as <- <- <-; by apply quiet_step.
  - injection Hstep as <- <- <-. unfold releaseSlot. destruct (sem p) as [n|] eqn:Hs;
      (constructor; try done; [rewrite Hs; destruct r; cbn; try lia|intros k Hk; by right; right|destruct r; by left]); by rewrite Hs.
  - apply (acquireShared_dials p alive). congruence.
  - destruct (isDone p k); [|done]. by eapply plain_step; [apply collectShared_quiet|done|apply collectShared_plain|].
  - destruct (isNil _); [done|]. injection Hstep as <- <- <-. destruct (closed p); by apply quiet_step.
  - injection Hstep as <- <- <-. unfold connected. destruct r, (dialErr p s ctxErr); by apply quiet_step.
  - destruct (connectFinish p s k r) as [p1 t1] eqn:Hf. injection Hstep as <- <- <-. by apply connectFinish_dials.
  - injection Hstep as <- <- <-. by apply connectDone_dials.
  - by eapply plain_step; [apply release_quiet|done|apply release_plain|].
  - by eapply plain_step; [apply invalidate_quiet|done|apply invalidate_plain|].
  - by eapply plain_step; [apply reset_quiet|done|apply reset_plain|].
  - by eapply plain_step; [apply close_quiet|done|apply close_plain|].
  - injection Hstep as <- <- <-. apply quiet_step; try done. by apply quiet_onState.
Qed.

Record dials (mode : ConnPoolMode) (MaxInflight : Z) w : Prop := {
  di_slots : match sem (pool w) with
             | Some n => mode = ConnPoolOrdered /\ 0 < MaxInflight /\ (n + sum_list_with slots (threads w) = Z.to_nat MaxInflight)%nat
             | None => ~ (mode = ConnPoolOrdered /\ 0 < MaxInflight)
             end;
  di_connects : forall k, (k < length (connects (pool w)))%nat ->
    isDone (pool w) k = true \/ Exists (fun t => connectOf t = Some k) (threads w);
  di_flight : NoDup (concat (map dialsOf (threads w)));
  di_connecting : forall s, s ∈ concat (map dialsOf (threads w)) -> connectingOf (pool w) s <> None
}.

Lemma sum_slots_app l k : sum_list_with slots (l ++ k) = (sum_list_with slots l + sum_list_with slots k)%nat.
Proof. apply sum_list_with_app. Qed.

Lemma sum_slots_zero l : Forall (fun t => slots t = 0%nat) l -> sum_list_with slots l = 0%nat.
Proof. induction 1 as [|t l Ht _ IH]; [done|]. cbn. lia. Qed.

Lemma dials_step mode MaxInflight w a w' : inv w -> dials mode MaxInflight w -> step w a = Some w' -> dials mode MaxInflight w'.
Proof.
  intros [Hwf Hv _] [Hs Hc Hf Hk] Hstep.
  destruct (step_cases _ _ _ Hstep) as [(t & Ht & ->)|(l1 & t & l2 & c & p' & t' & spawned & Hts & _ & Hst & ->)].
  - assert (plain t) as (Hsl & Hco & Hd) by (by destruct t). constructor; cbn [pool threads].
    + destruct (sem (pool w)); [|done]. rewrite sum_slots_app. cbn. rewrite Hsl. by rewrite !Nat.add_0_r.
    + intros k Hlt. destruct (Hc k Hlt); [by left|right]. apply Exists_app. by left.
    + rewrite map_app, concat_app. cbn. by rewrite Hd, !app_nil_r.
    + intros s. rewrite map_app, concat_app. cbn. rewrite Hd, !app_nil_r. apply Hk.
  - rewrite Hts in *. apply Forall_app in Hv as [_ [Hvt _]%Forall_cons_1].
    destruct (threadStep_dials _ _ _ _ _ _ Hvt Hst) as [Ds Dsp Dc Do Df]. constructor; cbn [pool threads].
    + rewrite sum_slots_app in *. cbn in *. rewrite sum_slots_app, (sum_slots_zero spawned Dsp).
      destruct (sem (pool w)), (sem p'); try done. destruct Hs as (? & ? & ?). split_and!; [done..|]. lia.
    + intros k Hlt. destruct (Dc k Hlt) as [|[He|(Hlt' & Hd & Hne)]]; [by left|right|].
      { apply list.Exists_exists in He as (t0 & Ht0 & He). apply list.Exists_exists. exists t0. set_solver. }
      rewrite Hd. destruct (Hc k Hlt') as [|He]; [by left|right].
      apply list.Exists_exists in He as (t0 & Ht0 & He). apply list.Exists_exists. exists t0. split; [|done].
      apply elem_of_app in Ht0 as [|[-> |]%elem_of_cons]; [set_solver|done|set_solver].
    + rewrite map_app, concat_app in Hf, Hk |- *. cbn [map concat] in *. rewrite map_app, concat_app.
      destruct Df as [(-> & -> & _)|[(-> & ->)|(s & -> & Hd & -> & Hn & _)]]; rewrite ?Hd in *; cbn [map concat app] in *; rewrite ?app_nil_r in *.
      * done.
      * by apply NoDup_drop with (l2 := dialsOf t).
      * rewrite app_assoc. apply list.NoDup_app. split_and!; [done| |apply NoDup_singleton]. intros s0 Hs0 ->%list_elem_of_singleton. by apply (Hk s).
    + intros s. rewrite map_app, concat_app in Hf, Hk |- *. cbn [map concat] in *. rewrite map_app, concat_app.
      assert (s ∈ concat (map dialsOf l1) \/ s ∈ concat (map dialsOf l2) -> connectingOf p' s <> None) as Hother.
      { intros Hs0. apply Do; [apply Hk; set_solver|]. intros Ht0. eapply NoDup_middle; [exact Hf|exact Ht0|done]. }
      destruct Df as [(-> & -> & Hkeep)|[(-> & ->)|(s0 & -> & Hd & -> & _ & Hn)]]; cbn [map concat app]; rewrite ?app_nil_r, ?elem_of_app.
      * intros [|[Ht0|]]; [by apply Hother; left|apply Hkeep; [done|apply Hk; set_solver]|by apply Hother; right].
      * apply Hother.
      * intros [|[|Hs0]]; [by apply Hother; left|by apply Hother; right|]. by apply list_elem_of_singleton in Hs0 as ->.
Qed.

Lemma reachable_dials mode MaxInflight w : reachable mode MaxInflight w -> dials mode MaxInflight w.
Proof.
  induction 1 as [|w a w' Hr IH Hs]; [|eapply dials_step; [by eapply reachable_inv|done..]].
  constructor; cbn; [|lia|constructor|set_solver]. unfold NewConnPool. cbn. case_bool_decide as Hm; cbn; [|tauto].
  destruct (Z.ltb_spec 0 MaxInflight); cbn; [split_and!; [done..|lia]|lia].
Qed.

Definition dialing t : bool := match t with Dial _ => true | _ => false end.

Lemma dialing_slots l : (length (filter (fun t => dialing t = true) l) <= sum_list_with slots l)%nat.
Proof.
  induction l as [|t l IH]; [done|]. cbn [sum_list_with]. destruct (dialing t) eqn:Hd.
  - rewrite filter_cons_True by done. destruct t; try done. cbn. lia.
  - rewrite filter_cons_False by congruence. lia.
Qed.

(** An ordered pool never dials more than [MaxInflight] connections at once, and a
    shared pool never dials twice at once for the same state. *)
Theorem conn_pool_dials_limited mode MaxInflight w : reachable mode MaxInflight w ->
  (mode = ConnPoolOrdered -> 0 < MaxInflight -> Z.of_nat (length (filter (fun t => dialing t = true) (threads w))) <= MaxInflight) /\
  (forall i j s k k', threads w !! i = Some (ConnectSingle s k) -> threads w !! j = Some (ConnectSingle s k') -> i = j).
Proof.
  intros [Hs _ Hf _]%reachable_dials. split.
  - intros Hm Hmax. pose proof (dialing_slots (threads w)) as Hd. destruct (sem (pool w)); [lia|tauto].
  - intros i j s k k' Hi Hj. destruct (decide (i = j)) as [|Hij]; [done|]. exfalso.
    eapply (concat_NoDup_lookup _ i j [s] [s]); [exact Hf|by rewrite list_lookup_fmap, Hi|by rewrite list_lookup_fmap, Hj|done|by left|by left].
Qed.

(** * Progress *)

(** Steps that need no context to be done. *)
Definition unaided (c : Choice T) : Prop := match c with CtxDone _ | StateDone => False | _ => True end.

(** Goroutines that wait for others. *)
Definition waits t : Prop := match t with Wait _ _ _ | AcquireSlot _ => True | _ => False end.

Lemma can_step p t : ~ waits t -> ~ ended t -> t <> Crashed -> exists c r, unaided c /\ madeBy c = ∅ /\ threadStep p t c = Some r.
Proof.
  intros Hw He Hc. destruct t; cbn in Hw, He; try tauto; try done;
    try (by exists Go; eexists); try (by exists (Alive true); eexists); try (by exists (DialResult (inr net_ErrClosed) None); eexists).
  destruct conns; by exists Go; eexists.
Qed.

Lemma thread_steps w i t c r : threads w !! i = Some t -> madeBy c = ∅ -> threadStep (pool w) t c = Some r -> exists w', step w (Step i c) = Some w'.
Proof.
  intros Hi Hm Hr. destruct r as [[p t'] sp]. cbn. rewrite Hi, Hm, bool_decide_true by set_solver. rewrite Hr. by eexists.
Qed.

(** C25: No goroutine waits for ever: as long as an operation is not over, one of the operations
    can go on by itself, provided that dialers return. *)
Theorem conn_pool_progress mode MaxInflight w : reachable mode MaxInflight w -> ~ Forall ended (threads w) ->
  exists i t c w', threads w !! i = Some t /\ ~ ended t /\ unaided c /\ step w (Step i c) = Some w'.
Proof.
  intros Hr Hne. destruct (reachable_inv _ _ _ Hr) as [_ Hv _]. destruct (reachable_dials _ _ _ Hr) as [Hs Hc _ _].
  assert (forall t, t ∈ threads w -> valid (pool w) t) as Hval by (by apply list.Forall_forall).
  assert (forall t, t ∈ threads w -> ~ waits t -> ~ ended t ->
    exists i t c w', threads w !! i = Some t /\ ~ ended t /\ unaided c /\ step w (Step i c) = Some w') as Hgo.
  { intros t Ht Hw He. destruct (list_elem_of_lookup_1 _ _ Ht) as [i Hi].
    destruct (can_step (pool w) t Hw He) as (c & r & Hu & Hm & Hstep); [intros ->; by apply (Hval _ Ht)|].
    destruct (thread_steps w i t c r Hi Hm Hstep) as [w' Hw']. by exists i, t, c, w'. }
  assert (exists t, t ∈ threads w /\ ~ ended t) as (t & Ht & He).
  { apply not_Forall_Exists in Hne; [|intros t; destruct t; (left; exact I) || (right; intros [])]. apply list.Exists_exists in Hne as (t & Ht & He). by exists t. }
  assert (waits t \/ ~ waits t) as [Hw|Hw] by (destruct t; cbn; tauto); [|by eapply Hgo].
  destruct (list_elem_of_lookup_1 _ _ Ht) as [i Hi]. specialize (Hval t Ht). destruct t; try done.
  - destruct (sem (pool w)) as [[|n]|] eqn:Hsem.
    + destruct Hs as (_ & Hmax & Hsum). assert (exists t, t ∈ threads w /\ slots t <> 0%nat) as (t & Ht' & Hsl).
      { clear -Hmax Hsum. revert Hsum. generalize (threads w). intros l Hsum. destruct (decide (Forall (fun t => slots t = 0%nat) l)) as [Hz|Hz].
        - rewrite (sum_slots_zero _ Hz) in Hsum. lia.
        - apply not_Forall_Exists in Hz; [|intros t; apply _]. apply list.Exists_exists in Hz as (t & Ht & Hs). by exists t. }
      apply (Hgo t Ht'); by destruct t.
    + destruct (thread_steps w i _ Go ((pool w) {{ sem := Some n }}, Dial s, []) Hi) as [w' Hw']; [done|cbn; by rewrite Hsem|]. by exists i, (AcquireSlot s), Go, w'.
    + destruct (thread_steps w i _ Go (pool w, Dial s, []) Hi) as [w' Hw']; [done|cbn; by rewrite Hsem|]. by exists i, (AcquireSlot s), Go, w'.
  - destruct Hval as [_ Hk]. destruct (Hc k Hk) as [Hd|Hcon].
    + destruct (thread_steps w i _ (Alive true) (collectShared (pool w) s k startDial true, []) Hi) as [w' Hw']; [done|cbn; by rewrite Hd|].
      by exists i, (Wait s k startDial), (Alive true), w'.
    + apply list.Exists_exists in Hcon as (t & Ht' & Hco). apply (Hgo t Ht'); by destruct t.
Qed.
End spec.

(** * Examples *)

Lemma run_reachable `{Countable T} mode MaxInflight (w : World T) actions w' :
  reachable mode MaxInflight w -> run w actions = Some w' -> reachable mode MaxInflight w'.
Proof.
  revert w. induction actions as [|a actions IH]; intros w Hr Hrun; cbn in Hrun; [congruence|].
  destruct (step w a) as [w1|] eqn:Hs; [|done]. eapply IH; [|exact Hrun]. by eapply reachable_step.
Qed.

Definition demoPool (mode : ConnPoolMode) : World nat := mkWorld (NewConnPool mode 1) [] ∅.

(** A connection is dialed, released and acquired again. *)
Definition demoReuse : list (Action nat) :=
  [Call AcquireOrdered; Step 0 (Alive true); Step 0 Go; Step 0 (DialResult (inl 7) None); Step 0 Go; Step 0 Go;
   Step 0 (CallRelease true); Step 0 (Alive true); Call AcquireOrdered; Step 1 (Alive true)]%nat.

(** Then it is released for good and the pool is closed. *)
Definition demoClose : list (Action nat) :=
  (demoReuse ++ [Step 1 (CallRelease true); Step 1 (Alive true); Call Close; Step 2 Go; Step 2 Go; Step 2 Go; Step 2 Go])%nat.

(** Two callers, of which only the first has a place to dial. *)
Definition demoWaiting : list (Action nat) :=
  [Call AcquireOrdered; Step 0 (Alive true); Step 0 Go; Call AcquireOrdered; Step 1 (Alive true)]%nat.

Definition after (mode : ConnPoolMode) (actions : list (Action nat)) : World nat := default (demoPool mode) (run (demoPool mode) actions).

Lemma after_reachable mode actions : run (demoPool mode) actions <> None -> reachable mode 1 (after mode actions).
Proof.
  intros Hr. unfold after. destruct (run (demoPool mode) actions) as [w|] eqn:Hrun; [|done]. eapply run_reachable; [|exact Hrun]. constructor.
Qed.

Lemma conn_pool_no_leak_witness : 7%nat ∈ closes (pool (after ConnPoolOrdered demoClose)).
Proof.
  assert (reachable ConnPoolOrdered 1 (after ConnPoolOrdered demoClose)) as Hr by (apply after_reachable; vm_compute; discriminate).
  apply (conn_pool_no_leak ConnPoolOrdered 1 (after ConnPoolOrdered demoClose) Hr 7%nat).
  - apply (bool_decide_unpack _). vm_compute. exact I.
  - vm_compute. reflexivity.
  - vm_compute. repeat constructor.
Defined.

Lemma conn_pool_exclusive_witness :
  threads (after ConnPoolOrdered demoReuse) !! 1%nat = Some (Got 7%nat false) /\
  forall j, threads (after ConnPoolOrdered demoReuse) !! j = Some (Got 7%nat false) -> 1%nat = j.
Proof.
  assert (reachable ConnPoolOrdered 1 (after ConnPoolOrdered demoReuse)) as Hr by (apply after_reachable; vm_compute; discriminate).
  assert (threads (after ConnPoolOrdered demoReuse) !! 1%nat = Some (Got 7%nat false)) as Hg by (vm_compute; reflexivity).
  split; [exact Hg|]. intros j. exact (proj1 (conn_pool_exclusive 1 (after ConnPoolOrdered demoReuse) 1%nat j 7%nat false false Hr Hg)).
Defined.

Lemma conn_pool_dials_limited_witness :
  Z.of_nat (length (filter (fun t => dialing t = true) (threads (after ConnPoolOrdered demoWaiting)))) <= 1 /\
  threads (after ConnPoolOrdered demoWaiting) = [Dial 0%nat; AcquireSlot 0%nat].
Proof.
  assert (reachable ConnPoolOrdered 1 (after ConnPoolOrdered demoWaiting)) as Hr by (apply after_reachable; vm_compute; discriminate).
  split; [|vm_compute; reflexivity]. by apply (conn_pool_dials_limited ConnPoolOrdered 1 (after ConnPoolOrdered demoWaiting) Hr).
Defined.

Lemma conn_pool_progress_witness : exists i t c w', threads (after ConnPoolOrdered demoWaiting) !! i = Some t /\ ~ ended t /\
  unaided c /\ step (after ConnPoolOrdered demoWaiting) (Step i c) = Some w'.
Proof.
  assert (reachable ConnPoolOrdered 1 (after ConnPoolOrdered demoWaiting)) as Hr by (apply after_reachable; vm_compute; discriminate).
  apply (conn_pool_progress ConnPoolOrdered 1 (after ConnPoolOrdered demoWaiting) Hr).
  intros Hf. replace (threads (after ConnPoolOrdered demoWaiting)) with [@Dial nat 0; AcquireSlot 0] in Hf by (vm_compute; reflexivity).
  apply Forall_cons_1 in Hf as [[] _].
Defined.
