(* ===== verification/UDPTransport.v ===== *)
(** The exchanges of [dns/transport/udp.go]: query identifiers and the callbacks that
    responses are handed to. *)
From S2P Require Import Prelude Netip Metadata Bytes.

Section udp.
(** The rest of a message. *)
Context {B : Type}.

Record Message := mkMessage { Id : Z; body : B }.

(** A [udpCallback]: its response, once it is done.  The identifier it was
    registered with is kept for the proofs. *)
Record udpCallback := mkUdpCallback { registered : Z; response : option Message }.

(** Callbacks are shared by pointers, here their positions in [heap]. *)
Record UDPTransport := mkUDPTransport { queryId : Z; callbacks : gmap Z nat; heap : list udpCallback }.

Definition newUDPTransport : UDPTransport := mkUDPTransport 0 ∅ [].

(** * Identifiers *)

(** The loop, with the last identifier tried. *)
Fixpoint nextQueryId (fuel : nat) (used : gmap Z nat) (start queryId : Z) : result Z * Z :=
  match fuel with
  | O => (Panic outOfFuel, queryId)
  | S fuel' =>
      let queryId := u16 (queryId + 1) in
      if negb (bool_decide (is_Some (used !! queryId))) then (Ok queryId, queryId)
      else if queryId =? start then (Err (E_New "no available query ID"), queryId)
      else nextQueryId fuel' used start queryId
  end.

Definition idCount : nat := Z.to_nat 65536.

Definition nextAvailableQueryId (t : UDPTransport) : result Z * UDPTransport :=
  let '(r, q) := nextQueryId idCount (callbacks t) (queryId t) (queryId t) in (r, t {{ queryId := q }}).

(** * Goroutines *)

(** An exchange of a message with the identifier [originalId], from the time it has a
    connection, and the receiver of a message. *)
Inductive Thread :=
| Register (originalId : Z)
| Send (k : nat) (queryId originalId : Z)
| Wait (k : nat) (queryId originalId : Z)
| Unregister (k : nat) (queryId originalId : Z) (r : Message + GoError)
| Returned (queryId originalId : Z) (r : Message + GoError)
| Receive (message : Message)
| Deliver (k : nat) (message : Message)
| Finished.

Inductive Choice := Go | Fails (e : GoError).

Definition addCallback (t : UDPTransport) (queryId : Z) : UDPTransport :=
  t {{ callbacks := <[queryId := length (heap t)]> (callbacks t); heap := heap t ++ [mkUdpCallback queryId None] }}.

Definition register (t : UDPTransport) (originalId : Z) : UDPTransport * Thread :=
  match nextAvailableQueryId t with
  | (Ok queryId, t) =>
      (addCallback t queryId, Send (length (heap t)) queryId originalId)
  | (Err e, t) => (t, Returned 0 originalId (inr e))
  | (Panic _, t) => (t, Returned 0 originalId (inr (E_New outOfFuel)))
  end.

(** One step: sending and waiting may fail. *)
Definition threadStep (t : UDPTransport) (thread : Thread) (c : Choice) : option (UDPTransport * Thread) :=
  match thread, c with
  | Register originalId, Go => Some (register t originalId)
  | Send k queryId originalId, Go => Some (t, Wait k queryId originalId)
  | Send k queryId originalId, Fails e => Some (t, Unregister k queryId originalId (inr e))
  | Wait k queryId originalId, Go =>
      match heap t !! k with
      | Some (mkUdpCallback _ (Some message)) => Some (t, Unregister k queryId originalId (inl (message {{ Id := originalId }})))
      | _ => None
      end
  | Wait k queryId originalId, Fails e => Some (t, Unregister k queryId originalId (inr e))
  | Unregister k queryId originalId r, Go => Some (t {{ callbacks := delete queryId (callbacks t) }}, Returned queryId originalId r)
  | Receive message, Go =>
      Some (t, match callbacks t !! Id message with Some k => Deliver k message | None => Finished end)
  | Deliver k message, Go =>
      Some (t {{ heap := alter (fun cb => match response cb with
                                          | Some _ => cb
                                          | None => cb {{ response := Some message }}
                                          end) k (heap t) }}, Finished)
  | _, _ => None
  end.

(** The goroutines, and the messages that were received. *)
Record World := mkWorld { transport : UDPTransport; threads : list Thread; received : list Message }.

Inductive Action :=
| Step (i : nat) (c : Choice)
| Exchange (originalId : Z)
| Arrive (message : Message).

Definition step (w : World) (a : Action) : option World :=
  match a with
  | Exchange originalId => Some (mkWorld (transport w) (threads w ++ [Register originalId]) (received w))
  | Arrive message => Some (mkWorld (transport w) (threads w ++ [Receive message]) (received w ++ [message]))
  | Step i c =>
      match threads w !! i with
      | None => None
      | Some thread =>
          match threadStep (transport w) thread c with
          | Some (t, thread') => Some (mkWorld t (<[i := thread']> (threads w)) (received w))
          | None => None
          end
      end
  end.

Inductive reachable : World -> Prop :=
| reachable_init : reachable (mkWorld newUDPTransport [] [])
| reachable_step w a w' : reachable w -> step w a = Some w' -> reachable w'.

Fixpoint run (w : World) (actions : list Action) : option World :=
  match actions with
  | [] => Some w
  | a :: actions' => match step w a with Some w' => run w' actions' | None => None end
  end.

(** * Identifiers are found *)

Lemma idCount_val : Z.of_nat idCount = 65536.
Proof. by vm_compute. Qed.

#[local] Opaque idCount.

Definition isId (z : Z) : Prop := 0 <= z < 65536.

Lemma u16_next z : isId z -> isId (u16 (z + 1)) /\ u16 (z + 1) = if z =? 65535 then 0 else z + 1.
Proof.
  unfold isId, u16. intros Hz. destruct (Z.eqb_spec z 65535) as [->|]; [done|]. rewrite wrap_small by (change (2 ^ 16) with 65536; lia). lia.
Qed.

(** After [n] tries without success the identifiers after [start] are used. *)
Lemma nextQueryId_spec used start : isId start -> forall fuel n q,
  (fuel + n = idCount)%nat -> (0 < fuel)%nat -> q = (start + Z.of_nat n) mod 65536 ->
  (forall i, 1 <= i <= Z.of_nat n -> is_Some (used !! ((start + i) mod 65536))) ->
  match nextQueryId fuel used start q with
  | (Ok r, q') => isId r /\ used !! r = None /\ q' = r
  | (Err e, q') => isId q' /\ forall r, isId r -> is_Some (used !! r)
  | (Panic _, _) => False
  end.
Proof.
  intros Hs. induction fuel as [|fuel IH]; intros n q Hn Hf Hq Hu; [lia|]. cbn [nextQueryId].
  assert (isId q) as Hqi by (subst q; apply Z.mod_pos_bound; lia).
  assert (u16 (q + 1) = (start + Z.of_nat (S n)) mod 65536) as Hnext.
  { destruct (u16_next q Hqi) as [_ ->]. subst q. rewrite Nat2Z.inj_succ.
    replace (start + Z.succ (Z.of_nat n)) with (start + Z.of_nat n + 1) by lia. rewrite (Z.add_mod (start + Z.of_nat n) 1) by lia. change (1 mod 65536) with 1.
    destruct (Z.eqb_spec ((start + Z.of_nat n) mod 65536) 65535) as [->|Hne]; [done|]. unfold isId in Hqi. rewrite (Z.mod_small (_ + 1)) by lia. done. }
  assert (isId (u16 (q + 1))) as Hid by apply u16_next, Hqi. set (q' := u16 (q + 1)) in *.
  case_bool_decide as Hused; cbn [negb]; [|split_and!; [done| |done]; by apply eq_None_not_Some].
  assert (forall i, 1 <= i <= Z.of_nat (S n) -> is_Some (used !! ((start + i) mod 65536))) as Hu'.
  { intros i Hi. destruct (Z.eq_dec i (Z.of_nat (S n))) as [->|]; [by rewrite <- Hnext|apply Hu; lia]. }
  pose proof idCount_val as Hc. unfold isId in *.
  destruct (Z.eqb_spec q' start) as [Heq|Hne].
  - split; [done|]. assert (S n = idCount) as Hfull.
    { rewrite Hnext in Heq. assert (Z.of_nat (S n) mod 65536 = 0) as Hm.
      { assert (start = start mod 65536) as Hss by (by rewrite Z.mod_small). rewrite Hss in Heq at 2.
        replace (Z.of_nat (S n)) with (start + Z.of_nat (S n) - start) by lia. rewrite Zminus_mod, Heq. by rewrite Z.sub_diag. }
      apply Z.mod_divide in Hm as [m Hm]; [|lia]. nia. }
    intros r Hr. specialize (Hu' (if r <=? start then r - start + 65536 else r - start)).
    destruct (Z.leb_spec r start).
    + replace ((start + (r - start + 65536)) mod 65536) with r in Hu'; [apply Hu'; lia|].
      replace (start + (r - start + 65536)) with (r + 1 * 65536) by lia. by rewrite Z.mod_add, Z.mod_small by lia.
    + replace ((start + (r - start)) mod 65536) with r in Hu'; [apply Hu'; lia|].
      replace (start + (r - start)) with r by lia. by rewrite Z.mod_small.
  - destruct fuel as [|fuel].
    { exfalso. apply Hne. rewrite Hnext. replace (Z.of_nat (S n)) with (1 * 65536) by lia. by rewrite Z.mod_add, Z.mod_small by lia. }
    apply (IH (S n)); [lia|lia|done|done].
Qed.

Lemma nextQueryId_start used start : isId start ->
  match nextQueryId idCount used start start with
  | (Ok r, q') => isId r /\ used !! r = None /\ q' = r
  | (Err e, q') => isId q' /\ forall r, isId r -> is_Some (used !! r)
  | (Panic _, _) => False
  end.
Proof.
  intros Hs. pose proof idCount_val as Hc. apply (nextQueryId_spec used start Hs idCount 0); [lia|lia| |lia].
  rewrite Z.add_0_r, Z.mod_small; done.
Qed.

(** An identifier that is not in use is found, unless all 65536 are; the search always
    ends. *)
Theorem query_id_found t : isId (queryId t) ->
  match nextAvailableQueryId t with
  | (Ok r, t') => isId r /\ callbacks t !! r = None /\ callbacks t' = callbacks t
  | (Err e, t') => forall r, isId r -> is_Some (callbacks t !! r)
  | (Panic _, _) => False
  end.
Proof.
  intros Hq. unfold nextAvailableQueryId. pose proof (nextQueryId_start (callbacks t) (queryId t) Hq) as Hn.
  destruct (nextQueryId idCount _ _ _) as [[r|e|s] q].
  - destruct Hn as (Hi & Hu & _). split; [exact Hi|]. split; [exact Hu|reflexivity].
  - exact (proj2 Hn).
  - exact Hn.
Qed.

(** * Responses *)

(** The callback an exchange is registered with. *)
Definition liveOf (thread : Thread) : list nat := match thread with Send k _ _ | Wait k _ _ | Unregister k _ _ _ => [k] | _ => [] end.

(** The message is one that was received for the identifier, with the original one. *)
Definition answers (received : list Message) (queryId originalId : Z) (m : Message) : Prop :=
  exists m0, m0 ∈ received /\ Id m0 = queryId /\ m = m0 {{ Id := originalId }}.

Definition sound (t : UDPTransport) (received : list Message) (thread : Thread) : Prop :=
  match thread with
  | Send k id _ | Wait k id _ | Unregister k id _ (inr _) => callbacks t !! id = Some k
  | Unregister k id originalId (inl m) => callbacks t !! id = Some k /\ answers received id originalId m
  | Returned id originalId (inl m) => answers received id originalId m
  | Receive m => m ∈ received
  | Deliver k m => m ∈ received /\ exists cb, heap t !! k = Some cb /\ registered cb = Id m
  | _ => True
  end.

Record wf (t : UDPTransport) (received : list Message) : Prop := {
  wf_id : isId (queryId t);
  wf_callbacks : forall id k, callbacks t !! id = Some k -> exists cb, heap t !! k = Some cb /\ registered cb = id;
  wf_responses : forall k cb m, heap t !! k = Some cb -> response cb = Some m -> Id m = registered cb /\ m ∈ received
}.

Record inv (w : World) : Prop := {
  inv_wf : wf (transport w) (received w);
  inv_sound : Forall (sound (transport w) (received w)) (threads w);
  inv_live : NoDup (concat (map liveOf (threads w)))
}.

(** What other goroutines keep, but for the one that unregisters [gone]. *)
Record extends (t t' : UDPTransport) (gone : option nat) : Prop := {
  ex_callbacks : forall id k, callbacks t !! id = Some k -> Some k <> gone -> callbacks t' !! id = Some k;
  ex_heap : forall k cb, heap t !! k = Some cb -> exists cb', heap t' !! k = Some cb' /\ registered cb' = registered cb
}.

Lemma extends_refl t gone : extends t t gone.
Proof. constructor; eauto. Qed.

Lemma sound_extends t t' gone rcv rcv' thread : extends t t' gone -> (forall m, m ∈ rcv -> m ∈ rcv') ->
  (forall k, k ∈ liveOf thread -> Some k <> gone) -> sound t rcv thread -> sound t' rcv' thread.
Proof.
  intros [Hc Hh] Hr Hg. assert (forall id o m, answers rcv id o m -> answers rcv' id o m) as Ha.
  { intros id o m (m0 & Hm0 & ? & ?). exists m0. eauto. }
  destruct thread as [o|k id o|k id o|k id o [m|e]|id o [m|e]|m|k m|]; cbn in *; try done; eauto.
  - apply Hc || (intros; apply Hc; [done|apply Hg; set_solver]).
  - intros; apply Hc; [done|apply Hg; set_solver].
  - intros [Hk Hm]. split; [apply Hc; [done|apply Hg; set_solver]|eauto].
  - intros; apply Hc; [done|apply Hg; set_solver].
  - intros [Hm (cb & Hcb & Hi)]. split; [eauto|]. destruct (Hh _ _ Hcb) as (cb' & Hcb' & Hi'). exists cb'. split; [done|congruence].
Qed.

Lemma nextAvailable_same t : isId (queryId t) -> isId (queryId (nextAvailableQueryId t).2) /\
  callbacks (nextAvailableQueryId t).2 = callbacks t /\ heap (nextAvailableQueryId t).2 = heap t.
Proof.
  intros Hq. unfold nextAvailableQueryId. pose proof (nextQueryId_start (callbacks t) (queryId t) Hq) as Hn.
  destruct (nextQueryId idCount _ _ _) as [r q]. cbn [snd] in *. split; [|split; reflexivity]. change (isId q). destruct r; [|exact (proj1 Hn)|destruct Hn].
  destruct Hn as (Hi & _ & ->). exact Hi.
Qed.

Lemma register_wf t rcv o t' thread' : wf t rcv -> register t o = (t', thread') ->
  wf t' rcv /\ sound t' rcv thread' /\ extends t t' None /\
  (liveOf thread' = [] \/ liveOf thread' = [] \/ @nil nat = [] /\ liveOf thread' = [length (heap t)]).
Proof.
  intros Hwf. unfold register. pose proof (query_id_found t (wf_id _ _ Hwf)) as Hq. pose proof (nextAvailable_same t (wf_id _ _ Hwf)) as (Hqi & Hcs & Hhs).
  destruct Hwf as [_ Hc Hr]. destruct (nextAvailableQueryId t) as [[id|e|p] t1]; [| |done].
  2:{ intros [= <- <-]. cbn [snd] in *. split_and!; [|done| |by left].
      - constructor; [done|rewrite Hcs, Hhs; done|rewrite Hhs; done].
      - constructor; [by rewrite Hcs|rewrite Hhs; eauto]. }
  cbn [snd] in *. intros [= <- <-]. destruct Hq as (Hid & Hfree & _). set (t2 := addCallback t1 id).
  assert (callbacks t2 = <[id := length (heap t1)]> (callbacks t1)) as Hc2 by reflexivity.
  assert (heap t2 = heap t1 ++ [mkUdpCallback id None]) as Hh2 by reflexivity.
  assert (queryId t2 = queryId t1) as Hq2 by reflexivity. clearbody t2. rewrite Hcs, Hhs in *. set (k := length (heap t)) in *.
  assert (heap t2 !! k = Some (mkUdpCallback id None)) as Hk by (rewrite Hh2; unfold k; by rewrite lookup_app_r, Nat.sub_diag).
  assert (forall k0 cb, heap t !! k0 = Some cb -> heap t2 !! k0 = Some cb) as Hold by (intros k0 cb Hk0; rewrite Hh2; by apply lookup_app_l_Some).
  split_and!.
  - constructor; [by rewrite Hq2| |].
    + intros id0 k0. rewrite Hc2. intros [[<- <-]|[_ Hk0]]%lookup_insert_Some; [by eexists|]. destruct (Hc id0 k0 Hk0) as (cb & Hcb & Hreg). exists cb. auto.
    + intros k0 cb m. rewrite Hh2, lookup_app_Some. intros [Hk0|[_ Hk0]]; [by apply (Hr k0)|]. by apply list_lookup_singleton_Some in Hk0 as [_ <-].
  - cbn. rewrite Hc2. apply lookup_insert_eq.
  - constructor; [|intros k0 cb Hk0; exists cb; auto]. intros id0 k0 Hk0 _. rewrite Hc2, lookup_insert_ne; [done|]. congruence.
  - right. right. done.
Qed.

Definition deliver (m : Message) (cb : udpCallback) : udpCallback :=
  match response cb with Some _ => cb | None => cb {{ response := Some m }} end.

Lemma registered_deliver m cb : registered (deliver m cb) = registered cb.
Proof. unfold deliver. by destruct (response cb). Qed.

Lemma deliver_extends t k m gone : extends t (t {{ heap := alter (deliver m) k (heap t) }}) gone.
Proof.
  constructor; [done|]. intros k0 cb Hcb. change (heap (t {{ heap := ?h }})) with h. destruct (decide (k = k0)) as [<-|].
  - exists (deliver m cb). rewrite list_lookup_alter_eq, Hcb, registered_deliver. done.
  - exists cb. by rewrite list_lookup_alter_ne.
Qed.

Lemma deliver_wf t rcv k m cb0 : wf t rcv -> m ∈ rcv -> heap t !! k = Some cb0 -> registered cb0 = Id m ->
  wf (t {{ heap := alter (deliver m) k (heap t) }}) rcv.
Proof.
  intros [Hi Hc Hr] Hm Hcb0 Hreg. constructor; [done| |].
  - intros id k0 Hk0. destruct (Hc id k0 Hk0) as (cb & Hcb & <-). by apply (deliver_extends t k m None).
  - intros k0 cb m0. change (heap (t {{ heap := ?h }})) with h. destruct (decide (k = k0)) as [<-|].
    + rewrite list_lookup_alter_eq, Hcb0. intros [= <-]. rewrite registered_deliver. unfold deliver.
      destruct (response cb0) as [m1|] eqn:Hm1; [intros Hm0; eapply Hr; [exact Hcb0|congruence]|]. cbn. intros [= <-]. split; [congruence|done].
    + rewrite list_lookup_alter_ne by done. apply Hr.
Qed.

Lemma threadStep_wf t rcv thread c t' thread' : wf t rcv -> sound t rcv thread -> threadStep t thread c = Some (t', thread') ->
  wf t' rcv /\ sound t' rcv thread' /\
  extends t t' (match thread with Unregister k _ _ _ => Some k | _ => None end) /\
  (liveOf thread' = liveOf thread \/ liveOf thread' = [] \/ liveOf thread = [] /\ liveOf thread' = [length (heap t)]).
Proof.
  intros Hwf Hs Hstep. destruct thread as [o|k id o|k id o|k id o r|id o r|m|k m|], c as [|e]; cbn [threadStep] in Hstep; try discriminate.
  - injection Hstep as Hr. by apply (register_wf t rcv o).
  - injection Hstep as <- <-. split_and!; [done|done|apply extends_refl|by left].
  - injection Hstep as <- <-. split_and!; [done|done|apply extends_refl|by left].
  - destruct (heap t !! k) as [[id0 [m|]]|] eqn:Hk; try discriminate. injection Hstep as <- <-.
    split_and!; [done| |apply extends_refl|by left]. cbn in Hs |- *. split; [done|]. exists m.
    destruct (wf_responses _ _ Hwf k _ m Hk eq_refl) as [Hid Hm]. cbn in Hid.
    destruct (wf_callbacks _ _ Hwf id k Hs) as (cb & Hcb & Hreg). rewrite Hk in Hcb. injection Hcb as <-. cbn in Hreg. split_and!; [done|congruence|done].
  - injection Hstep as <- <-. split_and!; [done|done|apply extends_refl|by left].
  - injection Hstep as <- <-. destruct Hwf as [Hi Hc Hr]. split_and!; [| | |by right; left].
    + constructor; [done| |done]. intros id0 k0 Hk0. change (delete id (callbacks t) !! id0 = Some k0) in Hk0.
      apply lookup_delete_Some in Hk0 as [_ Hk0]. by apply Hc.
    + destruct r; [|done]. by destruct Hs.
    + constructor; [|eauto]. intros id0 k0 Hk0 Hne. change (delete id (callbacks t) !! id0 = Some k0). rewrite lookup_delete_ne; [done|]. intros <-. apply Hne.
      destruct r; cbn in Hs; [destruct Hs as [Hs _]|]; congruence.
  - injection Hstep as <- <-. cbn in Hs. split_and!; [done| |apply extends_refl|].
    + destruct (callbacks t !! Id m) as [k|] eqn:Hk; [|done]. split; [done|]. by apply (wf_callbacks _ _ Hwf).
    + destruct (callbacks t !! Id m); by left.
  - injection Hstep as <- <-. destruct Hs as (Hm & cb0 & Hcb0 & Hreg). split_and!; [by eapply deliver_wf|done| |by left].
    apply deliver_extends.
Qed.

Lemma udp_step_cases w a w' : step w a = Some w' ->
  (exists thread rcv, w' = mkWorld (transport w) (threads w ++ [thread]) rcv /\ liveOf thread = [] /\
    (forall m, m ∈ received w -> m ∈ rcv) /\ sound (transport w) rcv thread) \/
  (exists l1 thread l2 c t' thread', threads w = l1 ++ thread :: l2 /\ threadStep (transport w) thread c = Some (t', thread') /\
    w' = mkWorld t' (l1 ++ thread' :: l2) (received w)).
Proof.
  destruct a as [i c|o|m]; cbn.
  - destruct (threads w !! i) as [thread|] eqn:Hi; [|done]. destruct (threadStep _ _ _) as [[t' thread']|] eqn:Hs; [|done]. intros [= <-]. right.
    exists (take i (threads w)), thread, (drop (S i) (threads w)), c, t', thread'. split_and!; [by rewrite take_drop_middle|done|].
    f_equal. by rewrite insert_take_drop by (by eapply lookup_lt_Some).
  - intros [= <-]. left. by exists (Register o), (received w).
  - intros [= <-]. left. exists (Receive m), (received w ++ [m]). split_and!; try done; cbn; set_solver.
Qed.

Lemma live_callbacks t rcv l : wf t rcv -> Forall (sound t rcv) l -> forall k, k ∈ concat (map liveOf l) -> (k < length (heap t))%nat.
Proof.
  intros Hwf Hs k Hk. apply list_elem_of_In, in_concat in Hk as (ks & Hks & Hk). apply in_map_iff in Hks as (thread & <- & Ht).
  apply list_elem_of_In in Hk, Ht. rewrite list.Forall_forall in Hs. specialize (Hs thread Ht).
  assert (exists id, callbacks t !! id = Some k) as [id Hid].
  { destruct thread as [|k0 id o|k0 id o|k0 id o [m|e]| | | |]; cbn in *; try (by apply not_elem_of_nil in Hk);
      apply list_elem_of_singleton in Hk as ->; exists id; tauto. }
  destruct (wf_callbacks _ _ Hwf id k Hid) as (cb & Hcb & _). by eapply lookup_lt_Some.
Qed.

Lemma udp_inv_step w a w' : inv w -> step w a = Some w' -> inv w'.
Proof.
  intros [Hwf Hs Hl] Hstep.
  destruct (udp_step_cases _ _ _ Hstep) as [(thread & rcv & -> & Hlive & Hrcv & Hst)|(l1 & thread & l2 & c & t' & thread' & Hts & Hst & ->)].
  - constructor; cbn [transport threads received].
    + destruct Hwf as [Hi Hc Hr]. constructor; [done..|]. intros k cb m Hk Hm. destruct (Hr k cb m Hk Hm). eauto.
    + apply Forall_app. split; [|by constructor]. eapply List.Forall_impl; [|exact Hs]. intros th. by apply (sound_extends _ _ None); [apply extends_refl|..].
    + rewrite map_app, concat_app. cbn. by rewrite Hlive, !app_nil_r.
  - pose proof (live_callbacks _ _ _ Hwf Hs) as Hlt. rewrite Hts in *. apply Forall_app in Hs as [Hs1 [Hst0 Hs2]%Forall_cons_1].
    rewrite map_app, concat_app in Hl, Hlt. cbn [map concat] in Hl, Hlt.
    destruct (threadStep_wf _ _ _ _ _ _ Hwf Hst0 Hst) as (W & S & E & L).
    assert (forall th, th ∈ l1 \/ th ∈ l2 -> forall k, k ∈ liveOf th -> Some k <> match thread with Unregister k _ _ _ => Some k | _ => None end) as Hgone.
    { intros th Hth k Hk Hg. destruct thread; try done. injection Hg as ->.
      assert (k0 ∈ concat (map liveOf l1) \/ k0 ∈ concat (map liveOf l2)) as Hin.
      { destruct Hth; [left|right]; apply list_elem_of_In, in_concat; exists (liveOf th); (split; [apply in_map|]); by apply list_elem_of_In. }
      eapply NoDup_middle; [exact Hl|by left|exact Hin]. }
    constructor; cbn [transport threads received]; [done| |].
    + apply Forall_app. split; [|constructor; [done|]]; apply list.Forall_forall; intros th Hth; eapply (sound_extends _ _ _ _ _ th E); try done;
        [by apply Hgone; left|by eapply list.Forall_forall in Hs1|by apply Hgone; right|by eapply list.Forall_forall in Hs2].
    + rewrite map_app, concat_app. cbn [map concat]. destruct L as [->|[->|[Ho ->]]]; [done|by apply NoDup_drop in Hl|].
      rewrite Ho in Hl, Hlt. cbn [app] in Hl, Hlt. set (k := length (heap (transport w))) in *.
      assert (k ∉ concat (map liveOf l1) ++ concat (map liveOf l2)) as Hk by (intros Hin; apply Hlt in Hin; lia).
      cbn [app]. rewrite <- Permutation_middle. by apply list.NoDup_cons.
Qed.

(** C26: No two exchanges wait with the same identifier, and the response that an exchange
    returns was received with its own identifier and has the one of its
    query, however exchanges, timeouts and responses are interleaved. *)
Theorem udp_exchanges w : reachable w ->
  (forall i j k k' id o o', threads w !! i = Some (Wait k id o) -> threads w !! j = Some (Wait k' id o') -> i = j) /\
  (forall i id o m, threads w !! i = Some (Returned id o (inl m)) -> answers (received w) id o m /\ Id m = o).
Proof.
  intros Hr. assert (inv w) as [Hwf Hs Hl].
  { induction Hr as [|w a w' _ IH Hs]; [|by eapply udp_inv_step]. constructor; cbn; [|done|constructor]. constructor; cbn; [done|set_solver|done]. }
  assert (forall i th, threads w !! i = Some th -> sound (transport w) (received w) th) as Hsound by (by apply Forall_lookup).
  split.
  - intros i j k k' id o o' Hi Hj. pose proof (Hsound _ _ Hi) as Hci. pose proof (Hsound _ _ Hj) as Hcj. cbn in Hci, Hcj.
    assert (k' = k) as -> by congruence. destruct (decide (i = j)) as [|Hij]; [done|]. exfalso.
    eapply (concat_NoDup_lookup _ i j [k] [k]); [exact Hl|by rewrite list_lookup_fmap, Hi|by rewrite list_lookup_fmap, Hj|done|by left|by left].
  - intros i id o m Hi. pose proof (Hsound _ _ Hi) as Ha. cbn in Ha. split; [done|]. destruct Ha as (m0 & _ & _ & ->). done.
Qed.

Lemma udp_run_reachable actions w w' : reachable w -> run w actions = Some w' -> reachable w'.
Proof.
  revert w. induction actions as [|a actions IH]; cbn; [congruence|]. intros w Hw. destruct (step w a) as [w1|] eqn:Ha; [|done].
  apply IH. by eapply reachable_step.
Qed.
End udp.

(** Two exchanges with the same original identifier, of which the second is answered
    first and the first is still waiting. *)
Definition demoExchanges : list (@Action unit) :=
  [Exchange 5; Exchange 5; Step 0 Go; Step 1 Go; Step 0 Go; Step 1 Go; Arrive (mkMessage 2 tt); Step 2 Go; Step 2 Go; Step 1 Go; Step 1 Go].

Definition demoWorld : World :=
  mkWorld (mkUDPTransport 2 {[1 := 0%nat]} [mkUdpCallback 1 None; mkUdpCallback 2 (Some (mkMessage 2 tt))])
    [Wait 0 1 5; Returned 2 5 (inl (mkMessage 5 tt)); Finished] [mkMessage 2 tt].

Lemma udp_exchanges_witness : reachable demoWorld /\ answers (received demoWorld) 2 5 (mkMessage 5 tt).
Proof.
  assert (reachable demoWorld) as Hr.
  { eapply (udp_run_reachable demoExchanges); [apply reachable_init|]. vm_compute. reflexivity. }
  split; [exact Hr|]. exact (proj1 (proj2 (udp_exchanges demoWorld Hr) 1%nat 2 5 (mkMessage 5 tt) eq_refl)).
Defined.
