(* ===== verification/DNSMode.v ===== *)
(** The modes of the DNS router ([dns/router.go]): which rules need the legacy
    address filter, which rule it out, and what is refused. *)
From S2P Require Import Prelude MatchState Netip Metadata RuleItem RuleAction Options RuleAbstract RuleBuild Bytes DNSClient.

Record dnsRuleModeFlags := mkFlags { disabled : bool; needed : bool; neededFromStrategy : bool }.

Definition flagsZero : dnsRuleModeFlags := mkFlags false false false.

Definition flags_merge (f other : dnsRuleModeFlags) : dnsRuleModeFlags :=
  mkFlags (disabled f || disabled other) (needed f || needed other) (neededFromStrategy f || neededFromStrategy other).

(** * Single rules *)

Definition isDefaultType (t : string) : bool := String.eqb t "" || String.eqb t RuleTypeDefault.

Definition actionOr (action : string) : string := if String.eqb action "" then RuleActionTypeRoute else action.

Definition dnsRuleActionType (rule : DNSRuleOptions) : string :=
  if isDefaultType (do_Type rule) then actionOr (dopt_Action (do_DefaultAction rule))
  else if String.eqb (do_Type rule) RuleTypeLogical then actionOr (dopt_Action (do_LogicalAction rule))
  else "".

Definition dnsRuleActionServer (rule : DNSRuleOptions) : string :=
  if isDefaultType (do_Type rule) then dopt_Server (dopt_RouteOptions (do_DefaultAction rule))
  else if String.eqb (do_Type rule) RuleTypeLogical then dopt_Server (dopt_RouteOptions (do_LogicalAction rule))
  else "".

(** The options of a route, evaluate or route-options action. *)
Definition actionOptions (action : DNSRuleActionOptions) : option DNSRouteOptionsActionOptions :=
  let t := dopt_Action action in
  if String.eqb t "" || String.eqb t RuleActionTypeRoute || String.eqb t RuleActionTypeEvaluate
  then Some (dopt_Common (dopt_RouteOptions action))
  else if String.eqb t RuleActionTypeRouteOptions then Some (dopt_RouteOptionsOptions action)
  else None.

Definition dnsRuleActionDisablesLegacyDNSMode (action : DNSRuleActionOptions) : bool :=
  match actionOptions action with Some o => dopt_DisableOptimisticCache o | None => false end.

Definition dnsRuleActionHasStrategy (action : DNSRuleActionOptions) : bool :=
  match actionOptions action with Some o => negb (dopt_Strategy o =? DomainStrategyAsIS) | None => false end.

Definition defaultRuleNeedsLegacyDNSModeFromAddressFilter (rule : RawDefaultDNSRule) : bool :=
  if d_RuleSetIPCIDRAcceptEmpty rule then true
  else negb (d_MatchResponse rule) && (d_IPAcceptAny rule || nonempty (elems (d_IPCIDR rule)) || d_IPIsPrivate rule).

Definition hasResponseMatchFields (rule : RawDefaultDNSRule) : bool :=
  negb (isNil (d_ResponseRcode rule)) || nonempty (elems (d_ResponseAnswer rule)) ||
  nonempty (elems (d_ResponseNs rule)) || nonempty (elems (d_ResponseExtra rule)).

Definition defaultRuleDisablesLegacyDNSMode (rule : RawDefaultDNSRule) (action : DNSRuleActionOptions) : bool :=
  d_MatchResponse rule || hasResponseMatchFields rule ||
  String.eqb (dopt_Action action) RuleActionTypeEvaluate || String.eqb (dopt_Action action) RuleActionTypeRespond ||
  (0 <? d_IPVersion rule) || nonempty (elems (d_QueryType rule)).

Definition DNSTypeFakeIP : string := "fakeip".

Definition isFakeIP (transport : DNSTransport) : bool := String.eqb (t_Type transport) DNSTypeFakeIP.

Section mode.
Context `{Libs}.

(** The router service, unless there is none, and the metadata of rule-sets that
    are about to be updated. *)
Variable router : option ruleSetStore.
Variable metadataOverrides : gmap string RuleSetMetadata.

Definition lookupDNSRuleSetMetadata (tag : string) : result RuleSetMetadata :=
  match metadataOverrides !! tag with
  | Some metadata => Ok metadata
  | None =>
      match router with
      | None => Panic "invalid memory address or nil pointer dereference"
      | Some store =>
          match store !! tag with
          | Some ruleSet => Ok (rs_metadata ruleSet)
          | None => Err (E_New ("rule-set not found: " +:+ tag))
          end
      end
  end.

(** The loop over the rule-sets of a rule. *)
Fixpoint ruleSetFlags (matchSource : bool) (flags : dnsRuleModeFlags) (tags : list string) : result dnsRuleModeFlags :=
  match tags with
  | [] => Ok flags
  | tag :: tags' =>
      metadata ← lookupDNSRuleSetMetadata tag;
      ruleSetFlags matchSource
        (mkFlags (disabled flags || ContainsDNSQueryTypeRule metadata)
           (if negb matchSource && ContainsIPCIDRRule metadata then true else needed flags) (neededFromStrategy flags)) tags'
  end.

Definition dnsRuleModeRequirementsInDefaultRule (rule : RawDefaultDNSRule) (action : DNSRuleActionOptions) : result dnsRuleModeFlags :=
  let fromStrategy := dnsRuleActionHasStrategy action in
  let flags := mkFlags (defaultRuleDisablesLegacyDNSMode rule action || dnsRuleActionDisablesLegacyDNSMode action)
                 (defaultRuleNeedsLegacyDNSModeFromAddressFilter rule || fromStrategy) fromStrategy in
  if negb (nonempty (elems (d_RuleSet rule))) then Ok flags
  else if isNil router then Err (E_New "router service not found")
  else ruleSetFlags (d_RuleSetIPCIDRMatchSource rule) flags (elems (d_RuleSet rule)).

Fixpoint dnsRuleModeRequirementsInRule (rule : DNSRuleOptions) : result dnsRuleModeFlags :=
  match rule with
  | mkDNSRuleOptions t o da mode rules inv la =>
      if isDefaultType t then dnsRuleModeRequirementsInDefaultRule o da
      else if String.eqb t RuleTypeLogical then
        let fromStrategy := dnsRuleActionHasStrategy la in
        let flags := mkFlags
          (String.eqb (dnsRuleActionType rule) RuleActionTypeEvaluate ||
           String.eqb (dnsRuleActionType rule) RuleActionTypeRespond || dnsRuleActionDisablesLegacyDNSMode la)
          fromStrategy fromStrategy in
        subFlags ← mapR_from (fun i sub => cause (subRule i) (dnsRuleModeRequirementsInRule sub)) 0 rules;
        Ok (foldl flags_merge flags subFlags)
      else Ok flagsZero
  end.

Definition dnsRule (i : nat) : string := "dns rule[" +:+ F_ToString (Z.of_nat i) +:+ "]".

Definition dnsRuleModeRequirements (rules : list DNSRuleOptions) : result dnsRuleModeFlags :=
  ruleFlags ← mapR_from (fun i rule => cause (dnsRule i) (dnsRuleModeRequirementsInRule rule)) 0 rules;
  Ok (foldl flags_merge flagsZero ruleFlags).

Definition resolveLegacyDNSMode (rules : list DNSRuleOptions) : result (bool * dnsRuleModeFlags) :=
  flags ← dnsRuleModeRequirements rules;
  if disabled flags && neededFromStrategy flags then Err (E_New "legacy DNS rule strategy")
  else if disabled flags then Ok (false, flags)
  else Ok (needed flags, flags).

(** * Validation *)

Fixpoint pureIPRuleSets (tags : list string) : result unit :=
  match tags with
  | [] => Ok tt
  | tag :: tags' =>
      metadata ← lookupDNSRuleSetMetadata tag;
      if ContainsIPCIDRRule metadata && negb (ContainsNonIPCIDRRule metadata)
      then Err (E_New "legacy DNS address filter") else pureIPRuleSets tags'
  end.

Definition validateLegacyDNSModeDisabledDefaultRule (rule : RawDefaultDNSRule) (action : DNSRuleActionOptions) : result bool :=
  if (hasResponseMatchFields rule || nonempty (elems (d_IPCIDR rule)) || d_IPIsPrivate rule || d_IPAcceptAny rule)
     && negb (d_MatchResponse rule)
  then Err (E_New "Response Match Fields require match_response to be enabled")
  else
    _ ← (if negb (d_MatchResponse rule) && nonempty (elems (d_RuleSet rule))
         then pureIPRuleSets (elems (d_RuleSet rule)) else Ok tt);
    if d_RuleSetIPCIDRAcceptEmpty rule then Err (E_New "rule_set_ip_cidr_accept_empty")
    else Ok (d_MatchResponse rule || String.eqb (dopt_Action action) RuleActionTypeRespond).

Fixpoint validateLegacyDNSModeDisabledRuleTree (rule : DNSRuleOptions) : result bool :=
  match rule with
  | mkDNSRuleOptions t o da mode rules inv la =>
      if isDefaultType t then validateLegacyDNSModeDisabledDefaultRule o da
      else if String.eqb t RuleTypeLogical then
        subs ← mapR_from (fun i sub => cause (subRule i) (validateLegacyDNSModeDisabledRuleTree sub)) 0 rules;
        Ok (String.eqb (dnsRuleActionType rule) RuleActionTypeRespond || anyb subs id)
      else Ok false
  end.

Fixpoint validateFrom (i : nat) (seenEvaluate : bool) (rules : list DNSRuleOptions) : result unit :=
  match rules with
  | [] => Ok tt
  | rule :: rules' =>
      requiresPriorEvaluate ← cause ("validate " +:+ dnsRule i) (validateLegacyDNSModeDisabledRuleTree rule);
      if requiresPriorEvaluate && negb seenEvaluate
      then Err (E_New (dnsRule i +:+ ": response-based matching requires a preceding evaluate action"))
      else validateFrom (S i) (seenEvaluate || String.eqb (dnsRuleActionType rule) RuleActionTypeEvaluate) rules'
  end.

Definition validateLegacyDNSModeDisabledRules (rules : list DNSRuleOptions) : result unit := validateFrom 0 false rules.
End mode.

(** [transports] are the servers of the transport manager; there may be none. *)
Fixpoint evaluateFakeIPFrom `{Libs} (transports : string -> option DNSTransport) (i : nat) (rules : list DNSRuleOptions) : result unit :=
  match rules with
  | [] => Ok tt
  | rule :: rules' =>
      let server := dnsRuleActionServer rule in
      if String.eqb (dnsRuleActionType rule) RuleActionTypeEvaluate && negb (String.eqb server "") &&
         match transports server with Some transport => isFakeIP transport | None => false end
      then Err (E_New (dnsRule i +:+ ": evaluate action cannot use fakeip server: " +:+ server))
      else evaluateFakeIPFrom transports (S i) rules'
  end.

Definition validateEvaluateFakeIPRules `{Libs} (rules : list DNSRuleOptions) (transportManager : option (string -> option DNSTransport)) : result unit :=
  match transportManager with None => Ok tt | Some transports => evaluateFakeIPFrom transports 0 rules end.

(** [buildRules] up to the start of the rules. *)
Definition buildRules `{Libs} (router : option ruleSetStore) (transportManager : option (string -> option DNSTransport)) (rawRules : list DNSRuleOptions)
    : result (list Rule * bool * dnsRuleModeFlags) :=
  let parse i := ("parse " +:+ dnsRule i)%string in
  _ ← mapR_from (fun i rule => cause (parse i) (ValidateNoNestedDNSRuleActions rule)) 0 rawRules;
  '(legacyDNSMode, modeFlags) ← resolveLegacyDNSMode router ∅ rawRules;
  _ ← (if legacyDNSMode then Ok tt else validateLegacyDNSModeDisabledRules router ∅ rawRules);
  _ ← validateEvaluateFakeIPRules rawRules transportManager;
  newRules ← mapR_from (fun i rule => cause (parse i) (NewDNSRule legacyDNSMode true rule)) 0 rawRules;
  Ok (newRules, legacyDNSMode, modeFlags).

(** [ValidateRuleSetMetadataUpdate], for a router in the given state. *)
Definition ValidateRuleSetMetadataUpdate `{Libs} (rawRules : list DNSRuleOptions) (router : option ruleSetStore)
    (started legacyDNSMode closing : bool) (tag : string) (metadata : RuleSetMetadata) : result unit :=
  if negb (nonempty rawRules) then Ok tt
  else if isNil router then Err (E_New "router service not found")
  else if closing then Ok tt
  else
    let overrides : gmap string RuleSetMetadata := {[tag := metadata]} in
    resolved ← resolveLegacyDNSMode router overrides rawRules;
    let '(candidateLegacyDNSMode, flags) := (resolved : bool * dnsRuleModeFlags) in
    if negb started then
      if candidateLegacyDNSMode then Ok tt else validateLegacyDNSModeDisabledRules router overrides rawRules
    else if legacyDNSMode then
      if negb candidateLegacyDNSMode && disabled flags then
        _ ← validateLegacyDNSModeDisabledRules router overrides rawRules;
        Err (E_New "legacy DNS address filter")
      else Ok tt
    else if candidateLegacyDNSMode then Err (E_New "legacy DNS address filter")
    else validateLegacyDNSModeDisabledRules router overrides rawRules.
