(* ===== verification/DNSModeSpec.v ===== *)
(** What the rules of a DNS router without the legacy address filter satisfy. *)
From S2P Require Import Prelude MatchState Netip Metadata RuleItem RuleAction Options Demo RuleAbstract RuleBuild NestedActions Bytes DNSClient DNSMode.

Section spec.
Context `{Libs}.

(** The action options of a rule, by its type. *)
Definition actionOf (rule : DNSRuleOptions) : DNSRuleActionOptions :=
  if isDefaultType (do_Type rule) then do_DefaultAction rule else do_LogicalAction rule.

(** Rules that look at the response to an earlier evaluate action, or return it. *)
Fixpoint needsResponse (rule : DNSRuleOptions) : bool :=
  match rule with
  | mkDNSRuleOptions t o da mode rules inv la =>
      if isDefaultType t then d_MatchResponse o || String.eqb (dopt_Action da) RuleActionTypeRespond
      else String.eqb t RuleTypeLogical && (String.eqb (dopt_Action la) RuleActionTypeRespond || anyb rules needsResponse)
  end.

(** The strategy of a DNS action. *)
Definition actionStrategy (a : RuleAction) : Z :=
  match a with
  | ActDNSRoute _ o | ActEvaluate _ o | ActDNSRouteOptions o => dro_Strategy o
  | _ => DomainStrategyAsIS
  end.

Lemma built_action legacy check r rule :
  NewDNSRule legacy check r = Ok rule ->
  NewDNSRuleAction (actionOf r) = Ok (Rule_Action rule) /\ checkDNSAction check (actionOf r) = Ok tt /\
  (isDefaultType (do_Type r) = true \/ do_Type r = RuleTypeLogical).
Proof.
  destruct r as [t o da mode rules inv la]. cbn [NewDNSRule]. unfold actionOf, isDefaultType. cbn [do_Type do_DefaultAction do_LogicalAction].
  destruct (String.eqb t "" || String.eqb t RuleTypeDefault) eqn:Ht; intros Hn.
  - destruct (negb _); [done|]. apply bind_Ok in Hn as ([] & Hc & Hn). apply NewDefaultDNSRule_action in Hn as [_ Hn]. auto.
  - destruct (String.eqb_spec t RuleTypeLogical) as [Hl|]; [|done]. apply bind_Ok in Hn as (valid & _ & Hn).
    destruct (negb valid); [done|]. apply bind_Ok in Hn as ([] & Hc & Hn). inv_ok. auto.
Qed.

Lemma action_strategy a action :
  NewDNSRuleAction a = Ok (Some action) -> dnsRuleActionHasStrategy a = false -> actionStrategy action = DomainStrategyAsIS.
Proof.
  unfold NewDNSRuleAction, dnsRuleActionHasStrategy, actionOptions. generalize (dopt_Action a) as t. intros t Hn Hs.
  repeat match type of Hn with
  | (if String.eqb t ?x then _ else _) = _ =>
      let E := fresh "E" in destruct (String.eqb_spec t x) as [E|E];
        [try rewrite E in Hs; cbn in Hs; simplify_eq; first [done | by apply Z.eqb_eq, negb_false_iff]|]
  end.
  done.
Qed.

Lemma built_evaluate a server o :
  NewDNSRuleAction a = Ok (Some (ActEvaluate server o)) ->
  dopt_Action a = RuleActionTypeEvaluate /\ dopt_Server (dopt_RouteOptions a) = server.
Proof.
  unfold NewDNSRuleAction. intros Hn.
  repeat match type of Hn with (if String.eqb _ ?x then _ else _) = _ => destruct (String.eqb_spec (dopt_Action a) x) end; by simplify_eq.
Qed.

(** * The flags *)

Lemma foldl_merge_strategy flags l :
  neededFromStrategy (foldl flags_merge flags l) = neededFromStrategy flags || anyb l neededFromStrategy.
Proof.
  revert flags. induction l as [|f l IH]; intros flags; cbn; [by rewrite orb_false_r|].
  rewrite IH. cbn. by rewrite orb_assoc.
Qed.

Definition strategyNeeds (f : dnsRuleModeFlags) : Prop := neededFromStrategy f = true -> needed f = true.

Lemma foldl_merge_needs flags l :
  strategyNeeds flags -> Forall strategyNeeds l -> strategyNeeds (foldl flags_merge flags l).
Proof.
  intros Hf Hl. revert flags Hf. induction Hl as [|f l Hfl Hl IH]; intros flags Hf; [done|]. apply IH.
  unfold strategyNeeds in *. cbn. destruct (neededFromStrategy flags), (neededFromStrategy f); cbn; try done;
    rewrite ?Hf, ?Hfl, ?orb_true_r by done; done.
Qed.

Section resolve.
Context (router : option ruleSetStore) (overrides : gmap string RuleSetMetadata).

Lemma ruleSetFlags_strategy ms tags : forall flags f,
  ruleSetFlags router overrides ms flags tags = Ok f ->
  neededFromStrategy f = neededFromStrategy flags /\ (needed flags = true -> needed f = true).
Proof.
  induction tags as [|tag tags IH]; intros flags f; cbn [ruleSetFlags]; [by intros [= <-]|].
  intros (m & _ & Hf)%bind_Ok. apply IH in Hf as [Hs Hn]. cbn in *. split; [done|]. intros Hnd. apply Hn. by destruct (_ && _).
Qed.

Lemma default_flags o a f :
  dnsRuleModeRequirementsInDefaultRule router overrides o a = Ok f ->
  neededFromStrategy f = dnsRuleActionHasStrategy a /\ strategyNeeds f.
Proof.
  unfold dnsRuleModeRequirementsInDefaultRule, strategyNeeds. destruct (negb _); [|destruct (isNil _); [done|]].
  - intros [= <-]. cbn. split; [done|]. intros ->. apply orb_true_r.
  - intros [Hs Hn]%ruleSetFlags_strategy. cbn in *. split; [done|]. intros Hf. apply Hn.
    rewrite Hs in Hf. rewrite Hf. apply orb_true_r.
Qed.

Definition validType (r : DNSRuleOptions) : Prop := isDefaultType (do_Type r) = true \/ do_Type r = RuleTypeLogical.

Lemma mapR_from_Forall {A B} (f : nat -> A -> result B) (P : B -> Prop) i l l' :
  (forall j x y, x ∈ l -> f j x = Ok y -> P y) -> mapR_from f i l = Ok l' -> Forall P l'.
Proof.
  revert i l'. induction l as [|x l IH]; intros i l' HP; cbn [mapR_from]; [intros [= <-]; constructor|].
  intros (y & Hy & (ys & Hys & [= <-])%bind_Ok)%bind_Ok. constructor; [eapply HP; [left|done]|].
  eapply IH; [|done]. intros j z z' Hz. apply HP. by right.
Qed.

Lemma rule_flags r : forall f,
  dnsRuleModeRequirementsInRule router overrides r = Ok f ->
  strategyNeeds f /\ (validType r -> dnsRuleActionHasStrategy (actionOf r) = true -> neededFromStrategy f = true).
Proof.
  induction r as [t o da mode rules inv la IH] using DNSRuleOptions_ind_nested. intros f.
  cbn [dnsRuleModeRequirementsInRule]. unfold validType, actionOf. cbn [do_Type do_DefaultAction do_LogicalAction].
  destruct (isDefaultType t); [intros [-> Hn]%default_flags; auto|].
  destruct (String.eqb_spec t RuleTypeLogical) as [->|Ht]; [|intros [= <-]; split; [done|]; intros [?|?]; done].
  intros (subs & Hs & [= <-])%bind_Ok. split.
  - apply foldl_merge_needs; [by unfold strategyNeeds|]. eapply mapR_from_Forall; [|exact Hs]. intros j x y Hx Hy%cause_Ok.
    rewrite List.Forall_forall in IH. apply list_elem_of_In in Hx. by eapply (IH x Hx).
  - intros _ Hla. rewrite foldl_merge_strategy. cbn. by rewrite Hla.
Qed.

Lemma resolved_no_strategy rules flags :
  resolveLegacyDNSMode router overrides rules = Ok (false, flags) ->
  Forall (fun r => validType r -> dnsRuleActionHasStrategy (actionOf r) = false) rules.
Proof.
  unfold resolveLegacyDNSMode, dnsRuleModeRequirements. intros Hr.
  apply bind_Ok in Hr as (f & (fs & Hfs & [= <-])%bind_Ok & Hr). set (f := foldl _ _ fs) in *.
  assert (strategyNeeds f) as Hn.
  { apply foldl_merge_needs; [done|]. eapply mapR_from_Forall; [|exact Hfs]. intros j x y _ Hy%cause_Ok. by apply rule_flags in Hy as [? _]. }
  assert (neededFromStrategy f = false) as Hs.
  { destruct (neededFromStrategy f) eqn:Es; [|done]. specialize (Hn Es). destruct (disabled f); [done|].
    injection Hr as Hr _. congruence. }
  subst f. rewrite foldl_merge_strategy in Hs. cbn in Hs. clear Hn Hr.
  apply mapR_from_Forall2 in Hfs. induction Hfs as [|r f rules fs (j & Hj%cause_Ok) Hfs IH]; constructor.
  - intros Hv. destruct (dnsRuleActionHasStrategy (actionOf r)) eqn:Ea; [|done].
    apply rule_flags in Hj as [_ Hj]. cbn in Hs. by rewrite Hj in Hs.
  - apply IH. cbn in Hs. by apply orb_false_iff in Hs as [_ ?].
Qed.

(** * Validation *)

Lemma default_validated o a b :
  validateLegacyDNSModeDisabledDefaultRule router overrides o a = Ok b ->
  b = d_MatchResponse o || String.eqb (dopt_Action a) RuleActionTypeRespond.
Proof.
  unfold validateLegacyDNSModeDisabledDefaultRule. destruct (_ && _); [done|]. intros (u & _ & Hb)%bind_Ok.
  destruct (d_RuleSetIPCIDRAcceptEmpty o); [done|]. by injection Hb.
Qed.

Lemma actionOr_respond a : String.eqb (actionOr a) RuleActionTypeRespond = String.eqb a RuleActionTypeRespond.
Proof. unfold actionOr. by destruct (String.eqb_spec a "") as [->|]. Qed.

Lemma tree_validated r : forall b,
  validateLegacyDNSModeDisabledRuleTree router overrides r = Ok b -> b = needsResponse r.
Proof.
  induction r as [t o da mode rules inv la IH] using DNSRuleOptions_ind_nested. intros b.
  cbn [validateLegacyDNSModeDisabledRuleTree needsResponse].
  destruct (isDefaultType t) eqn:Et; [apply default_validated|].
  destruct (String.eqb t RuleTypeLogical) eqn:El; [|by intros [= <-]]. cbn [andb].
  intros (subs & Hs & [= <-])%bind_Ok. unfold dnsRuleActionType. cbn [do_Type do_LogicalAction]. rewrite Et, El, actionOr_respond.
  f_equal. apply mapR_from_Forall2 in Hs. clear -Hs IH.
  induction Hs as [|r b rules subs (j & Hj%cause_Ok) Hs IHs]; [done|]. apply Forall_cons_iff in IH as [Hr IH].
  cbn [anyb existsb]. apply Hr in Hj as ->. specialize (IHs IH). unfold anyb in IHs. by rewrite IHs.
Qed.

Lemma validated_prior rules : forall i seen k rule,
  validateFrom router overrides i seen rules = Ok tt -> rules !! k = Some rule -> needsResponse rule = true ->
  seen = true \/ exists j rule', (j < k)%nat /\ rules !! j = Some rule' /\ dnsRuleActionType rule' = RuleActionTypeEvaluate.
Proof.
  induction rules as [|r rules IH]; intros i seen k rule Hv Hk Hn; [done|]. cbn [validateFrom] in Hv.
  apply bind_Ok in Hv as (b & Hb%cause_Ok%tree_validated & Hv). subst b.
  destruct k as [|k]; cbn in Hk.
  - injection Hk as ->. rewrite Hn in Hv. destruct seen; [by left|done].
  - destruct (needsResponse r && negb seen); [done|]. destruct (IH _ _ _ _ Hv Hk Hn) as [Hs|(j & rule' & Hj & Hl & He)].
    + apply orb_true_iff in Hs as [Hs|He%String.eqb_eq]; [by left|]. right. exists 0%nat, r. split; [lia|done].
    + right. exists (S j), rule'. split; [lia|done].
Qed.
End resolve.

Lemma evaluate_validated transports rules : forall i rule,
  evaluateFakeIPFrom transports i rules = Ok tt -> rule ∈ rules ->
  dnsRuleActionType rule = RuleActionTypeEvaluate -> dnsRuleActionServer rule <> "" ->
  forall transport, transports (dnsRuleActionServer rule) = Some transport -> isFakeIP transport = false.
Proof.
  induction rules as [|r rules IH]; intros i rule Hv Hin He Hs; [by apply not_elem_of_nil in Hin|].
  cbn [evaluateFakeIPFrom] in Hv. apply elem_of_cons in Hin as [->|Hin].
  - rewrite He in Hv. cbn [andb] in Hv. intros transport Ht.
    rewrite Ht, (proj2 (String.eqb_neq _ _) Hs), String.eqb_refl in Hv. by destruct (isFakeIP transport).
  - destruct (_ && _ && _); [done|]. by eapply IH.
Qed.

(** C20: When the rules of the DNS router are built without the legacy address filter,
    no rule has a strategy, which is why the new mode may skip it; rules that
    look at a response, or return it, come after an evaluate action; and no
    evaluate action uses a fake-IP server. *)
Theorem non_legacy_rules router transports raw rules flags :
  buildRules router (Some transports) raw = Ok (rules, false, flags) ->
  (forall r a, r ∈ rules -> Rule_Action r = Some a ->
     actionStrategy a = DomainStrategyAsIS /\
     (forall server o, a = ActEvaluate server o -> forall transport, transports server = Some transport -> isFakeIP transport = false)) /\
  (forall k rule, raw !! k = Some rule -> needsResponse rule = true ->
     exists j rule', (j < k)%nat /\ raw !! j = Some rule' /\ dnsRuleActionType rule' = RuleActionTypeEvaluate).
Proof.
  unfold buildRules. intros (nested & _ & ([legacy fl] & Hres & Hb)%bind_Ok)%bind_Ok.
  apply bind_Ok in Hb as ([] & Hval & ([] & Hev & (newRules & Hnew & [= -> -> ->])%bind_Ok)%bind_Ok).
  apply resolved_no_strategy in Hres. split.
  - intros r a Hr Ha. apply mapR_from_Forall2 in Hnew. apply list_elem_of_lookup_1 in Hr as [k Hk].
    destruct (Forall2_lookup_r _ _ _ _ _ Hnew Hk) as (raw0 & Hraw & j & Hj%cause_Ok).
    apply built_action in Hj as (Hact & Hcheck & Htype). rewrite Ha in Hact.
    apply list_elem_of_lookup_2 in Hraw as Hin. split.
    + eapply action_strategy; [done|]. rewrite List.Forall_forall in Hres. apply Hres; [by apply list_elem_of_In|done].
    + intros server o ->. apply built_evaluate in Hact as [He Hs].
      pose proof (checkDNSAction_server _ _ Hcheck (or_intror He)) as Hne.
      assert (dnsRuleActionType raw0 = RuleActionTypeEvaluate /\ dnsRuleActionServer raw0 = server) as [Ht Hsv].
      { unfold dnsRuleActionType, dnsRuleActionServer, actionOf in *.
        destruct (isDefaultType (do_Type raw0)) eqn:Ed; [by rewrite He|]. destruct Htype as [?|Htl]; [done|].
        rewrite Htl. cbn. by rewrite He. }
      rewrite <- Hsv. eapply evaluate_validated; [done..|]. rewrite Hsv, <- Hs. done.
  - intros k rule Hk Hn. destruct (validated_prior router ∅ raw 0 false k rule Hval Hk Hn); [done|done].
Qed.

(** * Updates of rule-sets *)

Lemma mapR_from_ext {A B} (f g : nat -> A -> result B) i l :
  Forall (fun x => forall j, f j x = g j x) l -> mapR_from f i l = mapR_from g i l.
Proof. intros Hl. revert i. induction Hl as [|x l Hx _ IH]; intros i; cbn; [done|]. by rewrite Hx, IH. Qed.

Section update.
Context (store store' : ruleSetStore) (overrides : gmap string RuleSetMetadata).
Hypothesis same_metadata : forall tag,
  lookupDNSRuleSetMetadata (Some store) overrides tag = lookupDNSRuleSetMetadata (Some store') ∅ tag.

Lemma ruleSetFlags_same ms tags : forall flags,
  ruleSetFlags (Some store) overrides ms flags tags = ruleSetFlags (Some store') ∅ ms flags tags.
Proof.
  induction tags as [|tag tags IH]; intros flags; cbn [ruleSetFlags]; [done|]. rewrite same_metadata.
  destruct (lookupDNSRuleSetMetadata _ _ _); cbn; [apply IH|done..].
Qed.

Lemma requirements_same r :
  dnsRuleModeRequirementsInRule (Some store) overrides r = dnsRuleModeRequirementsInRule (Some store') ∅ r.
Proof.
  induction r as [t o da mode rules inv la IH] using DNSRuleOptions_ind_nested. cbn [dnsRuleModeRequirementsInRule].
  unfold dnsRuleModeRequirementsInDefaultRule. rewrite ruleSetFlags_same.
  erewrite mapR_from_ext; [done|]. eapply Forall_impl; [|exact IH]. intros x Hx j. by rewrite Hx.
Qed.

Lemma resolve_same raw :
  resolveLegacyDNSMode (Some store) overrides raw = resolveLegacyDNSMode (Some store') ∅ raw.
Proof.
  unfold resolveLegacyDNSMode, dnsRuleModeRequirements. erewrite mapR_from_ext; [done|].
  apply List.Forall_forall. intros x _ j. by rewrite requirements_same.
Qed.

Lemma tree_same r :
  validateLegacyDNSModeDisabledRuleTree (Some store) overrides r = validateLegacyDNSModeDisabledRuleTree (Some store') ∅ r.
Proof.
  assert (forall tags, pureIPRuleSets (Some store) overrides tags = pureIPRuleSets (Some store') ∅ tags) as Hp.
  { induction tags as [|tag tags IH]; cbn [pureIPRuleSets]; [done|]. by rewrite same_metadata, IH. }
  induction r as [t o da mode rules inv la IH] using DNSRuleOptions_ind_nested. cbn [validateLegacyDNSModeDisabledRuleTree].
  unfold validateLegacyDNSModeDisabledDefaultRule. rewrite Hp.
  erewrite mapR_from_ext; [done|]. eapply Forall_impl; [|exact IH]. intros x Hx j. by rewrite Hx.
Qed.

Lemma validate_same raw :
  validateLegacyDNSModeDisabledRules (Some store) overrides raw = validateLegacyDNSModeDisabledRules (Some store') ∅ raw.
Proof.
  unfold validateLegacyDNSModeDisabledRules. generalize 0%nat, false. induction raw as [|r raw IH]; intros i seen; cbn [validateFrom]; [done|].
  rewrite tree_same. destruct (cause _ _); cbn; [|done..]. case_bool; [done|]. apply IH.
Qed.
End update.

Lemma updated_metadata store tag m rules t :
  lookupDNSRuleSetMetadata (Some store) {[tag := m]} t = lookupDNSRuleSetMetadata (Some (<[tag := mkRuleSet rules m]> store)) ∅ t.
Proof.
  unfold lookupDNSRuleSetMetadata, ruleSetStore in *. rewrite lookup_empty.
  destruct (decide (t = tag)) as [->|Ht].
  - by rewrite lookup_singleton_eq, lookup_insert_eq.
  - by rewrite lookup_singleton_ne, lookup_insert_ne by done.
Qed.

(** C21: An update of a rule-set that the DNS router accepts keeps its rules valid:
    with the updated rule-set a router in the new mode would be built with the
    same rules and the same mode again, and nothing rules out the legacy mode of
    one that uses it. *)
Theorem rule_set_update_keeps_mode store tm raw rules legacy flags tag m headless :
  buildRules (Some store) tm raw = Ok (rules, legacy, flags) ->
  ValidateRuleSetMetadataUpdate raw (Some store) true legacy false tag m = Ok tt ->
  let store' := <[tag := mkRuleSet headless m]> store in
  if legacy then exists mode flags', resolveLegacyDNSMode (Some store') ∅ raw = Ok (mode, flags') /\ disabled flags' = false
  else exists flags', buildRules (Some store') tm raw = Ok (rules, false, flags').
Proof.
  intros Hb Hv store'. unfold ValidateRuleSetMetadataUpdate in Hv. cbn [isNil negb] in Hv.
  destruct raw as [|r0 raw0]; [destruct legacy; [by eexists _, _|by eexists]|]. cbn [nonempty negb] in Hv.
  set (raw := r0 :: raw0) in *. clearbody raw.
  rewrite (resolve_same store store' _ (updated_metadata store tag m headless)), !(validate_same store store' _ (updated_metadata store tag m headless)) in Hv.
  apply bind_Ok in Hv as ([candidate fl] & Hres & Hv). destruct legacy.
  - exists candidate, fl. split; [done|]. destruct candidate; cbn in Hv.
    + unfold resolveLegacyDNSMode in Hres. apply bind_Ok in Hres as (f & _ & Hf). destruct (disabled f) eqn:E; [by destruct (_ && _)|].
      cbn in Hf. by simplify_eq.
    + destruct (disabled fl); [|done]. by apply bind_Ok in Hv as (? & _ & ?).
  - destruct candidate; [done|]. exists fl. unfold buildRules in *. rewrite Hres.
    apply bind_Ok in Hb as (nested & -> & ([l f] & _ & Hb)%bind_Ok).
    apply bind_Ok in Hb as (u & _ & (u' & He & (newRules & Hnew & Heq)%bind_Ok)%bind_Ok). injection Heq as -> -> _.
    cbn. rewrite Hv. cbn. rewrite He. cbn. by rewrite Hnew.
Qed.
End spec.
