(* ===== verification/DNSRouter.v ===== *)
(** The DNS router ([dns/router.go]): how queries and lookups go through the rules,
    over the interface of the DNS client. *)
From S2P Require Import Prelude MatchState Netip Metadata RuleItem RuleAction RuleAbstract RuleDNS Bytes DNSClient DNSMode.

(** How a call ends: with a value, with a run-time panic, or not at all. *)
Inductive outcome (A : Type) :=
| Returns (a : A)
| Panics (reason : string)
| Diverges.
Arguments Returns {A}.
Arguments Panics {A}.
Arguments Diverges {A}.

Definition nilDereference : string := "invalid memory address or nil pointer dereference".

(** [adapter.DNSClient], with the context of the call as part of its state; a nil
    transport is [None]. *)
Class DNSClient (S : Type) := {
  client_Exchange : S -> option DNSTransport -> Msg -> DNSQueryOptions -> option (Msg -> bool) ->
    S * outcome (option Msg * option GoError);
  client_Lookup : S -> option DNSTransport -> string -> DNSQueryOptions -> option (Msg -> bool) ->
    S * outcome (list Addr * option GoError);
  client_ClearCache : S -> S
}.

(** The cache of the names of addresses; times in nanoseconds. *)
Class ReverseMapping (T : Type) := {
  reverse_AddWithLifetime : T -> Z -> Addr -> string -> Z -> T;
  reverse_Get : T -> Z -> Addr -> T * option string;
  reverse_Purge : T -> T
}.

(** [errors.Is] *)
#[global] Instance GoError_eq_dec : EqDecision GoError.
Proof. solve_decision. Defined.

Fixpoint errorsIs (err target : GoError) : bool :=
  bool_decide (err = target) ||
  match err with
  | E_Cause e _ | E_Extend e _ => errorsIs e target
  | E_Multi e1 e2 => errorsIs e1 target || errorsIs e2 target
  | _ => false
  end.

(** [tun.ErrReset], [tun.ErrDrop] and [RejectedError]. *)
Definition tunError (c : RejectCause) : GoError := E_Lib (match c with ErrReset => "reset" | ErrDrop => "drop" end).
Definition RejectedError (e : option GoError) : GoError :=
  match e with Some e => E_Cause e "rejected" | None => E_New "rejected" end.

(** * Options *)

Definition keepUnless {A} (set : bool) (new old : A) : A := if set then new else old.

Definition applyDNSRouteOptions (options : DNSQueryOptions) (o : RuleActionDNSRouteOptions) : DNSQueryOptions :=
  options {{ DisableCache := keepUnless (dro_DisableCache o) true (DisableCache options);
             DisableOptimisticCache := keepUnless (dro_DisableOptimisticCache o) true (DisableOptimisticCache options);
             RewriteTTL := keepUnless (negb (isNil (dro_RewriteTTL o))) (dro_RewriteTTL o) (RewriteTTL options);
             Timeout := keepUnless (0 <? dro_Timeout o) (dro_Timeout o) (Timeout options);
             ClientSubnet := keepUnless (NetipPrefix.IsValid (dro_ClientSubnet o)) (dro_ClientSubnet o) (ClientSubnet options) }}.

(** The options [matchDNS] takes from an action. *)
Definition legacyRouteOptions (options : DNSQueryOptions) (o : RuleActionDNSRouteOptions) (fakeIP : bool) : DNSQueryOptions :=
  options {{ Strategy := keepUnless (negb (dro_Strategy o =? DomainStrategyAsIS)) (dro_Strategy o) (Strategy options);
             DisableCache := keepUnless (fakeIP || dro_DisableCache o) true (DisableCache options);
             RewriteTTL := keepUnless (negb (isNil (dro_RewriteTTL o))) (dro_RewriteTTL o) (RewriteTTL options);
             Timeout := keepUnless (0 <? dro_Timeout o) (dro_Timeout o) (Timeout options);
             ClientSubnet := keepUnless (NetipPrefix.IsValid (dro_ClientSubnet o)) (dro_ClientSubnet o) (ClientSubnet options) }}.

Definition isAddressQuery (message : Msg) : bool :=
  anyb (msg_Question message) (fun question =>
    (q_Qtype question =? TypeA) || (q_Qtype question =? TypeAAAA) || (q_Qtype question =? TypeHTTPS)).

Definition filterAddressesByQueryType (addresses : list Addr) (qType : Z) : list Addr :=
  if qType =? TypeA then filter (fun a => Netip.Is4 a = true) addresses
  else if qType =? TypeAAAA then filter (fun a => Netip.Is6 a = true) addresses
  else addresses.

Definition RcodeRefused : Z := 5.

(** The answer of a reject action. *)
Definition refused (message : Msg) : outcome Msg :=
  match msg_Question message with
  | [] => Panics "index out of range [0] with length 0"
  | question :: _ => Returns (mkMsg (msg_Id message) true false false false RcodeRefused [question] [] [] [])
  end.

Section router.
Context `{Libs} `{DNSLibs} {S : Type} `{DNSClient S} {RM : Type} `{ReverseMapping RM}.
Variable svc : Services.
Variable store : ruleSetStore.

Record DNSRouter := mkDNSRouter {
  dr_transport : string -> option DNSTransport;
  dr_Default : option DNSTransport;
  dr_client : S;
  dr_rules : list Rule;
  dr_defaultDomainStrategy : Z;
  dr_dnsReverseMapping : option RM;
  dr_legacyDNSMode : bool;
  dr_closing : bool;
  dr_dropCounter : nat -> list Z
}.

Definition withDefaultStrategy (r : DNSRouter) (options : DNSQueryOptions) : DNSQueryOptions :=
  if Strategy options =? DomainStrategyAsIS then options {{ Strategy := dr_defaultDomainStrategy r }} else options.

(** [r.client.Exchange] and [r.client.Lookup], with the router they leave. *)
Definition clientExchange (r : DNSRouter) (transport : option DNSTransport) (message : Msg) (options : DNSQueryOptions)
    (checker : option (Msg -> bool)) : DNSRouter * outcome (option Msg * option GoError) :=
  let (c, reply) := client_Exchange (dr_client r) transport message options checker in (r {{ dr_client := c }}, reply).

Definition clientLookup (r : DNSRouter) (transport : option DNSTransport) (domain : string) (options : DNSQueryOptions)
    (checker : option (Msg -> bool)) : DNSRouter * outcome (list Addr * option GoError) :=
  let (c, reply) := client_Lookup (dr_client r) transport domain options checker in (r {{ dr_client := c }}, reply).

(** [action.Error(ctx)] of the reject action of rule [i]. *)
Definition rejectError (r : DNSRouter) (now : Z) (i : nat) (method : string) (noDrop : bool)
    : DNSRouter * outcome (option GoError) :=
  let '(err, counter) := Reject_Error method noDrop (dr_dropCounter r i) now in
  (r {{ dr_dropCounter := fun j => if decide (j = i) then counter else dr_dropCounter r j }},
   match err with
   | Ok cause => Returns ((fun c => RejectedError (Some (tunError c))) <$> cause)
   | Err e => Returns (Some e)
   | Panic s => Panics s
   end).

(** * Rules with the legacy address filter *)

(** What [matchDNS] returns: the transport, and the rule with its index. *)
Record dnsMatch := mkDNSMatch {
  dm_transport : option DNSTransport;
  dm_rule : option (nat * Rule);
  dm_metadata : InboundContext;
  dm_options : DNSQueryOptions
}.

(** The loop of [matchDNS] over the rules from index [i] on. *)
Fixpoint matchDNSFrom (r : DNSRouter) (allowFakeIP isAddressQuery : bool) (i : nat) (rules : list Rule)
    (metadata : InboundContext) (options : DNSQueryOptions) : dnsMatch :=
  match rules with
  | [] => mkDNSMatch (dr_Default r) None metadata options
  | currentRule :: rules' =>
      let next := matchDNSFrom r allowFakeIP isAddressQuery (Datatypes.S i) rules' in
      if WithAddressLimit store currentRule && negb isAddressQuery then next metadata options
      else
        let metadata := (ResetRuleCache metadata) {{ ic_DestinationAddressMatchFromResponse := false }} in
        let '(matched, metadata) := LegacyPreMatch svc store currentRule metadata in
        if negb matched then next metadata options
        else
          match Rule_Action currentRule with
          | Some (ActDNSRoute server o) =>
              match dr_transport r server with
              | None => next metadata options
              | Some transport =>
                  if isFakeIP transport && negb allowFakeIP then next metadata options
                  else mkDNSMatch (Some transport) (Some (i, currentRule)) metadata
                         (legacyRouteOptions options o (isFakeIP transport))
              end
          | Some (ActDNSRouteOptions o) => next metadata (legacyRouteOptions options o false)
          | Some (ActReject _ _) | Some (ActPredefined _) => mkDNSMatch None (Some (i, currentRule)) metadata options
          | _ => next metadata options
          end
  end.

Definition matchDNS (r : DNSRouter) (allowFakeIP : bool) (ruleIndex : option nat) (isAddressQuery : bool)
    (metadata : InboundContext) (options : DNSQueryOptions) : dnsMatch :=
  let currentRuleIndex := match ruleIndex with None => 0%nat | Some i => Datatypes.S i end in
  matchDNSFrom r allowFakeIP isAddressQuery currentRuleIndex (drop currentRuleIndex (dr_rules r)) metadata options.

Definition addressLimitResponseCheck (rule : option (nat * Rule)) (metadata : InboundContext) : option (Msg -> bool) :=
  match rule with
  | None => None
  | Some (_, rule) =>
      if negb (WithAddressLimit store rule) then None
      else Some (fun response => MatchAddressLimit svc store rule metadata (Some response))
  end.

(** What the loop of [Exchange] in the legacy mode leaves: a return, or the
    response, transport and error at [done]. *)
Definition legacyResult : Type := (option Msg * option GoError) + (option Msg * option DNSTransport * option GoError).

Fixpoint exchangeLegacy (fuel : nat) (r : DNSRouter) (metadata : InboundContext) (message : Msg) (options : DNSQueryOptions)
    (ruleIndex : option nat) : DNSRouter * outcome legacyResult :=
  match fuel with
  | O => (r, Diverges)
  | Datatypes.S fuel =>
      let m := matchDNS r true ruleIndex (isAddressQuery message) metadata options in
      let exchange :=
        let responseCheck := addressLimitResponseCheck (dm_rule m) (dm_metadata m) in
        let (r, reply) := clientExchange r (dm_transport m) message (withDefaultStrategy r (dm_options m)) responseCheck in
        match reply with
        | Returns (response, err) =>
            let rejected := match err with
                            | Some e => errorsIs e ErrResponseRejectedCached || errorsIs e ErrResponseRejected
                            | None => false
                            end in
            if negb (isNil responseCheck) && rejected
            then exchangeLegacy fuel r (dm_metadata m) message options (fst <$> dm_rule m)
            else (r, Returns (inr (response, dm_transport m, err)))
        | Panics s => (r, Panics s)
        | Diverges => (r, Diverges)
        end in
      match dm_rule m with
      | Some (_, rule) =>
          match Rule_Action rule with
          | Some (ActReject method _) =>
              if String.eqb method RuleActionRejectMethodDefault then
                (r, match refused message with
                    | Returns response => Returns (inl (Some response, None))
                    | Panics s => Panics s
                    | Diverges => Diverges
                    end)
              else if String.eqb method RuleActionRejectMethodDrop then (r, Returns (inl (None, Some (tunError ErrDrop))))
              else exchange
          | Some (ActPredefined action) =>
              (r, match Predefined_Response action message with
                  | Ok response => Returns (inr (Some response, dm_transport m, None))
                  | Err e => Returns (inr (None, dm_transport m, Some e))
                  | Panic s => Panics s
                  end)
          | _ => exchange
          end
      | None => exchange
      end
  end.

(** * Rules without it *)

Record exchangeWithRulesResult := mkExchangeResult {
  er_response : option Msg;
  er_transport : option DNSTransport;
  er_rejectAction : option (nat * string * bool);
  er_err : option GoError
}.

Definition dnsRespondMissingResponseMessage : string :=
  "respond action requires an evaluated response from a preceding evaluate action".

Inductive dnsRouteStatus := dnsRouteStatusMissing | dnsRouteStatusSkipped | dnsRouteStatusResolved.

Definition resolveDNSRoute (r : DNSRouter) (server : string) (o : RuleActionDNSRouteOptions) (allowFakeIP : bool)
    (options : DNSQueryOptions) : option DNSTransport * dnsRouteStatus * DNSQueryOptions :=
  match dr_transport r server with
  | None => (None, dnsRouteStatusMissing, options)
  | Some transport =>
      if isFakeIP transport && negb allowFakeIP then (Some transport, dnsRouteStatusSkipped, options)
      else
        let options := applyDNSRouteOptions options o in
        (Some transport, dnsRouteStatusResolved, if isFakeIP transport then options {{ DisableCache := true }} else options)
  end.

(** The exchange that ends [exchangeWithRules]. *)
Definition finalExchange (r : DNSRouter) (transport : option DNSTransport) (message : Msg) (options : DNSQueryOptions)
    : DNSRouter * outcome exchangeWithRulesResult :=
  let (r, reply) := clientExchange r transport message (withDefaultStrategy r options) None in
  (r, match reply with
      | Returns (response, err) => Returns (mkExchangeResult response transport None err)
      | Panics s => Panics s
      | Diverges => Diverges
      end).

(** The loop of [exchangeWithRules] over the rules from index [i] on, with the
    response and transport of the last evaluate action. *)
Fixpoint exchangeFrom (i : nat) (rules : list Rule) (r : DNSRouter) (metadata : InboundContext) (message : Msg)
    (effectiveOptions : DNSQueryOptions) (allowFakeIP : bool) (evaluatedResponse : option Msg)
    (evaluatedTransport : option DNSTransport) : DNSRouter * outcome exchangeWithRulesResult :=
  match rules with
  | [] => finalExchange r (dr_Default r) message effectiveOptions
  | currentRule :: rules' =>
      let metadata := (ResetRuleCache metadata) {{ ic_DNSResponse := evaluatedResponse;
                                                   ic_DestinationAddressMatchFromResponse := false }} in
      let '(matched, metadata) := DNSRule_Match svc store currentRule metadata in
      let next r options response transport :=
        exchangeFrom (Datatypes.S i) rules' r metadata message options allowFakeIP response transport in
      let continue := next r effectiveOptions evaluatedResponse evaluatedTransport in
      if negb matched then continue
      else
        match Rule_Action currentRule with
        | Some (ActDNSRouteOptions o) => next r (applyDNSRouteOptions effectiveOptions o) evaluatedResponse evaluatedTransport
        | Some (ActEvaluate server o) =>
            match dr_transport r server with
            | None => next r effectiveOptions None None
            | Some transport =>
                let queryOptions := applyDNSRouteOptions effectiveOptions o in
                let (r, reply) := clientExchange r (Some transport) message (withDefaultStrategy r queryOptions) None in
                match reply with
                | Returns (_, Some _) =>
                    if nonempty (msg_Question message) then next r effectiveOptions None None
                    else (r, Panics "index out of range [0] with length 0")
                | Returns (response, None) => next r effectiveOptions response (Some transport)
                | Panics s => (r, Panics s)
                | Diverges => (r, Diverges)
                end
            end
        | Some ActRespond =>
            (r, Returns (match evaluatedResponse with
                         | None => mkExchangeResult None None None (Some (E_New dnsRespondMissingResponseMessage))
                         | Some response => mkExchangeResult (Some response) evaluatedTransport None None
                         end))
        | Some (ActDNSRoute server o) =>
            match resolveDNSRoute r server o allowFakeIP effectiveOptions with
            | (transport, dnsRouteStatusResolved, queryOptions) => finalExchange r transport message queryOptions
            | _ => continue
            end
        | Some (ActReject method noDrop) =>
            if String.eqb method RuleActionRejectMethodDefault then
              (r, match refused message with
                  | Returns response => Returns (mkExchangeResult (Some response) None (Some (i, method, noDrop)) None)
                  | Panics s => Panics s
                  | Diverges => Diverges
                  end)
            else if String.eqb method RuleActionRejectMethodDrop then
              (r, Returns (mkExchangeResult None None (Some (i, method, noDrop)) (Some (tunError ErrDrop))))
            else continue
        | Some (ActPredefined action) =>
            (r, match Predefined_Response action message with
                | Ok response => Returns (mkExchangeResult (Some response) None None None)
                | Err e => Returns (mkExchangeResult None None None (Some e))
                | Panic s => Panics s
                end)
        | _ => continue
        end
  end.

Definition exchangeWithRules (r : DNSRouter) (metadata : InboundContext) (message : Msg) (options : DNSQueryOptions)
    (allowFakeIP : bool) : DNSRouter * outcome exchangeWithRulesResult :=
  exchangeFrom 0 (dr_rules r) r metadata message options allowFakeIP None None.

(** * Queries *)

Definition queryIPVersion (qType : Z) (other : Z) : Z :=
  if qType =? TypeA then 4 else if qType =? TypeAAAA then 6 else other.

(** The addresses of a response are remembered with its name. *)
Definition addReverse (now : Z) (reverse : RM) (record : RR) : RM :=
  match record with
  | RR_A h a | RR_AAAA h a =>
      reverse_AddWithLifetime reverse now (AddrFromIP a) (FqdnToDomain (hdr_Name h)) (hdr_Ttl h * second)
  | _ => reverse
  end.

(** From [done] on. *)
Definition exchangeDone (r : DNSRouter) (now : Z) (response : option Msg) (transport : option DNSTransport)
    (err : option GoError) : DNSRouter * outcome (option Msg * option GoError) :=
  match err with
  | Some e => (r, Returns (None, Some e))
  | None =>
      let answers := match response with Some m => msg_Answer m | None => [] end in
      let fakeIP := match transport with Some t => isFakeIP t | None => false end in
      (r {{ dr_dnsReverseMapping := (fun reverse => if fakeIP then reverse else foldl (addReverse now) reverse answers)
                                      <$> dr_dnsReverseMapping r }},
       Returns (response, None))
  end.

Definition Router_Exchange (r : DNSRouter) (now : Z) (metadata : InboundContext) (message : Msg) (options : DNSQueryOptions)
    : DNSRouter * outcome (option Msg * option GoError) :=
  match msg_Question message with
  | [question] =>
      if dr_closing r then (r, Returns (None, Some (E_New "dns router closed")))
      else
        let metadata := metadata {{ ic_Destination := socksaddrZero;
                                    ic_QueryType := q_Qtype question;
                                    ic_DNSResponse := None;
                                    ic_DestinationAddressMatchFromResponse := false;
                                    ic_IPVersion := queryIPVersion (q_Qtype question) (ic_IPVersion metadata);
                                    ic_Domain := FqdnToDomain (q_Name question) }} in
        match Transport options with
        | Some transport =>
            let (r, reply) := clientExchange r (Some transport) message (withDefaultStrategy r options) None in
            match reply with
            | Returns (response, err) => exchangeDone r now response (Some transport) err
            | Panics s => (r, Panics s)
            | Diverges => (r, Diverges)
            end
        | None =>
            if negb (dr_legacyDNSMode r) then
              let (r, result) := exchangeWithRules r metadata message options true in
              match result with
              | Returns e => exchangeDone r now (er_response e) (er_transport e) (er_err e)
              | Panics s => (r, Panics s)
              | Diverges => (r, Diverges)
              end
            else
              let (r, result) := exchangeLegacy (Datatypes.S (length (dr_rules r))) r metadata message options None in
              match result with
              | Returns (inl returned) => (r, Returns returned)
              | Returns (inr (response, transport, err)) => exchangeDone r now response transport err
              | Panics s => (r, Panics s)
              | Diverges => (r, Diverges)
              end
        end
  | questions => (r, Returns (Some (mkMsg (msg_Id message) true false false false RcodeFormatError questions [] [] []), None))
  end.

(** * Lookups *)

Definition resolveLookupStrategy (r : DNSRouter) (options : DNSQueryOptions) : Z :=
  if negb (LookupStrategy options =? DomainStrategyAsIS) then LookupStrategy options
  else if negb (Strategy options =? DomainStrategyAsIS) then Strategy options
  else dr_defaultDomainStrategy r.

Definition withLookupQueryMetadata (metadata : InboundContext) (qType : Z) : InboundContext :=
  metadata {{ ic_QueryType := qType; ic_IPVersion := queryIPVersion qType 0 }}.

Definition lookupWithRulesType (r : DNSRouter) (now : Z) (metadata : InboundContext) (domain : string) (qType : Z)
    (options : DNSQueryOptions) : DNSRouter * outcome (list Addr * option GoError) :=
  let request := mkMsg 0 false false true false 0 [mkQuestion (Fqdn domain) qType ClassINET] [] [] [] in
  let (r, result) := exchangeWithRules r (withLookupQueryMetadata metadata qType) request options false in
  match result with
  | Returns exchangeResult =>
      match er_rejectAction exchangeResult, er_err exchangeResult, er_response exchangeResult with
      | Some (i, method, noDrop), _, _ =>
          let (r, err) := rejectError r now i method noDrop in
          (r, match err with Returns e => Returns ([], e) | Panics s => Panics s | Diverges => Diverges end)
      | None, Some err, _ => (r, Returns ([], Some err))
      | None, None, None => (r, Panics nilDereference)
      | None, None, Some response =>
          (r, Returns (if negb (msg_Rcode response =? RcodeSuccess) then ([], Some (E_Rcode (msg_Rcode response)))
                       else (filterAddressesByQueryType (DNSResponseAddresses (Some response)) qType, None)))
      end
  | Panics s => (r, Panics s)
  | Diverges => (r, Diverges)
  end.

(** The two tasks of the group run in either order. *)
Definition lookupWithRules (r : DNSRouter) (now : Z) (sixFirst : bool) (metadata : InboundContext) (domain : string)
    (options : DNSQueryOptions) : DNSRouter * outcome (list Addr * option GoError) :=
  let strategy := resolveLookupStrategy r options in
  let lookupOptions := if strategy =? DomainStrategyAsIS then options else options {{ Strategy := strategy }} in
  let ask r qType := lookupWithRulesType r now metadata domain qType lookupOptions in
  if strategy =? DomainStrategyIPv4Only then ask r TypeA
  else if strategy =? DomainStrategyIPv6Only then ask r TypeAAAA
  else
    let '(r, r4, r6) :=
      if sixFirst then let (r, r6) := ask r TypeAAAA in let (r, r4) := ask r TypeA in (r, r4, r6)
      else let (r, r4) := ask r TypeA in let (r, r6) := ask r TypeAAAA in (r, r4, r6) in
    (r, match r4, r6 with
        | Panics s, _ | _, Panics s => Panics s
        | Diverges, _ | _, Diverges => Diverges
        | Returns (response4, err4), Returns (response6, err6) =>
            Returns (if negb (nonempty response4) && negb (nonempty response6) then ([], groupError err4 err6)
                     else (sortAddresses response4 response6 strategy, None))
        end).

(** The records of a predefined answer. *)
Definition predefinedAddresses (answers : list RR) : list Addr :=
  flat_map (fun record => match record with RR_A _ a | RR_AAAA _ a => [AddrFromIP a] | _ => [] end) answers.

Fixpoint lookupLegacy (fuel : nat) (r : DNSRouter) (now : Z) (metadata : InboundContext) (domain : string)
    (options : DNSQueryOptions) (ruleIndex : option nat)
    : DNSRouter * outcome ((list Addr * option GoError) + (list Addr * option GoError)) :=
  match fuel with
  | O => (r, Diverges)
  | Datatypes.S fuel =>
      let m := matchDNS r false ruleIndex true metadata options in
      let lookup :=
        let responseCheck := addressLimitResponseCheck (dm_rule m) (dm_metadata m) in
        let (r, reply) := clientLookup r (dm_transport m) domain (withDefaultStrategy r (dm_options m)) responseCheck in
        match reply with
        | Returns (responseAddrs, err) =>
            if isNil responseCheck || isNil err then (r, Returns (inr (responseAddrs, err)))
            else lookupLegacy fuel r now (dm_metadata m) domain options (fst <$> dm_rule m)
        | Panics s => (r, Panics s)
        | Diverges => (r, Diverges)
        end in
      match dm_rule m with
      | Some (i, rule) =>
          match Rule_Action rule with
          | Some (ActReject method noDrop) =>
              let (r, err) := rejectError r now i method noDrop in
              (r, match err with
                  | Returns e => Returns (inl ([], Some (RejectedError e)))
                  | Panics s => Panics s
                  | Diverges => Diverges
                  end)
          | Some (ActPredefined action) =>
              (r, Returns (inr (if negb (pre_Rcode action =? RcodeSuccess) then ([], Some (E_Rcode (pre_Rcode action)))
                                else (predefinedAddresses (pre_Answer action), None))))
          | _ => lookup
          end
      | None => lookup
      end
  end.

(** [printResult] *)
Definition printResult (domain : string) (result : list Addr * option GoError) : list Addr * option GoError :=
  let (responseAddrs, err) := result in
  let err := if isNil err && negb (nonempty responseAddrs) then Some (E_New "empty result") else err in
  (responseAddrs, (fun e => E_Cause e ("lookup " +:+ domain)) <$> err).

Definition Router_Lookup (r : DNSRouter) (now : Z) (sixFirst : bool) (metadata : InboundContext) (domain : string)
    (options : DNSQueryOptions) : DNSRouter * outcome (list Addr * option GoError) :=
  if dr_closing r then (r, Returns ([], Some (E_New "dns router closed")))
  else
    let metadata := metadata {{ ic_Destination := socksaddrZero;
                                ic_Domain := FqdnToDomain domain;
                                ic_DNSResponse := None;
                                ic_DestinationAddressMatchFromResponse := false }} in
    let finish (p : DNSRouter * outcome (list Addr * option GoError)) :=
      (p.1, match p.2 with Returns result => Returns (printResult domain result) | Panics s => Panics s | Diverges => Diverges end) in
    match Transport options with
    | Some transport => finish (clientLookup r (Some transport) domain (withDefaultStrategy r options) None)
    | None =>
        if negb (dr_legacyDNSMode r) then finish (lookupWithRules r now sixFirst metadata domain options)
        else
          let (r, result) := lookupLegacy (Datatypes.S (length (dr_rules r))) r now metadata domain options None in
          match result with
          | Returns (inl returned) => (r, Returns returned)
          | Returns (inr result) => (r, Returns (printResult domain result))
          | Panics s => (r, Panics s)
          | Diverges => (r, Diverges)
          end
    end.

(** * The rest *)

(** [ClearCache] without a platform interface. *)
Definition Router_ClearCache (r : DNSRouter) : DNSRouter :=
  r {{ dr_client := client_ClearCache (dr_client r); dr_dnsReverseMapping := reverse_Purge <$> dr_dnsReverseMapping r }}.

Definition LookupReverseMapping (r : DNSRouter) (now : Z) (ip : Addr) : DNSRouter * option string :=
  match dr_dnsReverseMapping r with
  | None => (r, None)
  | Some reverse =>
      let (reverse, domain) := reverse_Get reverse now ip in
      (r {{ dr_dnsReverseMapping := Some reverse }}, domain)
  end.
End router.
