(* ===== verification/DNSRouterSpec.v ===== *)
(** The DNS router keeps fake-IP servers out of caches and lookups, and always
    answers. *)
From S2P Require Import Prelude MatchState Netip Metadata RuleItem RuleAction Options RuleAbstract RuleBuild RuleDNS Bytes DNSClient DNSMode DNSModeSpec DNSRouter.

(** * The calls of the client *)

(** A client that records the transports and options it is called with. *)
Inductive Call :=
| CallExchange (transport : option DNSTransport) (options : DNSQueryOptions)
| CallLookup (transport : option DNSTransport) (options : DNSQueryOptions).

#[global] Instance Recorded {S} `{DNSClient S} : DNSClient (S * list Call) := {|
  client_Exchange c transport message options checker :=
    let (c', reply) := client_Exchange c.1 transport message options checker in
    ((c', c.2 ++ [CallExchange transport options]), reply);
  client_Lookup c transport domain options checker :=
    let (c', reply) := client_Lookup c.1 transport domain options checker in
    ((c', c.2 ++ [CallLookup transport options]), reply);
  client_ClearCache c := (client_ClearCache c.1, c.2)
|}.

Definition call_transport (c : Call) : option DNSTransport := match c with CallExchange t _ | CallLookup t _ => t end.
Definition call_options (c : Call) : DNSQueryOptions := match c with CallExchange _ o | CallLookup _ o => o end.

(** Whether a call may be made: a fake-IP server is asked only where that is
    allowed, and without the cache. *)
Definition permitted (allowFakeIP : bool) (c : Call) : Prop :=
  forall t, call_transport c = Some t -> isFakeIP t = true -> allowFakeIP = true /\ DisableCache (call_options c) = true.

Section calls.
Context `{Libs} `{DNSLibs} {S : Type} `{DNSClient S} {RM : Type} `{ReverseMapping RM}.
Variables (svc : Services) (store : ruleSetStore).
Variables (transports : string -> option DNSTransport) (defaultTransport : DNSTransport) (allowFakeIP : bool).
Hypothesis default_real : isFakeIP defaultTransport = false.

Abbreviation Router := (@DNSRouter _ (S * list Call) RM).

(** No evaluate action names a fake-IP server. *)
Definition evaluatesReal (rule : Rule) : Prop :=
  forall server o t, Rule_Action rule = Some (ActEvaluate server o) -> transports server = Some t -> isFakeIP t = false.

(** The servers of the router, with only permitted calls so far. *)
Definition clean (r : Router) : Prop :=
  dr_transport r = transports /\ dr_Default r = Some defaultTransport /\ Forall evaluatesReal (dr_rules r) /\
  Forall (permitted allowFakeIP) (dr_client r).2.

Lemma clientExchange_clean (r : Router) t m o k :
  permitted allowFakeIP (CallExchange t o) -> clean r -> clean (clientExchange r t m o k).1.
Proof.
  intros Hp (Ht & Hd & Hr & Hc). destruct r. unfold clientExchange. cbn in *. destruct (client_Exchange _ _ _ _ _). cbn.
  do 3 (split; [done|]). cbn. by apply Forall_app; split; [|constructor].
Qed.

Lemma clientLookup_clean (r : Router) t d o k :
  permitted allowFakeIP (CallLookup t o) -> clean r -> clean (clientLookup r t d o k).1.
Proof.
  intros Hp (Ht & Hd & Hr & Hc). destruct r. unfold clientLookup. cbn in *. destruct (client_Lookup _ _ _ _ _). cbn.
  do 3 (split; [done|]). cbn. by apply Forall_app; split; [|constructor].
Qed.

Lemma withDefaultStrategy_cache (r : Router) o : DisableCache (withDefaultStrategy r o) = DisableCache o.
Proof. unfold withDefaultStrategy. by destruct (_ =? _), o. Qed.

Lemma permitted_real c : (forall t, call_transport c = Some t -> isFakeIP t = false) -> permitted allowFakeIP c.
Proof. intros Hr t Ht Hf. by rewrite (Hr t Ht) in Hf. Qed.

Lemma finalExchange_clean (r : Router) t m o :
  permitted allowFakeIP (CallExchange t o) -> clean r -> clean (finalExchange r t m o).1.
Proof.
  intros Hp Hc. unfold finalExchange.
  pose proof (clientExchange_clean r t m (withDefaultStrategy r o) None) as Hx.
  destruct (clientExchange _ _ _ _ _) as [r' reply]. cbn in *. apply Hx; [|done].
  intros t' Ht Hf. cbn. rewrite withDefaultStrategy_cache. exact (Hp t' Ht Hf).
Qed.

Lemma exchangeFrom_clean b rules : b = allowFakeIP -> Forall evaluatesReal rules -> forall i (r : Router) md m o er et,
  clean r -> clean (exchangeFrom svc store i rules r md m o b er et).1.
Proof.
  intros ->. induction 1 as [|rule rules Hr _ IH]; intros i r md m o er et Hc; cbn [exchangeFrom].
  { apply finalExchange_clean; [|done]. apply permitted_real. intros t [= <-]%(eq_trans (eq_sym (proj1 (proj2 Hc)))). done. }
  destruct (DNSRule_Match _ _ _ _) as [matched md']. destruct matched; cbn [negb]; [|by apply IH].
  destruct (Rule_Action rule) as [[]|] eqn:Ha; try (by apply IH); try done.
  - case_bool; [done|]. by case_bool; [|apply IH].
  - unfold resolveDNSRoute. destruct (dr_transport r Server) as [t|]; [|by apply IH].
    destruct (isFakeIP t && negb allowFakeIP) eqn:E; [by apply IH|]. apply finalExchange_clean; [|done].
    intros t' [= <-] Hf. rewrite Hf in *. cbn in E. apply negb_false_iff in E. split; [done|]. by destruct o.
  - destruct (dr_transport r Server) as [t|] eqn:Ht; [|by apply IH].
    match goal with |- context [clientExchange ?r ?t ?m ?o ?k] => pose proof (clientExchange_clean r t m o k) as Hx;
      destruct (clientExchange r t m o k) as [r' reply] end. cbn in Hx.
    assert (clean r') as Hc'.
    { apply Hx; [|done]. apply permitted_real. intros t' [= <-]. eapply Hr; [done|]. by rewrite <- (proj1 Hc). }
    destruct reply as [[response [err|]]| |]; try done; [case_bool; [by apply IH|done]|by apply IH].
Qed.

Lemma matchDNS_permitted rules : forall aq i (r : Router) md o,
  dr_Default r = Some defaultTransport ->
  let m := matchDNSFrom svc store r allowFakeIP aq i rules md o in
  forall t, dm_transport m = Some t -> isFakeIP t = true -> allowFakeIP = true /\ DisableCache (dm_options m) = true.
Proof.
  induction rules as [|rule rules IH]; intros aq i r md o Hd; cbn [matchDNSFrom].
  { cbn. intros t Ht Hf. rewrite Hd in Ht. injection Ht as <-. congruence. }
  destruct (_ && _); [by apply IH|]. destruct (LegacyPreMatch _ _ _ _) as [matched md'].
  destruct matched; cbn [negb]; [|by apply IH].
  destruct (Rule_Action rule) as [[]|]; try (by apply IH); try done.
  destruct (dr_transport r Server) as [t|]; [|by apply IH].
  destruct (isFakeIP t && negb allowFakeIP) eqn:E; [by apply IH|]. cbn. intros t' [= <-] Hf. rewrite Hf in E.
  cbn in E. apply negb_false_iff in E. split; [done|]. destruct o. cbn. by rewrite Hf.
Qed.

Lemma matchDNS_call (r : Router) b ri aq md o c :
  b = allowFakeIP -> clean r -> call_transport c = dm_transport (matchDNS svc store r b ri aq md o) ->
  call_options c = withDefaultStrategy r (dm_options (matchDNS svc store r b ri aq md o)) -> permitted allowFakeIP c.
Proof.
  intros -> (_ & Hd & _) Ht Ho t. rewrite Ht, Ho, withDefaultStrategy_cache. by apply matchDNS_permitted.
Qed.

Lemma exchangeLegacy_clean fuel : allowFakeIP = true -> forall (r : Router) md m o ri,
  clean r -> clean (exchangeLegacy svc store fuel r md m o ri).1.
Proof.
  intros Hallow. induction fuel as [|fuel IH]; intros r md m o ri Hc; [done|]. cbn [exchangeLegacy].
  set (mt := matchDNS _ _ _ _ _ _ _ _).
  match goal with |- context [clientExchange ?r ?t ?m ?o ?k] => pose proof (clientExchange_clean r t m o k) as Hx;
    destruct (clientExchange r t m o k) as [r' reply] end. cbn in Hx.
  assert (clean r') as Hc'. { apply Hx; [|done]. by eapply matchDNS_call. }
  clear Hx. clearbody mt.
  destruct (dm_rule mt) as [[i rule]|]; [destruct (Rule_Action rule) as [[]|]|]; try done;
    repeat case_match; subst; try done; by apply IH.
Qed.

Lemma rejectError_clean (r : Router) now i method noDrop : clean r -> clean (rejectError r now i method noDrop).1.
Proof. unfold rejectError. destruct (Reject_Error _ _ _ _), r. done. Qed.

Lemma lookupLegacy_clean fuel : allowFakeIP = false -> forall (r : Router) now md d o ri,
  clean r -> clean (lookupLegacy svc store fuel r now md d o ri).1.
Proof.
  intros Hallow. induction fuel as [|fuel IH]; intros r now md d o ri Hc; [done|]. cbn [lookupLegacy].
  set (mt := matchDNS _ _ _ _ _ _ _ _).
  match goal with |- context [clientLookup ?r ?t ?m ?o ?k] => pose proof (clientLookup_clean r t m o k) as Hx;
    destruct (clientLookup r t m o k) as [r' reply] end. cbn in Hx.
  assert (clean r') as Hc'. { apply Hx; [|done]. by eapply matchDNS_call. }
  clear Hx. clearbody mt.
  destruct (dm_rule mt) as [[i rule]|]; [destruct (Rule_Action rule) as [[]|]|]; try done;
    repeat case_match; subst; try done; try (by apply IH).
  all: match goal with E : rejectError ?r ?n ?i ?m ?d = _ |- _ => pose proof (rejectError_clean r n i m d Hc) as Hr; by rewrite E in Hr end.
Qed.

Lemma exchangeWithRules_clean (r : Router) b md m o :
  b = allowFakeIP -> clean r -> clean (exchangeWithRules svc store r md m o b).1.
Proof. intros Hb Hc. apply exchangeFrom_clean; [done|apply Hc|done]. Qed.

Lemma lookupWithRulesType_clean (r : Router) now md d q o :
  allowFakeIP = false -> clean r -> clean (lookupWithRulesType svc store r now md d q o).1.
Proof.
  intros Hallow Hc. unfold lookupWithRulesType.
  match goal with |- context [exchangeWithRules ?a ?b ?c ?d ?e ?f ?g] =>
    pose proof (exchangeWithRules_clean c g d e f (eq_sym Hallow) Hc) as Hx; destruct (exchangeWithRules a b c d e f g) as [r' reply] end.
  cbn in Hx. repeat case_match; subst; try done.
  all: match goal with E : rejectError ?r ?n ?i ?m ?d = _ |- _ => pose proof (rejectError_clean r n i m d Hx) as Hr; by rewrite E in Hr end.
Qed.

Lemma lookupWithRules_clean (r : Router) now sf md d o :
  allowFakeIP = false -> clean r -> clean (lookupWithRules svc store r now sf md d o).1.
Proof.
  intros Hallow Hc. unfold lookupWithRules. cbv zeta.
  repeat case_bool; try by apply lookupWithRulesType_clean.
  all: match goal with |- context [lookupWithRulesType ?a ?b ?c ?d ?e ?f ?g ?h] =>
    pose proof (lookupWithRulesType_clean c d e f g h Hallow Hc) as Hx; destruct (lookupWithRulesType a b c d e f g h) as [r1 p1] end.
  all: cbn in Hx; match goal with |- context [lookupWithRulesType ?a ?b ?c ?d ?e ?f ?g ?h] =>
    pose proof (lookupWithRulesType_clean c d e f g h Hallow Hx) as Hy; destruct (lookupWithRulesType a b c d e f g h) as [r2 p2] end.
  all: done.
Qed.

Lemma exchangeDone_clean (r : Router) now response t err : clean r -> clean (exchangeDone r now response t err).1.
Proof. by destruct err, r. Qed.
End calls.

(** C18: Fake-IP servers are kept apart: a query may be sent to one only with the
    cache turned off, and a lookup of the program itself never is, whatever the
    answers, if the default server is not a fake-IP server, as the transport
    manager enforces, no evaluate rule names one, as the validation of the rules
    enforces, and the caller names no server in the options. *)
Theorem fakeip_isolated `{Libs} `{DNSLibs} {S : Type} `{DNSClient S} {RM : Type} `{ReverseMapping RM}
    (svc : Services) (store : ruleSetStore) (r : @DNSRouter _ (S * list Call) RM) (default : DNSTransport)
    (now : Z) (sixFirst : bool) (md : InboundContext) (message : Msg) (domain : string) (options : DNSQueryOptions) :
  dr_Default r = Some default -> isFakeIP default = false -> Forall (evaluatesReal (dr_transport r)) (dr_rules r) ->
  (dr_client r).2 = [] -> Transport options = None ->
  (forall c t, c ∈ (dr_client (Router_Exchange svc store r now md message options).1).2 ->
     call_transport c = Some t -> isFakeIP t = true -> DisableCache (call_options c) = true) /\
  (forall c t, c ∈ (dr_client (Router_Lookup svc store r now sixFirst md domain options).1).2 ->
     call_transport c = Some t -> isFakeIP t = false).
Proof.
  intros Hd Hreal He Hcalls Ho.
  assert (forall b, clean (dr_transport r) default b r) as Hc.
  { intros b. do 3 (split; [done|]). rewrite Hcalls. constructor. }
  split.
  - assert (clean (dr_transport r) default true (Router_Exchange svc store r now md message options).1) as (_ & _ & _ & Hx).
    { unfold Router_Exchange. destruct (msg_Question message) as [|q [|]]; try apply Hc. destruct (dr_closing r); [apply Hc|].
      rewrite Ho. destruct (negb (dr_legacyDNSMode r)).
      - match goal with |- context [exchangeWithRules ?a ?b ?c ?d ?e ?f ?g] =>
          pose proof (exchangeWithRules_clean a b _ _ _ Hreal c g d e f eq_refl (Hc _)) as Hx;
          destruct (exchangeWithRules a b c d e f g) as [r' [| |]] end; try done. by apply exchangeDone_clean.
      - match goal with |- context [exchangeLegacy ?a ?b ?f ?c ?d ?e ?g ?h] =>
          pose proof (exchangeLegacy_clean a b _ _ _ Hreal f eq_refl c d e g h (Hc _)) as Hx;
          destruct (exchangeLegacy a b f c d e g h) as [r' [[|[[]]]| |]] end; try done. by apply exchangeDone_clean. }
    rewrite Forall_forall in Hx. intros c t Hin%list_elem_of_In Ht Hf. by apply (Hx c Hin t).
  - assert (clean (dr_transport r) default false (Router_Lookup svc store r now sixFirst md domain options).1) as (_ & _ & _ & Hx).
    { unfold Router_Lookup. destruct (dr_closing r); [apply Hc|]. rewrite Ho. destruct (negb (dr_legacyDNSMode r)).
      - by apply lookupWithRules_clean.
      - match goal with |- context [lookupLegacy ?a ?b ?f ?c ?d ?e ?g ?h ?i] =>
          pose proof (lookupLegacy_clean a b _ _ _ Hreal f eq_refl c d e g h i (Hc _)) as Hx;
          destruct (lookupLegacy a b f c d e g h i) as [r' [[|]| |]] end; done. }
    rewrite Forall_forall in Hx. intros c t Hin%list_elem_of_In Ht. destruct (isFakeIP t) eqn:Hf; [|done]. by destruct (Hx c Hin t Ht Hf).
Qed.

(** * Every call returns *)

(** What the router relies on: with a transport the client returns, with a
    response or an error. *)
Class ReturningClient (S : Type) `{DNSClient S} := {
  exchange_returns c t m o k : exists c' response err,
    client_Exchange c (Some t) m o k = (c', Returns (response, err)) /\ (err = None -> response <> None);
  lookup_returns c t d o k : exists c' v, client_Lookup c (Some t) d o k = (c', Returns v)
}.

Section returns.
Context `{Libs} `{DNSLibs} {S : Type} `{ReturningClient S} {RM : Type} `{ReverseMapping RM}.
Variables (svc : Services) (store : ruleSetStore).

(** The methods of reject actions a DNS rule can have. *)
Definition answerable (rule : Rule) : Prop :=
  forall method noDrop, Rule_Action rule = Some (ActReject method noDrop) ->
    method = RuleActionRejectMethodDefault \/ method = RuleActionRejectMethodDrop.

(** Options as their decoder leaves them. *)
Definition decoded (r : DNSRuleOptions) : Prop := exists o, DNSRuleAction_UnmarshalJSONContext o = Ok (actionOf r).

Lemma built_answerable legacy raw rule :
  decoded raw -> NewDNSRule legacy true raw = Ok rule -> answerable rule.
Proof.
  intros [o Ho] (Ha & Hc & _)%built_action method noDrop Hr. rewrite Hr in Ha. clear Hr.
  unfold checkDNSAction, validateDNSRuleAction in Hc. set (a := actionOf raw) in *. clearbody a.
  assert (dopt_Action a = RuleActionTypeReject /\ opt_Method (dopt_RejectOptions a) = method) as [Ht Hm].
  { unfold NewDNSRuleAction in Ha.
    repeat match type of Ha with (if String.eqb _ ?x then _ else _) = _ => destruct (String.eqb_spec (dopt_Action a) x) end; by simplify_eq. }
  rewrite Ht, Hm in Hc. cbn [negb andb] in Hc. apply bind_Ok in Hc as (u & Hc & _).
  destruct (String.eqb_spec method RuleActionRejectMethodReply) as [|Hn]; [done|].
  destruct o as [t ro roo rej pre]. unfold DNSRuleAction_UnmarshalJSONContext in Ho. cbn -[String.eqb] in Ho.
  clear Ha. subst method. revert Ho. repeat case_bool; intros Ho; inv_ok; cbn in *; try done; try (by subst t);
    unfold constant in *; match goal with H : RejectOptions_UnmarshalJSON _ = Ok _ |- _ => apply RejectOptions_UnmarshalJSON_method in H end;
    set_solver.
Qed.

Abbreviation Router := (@DNSRouter _ S RM).

Definition kept (r r' : Router) : Prop := dr_Default r' = dr_Default r /\ dr_rules r' = dr_rules r.

(** A result [lookupWithRulesType] can use. *)
Definition complete (e : exchangeWithRulesResult) : Prop :=
  (er_rejectAction e = None -> er_err e = None -> er_response e <> None) /\
  (forall i method noDrop, er_rejectAction e = Some (i, method, noDrop) ->
     method = RuleActionRejectMethodDefault \/ method = RuleActionRejectMethodDrop).

Lemma clientExchange_returns (r : Router) t m o k : exists r' response err,
  clientExchange r (Some t) m o k = (r', Returns (response, err)) /\ kept r r' /\ (err = None -> response <> None).
Proof.
  unfold clientExchange. destruct (exchange_returns (dr_client r) t m o k) as (c & response & err & -> & Hn).
  eexists _, response, err. split; [done|]. by destruct r.
Qed.

Lemma finalExchange_returns (r : Router) t m o : exists r' e,
  finalExchange r (Some t) m o = (r', Returns e) /\ kept r r' /\ complete e.
Proof.
  unfold finalExchange. destruct (clientExchange_returns r t m (withDefaultStrategy r o) None) as (r' & response & err & -> & Hk & Hn).
  eexists r', _. split; [done|]. split; [done|]. split; cbn; [auto|done].
Qed.

Lemma exchangeFrom_returns m q rules : msg_Question m = [q] -> Forall answerable rules ->
  forall i (r : Router) d md o b er et, dr_Default r = Some d ->
  exists r' e, exchangeFrom svc store i rules r md m o b er et = (r', Returns e) /\ kept r r' /\ complete e.
Proof.
  intros Hq. induction 1 as [|rule rules Hr _ IH]; intros i r d md o b er et Hd; cbn [exchangeFrom].
  { rewrite Hd. destruct (finalExchange_returns r d m o) as (r' & e & He & Hk & Hc). eauto. }
  destruct (DNSRule_Match _ _ _ _) as [matched md']. destruct matched; cbn [negb]; [|by eapply IH].
  destruct (Rule_Action rule) as [[]|] eqn:Ha; try (by eapply IH).
  - unfold refused. rewrite Hq. destruct (String.eqb_spec Method RuleActionRejectMethodDefault); [|destruct (String.eqb_spec Method RuleActionRejectMethodDrop); [|by eapply IH]];
      eexists r, _; (split; [done|]); (split; [done|]); split; cbn; try done; intros; simplify_eq; auto.
  - unfold resolveDNSRoute. destruct (dr_transport r Server) as [t|]; [|by eapply IH].
    case_bool; [by eapply IH|]. apply finalExchange_returns.
  - destruct (dr_transport r Server) as [t|]; [|by eapply IH].
    destruct (clientExchange_returns r t m (withDefaultStrategy r (applyDNSRouteOptions o options)) None)
      as (r1 & response & err & -> & [Hk1 Hk2] & _).
    rewrite Hq. cbn [nonempty]. destruct err;
      (edestruct (IH (Datatypes.S i) r1 d) as (r' & e & He & [Hk1' Hk2'] & Hc); [congruence|]);
      (eexists r', e; split; [exact He|]); (split; [split; congruence|done]).
  - eexists r, _. split; [done|]. split; [done|]. by destruct er.
  - unfold Predefined_Response. rewrite Hq. eexists r, _. split; [done|]. split; [done|]. by split.
Qed.

Lemma rejectError_returns (r : Router) now i method noDrop :
  method = RuleActionRejectMethodDefault \/ method = RuleActionRejectMethodDrop ->
  exists r' e, rejectError r now i method noDrop = (r', Returns e) /\ kept r r'.
Proof.
  intros Hm. unfold rejectError, Reject_Error. destruct Hm as [->| ->]; cbn; repeat case_bool; eexists _, _; (split; [done|]); by destruct r.
Qed.

Lemma lookupWithRulesType_returns (r : Router) d now md domain q o :
  Forall answerable (dr_rules r) -> dr_Default r = Some d ->
  exists r' v, lookupWithRulesType svc store r now md domain q o = (r', Returns v) /\ kept r r'.
Proof.
  intros Hr Hd. unfold lookupWithRulesType, exchangeWithRules.
  edestruct exchangeFrom_returns as (r1 & e & -> & [Hk1 Hk2] & Hc & Hm); [reflexivity|exact Hr|exact Hd|].
  destruct (er_rejectAction e) as [[[i method] noDrop]|].
  - edestruct (rejectError_returns r1 now i method noDrop) as (r2 & err & -> & [Hk1' Hk2']); [by destruct (Hm _ _ _ eq_refl); auto|].
    eexists _, _. split; [done|]. split; congruence.
  - destruct (er_err e); [by eexists _, _|]. destruct (er_response e); [by eexists _, _|]. by destruct Hc.
Qed.

Lemma lookupWithRules_returns (r : Router) d now sf md domain o :
  Forall answerable (dr_rules r) -> dr_Default r = Some d ->
  exists r' v, lookupWithRules svc store r now sf md domain o = (r', Returns v) /\ kept r r'.
Proof.
  intros Hr Hd. unfold lookupWithRules. cbv zeta. generalize (if resolveLookupStrategy r o =? DomainStrategyAsIS then o else o {{ Strategy := resolveLookupStrategy r o }}) as lo. intros lo.
  case_bool; [by eapply lookupWithRulesType_returns|]. case_bool; [by eapply lookupWithRulesType_returns|].
  assert (forall q1 q2, exists r1 v1 r2 v2, lookupWithRulesType svc store r now md domain q1 lo = (r1, Returns v1) /\
    lookupWithRulesType svc store r1 now md domain q2 lo = (r2, Returns v2) /\ kept r r2) as Htwo.
  { intros q1 q2. destruct (lookupWithRulesType_returns r d now md domain q1 lo Hr Hd) as (r1 & v1 & Hl1 & [Hk1 Hk2]).
    destruct (lookupWithRulesType_returns r1 d now md domain q2 lo) as (r2 & v2 & Hl2 & [Hk1' Hk2']); [congruence..|].
    exists r1, v1, r2, v2. split; [done|]. split; [done|]. split; congruence. }
  destruct sf.
  - destruct (Htwo TypeAAAA TypeA) as (r1 & [a1 e1] & r2 & [a2 e2] & -> & -> & Hk). by eexists _, _.
  - destruct (Htwo TypeA TypeAAAA) as (r1 & [a1 e1] & r2 & [a2 e2] & -> & -> & Hk). by eexists _, _.
Qed.

(** * The legacy loops *)

(** What [matchDNS] finds: nothing and the default server; or a rule further
    down, with the server it names or, to reject or answer, none. *)
Definition found (r : Router) (i : nat) (rules : list Rule) (m : dnsMatch) : Prop :=
  match dm_rule m with
  | None => dm_transport m = dr_Default r
  | Some (j, rule) =>
      (i <= j < i + length rules)%nat /\ rule ∈ rules /\
      match Rule_Action rule with
      | Some (ActDNSRoute _ _) => dm_transport m <> None
      | Some (ActReject _ _) | Some (ActPredefined _) => True
      | _ => False
      end
  end.

Lemma matchDNSFrom_found (r : Router) b aq rules : forall i md o,
  found r i rules (matchDNSFrom svc store r b aq i rules md o).
Proof.
  induction rules as [|rule rules IH]; intros i md o; cbn [matchDNSFrom]; [done|].
  assert (forall md o, found r i (rule :: rules) (matchDNSFrom svc store r b aq (Datatypes.S i) rules md o)) as Hnext.
  { intros md' o'. specialize (IH (Datatypes.S i) md' o'). unfold found in *. destruct (dm_rule _) as [[j rule']|]; [|done].
    destruct IH as (Hj & Hin & Ha). split; [cbn; lia|]. split; [by right|done]. }
  case_bool; [done|]. destruct (LegacyPreMatch _ _ _ _) as [[] md']; cbn [negb]; [|done].
  destruct (Rule_Action rule) as [[]|] eqn:Ha; try done; try (destruct (dr_transport r Server); [case_bool; [done|]|done]);
    unfold found; cbn; rewrite Ha; (split; [lia|]); (split; [left|done]).
Qed.

Lemma matchDNS_found (r : Router) b aq ri md o :
  let start := match ri with None => 0%nat | Some i => Datatypes.S i end in
  found r start (drop start (dr_rules r)) (matchDNS svc store r b ri aq md o).
Proof. apply matchDNSFrom_found. Qed.

Definition startIndex (ri : option nat) : nat := match ri with None => 0%nat | Some i => Datatypes.S i end.

Lemma startIndex_next (r : Router) ri j n :
  (startIndex ri <= j < startIndex ri + length (drop (startIndex ri) (dr_rules r)))%nat ->
  (length (dr_rules r) < startIndex ri + Datatypes.S n)%nat ->
  (startIndex (Some j) <= length (dr_rules r) < startIndex (Some j) + n)%nat.
Proof. rewrite length_drop. cbn. lia. Qed.

Lemma answerable_found (r : Router) i rule :
  Forall answerable (dr_rules r) -> rule ∈ drop i (dr_rules r) -> answerable rule.
Proof.
  intros Hr Hin. rewrite <- (take_drop i (dr_rules r)), Forall_app in Hr. destruct Hr as [_ Hr].
  rewrite List.Forall_forall in Hr. by apply Hr, list_elem_of_In.
Qed.

Lemma exchangeLegacy_returns m q d : msg_Question m = [q] -> forall fuel (r : Router) md o ri,
  Forall answerable (dr_rules r) -> dr_Default r = Some d -> (startIndex ri <= length (dr_rules r) < startIndex ri + fuel)%nat ->
  exists r' v, exchangeLegacy svc store fuel r md m o ri = (r', Returns v).
Proof.
  intros Hq. induction fuel as [|fuel IH]; intros r md o ri Hr Hd Hlen.
  { lia. }
  cbn [exchangeLegacy]. pose proof (matchDNS_found r true (isAddressQuery m) ri md o) as Hf. cbv zeta in Hf. fold (startIndex ri) in Hf.
  set (mt := matchDNS _ _ _ _ _ _ _ _) in *. clearbody mt. unfold found in Hf.
  destruct (dm_rule mt) as [[j rule]|].
  - destruct Hf as (Hj & Hin & Ha). pose proof (answerable_found _ _ _ Hr Hin) as Hans.
    destruct (Rule_Action rule) as [[]|] eqn:Hact; try done.
    + unfold refused. rewrite Hq. destruct (Hans _ _ Hact) as [->| ->]; by eexists _, _.
    + destruct (dm_transport mt) as [t|]; [|done].
      destruct (clientExchange_returns r t m (withDefaultStrategy r (dm_options mt)) (addressLimitResponseCheck svc store (Some (j, rule)) (dm_metadata mt)))
        as (r1 & response & err & -> & [Hk1 Hk2] & _).
      case_bool; [|by eexists _, _]. apply IH; [congruence..|]. rewrite Hk2. eapply startIndex_next; [done|lia].
    + unfold Predefined_Response. rewrite Hq. by eexists _, _.
  - rewrite Hf, Hd. cbn [addressLimitResponseCheck].
    destruct (clientExchange_returns r d m (withDefaultStrategy r (dm_options mt)) None) as (r1 & response & err & -> & _). by eexists _, _.
Qed.

Lemma lookupLegacy_returns d now domain : forall fuel (r : Router) md o ri,
  Forall answerable (dr_rules r) -> dr_Default r = Some d -> (startIndex ri <= length (dr_rules r) < startIndex ri + fuel)%nat ->
  exists r' v, lookupLegacy svc store fuel r now md domain o ri = (r', Returns v).
Proof.
  induction fuel as [|fuel IH]; intros r md o ri Hr Hd Hlen.
  { lia. }
  cbn [lookupLegacy]. pose proof (matchDNS_found r false true ri md o) as Hf. cbv zeta in Hf. fold (startIndex ri) in Hf.
  set (mt := matchDNS _ _ _ _ _ _ _ _) in *. clearbody mt. unfold found in Hf.
  destruct (dm_rule mt) as [[j rule]|].
  - destruct Hf as (Hj & Hin & Ha). pose proof (answerable_found _ _ _ Hr Hin) as Hans.
    destruct (Rule_Action rule) as [[]|] eqn:Hact; try done.
    + edestruct (rejectError_returns r now j Method NoDrop) as (r2 & err & -> & _); [destruct (Hans _ _ Hact) as [->| ->]; auto|].
      by eexists _, _.
    + destruct (dm_transport mt) as [t|]; [|done]. unfold clientLookup.
      destruct (lookup_returns (dr_client r) t domain (withDefaultStrategy r (dm_options mt)) (addressLimitResponseCheck svc store (Some (j, rule)) (dm_metadata mt)))
        as (c & [a e] & ->).
      case_bool; [by eexists _, _|]. apply IH; [by destruct r..|]. assert (dr_rules (r {{ dr_client := c }}) = dr_rules r) as -> by by destruct r.
      eapply startIndex_next; [done|lia].
    + by eexists _, _.
  - rewrite Hf, Hd. cbn [addressLimitResponseCheck]. unfold clientLookup.
    destruct (lookup_returns (dr_client r) d domain (withDefaultStrategy r (dm_options mt)) None) as (c & [a e] & ->). by eexists _, _.
Qed.

(** C19: Every query and every lookup ends with a response or an error, never with
    a panic and never stuck in the retries of the legacy address filter, when
    the rules were built from decoded options: the client only has to return,
    and a default server has to exist. *)
Theorem dns_router_returns router tm raw flags (r : Router) (default : DNSTransport) now sixFirst md message domain options :
  Forall decoded raw -> buildRules router tm raw = Ok (dr_rules r, dr_legacyDNSMode r, flags) -> dr_Default r = Some default ->
  (exists reply, (Router_Exchange svc store r now md message options).2 = Returns reply) /\
  (exists reply, (Router_Lookup svc store r now sixFirst md domain options).2 = Returns reply).
Proof.
  intros Hraw Hb Hd.
  assert (Forall answerable (dr_rules r)) as Hr.
  { unfold buildRules in Hb. apply bind_Ok in Hb as (nested & _ & ([legacy fl] & _ & Hb)%bind_Ok).
    apply bind_Ok in Hb as (u & _ & (u' & _ & (newRules & Hnew & Heq)%bind_Ok)%bind_Ok). injection Heq as <- _ _.
    eapply mapR_from_Forall; [|exact Hnew]. intros j x y Hx Hy%cause_Ok. rewrite List.Forall_forall in Hraw.
    eapply built_answerable; [|exact Hy]. by apply Hraw, list_elem_of_In. }
  assert (forall (r : Router) response t err, exists reply, (exchangeDone r now response t err).2 = Returns reply) as Hdone
    by (intros ??? [err|]; by eexists). split.
  - unfold Router_Exchange. destruct (msg_Question message) as [|q [|]] eqn:Hq; try by eexists. case_bool; [by eexists|].
    destruct (Transport options) as [t|].
    { destruct (clientExchange_returns r t message (withDefaultStrategy r options) None) as (r1 & response & err & -> & _). apply Hdone. }
    case_bool.
    + unfold exchangeWithRules. edestruct exchangeFrom_returns as (r1 & e & -> & _); [done..|]. apply Hdone.
    + edestruct exchangeLegacy_returns as (r1 & [|[[]]] & ->); [done..|cbn; lia| |]; [by eexists|apply Hdone].
  - unfold Router_Lookup. case_bool; [by eexists|]. destruct (Transport options) as [t|].
    { unfold clientLookup. destruct (lookup_returns (dr_client r) t domain (withDefaultStrategy r options) None) as (c & v & ->). by eexists. }
    case_bool.
    + edestruct lookupWithRules_returns as (r1 & v & -> & _); [done..|]. by eexists.
    + edestruct lookupLegacy_returns as (r1 & [|] & ->); [done..|cbn; lia| |]; by eexists.
Qed.
End returns.
