(* ===== verification/DNSRouterDemo.v ===== *)
(** The DNS router over the modelled client, on concrete rules. *)
From S2P Require Import Prelude MatchState Netip Metadata RuleItem RuleAction Options Demo RuleAbstract RuleBuild RuleDNS NestedActions Bytes SrsDemo.
From S2P Require Import DNSClient CacheFileDNS DNSDemo DNSMode DNSModeSpec DNSRouter DNSRouterSpec.

#[local] Existing Instance srsDemoLibs.

(** * The client of [dns/client.go] *)

Section live.
Context {MC} `{MemoryCache MC} {DC} `{DNSCacheStore DC} {RC} `{RDRCStore RC} `{DNSLibs} `{Libs}.

(** The client with the time of the call, the transport the call comes from, and
    what the servers answer. *)
Record Live := mkLive {
  live_client : @Client MC DC RC;
  live_now : Z;
  live_context : option string;
  live_answers : string -> Msg -> result Msg
}.

Definition ofResult {A} (r : result A) (failed : GoError -> A) : outcome A :=
  match r with Ok a => Returns a | Err e => Returns (failed e) | Panic s => Panics s end.

(** A nil transport matters once the client needs its tag. *)
#[global] Instance Live_client : DNSClient Live := {|
  client_Exchange l transport message options checker :=
    match transport, msg_Question message with
    | Some t, _ =>
        let (c, reply) := Exchange (live_client l) (live_now l) (live_now l) (t_Tag t) (live_context l) message options checker
                            (live_answers l (t_Tag t)) in
        (l {{ live_client := c }}, ofResult reply (fun e => (None, Some e)))
    | None, [] => (l, Returns (Some (FixedResponseStatus message RcodeFormatError), None))
    | None, question :: _ =>
        (l, if strategyRejects question options then Returns (Some (FixedResponseStatus message RcodeSuccess), None)
            else Panics nilDereference)
    end;
  client_Lookup l transport domain options checker :=
    match transport with
    | Some t =>
        let (c, reply) := Lookup (live_client l) (live_now l) (live_now l) false (t_Tag t) (live_context l) domain options checker
                            (live_answers l (t_Tag t)) in
        (l {{ live_client := c }}, ofResult reply (fun e => ([], Some e)))
    | None => (l, Panics nilDereference)
    end;
  client_ClearCache l := l {{ live_client := ClearCache (live_client l) }}
|}.
End live.

#[global] Instance demoReverse : ReverseMapping (list (Addr * string)) := {|
  reverse_AddWithLifetime t _ a domain _ := (a, domain) :: t;
  reverse_Get t _ a := (t, snd <$> List.find (fun e => bool_decide (e.1 = a)) t);
  reverse_Purge _ := []
|}.

(** * Rules *)

Definition upTransport : DNSTransport := mkDNSTransport "up" "udp".
Definition fakeTransport : DNSTransport := mkDNSTransport "fake" DNSTypeFakeIP.
Definition demoTransports (tag : string) : option DNSTransport :=
  if String.eqb tag "up" then Some upTransport else if String.eqb tag "fake" then Some fakeTransport else None.

Definition routeTo (action server : string) : DNSRuleActionOptions :=
  dnsRuleActionZero {{ dopt_Action := action; dopt_RouteOptions := mkDNSRouteActionOptions server dnsRouteOptionsZero }}.

Definition dnsRuleOf (o : RawDefaultDNSRule) (a : DNSRuleActionOptions) : DNSRuleOptions :=
  mkDNSRuleOptions "" o a "" [] false dnsRuleActionZero.

(** Ask "up" first; when it has no answer, ask the fake-IP server; else respond. *)
Definition demoRaw : list DNSRuleOptions :=
  [ dnsRuleOf (rawDefaultDNSRuleZero {{ d_QueryType := Some [TypeA] }}) (routeTo RuleActionTypeEvaluate "up");
    dnsRuleOf (rawDefaultDNSRuleZero {{ d_MatchResponse := true; d_ResponseRcode := Some RcodeNameError }}) (routeTo RuleActionTypeRoute "fake");
    dnsRuleOf (rawDefaultDNSRuleZero {{ d_MatchResponse := true; d_ResponseRcode := Some RcodeSuccess }})
      (dnsRuleActionZero {{ dopt_Action := RuleActionTypeRespond }}) ].

Definition Built : Type := result (list Rule * bool * dnsRuleModeFlags).
Definition rulesOf (b : Built) : list Rule := match b with Ok (rules, _, _) => rules | _ => [] end.
Definition flagsOf (b : Built) : dnsRuleModeFlags := match b with Ok (_, _, flags) => flags | _ => flagsZero end.
Definition modeIs (legacy : bool) (b : Built) : bool := match b with Ok (_, l, _) => Bool.eqb l legacy | _ => false end.

Lemma built_parts legacy b : modeIs legacy b = true -> b = Ok (rulesOf b, legacy, flagsOf b).
Proof. destruct b as [[[rules l] flags]| |]; [|done..]. cbn. by intros ->%eqb_prop. Qed.

Definition demoBuilt : Built := buildRules None (Some demoTransports) demoRaw.
Definition demoRules : list Rule := rulesOf demoBuilt.

Lemma non_legacy_rules_witness :
  length demoRules = 3%nat /\
  (forall r a, r ∈ demoRules -> Rule_Action r = Some a -> actionStrategy a = DomainStrategyAsIS) /\
  (exists j rule', (j < 2)%nat /\ demoRaw !! j = Some rule' /\ dnsRuleActionType rule' = RuleActionTypeEvaluate).
Proof.
  destruct (non_legacy_rules None demoTransports demoRaw demoRules (flagsOf demoBuilt)) as [Ha Hn];
    [apply built_parts; vm_compute; reflexivity|].
  split; [vm_compute; reflexivity|]. split; [intros r a Hr Hact; exact (proj1 (Ha r a Hr Hact))|].
  exact (Hn 2%nat _ eq_refl ltac:(vm_compute; reflexivity)).
Defined.

(** * Queries *)

Abbreviation LiveClient := (@Live MapCache (CacheFile Records) unit).

(** "up" knows no name; the fake-IP server knows all. *)
Definition demoLive : LiveClient :=
  mkLive (Start (NewClient false false 0 0 prefixZero false) None None) 0 None
    (fun tag m => if String.eqb tag "up" then Ok (FixedResponseStatus m RcodeNameError) else Ok demoResponse).

Definition demoRouter : DNSRouter (S := LiveClient * list Call) (RM := list (Addr * string)) :=
  mkDNSRouter demoTransports (Some upTransport) (demoLive, []) demoRules 0 (Some []) false false (fun _ => []).

Definition demoExchanged := Router_Exchange demoServices ∅ demoRouter 0 inboundContextZero (demoQuery 5 demoQuestion) demoOptions.

Lemma fakeip_isolated_witness :
  map (fun c => (t_Tag <$> call_transport c, DisableCache (call_options c))) (dr_client demoExchanged.1).2
    = [(Some "up", false); (Some "fake", true)] /\
  demoExchanged.2 = Returns (Some (demoResponse {{ msg_Id := 5 }}), None) /\
  forall c t, c ∈ (dr_client demoExchanged.1).2 -> call_transport c = Some t -> isFakeIP t = true -> DisableCache (call_options c) = true.
Proof.
  split; [vm_compute; reflexivity|]. split; [vm_compute; reflexivity|].
  apply (fakeip_isolated demoServices ∅ demoRouter upTransport 0 false inboundContextZero (demoQuery 5 demoQuestion) "example.org" demoOptions);
    [reflexivity|reflexivity| |reflexivity|reflexivity].
  repeat constructor; intros server o t Ha Ht; vm_compute in Ha; simplify_eq; vm_compute in Ht; by simplify_eq.
Defined.

(** * Totality *)

(** A client that knows one answer. *)
#[local] Instance constantClient : DNSClient unit := {|
  client_Exchange c t _ _ _ := (c, match t with Some _ => Returns (Some demoResponse, None) | None => Panics nilDereference end);
  client_Lookup c t _ _ _ := (c, match t with Some _ => Returns ([demoAddress], None) | None => Panics nilDereference end);
  client_ClearCache c := c
|}.

#[local] Instance constantClient_returns : ReturningClient unit.
Proof.
  constructor; intros c t m o k; [eexists c, (Some demoResponse), None; by split|by eexists c, _].
Qed.

(** Turn off the cache; ask "up" for private addresses; drop the rest. *)
Definition legacyRaw : list DNSRuleOptions :=
  [ dnsRuleOf (rawDefaultDNSRuleZero {{ d_Domain := Some ["example.org"] }})
      (dnsRuleActionZero {{ dopt_Action := RuleActionTypeRouteOptions;
                            dopt_RouteOptionsOptions := dnsRouteOptionsZero {{ dopt_DisableCache := true }} }});
    dnsRuleOf (rawDefaultDNSRuleZero {{ d_IPIsPrivate := true }}) (routeTo RuleActionTypeRoute "up");
    dnsRuleOf (rawDefaultDNSRuleZero {{ d_Network := Some ["tcp"] }})
      (dnsRuleActionZero {{ dopt_Action := RuleActionTypeReject;
                            dopt_RejectOptions := mkRejectActionOptions RuleActionRejectMethodDrop false }}) ].

Definition legacyBuilt : Built := buildRules None (Some demoTransports) legacyRaw.
Definition legacyRules : list Rule := rulesOf legacyBuilt.

Definition legacyRouter {S} (c : S) : DNSRouter (S := S) (RM := list (Addr * string)) :=
  mkDNSRouter demoTransports (Some upTransport) c legacyRules 0 None true false (fun _ => []).

Lemma dns_router_returns_witness :
  length legacyRules = 3%nat /\
  (exists reply, (Router_Exchange demoServices ∅ (legacyRouter tt) 0 inboundContextZero (demoQuery 5 demoQuestion) demoOptions).2
                 = Returns reply) /\
  (exists reply, (Router_Lookup demoServices ∅ (legacyRouter tt) 0 false inboundContextZero "example.org" demoOptions).2
                 = Returns reply).
Proof.
  split; [vm_compute; reflexivity|].
  apply (dns_router_returns demoServices ∅ None (Some demoTransports) legacyRaw (flagsOf legacyBuilt) (legacyRouter tt) upTransport).
  - repeat constructor; match goal with |- decoded ?r => exists (actionOf r); vm_compute; reflexivity end.
  - apply (built_parts true). vm_compute. reflexivity.
  - reflexivity.
Defined.

(** * Limits of the code *)

(** The legacy mode starts each retry from the options of the query: what an
    earlier route-options action set is lost once a response is refused. *)
Lemma legacy_retry_forgets_options :
  let r := (Router_Exchange demoServices ∅ (legacyRouter (demoLive, [])) 0 inboundContextZero (demoQuery 5 demoQuestion) demoOptions).1 in
  map (fun c => (t_Tag <$> call_transport c, DisableCache (call_options c))) (dr_client r).2
  = [(Some "up", true); (Some "up", false)].
Proof. vm_compute. reflexivity. Qed.

(** * An update of a rule-set *)

Definition domainSet : RuleSetMetadata := mkRuleSetMetadata false false false false true.
Definition processSet : RuleSetMetadata := mkRuleSetMetadata true false false false true.
Definition setStore : ruleSetStore := {["ads" := mkRuleSet [] domainSet]}.

Definition setRaw : list DNSRuleOptions :=
  [dnsRuleOf (rawDefaultDNSRuleZero {{ d_RuleSet := Some ["ads"] }}) (routeTo RuleActionTypeRoute "up")].

Definition setBuilt : Built := buildRules (Some setStore) (Some demoTransports) setRaw.
Definition setRules : list Rule := rulesOf setBuilt.

Lemma rule_set_update_keeps_mode_witness :
  length setRules = 1%nat /\
  exists flags', buildRules (Some (<["ads" := mkRuleSet [] processSet]> setStore)) (Some demoTransports) setRaw = Ok (setRules, false, flags').
Proof.
  split; [vm_compute; reflexivity|].
  apply (rule_set_update_keeps_mode setStore (Some demoTransports) setRaw setRules false (flagsOf setBuilt) "ads" processSet []);
    [apply built_parts|]; vm_compute; reflexivity.
Defined.
